(* ===== verification/_CoqProject ===== *)
-Q . S2P
Prelude.v
Md4.v
ErlTerm.v
Erts.v
Md4Drv.v
SlTermios.v
SlDrv.v
LoopDesc.v
LoopMsg.v
LoopHttp.v
LoopBuf.v
LoopDrv.v
LoopDeliver.v
LoopFlow.v
LoopInet.v
LoopPort.v
ZlibDrv.v
Unixdom.v
UnixdomPort.v
UnixdomFlow.v
UnixdomMeet.v
UnixdomCtl.v
Ibrowse.v
TunDrv.v
IconvDrv.v
IntlDrv.v
SpreadDrv.v
FdLib.v
FdSend.v
FdSrv.v
GtkMarshal.v
GtkNode.v
GtkReply.v
GtkNames.v
Proc.v
Psocket.v
EspCat.v
EdtkIov.v
EdtkUnixdom.v
EdtkCommands.v
EdtkPort.v
SpreadPort.v
