(* ===== verification/Prelude.v ===== *)
(** * Jungerl: the C drivers, verified

    Jungerl is a collection of Erlang libraries.  Its program logic in C is a set of _drivers_: each is linked into
    the Erlang emulator, which opens _ports_ of it and calls its entry points - start, output, outputv, control,
    ready_input, ready_output, timeout, stop - one at a time and in any order.  A driver calls the emulator back
    ([driver_output], [driver_send_term], [driver_enq], [driver_select], [set_busy_port]) and calls libraries and
    the operating system.  A second, smaller part are C nodes and port programs, processes of their own.  This development models the
    drivers with logic of their own and proves what makes them correct.  Paths are under [src/jungerl/lib/].

    ** Conventions

    The build is the Unix one; [char] is signed, [int] has 32 bits, two's complement.  A C integer is a [Z] in the range of its
    type and the wrap-around is written out ([wrap], [sint], [Prelude]).  Memory is a list of bytes, a pointer into it the list from
    there on or an offset; NULL is [None].  What lies beyond the end of a block, and what is not initialised, is an argument of
    the definition, or [None], or an event of the trace, as each file says.

    A driver is written in the state monad of [Erts] over a record of its state and of the calls it made.  The emulator, the
    operating system, zlib, iconv, [termios.h] and GLib are not part of the repository: they are type classes, whose operations answer as a
    function of all the calls made so far; the laws some theorems need are documented behaviour and are classes of
    their own ([PortQueueLaws], [OsLaws], [LibraryLaws], ...), each with an instance.  Because the answers are arbitrary
    functions of the trace, a theorem speaks of every behaviour of the environment, errors included.  A C loop
    is structural where its bound is syntactic; else it takes fuel, and a theorem gives fuel that is enough
    ([loop_deliver_terminates], [zlib_returns], [ready_output_returns], [sl_output_drains]).

    ** Files

    - [Prelude]: integers, bytes, the tactics and hint databases ([cint], [clen]), lemmas on lists.
    - [ErlTerm]: the LOAD_* macros, the array of words they fill, and the term such an array denotes ([denotes]).
    - [Erts]: calls of the emulator, the port queue and its laws, the state monad, [ensures] and [walk], which prove a
      relation between the states before and after of a composed operation from those of its parts.
    - [Md4], [Md4Drv]: [esmb/c_src/md4.c] and [md4_drv.c].  MD4Init, MD4Update, MD4Final implement RFC 1320 for every
      way of cutting the message into updates; [MD4Transform] is the RFC's compression function; a port command is answered
      by its digest.  Section [Width] shows what a 64-bit UINT4 does.
    - [SlTermios], [SlDrv]: [sl/c_src/sl_drv.c], a serial line.  Settings read back; opening makes the calls it should and
      leaks no descriptor; bytes read and written are neither lost nor reordered, the queue drains, reads fit the buffer.
    - [LoopDesc], [LoopMsg], [LoopHttp], [LoopBuf], [LoopDrv], [LoopDeliver], [LoopFlow], [LoopInet], [LoopPort]: [ssh/c_src/loop_drv.c], a socket that
      loops back, with the packet types of inet_drv.  In this order: the descriptors and the ring of asynchronous operations; the
      messages; HTTP packets; the input buffer and the detection of packets; recv, send, deliver and the entry points; that the
      delivery loop ends; that what is sent is what is delivered, packet by packet; control commands, options and addresses; ports under
      any sequence of calls: the invariant, and that each asynchronous operation is answered once.
    - [ZlibDrv]: [zlib/c_src/zlib_drv.c].  Deflate and inflate are pipes from the queue through the library to the
      owner; they return when the library makes progress; control commands and their replies.
    - [Unixdom], [UnixdomPort], [UnixdomFlow], [UnixdomMeet], [UnixdomCtl]: [unixdom/c_src/unixdom_drv.c], stream sockets in a table of
      descriptors.  Sockets are owned by one port and closed once; data read is delivered to its owner; data sent is
      written in order; the types of the fields; accept and listen meet; replies fit their buffers.
    - [Ibrowse], [TunDrv], [IconvDrv]: [ibrowse/c_src/ibrowse_drv.c] (URL encoding and its decoding), [tuntap/c_src/tun_drv.c] (frames
      of a tun or tap device), [iconv/c_src/iconv_drv.c] (every command answered once, where
      [size_t] is as wide as [int]).
    - [FdLib], [FdSend], [FdSrv]: [fd_server/c_src], descriptors of sockets opened by a privileged program and passed over Unix sockets:
      the library, with the parser of addresses; the sending driver and its table of slaves; the program, the receiving driver and
      the client of [fdsrv.erl].
    - [GtkMarshal], [GtkNode], [GtkReply], [GtkNames]: [gtkNode/src], a C node that runs commands on GTK.  In this order: the marshalling of
      arguments and results; messages, commands and signals; that every message is answered, under a contract that each command
      meets, those of generated wrappers by assumption, unless it is undefined, as the call of any other symbol of the program is; that objects and flags keep their names, and the messages that get out of step.
    - [Proc], [Psocket], [EspCat]: programs as processes: a monad over the trace of system calls, in which a program may exit, with
      weakest preconditions; [psocket/c_src/psocket_srv.c], which bridges the frames of an interface and a port;
      [erl_cgi/c_src/esp_cat.c], which sends its environment to a server and copies, with [load_env] of [erl_cgi_srv.erl].
    - [EdtkIov], [EdtkUnixdom], [EdtkCommands], [EdtkPort]: [unixdom_drv], a driver that EDTK generated, and its toolkit: reading arguments from
      the segments of a vector; the table of descriptors and the commands; that a command as the client makes it is carried out, against
      an abstract meaning of commands; that every command is answered and no descriptor is lost unless an error is told.
    - [IntlDrv]: [intl/c_src/intl_drv.c], translations by [libintl]: arguments with their types, the call, the answer, and the
      requests of [intl.erl].
    - [SpreadDrv]: [spread_drv/c_src/my-spread.c], the hand-written part of another EDTK driver: what a mailbox has is told to the owner,
      against a specification of the mailbox as a queue of messages, if a variable that is not initialised does not say to cut
      them; messages to groups.
    - [SpreadPort]: [spread_drv/c_src/spread_drv.c], the generated part: commands that threads carry out, as a step relation over the
      calls that wait and those that are done; that every command is answered, once, by a term that the client waits for, unless memory is short.

    ** Theorems

    Those numbered [C<n>] are the properties of the drivers, most important first.  They are of these groups:
    functional correctness against a reference (MD4, framing of packets, HTTP lines, percent encoding); integrity of
    streams under any sequence of calls (loop, serial line, zlib, Unix sockets, frames); accounting of replies (every request is
    answered, and once); ownership of resources; types and invariants of the state; termination of the loops; bounds of
    buffers; round trips of settings.  Each that has hypotheses is applied to a concrete run by the lemma of the same name ending
    in [_witness].  The comment of each says all its hypotheses: memory, messages that are accepted, sizes, and where the code goes wrong outside them, the
    theorem that shows how.  Where C leaves something undefined the trace has an event ([Fault], [Overflow], [Overread], ...) and the model goes on; a
    theorem either shows that there is none, or speaks of the runs without.  Some theorems state what the code does where it does not do what it should (a full buffer overrun, an input that hangs,
    a reply to the wrong process): their comments say so.

    ** Not modelled

    - The other drivers generated by EDTK ([posix_drv], [gd1_drv]) and the libraries' bindings ([slang], [x11]):
      marshalling around calls of a library that is not here.
    - Generated GTK wrappers ([gtkNode/priv/gen]); test programs, examples, [yfront], [tunctl.c]:
      straight sequences of system calls.
    - Windows branches ([__WIN32__]), debug prints, the entry tables the emulator reads, atoms interned at start (an atom is
      its name), and the floating-point averages of the statistics of Unix sockets.
    - Concurrency: the emulator never runs two entry points of a driver at once; what the interleaving is of the calls of
      several ports is the order of the sequences the theorems quantify over.
      The threads of the Spread driver are steps that interleave; a call of its library is one step. *)
From stdpp Require Export base tactics numbers list.
From Stdlib Require Export ZArith Lia.

#[global] Open Scope Z_scope.

(** * C integers

    A C object of an integer type is a [Z] in the range of its type.  [wrap w]
    is the conversion to an unsigned type of [w] bits, [sint w] the conversion
    to a signed one (two's complement, as gcc defines it). *)

Definition wrap (w z : Z) : Z := z `mod` 2 ^ w.
Definition sint (w z : Z) : Z := wrap w (z + 2 ^ (w - 1)) - 2 ^ (w - 1).

Abbreviation u8 := (wrap 8).
Abbreviation u16 := (wrap 16).
Abbreviation u32 := (wrap 32).
Abbreviation int16 := (sint 16).
Abbreviation int32 := (sint 32).

Declare Scope c_scope.
Delimit Scope c_scope with C.
Infix "&" := Z.land (at level 45, left associativity) : c_scope.
Infix "|." := Z.lor (at level 46, left associativity) : c_scope.
Infix "^." := Z.lxor (at level 46, left associativity) : c_scope.
Notation "a << n" := (Z.shiftl a n) (at level 40, left associativity) : c_scope.
Notation "a >> n" := (Z.shiftr a n) (at level 40, left associativity) : c_scope.
Notation "~. a" := (Z.lnot a) (at level 35, right associativity) : c_scope.

(** [int] value of a C comparison or logical operator. *)
Definition c_bool (b : bool) : Z := if b then 1 else 0.
(** truth of a C scalar in a condition. *)
Definition c_true (z : Z) : bool := negb (z =? 0).

(** * Tactics *)

Create HintDb cint.
Create Rewrite HintDb cint.
Create Rewrite HintDb clen.

(** [bool_cases] splits every boolean integer comparison of the goal and
    turns it into a linear fact. *)
Ltac bool_case1 :=
  match goal with
  | |- context [Z.eqb ?a ?b] => destruct (Z.eqb_spec a b)
  | |- context [Z.leb ?a ?b] => destruct (Z.leb_spec a b)
  | |- context [Z.ltb ?a ?b] => destruct (Z.ltb_spec a b)
  | |- context [Z.geb ?a ?b] => rewrite (Z.geb_leb a b)
  | |- context [Z.gtb ?a ?b] => rewrite (Z.gtb_ltb a b)
  end.
Ltac bool_cases := repeat (bool_case1; simpl; try lia).

(** [divmod] replaces [/] and [mod] by their defining equations and calls
    [lia]. *)
Ltac divmod := Z.to_euclidean_division_equations; lia.

(** A closed decidable goal, by running its decision procedure. *)
Ltac by_decision :=
  lazymatch goal with |- ?P =>
    let d := constr:(_ : Decision P) in refine (@bool_decide_unpack P d _); vm_compute; exact I end.

(** [to_lin] rewrites shifts and masks by literal powers of two to [/], [*] and
    [mod]. *)
Lemma land_0xff z : Z.land z 255 = z `mod` 256.
Proof. exact (Z.land_ones z 8 ltac:(lia)). Qed.
Lemma land_0xffff z : Z.land z 65535 = z `mod` 65536.
Proof. exact (Z.land_ones z 16 ltac:(lia)). Qed.
Lemma land_0x7fffffff z : Z.land z 2147483647 = z `mod` 2147483648.
Proof. exact (Z.land_ones z 31 ltac:(lia)). Qed.
Ltac to_lin :=
  unfold wrap in *;
  rewrite ?land_0xff, ?land_0xffff, ?land_0x7fffffff in *;
  rewrite ?Z.shiftr_div_pow2, ?Z.shiftl_mul_pow2 in * by lia;
  repeat match goal with
    | |- context [2 ^ ?n] =>
        match isZcst n with true => let v := eval vm_compute in (2 ^ n) in change (2 ^ n) with v end
    | H : context [2 ^ ?n] |- _ =>
        match isZcst n with true => let v := eval vm_compute in (2 ^ n) in change (2 ^ n) with v in H end
    end.

Lemma wrap_range w z : 0 <= w -> 0 <= wrap w z < 2 ^ w.
Proof. intros. apply Z.mod_pos_bound. lia. Qed.
Lemma wrap_small w z : 0 <= z < 2 ^ w -> wrap w z = z.
Proof. apply Z.mod_small. Qed.
Lemma wrap_wrap w z : wrap w (wrap w z) = wrap w z.
Proof. apply Zmod_mod. Qed.
Lemma wrap_add_l w a b : wrap w (wrap w a + b) = wrap w (a + b).
Proof. apply Zplus_mod_idemp_l. Qed.
Lemma wrap_add_r w a b : wrap w (a + wrap w b) = wrap w (a + b).
Proof. apply Zplus_mod_idemp_r. Qed.
Lemma wrap_mul_l w a b : wrap w (wrap w a * b) = wrap w (a * b).
Proof. apply Zmult_mod_idemp_l. Qed.
Lemma sint_range w z : 0 < w -> - 2 ^ (w - 1) <= sint w z < 2 ^ (w - 1).
Proof.
  intros. unfold sint. pose proof (wrap_range w (z + 2 ^ (w - 1)) ltac:(lia)).
  replace (2 ^ w) with (2 * 2 ^ (w - 1)) in *; [lia|].
  rewrite <-Z.pow_succ_r by lia. f_equal. lia.
Qed.
Lemma sint_small w z : 0 < w -> - 2 ^ (w - 1) <= z < 2 ^ (w - 1) -> sint w z = z.
Proof.
  intros. unfold sint. rewrite wrap_small; [lia|].
  replace (2 ^ w) with (2 * 2 ^ (w - 1)); [lia|].
  rewrite <-Z.pow_succ_r by lia. f_equal. lia.
Qed.
Lemma u32_int32 z : u32 (int32 z) = u32 z.
Proof. unfold sint, wrap. rewrite Zminus_mod_idemp_l. f_equal. lia. Qed.
#[export] Hint Rewrite wrap_wrap wrap_add_l wrap_add_r wrap_mul_l : cint.

(** * Bytes and buffers

    A buffer of C [char]s is a list of values [0..255] (the bytes as
    [unsigned char]). *)

Definition is_byte (b : Z) : Prop := 0 <= b < 256.
Abbreviation bytes := (list Z).
Definition all_bytes (l : bytes) : Prop := Forall is_byte l.

(** [buf[i]]; every use is under the length check of the source. *)
Definition byte_at (s : bytes) (i : nat) : Z := nth i s 0.

(** [schar b]: the byte read through a plain (signed) [char]. *)
Definition schar (b : Z) : Z := sint 8 b.

(** [memcpy (dst + off, src, n)], [n] the length of [src]. *)
Definition memcpy_at (dst : bytes) (off : nat) (src : bytes) : bytes :=
  take off dst ++ src ++ drop (off + length src) dst.

(** [s + off .. s + off + n). *)
Definition slice (off n : nat) (s : bytes) : bytes := take n (drop off s).

Lemma is_byte_u8 z : is_byte (u8 z).
Proof. exact (wrap_range 8 z ltac:(lia)). Qed.
Lemma byte_at_is_byte s i : all_bytes s -> is_byte (byte_at s i).
Proof.
  intros H. unfold byte_at. destruct (decide (i < length s)%nat).
  - apply (Forall_forall is_byte s); [done|]. apply list_elem_of_In, nth_In. done.
  - rewrite nth_overflow by lia. unfold is_byte. lia.
Qed.
#[export] Hint Resolve is_byte_u8 byte_at_is_byte : cint.

Lemma length_memcpy_at dst off src :
  (off + length src <= length dst)%nat -> length (memcpy_at dst off src) = length dst.
Proof. intros. unfold memcpy_at. rewrite !length_app, length_take, length_drop. lia. Qed.
Lemma take_memcpy_at dst off src :
  (off <= length dst)%nat -> take (off + length src) (memcpy_at dst off src) = take off dst ++ src.
Proof.
  intros. unfold memcpy_at. rewrite app_assoc, take_app_le by (rewrite length_app, length_take; lia).
  rewrite take_ge; [done|]. rewrite length_app, length_take. lia.
Qed.
Lemma slice_drop_take o n b : slice o n b = drop o (take (o + n) b).
Proof. apply take_drop_commute. Qed.
Lemma length_slice o n b : length (slice o n b) = min n (length b - o).
Proof. unfold slice. by rewrite length_take, length_drop. Qed.
Lemma slice_split o n m b : slice o (n + m) b = slice o n b ++ slice (o + n) m b.
Proof.
  unfold slice. rewrite <-drop_drop. generalize (drop o b). intros l.
  rewrite <-(take_drop n l) at 1. destruct (decide (n <= length l)%nat).
  - rewrite take_app, length_take, take_take. f_equal; f_equal; lia.
  - rewrite (take_ge l), (drop_ge l), app_nil_r, take_nil, app_nil_r, take_ge by lia. done.
Qed.
Lemma slice_all b : slice 0 (length b) b = b.
Proof. unfold slice. by rewrite drop_0, take_ge. Qed.
Lemma all_bytes_app a b : all_bytes (a ++ b) <-> all_bytes a /\ all_bytes b.
Proof. apply Forall_app. Qed.
Lemma all_bytes_take n a : all_bytes a -> all_bytes (take n a).
Proof. apply Forall_take. Qed.
Lemma all_bytes_drop n a : all_bytes a -> all_bytes (drop n a).
Proof. apply Forall_drop. Qed.
#[export] Hint Resolve all_bytes_take all_bytes_drop : cint.
#[export] Hint Rewrite @length_app @length_take @length_drop @length_replicate @length_nil @length_cons : clen.

(** * The integer macros

    [get_int8], [get_int16], [get_int24], [get_int32], [get_little_int32] and the
    [put_] macros, defined alike in [loop_drv.c] (ssh) and [sl_drv.c]. *)

Definition get_int8 (s : bytes) : Z := byte_at s 0.
Definition get_int16 (s : bytes) : Z := (byte_at s 0 << 8 |. byte_at s 1)%C.
Definition get_int24 (s : bytes) : Z :=
  (byte_at s 0 << 16 |. byte_at s 1 << 8 |. byte_at s 2)%C.
Definition get_int32 (s : bytes) : Z :=
  int32 (byte_at s 0 << 24 |. byte_at s 1 << 16 |. byte_at s 2 << 8 |. byte_at s 3)%C.
Definition get_little_int32 (s : bytes) : Z :=
  int32 (byte_at s 3 << 24 |. byte_at s 2 << 16 |. byte_at s 1 << 8 |. byte_at s 0)%C.

Definition put_int8 (i : Z) : bytes := [(i & 255)%C].
Definition put_int16 (i : Z) : bytes := [((i >> 8) & 255)%C; (i & 255)%C].
Definition put_int32 (i : Z) : bytes :=
  [((i >> 24) & 255)%C; ((i >> 16) & 255)%C; ((i >> 8) & 255)%C; (i & 255)%C].

(** A byte or-ed below a shifted value is a digit of base 256. *)
Lemma land_shiftl_low n a b : 0 <= n -> 0 <= b < 2 ^ n -> Z.land (Z.shiftl a n) b = 0.
Proof.
  intros Hn Hb. apply Z.bits_inj'. intros i Hi. rewrite Z.land_spec, Z.bits_0.
  destruct (Z.lt_ge_cases i n).
  - rewrite Z.shiftl_spec_low by lia. done.
  - destruct (Z.eq_dec b 0) as [->|]; [by rewrite Z.bits_0, andb_false_r|].
    rewrite (Z.bits_above_log2 b i), andb_false_r; [done|lia|].
    apply Z.lt_le_trans with n; [apply Z.log2_lt_pow2; lia|lia].
Qed.
Lemma lor_digit n a b : 0 <= n -> 0 <= b < 2 ^ n -> Z.lor (Z.shiftl a n) b = a * 2 ^ n + b.
Proof.
  intros Hn Hb. pose proof (land_shiftl_low n a b Hn Hb) as H0.
  rewrite <-Z.shiftl_mul_pow2, Z.add_nocarry_lxor, Z.lxor_lor by done. done.
Qed.
Lemma shiftl_lor_digit n m a b : 0 <= n -> 0 <= m ->
  Z.lor (Z.shiftl a (n + m)) (Z.shiftl b m) = Z.shiftl (Z.lor (Z.shiftl a n) b) m.
Proof. intros. rewrite Z.shiftl_lor, Z.shiftl_shiftl by lia. done. Qed.

(** The value of the big-endian macros as a number. *)
Lemma get_int16_value s : all_bytes s -> get_int16 s = byte_at s 0 * 256 + byte_at s 1.
Proof.
  intros H. unfold get_int16. rewrite lor_digit; [done|lia|].
  exact (byte_at_is_byte s 1 H).
Qed.
Lemma lor3_value a b c : is_byte b -> is_byte c ->
  (a << 16 |. b << 8 |. c)%C = a * 65536 + b * 256 + c.
Proof.
  intros Hb Hc. change 16 with (8 + 8). rewrite shiftl_lor_digit, lor_digit by (done || lia).
  rewrite lor_digit by (done || lia). lia.
Qed.
Lemma lor4_value a b c d : is_byte b -> is_byte c -> is_byte d ->
  (a << 24 |. b << 16 |. c << 8 |. d)%C = a * 16777216 + b * 65536 + c * 256 + d.
Proof.
  intros Hb Hc Hd. change 24 with (8 + 16). rewrite shiftl_lor_digit by lia.
  change 16 with (8 + 8). rewrite shiftl_lor_digit, !lor_digit by (done || lia). lia.
Qed.
Lemma get_int24_value s : all_bytes s ->
  get_int24 s = byte_at s 0 * 65536 + byte_at s 1 * 256 + byte_at s 2.
Proof. intros. unfold get_int24. rewrite lor3_value; auto with cint. Qed.
Lemma get_int32_value s : all_bytes s ->
  get_int32 s = int32 (byte_at s 0 * 16777216 + byte_at s 1 * 65536 + byte_at s 2 * 256 + byte_at s 3).
Proof. intros. unfold get_int32. rewrite lor4_value; auto with cint. Qed.
Lemma get_little_int32_value s : all_bytes s ->
  get_little_int32 s =
  int32 (byte_at s 3 * 16777216 + byte_at s 2 * 65536 + byte_at s 1 * 256 + byte_at s 0).
Proof. intros. unfold get_little_int32. rewrite lor4_value; auto with cint. Qed.

Lemma put_int16_bytes i : all_bytes (put_int16 i).
Proof. unfold put_int16. rewrite !land_0xff. repeat constructor; apply is_byte_u8. Qed.
Lemma put_int32_bytes i : all_bytes (put_int32 i).
Proof. unfold put_int32. rewrite !land_0xff. repeat constructor; apply is_byte_u8. Qed.
#[export] Hint Resolve put_int16_bytes put_int32_bytes : cint.

(** Reading back what was written, whatever follows in the buffer. *)
Lemma get_put_int8 i rest : get_int8 (put_int8 i ++ rest) = u8 i.
Proof. apply land_0xff. Qed.
Lemma get_put_int16 i rest : get_int16 (put_int16 i ++ rest) = u16 i.
Proof.
  change (get_int16 (put_int16 i ++ rest)) with (get_int16 (put_int16 i)).
  rewrite get_int16_value by auto with cint. unfold put_int16, byte_at. cbn [nth]. to_lin. divmod.
Qed.
Lemma get_put_int32 i rest : get_int32 (put_int32 i ++ rest) = int32 i.
Proof.
  change (get_int32 (put_int32 i ++ rest)) with (get_int32 (put_int32 i)).
  rewrite get_int32_value by auto with cint. unfold sint. f_equal.
  unfold put_int32, byte_at. cbn [nth]. to_lin. rewrite <-Zplus_mod_idemp_l. symmetry.
  rewrite <-Zplus_mod_idemp_l. do 2 f_equal. divmod.
Qed.
Lemma sint_add_wrap w z : 0 < w -> sint w (wrap w z) = sint w z.
Proof. intros. unfold sint. by rewrite wrap_add_l. Qed.

(** * Resources in use, as a list without duplicates *)

(** What is left when one is given back. *)
Lemma filter_others (fd : Z) (l r : list Z) : l ≡ₚ fd :: r -> NoDup l -> filter (fun x => x <> fd) l ≡ₚ r.
Proof.
  intros Hp Hnd. rewrite Hp in Hnd |- *. apply NoDup_cons in Hnd as [Hni Hnd]. rewrite filter_cons_False by naive_solver.
  clear Hp. induction r as [|x r IH]; [done|]. apply NoDup_cons in Hnd as [_ Hnd].
  rewrite filter_cons_True by (intros ->; apply Hni; by left). rewrite IH; [done|intros ?; apply Hni; by right|done].
Qed.
