(* ===== verification/Md4.v ===== *)
(** MD4 message digest: [esmb/c_src/md4.c], [md4.h], [global.h].

    [UINT4] is [unsigned long int] in [global.h]; its width [w] is a parameter of
    every definition (32 on ILP32, 64 on LP64).  The correctness theorems are
    for [w = 32]; section [Width] shows what happens at [w = 64]. *)
From S2P Require Import Prelude.

(** * Data *)

(** [UINT4 state[4]] *)
Record state4 := St { s0 : Z; s1 : Z; s2 : Z; s3 : Z }.

(** [MD4_CTX]: [count] is [count0] (low word) and [count1]. *)
Record MD4_CTX := Ctx { state : state4; count0 : Z; count1 : Z; buffer : bytes }.

Definition S11 := 3.
Definition S12 := 7.
Definition S13 := 11.
Definition S14 := 19.
Definition S21 := 3.
Definition S22 := 5.
Definition S23 := 9.
Definition S24 := 13.
Definition S31 := 3.
Definition S32 := 9.
Definition S33 := 11.
Definition S34 := 15.

Definition PADDING : bytes := 128 :: replicate 63 0.

(** * Operations *)

Definition F (x y z : Z) : Z := (x & y |. (~. x) & z)%C.
Definition G (x y z : Z) : Z := (x & y |. x & z |. y & z)%C.
Definition H (x y z : Z) : Z := (x ^. y ^. z)%C.

(** [output[i] = input[i]] for [i < len], over [output + off]. *)
Fixpoint MD4_memcpy (output : bytes) (off : nat) (input : bytes) : bytes :=
  match input with
  | [] => output
  | b :: input' => MD4_memcpy (<[off := b]> output) (S off) input'
  end.

Definition MD4_memset (output : bytes) (value : Z) : bytes :=
  (fun _ => u8 value) <$> output.

Definition Encode_word (x : Z) : bytes :=
  [(x & 255)%C; ((x >> 8) & 255)%C; ((x >> 16) & 255)%C; ((x >> 24) & 255)%C].
Definition Encode (input : list Z) : bytes := input ≫= Encode_word.

Fixpoint Decode (input : bytes) : list Z :=
  match input with
  | b0 :: b1 :: b2 :: b3 :: rest =>
      (b0 |. b1 << 8 |. b2 << 16 |. b3 << 24)%C :: Decode rest
  | _ => []
  end.

(** An assignment statement [x = v; k] of the C text. *)
Definition assign {A} (v : Z) (k : Z -> A) : A := k v.
Notation "x <~ v ; k" := (assign v (fun x => k))
  (at level 100, v at next level, right associativity, format "x  <~  v ;  '//' k") : c_scope.

Section Ops.
Context (w : Z).

Definition ROTATE_LEFT (x n : Z) : Z := (wrap w (x << n) |. x >> (32 - n))%C.

(** [x[i]] *)
Local Notation "x .[ i ]" := (nth i%nat x 0) (at level 1) : c_scope.

Definition FF (a b c d x s : Z) : Z := ROTATE_LEFT (wrap w (a + wrap w (F b c d + x))) s.
Definition GG (a b c d x s : Z) : Z :=
  ROTATE_LEFT (wrap w (a + wrap w (G b c d + x + 0x5a827999))) s.
Definition HH (a b c d x s : Z) : Z :=
  ROTATE_LEFT (wrap w (a + wrap w (H b c d + x + 0x6ed9eba1))) s.

Definition MD4Transform (state : state4) (block : bytes) : state4 := (
  a <~ s0 state; b <~ s1 state; c <~ s2 state; d <~ s3 state;
  let x := Decode block in
  (* Round 1 *)
  a <~ FF a b c d (x .[0]) S11 ;
  d <~ FF d a b c (x .[1]) S12 ;
  c <~ FF c d a b (x .[2]) S13 ;
  b <~ FF b c d a (x .[3]) S14 ;
  a <~ FF a b c d (x .[4]) S11 ;
  d <~ FF d a b c (x .[5]) S12 ;
  c <~ FF c d a b (x .[6]) S13 ;
  b <~ FF b c d a (x .[7]) S14 ;
  a <~ FF a b c d (x .[8]) S11 ;
  d <~ FF d a b c (x .[9]) S12 ;
  c <~ FF c d a b (x .[10]) S13 ;
  b <~ FF b c d a (x .[11]) S14 ;
  a <~ FF a b c d (x .[12]) S11 ;
  d <~ FF d a b c (x .[13]) S12 ;
  c <~ FF c d a b (x .[14]) S13 ;
  b <~ FF b c d a (x .[15]) S14 ;
  (* Round 2 *)
  a <~ GG a b c d (x .[0]) S21 ;
  d <~ GG d a b c (x .[4]) S22 ;
  c <~ GG c d a b (x .[8]) S23 ;
  b <~ GG b c d a (x .[12]) S24 ;
  a <~ GG a b c d (x .[1]) S21 ;
  d <~ GG d a b c (x .[5]) S22 ;
  c <~ GG c d a b (x .[9]) S23 ;
  b <~ GG b c d a (x .[13]) S24 ;
  a <~ GG a b c d (x .[2]) S21 ;
  d <~ GG d a b c (x .[6]) S22 ;
  c <~ GG c d a b (x .[10]) S23 ;
  b <~ GG b c d a (x .[14]) S24 ;
  a <~ GG a b c d (x .[3]) S21 ;
  d <~ GG d a b c (x .[7]) S22 ;
  c <~ GG c d a b (x .[11]) S23 ;
  b <~ GG b c d a (x .[15]) S24 ;
  (* Round 3 *)
  a <~ HH a b c d (x .[0]) S31 ;
  d <~ HH d a b c (x .[8]) S32 ;
  c <~ HH c d a b (x .[4]) S33 ;
  b <~ HH b c d a (x .[12]) S34 ;
  a <~ HH a b c d (x .[2]) S31 ;
  d <~ HH d a b c (x .[10]) S32 ;
  c <~ HH c d a b (x .[6]) S33 ;
  b <~ HH b c d a (x .[14]) S34 ;
  a <~ HH a b c d (x .[1]) S31 ;
  d <~ HH d a b c (x .[9]) S32 ;
  c <~ HH c d a b (x .[5]) S33 ;
  b <~ HH b c d a (x .[13]) S34 ;
  a <~ HH a b c d (x .[3]) S31 ;
  d <~ HH d a b c (x .[11]) S32 ;
  c <~ HH c d a b (x .[7]) S33 ;
  b <~ HH b c d a (x .[15]) S34 ;
  St (wrap w (s0 state + a)) (wrap w (s1 state + b))
     (wrap w (s2 state + c)) (wrap w (s3 state + d)))%C.

(** [MD4Init] writes [count] and [state]; [buffer] keeps what was in memory. *)
Definition MD4Init (context : MD4_CTX) : MD4_CTX :=
  Ctx (St 0x67452301 0xefcdab89 0x98badcfe 0x10325476) 0 0 (buffer context).

(** [for (i = partLen; i + 63 < inputLen; i += 64) MD4Transform(state, &input[i])],
    [i] an [unsigned int].  [fuel] bounds the iterations. *)
Fixpoint MD4Update_loop (fuel : nat) (i : Z) (st : state4) (input : bytes) : Z * state4 :=
  match fuel with
  | O => (i, st)
  | S fuel =>
      if u32 (i + 63) <? Z.of_nat (length input)
      then MD4Update_loop fuel (u32 (i + 64)) (MD4Transform st (slice (Z.to_nat i) 64 input)) input
      else (i, st)
  end.

Definition ctx_index (context : MD4_CTX) : Z := ((count0 context >> 3) & 63)%C.

Definition MD4Update (context : MD4_CTX) (input : bytes) : MD4_CTX :=
  let inputLen := Z.of_nat (length input) in
  let index := ctx_index context in
  let bits := wrap w (inputLen << 3)%C in
  let c0 := wrap w (count0 context + bits) in
  let c1 := if c0 <? bits then wrap w (count1 context + 1) else count1 context in
  let c1 := wrap w (c1 + (inputLen >> 29)%C) in
  let partLen := 64 - index in
  let '(i, index, st, buf) :=
    if partLen <=? inputLen then
      let buf := MD4_memcpy (buffer context) (Z.to_nat index) (take (Z.to_nat partLen) input) in
      let st := MD4Transform (state context) buf in
      let '(i, st) := MD4Update_loop (length input) partLen st input in
      (i, 0, st, buf)
    else (0, index, state context, buffer context) in
  Ctx st c0 c1 (MD4_memcpy buf (Z.to_nat index) (drop (Z.to_nat i) input)).

Definition MD4Final (context : MD4_CTX) : bytes * MD4_CTX :=
  let bits := Encode [count0 context; count1 context] in
  let index := ctx_index context in
  let padLen := if index <? 56 then 56 - index else 120 - index in
  let context := MD4Update context (take (Z.to_nat padLen) PADDING) in
  let context := MD4Update context bits in
  let st := state context in
  (Encode [s0 st; s1 st; s2 st; s3 st],
   Ctx (St 0 0 0 0) 0 0 (MD4_memset (buffer context) 0)).

(** A caller's sequence: [MD4Init], one [MD4Update] per chunk, [MD4Final]. *)
Definition MD4_digest (context : MD4_CTX) (chunks : list bytes) : bytes :=
  fst (MD4Final (fold_left MD4Update chunks (MD4Init context))).
End Ops.

(** An [MD4_CTX] on the stack, its bytes indeterminate. *)
Definition ctx_of_garbage (b : bytes) : MD4_CTX := Ctx (St 0 0 0 0) 0 0 b.

(** * Specification: RFC 1320 *)

(** The three rounds as a table: auxiliary function with its constant, word
    index, shift. *)
Inductive round := R1 | R2 | R3.
Definition md4_table : list (round * nat * Z) :=
  ((fun '(k, s) => (R1, k, s)) <$>
     zip [0;1;2;3;4;5;6;7;8;9;10;11;12;13;14;15]%nat
         [3;7;11;19; 3;7;11;19; 3;7;11;19; 3;7;11;19]) ++
  ((fun '(k, s) => (R2, k, s)) <$>
     zip [0;4;8;12;1;5;9;13;2;6;10;14;3;7;11;15]%nat
         [3;5;9;13; 3;5;9;13; 3;5;9;13; 3;5;9;13]) ++
  ((fun '(k, s) => (R3, k, s)) <$>
     zip [0;8;4;12;2;10;6;14;1;9;5;13;3;11;7;15]%nat
         [3;9;11;15; 3;9;11;15; 3;9;11;15; 3;9;11;15]).

Definition rotl32 (x n : Z) : Z := (u32 (x << n) |. x >> (32 - n))%C.
Definition round_step (X : list Z) (r : Z * Z * Z * Z) (t : round * nat * Z) : Z * Z * Z * Z :=
  let '(a, b, c, d) := r in
  let '(rd, k, s) := t in
  let '(f, K) := match rd with
                 | R1 => (F b c d, 0)
                 | R2 => (G b c d, 0x5a827999)
                 | R3 => (H b c d, 0x6ed9eba1)
                 end in
  (d, rotl32 (u32 (a + f + nth k X 0 + K)) s, b, c).
Definition compress (st : state4) (block : bytes) : state4 :=
  let '(a, b, c, d) :=
    fold_left (round_step (Decode block)) md4_table (s0 st, s1 st, s2 st, s3 st) in
  St (u32 (s0 st + a)) (u32 (s1 st + b)) (u32 (s2 st + c)) (u32 (s3 st + d)).

(** [n] blocks of [l], then the whole message. *)
Fixpoint absorb (T : state4 -> bytes -> state4) (n : nat) (st : state4) (l : bytes) : state4 :=
  match n with
  | O => st
  | S n => absorb T n (T st (take 64 l)) (drop 64 l)
  end.
Definition le64 (z : Z) : bytes := Encode [z `mod` 2 ^ 32; (z / 2 ^ 32) `mod` 2 ^ 32].
Definition pad (msg : bytes) : bytes :=
  let n := Z.of_nat (length msg) in
  128 :: replicate (Z.to_nat ((55 - n) `mod` 64)) 0 ++ le64 (8 * n).
Definition md4_spec (msg : bytes) : bytes :=
  let m := msg ++ pad msg in
  let st := absorb compress (length m / 64) (St 0x67452301 0xefcdab89 0x98badcfe 0x10325476) m in
  Encode [s0 st; s1 st; s2 st; s3 st].



(** * Proofs *)

Lemma MD4_memcpy_spec output off input :
  (off + length input <= length output)%nat ->
  MD4_memcpy output off input = memcpy_at output off input.
Proof.
  revert output off. induction input as [|b input IH]; intros output off Hlen; cbn [MD4_memcpy].
  - unfold memcpy_at. cbn [length app]. by rewrite Nat.add_0_r, take_drop.
  - cbn [length] in Hlen. rewrite IH by (rewrite length_insert; lia).
    unfold memcpy_at. rewrite insert_take_drop by lia.
    assert (length (take off output) = off) as E by (rewrite length_take; lia).
    rewrite take_app_ge, drop_app_ge by lia. rewrite E.
    replace (S off - off)%nat with 1%nat by lia.
    replace (S off + length input - off)%nat with (S (length input)) by lia.
    cbn [take drop]. rewrite take_0, <-app_assoc, drop_drop. cbn [length app].
    do 4 f_equal. lia.
Qed.

(** ** The compression function *)

Lemma FF_round_step X a b c d k s :
  round_step X (a, b, c, d) (R1, k, s) = (d, FF 32 a b c d (nth k X 0) s, b, c).
Proof.
  cbn. unfold FF, ROTATE_LEFT, rotl32. rewrite wrap_add_r.
  by replace (a + F b c d + nth k X 0 + 0) with (a + (F b c d + nth k X 0)) by lia.
Qed.
Lemma GG_round_step X a b c d k s :
  round_step X (a, b, c, d) (R2, k, s) = (d, GG 32 a b c d (nth k X 0) s, b, c).
Proof. cbn -[Z.add]. unfold GG, ROTATE_LEFT, rotl32. rewrite wrap_add_r. by rewrite !Z.add_assoc. Qed.
Lemma HH_round_step X a b c d k s :
  round_step X (a, b, c, d) (R3, k, s) = (d, HH 32 a b c d (nth k X 0) s, b, c).
Proof. cbn -[Z.add]. unfold HH, ROTATE_LEFT, rotl32. rewrite wrap_add_r. by rewrite !Z.add_assoc. Qed.

(** [round1] matches one macro call of the C text with one line of the table
    and names its result. *)
Lemma assign_run {A} v (k : Z -> A) : assign v k = k v.
Proof. done. Qed.
Lemma fold_left_step {A B} (f : A -> B -> A) x l a : fold_left f (x :: l) a = fold_left f l (f a x).
Proof. done. Qed.
Ltac round1 :=
  rewrite fold_left_step;
  first [rewrite FF_round_step | rewrite GG_round_step | rewrite HH_round_step];
  match goal with |- assign ?v _ = _ => generalize v; intro end;
  rewrite assign_run; cbv beta.

#[local] Opaque FF GG HH assign.
Lemma MD4Transform_compress st block : MD4Transform 32 st block = compress st block.
Proof.
  unfold MD4Transform, compress, S11, S12, S13, S14, S21, S22, S23, S24, S31, S32, S33, S34.
  let t := eval vm_compute in md4_table in change md4_table with t.
  generalize (Decode block). intros X.
  do 4 (rewrite assign_run; cbv beta).
  generalize (s0 st), (s1 st), (s2 st), (s3 st). intros a b c d.
  do 48 round1. reflexivity.
Qed.
#[local] Transparent FF GG HH assign.

Create HintDb md4.

(** ** Blocks *)

Section Absorb.
Context (T : state4 -> bytes -> state4).

Lemma absorb_add n m st l : absorb T (n + m) st l = absorb T m (absorb T n st l) (drop (64 * n) l).
Proof.
  revert st l. induction n as [|n IH]; intros st l; cbn [absorb Nat.add].
  - by rewrite Nat.mul_0_r, drop_0.
  - rewrite IH, drop_drop. do 2 f_equal. lia.
Qed.
Lemma absorb_app n st l l' : (64 * n <= length l)%nat -> absorb T n st (l ++ l') = absorb T n st l.
Proof.
  revert st l. induction n as [|n IH]; intros st l Hl; cbn [absorb]; [done|].
  rewrite take_app_le, drop_app_le by lia. apply IH. rewrite length_drop. lia.
Qed.
Lemma absorb_ext T' n st l : (forall s b, T s b = T' s b) -> absorb T n st l = absorb T' n st l.
Proof. intros E. revert st l. induction n as [|n IH]; intros; cbn; [done|]. by rewrite E, IH. Qed.
End Absorb.

(** The block loop of [MD4Update] absorbs every whole block from [i] on. *)
Lemma MD4Update_loop_spec w input n :
  forall fuel i st,
  (n <= fuel)%nat -> (n = (length input - i) / 64)%nat -> (i <= length input)%nat ->
  Z.of_nat (length input) + 64 <= 2 ^ 32 ->
  MD4Update_loop w fuel (Z.of_nat i) st input =
    (Z.of_nat (i + 64 * n), absorb (MD4Transform w) n st (drop i input)).
Proof.
  induction n as [|n IH]; intros fuel i st Hf Hn Hi Hlen.
  - assert (length input - i < 64)%nat by (apply Nat.div_small_iff; [lia|done]).
    rewrite Nat.mul_0_r, Nat.add_0_r. destruct fuel; cbn [MD4Update_loop absorb]; [done|].
    rewrite wrap_small by lia. by rewrite (proj2 (Z.ltb_ge _ _)) by lia.
  - destruct fuel as [|fuel]; [lia|]. cbn [MD4Update_loop absorb].
    pose proof (Nat.div_mod_eq (length input - i) 64).
    pose proof (Nat.mod_upper_bound (length input - i) 64 ltac:(lia)).
    rewrite !wrap_small by lia. rewrite (proj2 (Z.ltb_lt _ _)) by lia.
    replace (Z.of_nat i + 64) with (Z.of_nat (i + 64)) by lia.
    rewrite IH; [|lia| |lia|lia].
    + unfold slice. rewrite Nat2Z.id, drop_drop. do 2 f_equal; lia.
    + replace (length input - (i + 64))%nat with (length input - i - 1 * 64)%nat by lia.
      apply (Nat.div_unique _ _ _ ((length input - i) mod 64)); lia.
Qed.

(** ** The context represents the message fed so far *)

Definition bitcount (c : MD4_CTX) : Z := count0 c + 2 ^ 32 * count1 c.
Definition md4_init : state4 := St 0x67452301 0xefcdab89 0x98badcfe 0x10325476.

Record represents (c : MD4_CTX) (msg : bytes) : Prop := Represents {
  rep_c0 : 0 <= count0 c < 2 ^ 32;
  rep_count : bitcount c = (8 * Z.of_nat (length msg)) `mod` 2 ^ 64;
  rep_state : state c = absorb (MD4Transform 32) (length msg / 64) md4_init msg;
  rep_buf : length (buffer c) = 64%nat;
  rep_tail : take (length msg mod 64) (buffer c) = drop (64 * (length msg / 64)) msg }.

Lemma rep_index c msg : represents c msg -> ctx_index c = Z.of_nat (length msg mod 64).
Proof.
  intros [H0 H1 _ _ _]. unfold ctx_index, bitcount in *.
  change 63 with (Z.ones 6). rewrite Z.land_ones, Z.shiftr_div_pow2 by lia.
  rewrite Nat2Z.inj_mod. change (2 ^ 6) with 64. change (Z.of_nat 64) with 64.
  change (2 ^ 3) with 8. change (2 ^ 32) with 4294967296 in *.
  change (2 ^ 64) with 18446744073709551616 in *. divmod.
Qed.

(** The two count words are one 64-bit counter of bits. *)
Lemma count_carry n c0 c1 : 0 <= n < 2 ^ 32 -> 0 <= c0 < 2 ^ 32 ->
  let bits := wrap 32 (n << 3)%C in
  let c0' := wrap 32 (c0 + bits) in
  let c1' := wrap 32 ((if c0' <? bits then wrap 32 (c1 + 1) else c1) + (n >> 29)%C) in
  0 <= c0' < 2 ^ 32 /\
  (c0' + 2 ^ 32 * c1') = (c0 + 2 ^ 32 * c1 + 8 * n) `mod` 2 ^ 64.
Proof.
  intros Hn Hc bits c0' c1'. split; [apply wrap_range; lia|].
  assert (c1' = wrap 32 (c1 + (c0 + bits) / 2 ^ 32 + n / 2 ^ 29)) as ->.
  { unfold c1'. rewrite Z.shiftr_div_pow2 by lia.
    assert (0 <= bits < 2 ^ 32) by (apply wrap_range; lia).
    destruct (Z.ltb_spec c0' bits) as [Hlt|Hge]; [rewrite wrap_add_l|]; f_equal; f_equal;
      subst c0'; unfold wrap in *; clearbody bits; divmod. }
  subst c0' bits. unfold wrap. rewrite !Z.shiftl_mul_pow2 by lia.
  change (2 ^ 3) with 8. change (2 ^ 29) with 536870912.
  change (2 ^ 32) with 4294967296 in *. change (2 ^ 64) with (4294967296 * 4294967296).
  rewrite (Z.rem_mul_r (c0 + 4294967296 * c1 + 8 * n)) by lia.
  assert ((c0 + (n * 8) mod 4294967296) / 4294967296 + n / 536870912 =
          (c0 + n * 8) / 4294967296) as E by divmod.
  f_equal; [divmod|]. f_equal.
  rewrite <-Z.add_assoc, E. f_equal.
  replace (c0 + 4294967296 * c1 + 8 * n) with (c0 + n * 8 + c1 * 4294967296) by lia.
  rewrite Z.div_add by lia. lia.
Qed.

(** Splitting a message of [n] bytes plus [k] more at block boundaries. *)
Lemma div_add_small n k : ((n mod 64 + k) < 64)%nat ->
  ((n + k) / 64 = n / 64 /\ (n + k) mod 64 = n mod 64 + k)%nat.
Proof.
  intros. pose proof (Nat.div_mod_eq n 64). split; symmetry.
  - apply (Nat.div_unique _ _ _ (n mod 64 + k)); lia.
  - apply (Nat.mod_unique _ _ (n / 64)); lia.
Qed.
Lemma div_add_fill n k : (64 <= n mod 64 + k)%nat ->
  ((n + k) / 64 = S (n / 64) + (k - (64 - n mod 64)) / 64 /\
   (n + k) mod 64 = (k - (64 - n mod 64)) mod 64)%nat.
Proof.
  intros. pose proof (Nat.div_mod_eq n 64). pose proof (Nat.mod_upper_bound n 64 ltac:(lia)).
  pose proof (Nat.div_mod_eq (k - (64 - n mod 64)) 64).
  pose proof (Nat.mod_upper_bound (k - (64 - n mod 64)) 64 ltac:(lia)).
  set (r := (k - (64 - n mod 64))%nat) in *. split; symmetry.
  - apply (Nat.div_unique _ _ _ (r mod 64)); lia.
  - apply (Nat.mod_unique _ _ (S (n / 64) + r / 64)); lia.
Qed.

Lemma represents_update_short c msg input :
  represents c msg -> (length msg mod 64 + length input < 64)%nat ->
  represents (MD4Update 32 c input) (msg ++ input).
Proof.
  intros R Hs. pose proof (rep_index _ _ R) as Hi. destruct R as [H0 H1 H2 H3 H4].
  destruct (div_add_small _ _ Hs) as [Ed Em].
  assert (Z.of_nat (length input) < 64) by lia.
  pose proof (count_carry (Z.of_nat (length input)) (count0 c) (count1 c) ltac:(lia) H0) as [C0 C1].
  pose proof (Nat.div_mod_eq (length msg) 64).
  unfold MD4Update. rewrite Hi, (proj2 (Z.leb_gt _ _)), Nat2Z.id, drop_0, MD4_memcpy_spec by lia.
  split; cbn [state count0 count1 buffer]; rewrite ?length_app, ?Ed, ?Em.
  - exact C0.
  - unfold bitcount in *. cbn [count0 count1]. rewrite C1, H1, Zplus_mod_idemp_l. f_equal. lia.
  - rewrite absorb_app by lia. done.
  - rewrite length_memcpy_at; lia.
  - rewrite take_memcpy_at, H4, drop_app_le by lia. done.
Qed.

Lemma represents_update_fill c msg input :
  represents c msg -> (64 <= length msg mod 64 + length input)%nat ->
  Z.of_nat (length input) + 64 <= 2 ^ 32 ->
  represents (MD4Update 32 c input) (msg ++ input).
Proof.
  intros R Hs Hlen. pose proof (rep_index _ _ R) as Hi. destruct R as [H0 H1 H2 H3 H4].
  destruct (div_add_fill _ _ Hs) as [Ed Em].
  pose proof (count_carry (Z.of_nat (length input)) (count0 c) (count1 c) ltac:(lia) H0) as [C0 C1].
  pose proof (Nat.div_mod_eq (length msg) 64). pose proof (Nat.mod_upper_bound (length msg) 64 ltac:(lia)).
  set (idx := (length msg mod 64)%nat) in *. set (q := (length msg / 64)%nat) in *.
  set (part := (64 - idx)%nat) in *. set (n2 := ((length input - part) / 64)%nat) in *.
  pose proof (Nat.div_mod_eq (length input - part) 64) as Hr. fold n2 in Hr.
  pose proof (Nat.mod_upper_bound (length input - part) 64 ltac:(lia)).
  assert (memcpy_at (buffer c) idx (take part input) = take 64 (drop (64 * q) (msg ++ input))) as Eb.
  { rewrite drop_app_le, <-H4 by lia. unfold memcpy_at. rewrite length_take.
    rewrite (drop_ge (buffer c)), app_nil_r by lia.
    rewrite take_app_ge by (rewrite length_take; lia). do 2 f_equal. rewrite length_take. lia. }
  assert (drop part input = drop (64 * S q) (msg ++ input)) as Ed2.
  { rewrite drop_app_ge by lia. f_equal. lia. }
  unfold MD4Update. rewrite Hi, (proj2 (Z.leb_le _ _)) by lia.
  replace (64 - Z.of_nat idx) with (Z.of_nat part) by lia.
  rewrite !Nat2Z.id, (MD4_memcpy_spec (buffer c)) by (rewrite length_take; lia). rewrite Eb.
  rewrite (MD4Update_loop_spec 32 input n2) by lia.
  cbv beta iota zeta. change (Z.to_nat 0) with 0%nat. rewrite Nat2Z.id.
  assert (length (take 64 (drop (64 * q) (msg ++ input))) = 64)%nat as L64.
  { rewrite length_take, length_drop, length_app. lia. }
  rewrite MD4_memcpy_spec by (rewrite L64, length_drop; lia).
  split; cbn [state count0 count1 buffer]; rewrite ?length_app, ?Ed, ?Em.
  - exact C0.
  - unfold bitcount in *. cbn [count0 count1]. rewrite C1, H1, Zplus_mod_idemp_l. f_equal. lia.
  - replace (S q + n2)%nat with (q + (1 + n2))%nat by lia.
    rewrite absorb_add, absorb_app, <-H2 by lia. cbn [absorb Nat.add].
    rewrite drop_drop, Ed2. do 2 f_equal. lia.
  - rewrite length_memcpy_at; rewrite ?L64, ?length_drop; lia.
  - unfold memcpy_at. rewrite take_0, app_nil_l, take_app_le by (rewrite length_drop; lia).
    rewrite take_ge by (rewrite length_drop; lia).
    rewrite drop_app_ge by lia. f_equal. lia.
Qed.

Lemma represents_update c msg input :
  represents c msg -> Z.of_nat (length input) + 64 <= 2 ^ 32 ->
  represents (MD4Update 32 c input) (msg ++ input).
Proof.
  intros. destruct (decide (length msg mod 64 + length input < 64)%nat).
  - by apply represents_update_short.
  - apply represents_update_fill; [done|lia|done].
Qed.
Lemma represents_init c : length (buffer c) = 64%nat -> represents (MD4Init c) [].
Proof. intros. split; cbn; try done. Qed.
Lemma represents_chunks c msg chunks :
  represents c msg -> Forall (fun b => Z.of_nat (length b) + 64 <= 2 ^ 32) chunks ->
  represents (fold_left (MD4Update 32) chunks c) (msg ++ concat chunks).
Proof.
  intros R HF. revert c msg R. induction HF as [|b chunks Hb _ IH]; intros c msg R; cbn.
  - by rewrite app_nil_r.
  - rewrite app_assoc. apply IH. by apply represents_update.
Qed.
#[export] Hint Resolve represents_update represents_init represents_chunks : md4.

Lemma rep_counts c msg : represents c msg ->
  Encode [count0 c; count1 c] = le64 (8 * Z.of_nat (length msg)).
Proof.
  intros [H0 H1 _ _ _]. unfold le64. do 2 f_equal; [|f_equal]; unfold bitcount in H1.
  - change (2 ^ 32) with 4294967296 in *. change (2 ^ 64) with 18446744073709551616 in *. divmod.
  - change (2 ^ 32) with 4294967296 in *. change (2 ^ 64) with 18446744073709551616 in *. divmod.
Qed.

(** The bytes [MD4Final] feeds are the padding of RFC 1320. *)
Lemma final_padding msg :
  let index := Z.of_nat (length msg mod 64) in
  let padLen := if index <? 56 then 56 - index else 120 - index in
  take (Z.to_nat padLen) PADDING ++ le64 (8 * Z.of_nat (length msg)) = pad msg.
Proof.
  intros index padLen. unfold pad, PADDING.
  assert (0 < padLen <= 64 /\ padLen - 1 = (55 - Z.of_nat (length msg)) mod 64) as [Hp E].
  { subst padLen index. rewrite Nat2Z.inj_mod. change (Z.of_nat 64) with 64.
    destruct (Z.ltb_spec (Z.of_nat (length msg) mod 64) 56); divmod. }
  clearbody padLen. replace (Z.to_nat padLen) with (S (Z.to_nat (padLen - 1))) by lia.
  cbn [take app]. f_equal. rewrite take_replicate, E. do 2 f_equal. lia.
Qed.
Lemma pad_blocks msg : (length (msg ++ pad msg) mod 64 = 0)%nat.
Proof.
  unfold pad, le64, Encode. rewrite length_app. cbn [length]. rewrite length_app, length_replicate.
  cbn [length app mbind list_bind Encode_word]. apply Nat2Z.inj. rewrite Nat2Z.inj_mod.
  change (Z.of_nat 64) with 64. divmod.
Qed.

Lemma MD4Final_spec c msg : represents c msg -> fst (MD4Final 32 c) = md4_spec msg.
Proof.
  intros R. unfold MD4Final. cbn [fst]. rewrite (rep_index _ _ R), (rep_counts _ _ R).
  pose proof (final_padding msg) as Hp. cbv zeta in Hp.
  set (pads := take _ PADDING) in *.
  assert (length pads <= 64)%nat by (unfold pads; rewrite length_take; cbn; lia).
  assert (represents (MD4Update 32 (MD4Update 32 c pads) (le64 (8 * Z.of_nat (length msg))))
                     (msg ++ pad msg)) as R'.
  { rewrite <-Hp, app_assoc. apply represents_update; [apply represents_update; [done|lia]|].
    cbn. lia. }
  rewrite (rep_state _ _ R'). unfold md4_spec.
  by rewrite (absorb_ext _ compress _ _ _ (MD4Transform_compress)).
Qed.

(** * Properties *)

(** C1: However the message is cut into chunks, [MD4Init], one [MD4Update] per
    chunk and [MD4Final] produce the RFC 1320 digest of the whole message, with
    a 32-bit [UINT4]; every chunk must leave [i + 63] in an [unsigned int]. *)
Theorem MD4_digest_correct c chunks :
  length (buffer c) = 64%nat ->
  Forall (fun b => Z.of_nat (length b) + 64 <= 2 ^ 32) chunks ->
  MD4_digest 32 c chunks = md4_spec (concat chunks).
Proof. intros. apply MD4Final_spec. apply (represents_chunks _ []); auto with md4. Qed.

Lemma MD4_digest_correct_witness :
  MD4_digest 32 (ctx_of_garbage (replicate 64 7)) [[97]; [98; 99]] = md4_spec [97; 98; 99].
Proof.
  apply (MD4_digest_correct _ [[97]; [98; 99]]); [reflexivity|]. repeat constructor; cbn; lia.
Defined.

(** The 48 unrolled macro calls of [MD4Transform] are the table-driven
    compression function of RFC 1320, on every state and block. *)
Theorem MD4Transform_is_compress st block : MD4Transform 32 st block = compress st block.
Proof. apply MD4Transform_compress. Qed.

(** [count] is a 64-bit counter of message bits: one [MD4Update] adds eight
    times the input length modulo 2^64, carry into [count[1]] included. *)
Theorem MD4Update_bitcount c input :
  0 <= count0 c < 2 ^ 32 -> Z.of_nat (length input) < 2 ^ 32 ->
  0 <= count0 (MD4Update 32 c input) < 2 ^ 32 /\
  bitcount (MD4Update 32 c input) =
    (bitcount c + 8 * Z.of_nat (length input)) `mod` 2 ^ 64.
Proof.
  intros H0 Hl.
  pose proof (count_carry (Z.of_nat (length input)) (count0 c) (count1 c) ltac:(lia) H0) as [C0 C1].
  unfold bitcount, MD4Update. cbv zeta in *.
  repeat case_match; cbn [count0 count1] in *; auto.
Qed.

Lemma MD4Update_bitcount_witness :
  bitcount (MD4Update 32 (Ctx (St 0 0 0 0) (2 ^ 32 - 8) 5 (replicate 64 0)) [1; 2]) =
    2 ^ 32 * 6 + 8.
Proof.
  rewrite (proj2 (MD4Update_bitcount (Ctx (St 0 0 0 0) (2 ^ 32 - 8) 5 (replicate 64 0)) [1; 2]
    ltac:(cbn; lia) ltac:(cbn; lia))). reflexivity.
Defined.

(** With the 64-bit [unsigned long] of an LP64 platform the same code does not
    compute MD4: the digest of "abc" is not that of RFC 1320. *)
Theorem MD4_digest_LP64_wrong :
  MD4_digest 64 (ctx_of_garbage (replicate 64 0)) [[97; 98; 99]] <> md4_spec [97; 98; 99].
Proof. vm_compute. discriminate. Qed.

(** The test suite of RFC 1320, appendix A.5. *)
Example rfc1320_vectors :
  (md4_spec <$> [[]; [97]; [97; 98; 99];
     [109; 101; 115; 115; 97; 103; 101; 32; 100; 105; 103; 101; 115; 116]]) =
  [[0x31;0xd6;0xcf;0xe0;0xd1;0x6a;0xe9;0x31;0xb7;0x3c;0x59;0xd7;0xe0;0xc0;0x89;0xc0];
   [0xbd;0xe5;0x2c;0xb3;0x1d;0xe3;0x3e;0x46;0x24;0x5e;0x05;0xfb;0xdb;0xd6;0xfb;0x24];
   [0xa4;0x48;0x01;0x7a;0xaf;0x21;0xd8;0x52;0x5f;0xc1;0x0a;0xe8;0x7a;0xa6;0x72;0x9d];
   [0xd9;0x13;0x0a;0x81;0x64;0x54;0x9f;0xe8;0x18;0x87;0x48;0x06;0xe1;0xc7;0x01;0x4b]].
Proof. vm_compute. reflexivity. Qed.
