(* ===== verification/ErlTerm.v ===== *)
(** Driver term specifications: the [LOAD_*] macros shared by [md4_drv.c] and
    [loop_drv.c], and the meaning of the array they fill.

    The array [spec] with its fill index [i] is the list of the words written so
    far ([i] is its length): every macro writes at [i] and returns the new index. *)
From stdpp Require Export strings.
From S2P Require Import Prelude.

(** * Specifications *)

(** The [ERL_DRV_*] tags of [erl_driver.h]. *)
Inductive tag := ERL_DRV_ATOM | ERL_DRV_INT | ERL_DRV_PORT | ERL_DRV_PID | ERL_DRV_BINARY
  | ERL_DRV_STRING | ERL_DRV_STRING_CONS | ERL_DRV_TUPLE | ERL_DRV_LIST | ERL_DRV_NIL.

(** One [ErlDrvTermData]: a tag, an integer (also a port or pid), an atom made by
    [driver_mk_atom], or a pointer with the memory it points to. *)
Inductive word :=
  | Tag (t : tag) | Val (z : Z) | Atm (a : string) | Ptr (mem : bytes).
Abbreviation spec := (list word).

#[export] Instance tag_eq_dec : EqDecision tag.
Proof. solve_decision. Defined.
#[export] Instance word_eq_dec : EqDecision word.
Proof. solve_decision. Defined.

Definition LOAD_ATOM (vec : spec) (atom : string) : spec := vec ++ [Tag ERL_DRV_ATOM; Atm atom].
Definition LOAD_INT (vec : spec) (val : Z) : spec := vec ++ [Tag ERL_DRV_INT; Val val].
Definition LOAD_PORT (vec : spec) (port : Z) : spec := vec ++ [Tag ERL_DRV_PORT; Val port].
Definition LOAD_PID (vec : spec) (pid : Z) : spec := vec ++ [Tag ERL_DRV_PID; Val pid].
Definition LOAD_BINARY (vec : spec) (bin : bytes) (offs len : Z) : spec :=
  vec ++ [Tag ERL_DRV_BINARY; Ptr bin; Val len; Val offs].
Definition LOAD_STRING (vec : spec) (str : bytes) (len : Z) : spec :=
  vec ++ [Tag ERL_DRV_STRING; Ptr str; Val len].
Definition LOAD_STRING_CONS (vec : spec) (str : bytes) (len : Z) : spec :=
  vec ++ [Tag ERL_DRV_STRING_CONS; Ptr str; Val len].
Definition LOAD_TUPLE (vec : spec) (size : Z) : spec := vec ++ [Tag ERL_DRV_TUPLE; Val size].
Definition LOAD_NIL (vec : spec) : spec := vec ++ [Tag ERL_DRV_NIL].
Definition LOAD_LIST (vec : spec) (size : Z) : spec := vec ++ [Tag ERL_DRV_LIST; Val size].

(** * Meaning

    The documented reading of a specification (erl_driver, [driver_output_term]):
    a stack machine, each item pushes a term, a tuple takes its elements off the
    stack, a list its tail and then its elements, [STRING_CONS] prepends bytes to the list on top.  [None] when an item
    is malformed, reads outside its memory or underflows the stack. *)
Inductive term :=
  | TAtom (a : string) | TInt (z : Z) | TPort (z : Z) | TPid (z : Z)
  | TBinary (b : bytes) | TNil | TCons (h t : term) | TTuple (l : list term).

Definition string_on (l : bytes) (tl : term) : term :=
  foldr (fun b t => TCons (TInt b) t) tl l.
Definition TList (l : list term) : term := foldr TCons TNil l.
Definition TString (l : bytes) : term := string_on l TNil.

Definition read (mem : bytes) (offs len : Z) : option bytes :=
  if (0 <=? offs) && (0 <=? len) && (offs + len <=? Z.of_nat (length mem))
  then Some (slice (Z.to_nat offs) (Z.to_nat len) mem) else None.

Fixpoint eval (s : spec) (stack : list term) : option (list term) :=
  match s with
  | [] => Some stack
  | Tag ERL_DRV_ATOM :: Atm a :: s => eval s (TAtom a :: stack)
  | Tag ERL_DRV_INT :: Val z :: s => eval s (TInt z :: stack)
  | Tag ERL_DRV_PORT :: Val z :: s => eval s (TPort z :: stack)
  | Tag ERL_DRV_PID :: Val z :: s => eval s (TPid z :: stack)
  | Tag ERL_DRV_BINARY :: Ptr m :: Val len :: Val offs :: s =>
      b ← read m offs len; eval s (TBinary b :: stack)
  | Tag ERL_DRV_STRING :: Ptr m :: Val len :: s =>
      b ← read m 0 len; eval s (TString b :: stack)
  | Tag ERL_DRV_STRING_CONS :: Ptr m :: Val len :: s =>
      b ← read m 0 len;
      match stack with t :: stack => eval s (string_on b t :: stack) | [] => None end
  | Tag ERL_DRV_TUPLE :: Val n :: s =>
      let n := Z.to_nat n in
      if (n <=? length stack)%nat
      then eval s (TTuple (rev (take n stack)) :: drop n stack) else None
  | Tag ERL_DRV_LIST :: Val n :: s =>
      let n := Z.to_nat n in
      match stack with
      | tl :: stack' =>
          if (0 <? n)%nat && (n <=? length stack)%nat
          then eval s (foldl (fun t h => TCons h t) tl (take (n - 1) stack') :: drop (n - 1) stack')
          else None
      | [] => None
      end
  | Tag ERL_DRV_NIL :: s => eval s (TNil :: stack)
  | _ => None
  end.

(** The term a whole specification denotes. *)
Definition denotes (s : spec) (t : term) : Prop := eval s [] = Some [t].

(** [runs s stack stack']: the items of [s] take [stack] to [stack'], whatever
    follows them. *)
Definition runs (s : spec) (st st' : list term) : Prop :=
  forall rest, eval (s ++ rest) st = eval rest st'.

Lemma runs_nil st : runs [] st st.
Proof. done. Qed.
Lemma runs_app a b st st' st'' : runs a st st' -> runs b st' st'' -> runs (a ++ b) st st''.
Proof. intros Ha Hb rest. by rewrite <-app_assoc, Ha, Hb. Qed.
Lemma runs_denotes s t : runs s [] [t] -> denotes s t.
Proof. intros Hr. specialize (Hr []). rewrite app_nil_r in Hr. exact Hr. Qed.

Section Runs.
Context (v : spec) (st st' : list term) (Hv : runs v st st').
Lemma runs_atom a : runs (LOAD_ATOM v a) st (TAtom a :: st').
Proof. apply runs_app with st'; [done|]. by intros ?. Qed.
Lemma runs_int z : runs (LOAD_INT v z) st (TInt z :: st').
Proof. apply runs_app with st'; [done|]. by intros ?. Qed.
Lemma runs_port z : runs (LOAD_PORT v z) st (TPort z :: st').
Proof. apply runs_app with st'; [done|]. by intros ?. Qed.
Lemma runs_binary m o n b : read m o n = Some b -> runs (LOAD_BINARY v m o n) st (TBinary b :: st').
Proof. intros E. apply runs_app with st'; [done|]. intros ?. cbn [eval app]. by rewrite E. Qed.
Lemma runs_string m n b : read m 0 n = Some b -> runs (LOAD_STRING v m n) st (TString b :: st').
Proof. intros E. apply runs_app with st'; [done|]. intros ?. cbn [eval app]. by rewrite E. Qed.
Lemma runs_tuple n l st2 : st' = l ++ st2 -> Z.of_nat (length l) = n ->
  runs (LOAD_TUPLE v n) st (TTuple (rev l) :: st2).
Proof.
  intros E Hn. apply runs_app with st'; [done|]. intros ?. cbn [eval app].
  replace (Z.to_nat n) with (length l) by lia.
  rewrite E, length_app, take_app_length, drop_app_length.
  by rewrite (proj2 (Nat.leb_le _ _)) by lia.
Qed.
Lemma runs_nil_term : runs (LOAD_NIL v) st (TNil :: st').
Proof. apply runs_app with st'; [done|]. by intros ?. Qed.
(** A list of what is on the stack, and the nil. *)
Lemma runs_list n l st2 : st' = TNil :: rev l ++ st2 -> n = Z.of_nat (length l) + 1 -> runs (LOAD_LIST v n) st (TList l :: st2).
Proof.
  intros E ->. apply runs_app with st'; [done|]. intros ?. cbn [eval app]. rewrite E. replace (Z.to_nat _) with (S (length l)) by lia.
  cbn [length]. rewrite length_app, length_rev, (proj2 (Nat.leb_le _ _)) by lia. cbn [andb Nat.ltb Nat.leb]. rewrite Nat.sub_succ, Nat.sub_0_r.
  rewrite <-(length_rev l), take_app_length, drop_app_length. do 2 f_equal. unfold TList.
  clear. induction l as [|x l IH]; [done|]. cbn [rev foldr]. by rewrite foldl_app, IH.
Qed.
End Runs.
Lemma runs_string_cons v st t st' m n b : runs v st (t :: st') -> read m 0 n = Some b ->
  runs (LOAD_STRING_CONS v m n) st (string_on b t :: st').
Proof. intros Hv E. apply runs_app with (t :: st'); [done|]. intros ?. cbn [eval app]. by rewrite E. Qed.

Lemma read_slice m o n : 0 <= o -> 0 <= n -> o + n <= Z.of_nat (length m) ->
  read m o n = Some (slice (Z.to_nat o) (Z.to_nat n) m).
Proof. intros. unfold read. by rewrite !(proj2 (Z.leb_le _ _)) by lia. Qed.
Lemma read_all m : read m 0 (Z.of_nat (length m)) = Some m.
Proof.
  rewrite read_slice by lia. unfold slice. rewrite Nat2Z.id, drop_0. by rewrite take_ge.
Qed.
Lemma read_app b rest : read (b ++ rest) 0 (Z.of_nat (length b)) = Some b.
Proof.
  rewrite read_slice by (rewrite ?length_app; lia). unfold slice.
  by rewrite Nat2Z.id, drop_0, take_app_length.
Qed.
Lemma read_app_eq b rest n : n = Z.of_nat (length b) -> read (b ++ rest) 0 n = Some b.
Proof. intros ->. apply read_app. Qed.

Create HintDb spec.
#[export] Hint Resolve runs_nil runs_atom runs_int runs_port runs_binary runs_string
  runs_string_cons read_all read_app : spec.

(** A tuple over the topmost terms, for the sizes the drivers use. *)
Section Tuples.
Context (v : spec) (st k : list term) (a b c d e f : term).
Lemma runs_tuple2 : runs v st (b :: a :: k) -> runs (LOAD_TUPLE v 2) st (TTuple [a; b] :: k).
Proof. intros Hv. exact (runs_tuple _ _ _ Hv 2 [b; a] k eq_refl eq_refl). Qed.
Lemma runs_tuple3 : runs v st (c :: b :: a :: k) -> runs (LOAD_TUPLE v 3) st (TTuple [a; b; c] :: k).
Proof. intros Hv. exact (runs_tuple _ _ _ Hv 3 [c; b; a] k eq_refl eq_refl). Qed.
Lemma runs_tuple4 : runs v st (d :: c :: b :: a :: k) ->
  runs (LOAD_TUPLE v 4) st (TTuple [a; b; c; d] :: k).
Proof. intros Hv. exact (runs_tuple _ _ _ Hv 4 [d; c; b; a] k eq_refl eq_refl). Qed.
Lemma runs_tuple5 : runs v st (e :: d :: c :: b :: a :: k) ->
  runs (LOAD_TUPLE v 5) st (TTuple [a; b; c; d; e] :: k).
Proof. intros Hv. exact (runs_tuple _ _ _ Hv 5 [e; d; c; b; a] k eq_refl eq_refl). Qed.
Lemma runs_tuple6 : runs v st (f :: e :: d :: c :: b :: a :: k) ->
  runs (LOAD_TUPLE v 6) st (TTuple [a; b; c; d; e; f] :: k).
Proof. intros Hv. exact (runs_tuple _ _ _ Hv 6 [f; e; d; c; b; a] k eq_refl eq_refl). Qed.
End Tuples.
#[export] Hint Resolve runs_tuple2 runs_tuple3 runs_tuple4 runs_tuple5 runs_tuple6 : spec.
Ltac solve_spec := apply runs_denotes; eauto 30 with spec.
