(* ===== verification/Erts.v ===== *)
(** The interface between a driver and the Erlang runtime: the calls a driver
    makes ([erl_driver.h]), the port queue as a class with its documented laws,
    and the state monad the drivers are written in.

    The runtime is not part of this repository.  What it answers is a parameter:
    a function of the calls made so far. *)
From S2P Require Import Prelude ErlTerm.
#[local] Open Scope Z_scope.

(** * C strings *)

(** A C string stops at its first NUL. *)
Fixpoint c_str (b : bytes) : bytes :=
  match b with [] => [] | c :: b => if c =? 0 then [] else c :: c_str b end.
(** The characters of a string literal. *)
Definition lit (s : string) : bytes :=
  map (fun c => Z.of_nat (Ascii.nat_of_ascii c)) (String.list_ascii_of_string s).

(** [tolower] of each character. *)
Definition tolower_ascii (c : Ascii.ascii) : Ascii.ascii :=
  let n := Ascii.N_of_ascii c in
  if ((65 <=? n) && (n <=? 90))%N then Ascii.ascii_of_N (n + 32) else c.
Fixpoint tolower (s : string) : string :=
  match s with
  | EmptyString => EmptyString
  | String c s => String (tolower_ascii c) (tolower s)
  end.

(** ** Decimal numerals *)

Definition isdigit (c : Z) : bool := (48 <=? c) && (c <=? 57).
Fixpoint numeral_value (acc : Z) (s : bytes) : Z :=
  match s with [] => acc | c :: s => if isdigit c then numeral_value (10 * acc + (c - 48)) s else acc end.
(** [fuel] is the most digits there can be. *)
Fixpoint numeral (fuel : nat) (n : Z) : bytes :=
  match fuel with
  | O => []
  | S fuel => if n <? 10 then [48 + n] else numeral fuel (n / 10) ++ [48 + n mod 10]
  end.
Lemma numeral_value_app s c acc : Forall (fun c => isdigit c = true) s -> isdigit c = true ->
  numeral_value acc (s ++ [c]) = 10 * numeral_value acc s + (c - 48).
Proof.
  intros Hs Hc. revert acc. induction Hs as [|x s Hx _ IH]; intros acc; cbn [app numeral_value]; [by rewrite Hc|]. by rewrite Hx, IH.
Qed.
Lemma numeral_spec fuel n : (0 < fuel)%nat -> 0 <= n < 10 ^ Z.of_nat fuel ->
  Forall (fun c => isdigit c = true) (numeral fuel n) /\ numeral_value 0 (numeral fuel n) = n /\ numeral fuel n <> [].
Proof.
  intros Hf. destruct fuel as [|fuel]; [lia|]. clear Hf. revert n. induction fuel as [|fuel IH]; intros n Hn.
  - cbn [numeral]. rewrite (proj2 (Z.ltb_lt n 10)) by lia. assert (isdigit (48 + n) = true) as Hd by (unfold isdigit; lia).
    cbn [numeral_value]. rewrite Hd. split_and!; [by constructor|lia|done].
  - rewrite Nat2Z.inj_succ, Z.pow_succ_r in Hn by lia. remember (S fuel) as k eqn:Ek. cbn [numeral]. destruct (Z.ltb_spec n 10).
    + assert (isdigit (48 + n) = true) as Hd by (unfold isdigit; lia). cbn [numeral_value]. rewrite Hd. split_and!; [by constructor|lia|done].
    + assert (isdigit (48 + n mod 10) = true) as Hd by (unfold isdigit; pose proof (Z.mod_pos_bound n 10); lia).
      destruct (IH (n / 10)) as (H1 & H2 & H3); [split; [apply Z.div_pos; lia|apply Z.div_lt_upper_bound; lia]|]. split_and!.
      * apply Forall_app. split; [done|by constructor].
      * rewrite numeral_value_app, H2 by done. pose proof (Z.div_mod n 10). lia.
      * by destruct (numeral k (n / 10)).
Qed.

(** * Calls

    A pointer argument is the memory from there on, with the length passed. *)

Inductive call :=
  | SendTerm (to : Z) (s : spec)              (* driver_send_term *)
  | OutputTerm (s : spec)                     (* driver_output_term *)
  | Output (b : bytes) (len : Z)              (* driver_output *)
  | Output2 (h : bytes) (hlen : Z) (b : bytes) (blen : Z)   (* driver_output2 *)
  | OutputBinary (h : bytes) (hlen : Z) (bin : bytes) (offs len : Z)
                                              (* driver_output_binary *)
  | SetTimer (ms : Z) | CancelTimer           (* driver_set_timer, driver_cancel_timer *)
  | SetBusy (on : Z)                          (* set_busy_port *)
  | DriverExit (err : Z)                      (* driver_exit *)
  | Failure (reason : string).                (* driver_failure_atom *)
Abbreviation log := (list call).

(** Answers of the runtime, as functions of the calls made before (latest
    last): return code of an output call, success of an allocation of [n]
    bytes. *)
Class Runtime := {
  send_rc : log -> call -> Z;
  alloc_ok : log -> Z -> bool;
}.

(** Every allocation succeeds. *)
Class Memory `{RT : Runtime} : Prop := memory : forall l n, alloc_ok l n = true.

(** A runtime that always succeeds, and one that never allocates. *)
Definition rt_ok : Runtime := {| send_rc _ _ := 0; alloc_ok _ _ := true |}.
Definition rt_nomem : Runtime := {| send_rc _ _ := 0; alloc_ok _ _ := false |}.
#[export] Instance rt_ok_memory : Memory (RT := rt_ok).
Proof. done. Qed.

(** * The port queue *)

Class PortQueue (Q : Type) := {
  driver_enq : Q -> bytes -> Q;
  driver_deq : Q -> Z -> Q;
  driver_sizeq : Q -> Z;
  driver_peekq : Q -> list bytes;
}.
Class PortQueueLaws (Q : Type) `{PortQueue Q} := {
  q_bytes : Q -> bytes;
  q_enq_bytes q b : q_bytes (driver_enq q b) = q_bytes q ++ b;
  q_deq_bytes q n : 0 <= n <= Z.of_nat (length (q_bytes q)) ->
    q_bytes (driver_deq q n) = drop (Z.to_nat n) (q_bytes q);
  q_sizeq_bytes q : driver_sizeq q = Z.of_nat (length (q_bytes q));
  q_peekq_bytes q : concat (driver_peekq q) = q_bytes q;
}.

(** The segments of the queue are not empty. *)
Class Segments (Q : Type) `{PortQueueLaws Q} : Prop :=
  peekq_segments q c l : driver_peekq q = c :: l -> c <> [].
Lemma segments `{Segments Q} q : q_bytes q <> [] -> exists c l, driver_peekq q = c :: l /\ c <> [].
Proof.
  intros Hq. destruct (driver_peekq q) as [|c l] eqn:E; [|by eapply ex_intro, ex_intro, conj, peekq_segments].
  exfalso. apply Hq. by rewrite <-q_peekq_bytes, E.
Qed.

(** The queue as a list of chunks, one per [driver_enq]. *)
Fixpoint chunks_deq (q : list bytes) (n : nat) : list bytes :=
  match q with
  | [] => []
  | c :: q => if (n <? length c)%nat then drop n c :: q else chunks_deq q (n - length c)
  end.
#[export] Instance chunk_queue : PortQueue (list bytes) := {|
  driver_enq q b := q ++ [b];
  driver_deq q n := chunks_deq q (Z.to_nat n);
  driver_sizeq q := Z.of_nat (length (concat q));
  driver_peekq q := q |}.
Lemma chunks_deq_bytes q n : concat (chunks_deq q n) = drop n (concat q).
Proof.
  revert n. induction q as [|c q IH]; intros n; cbn [chunks_deq concat]; [by rewrite drop_nil|].
  destruct (Nat.ltb_spec n (length c)); cbn [concat].
  - rewrite drop_app_le by lia. done.
  - rewrite IH, drop_app_ge by lia. done.
Qed.
#[export] Instance chunk_queue_laws : PortQueueLaws (list bytes).
Proof.
  refine {| q_bytes := @concat Z |}; intros.
  - cbn. rewrite concat_app. cbn. by rewrite app_nil_r.
  - apply chunks_deq_bytes.
  - reflexivity.
  - reflexivity.
Defined.

(** The queue as one segment. *)
#[export] Instance flat_queue : PortQueue bytes := {|
  driver_enq q b := q ++ b;
  driver_deq q n := drop (Z.to_nat n) q;
  driver_sizeq q := Z.of_nat (length q);
  driver_peekq q := if q is [] then [] else [q] |}.
#[export] Instance flat_queue_laws : PortQueueLaws bytes.
Proof. refine {| q_bytes := fun q => q |}; try done. intros [|b q]; [done|]. cbn. by rewrite app_nil_r. Defined.
#[export] Instance flat_segments : Segments bytes.
Proof. intros [|b q] c l; [done|]. by intros [= <- <-]. Qed.

(** Vectored input and output, [driver_enqv] and [driver_vec_to_buf]: an [ErlIOVec]
    is the list of its segments. *)
Class IOVec (Q : Type) := {
  driver_enqv : Q -> list bytes -> Z -> Q;
  driver_vec_to_buf : list bytes -> Z -> bytes;
}.
Class IOVecLaws (Q : Type) `{PortQueueLaws Q, !IOVec Q} : Prop := {
  q_enqv_bytes q ev n : 0 <= n <= Z.of_nat (length (concat ev)) ->
    q_bytes (driver_enqv q ev n) = q_bytes q ++ drop (Z.to_nat n) (concat ev);
  vec_to_buf_bytes ev n : 0 <= n -> driver_vec_to_buf ev n = take (Z.to_nat n) (concat ev);
}.
#[export] Instance chunk_iovec : IOVec (list bytes) := {|
  driver_enqv q ev n := q ++ [drop (Z.to_nat n) (concat ev)];
  driver_vec_to_buf ev n := take (Z.to_nat n) (concat ev) |}.
#[export] Instance chunk_iovec_laws : IOVecLaws (list bytes).
Proof.
  split; [|done]. intros q ev n _. cbn. rewrite concat_app. cbn. by rewrite app_nil_r.
Qed.

#[export] Instance flat_iovec : IOVec bytes := {|
  driver_enqv q ev n := q ++ drop (Z.to_nat n) (concat ev);
  driver_vec_to_buf ev n := take (Z.to_nat n) (concat ev) |}.
#[export] Instance flat_iovec_laws : IOVecLaws bytes.
Proof. by split. Qed.

(** * The state monad of a driver *)

Definition M (S A : Type) : Type := S -> A * S.
#[export] Instance M_ret S : MRet (M S) := fun A a s => (a, s).
#[export] Instance M_bind S : MBind (M S) := fun A B f m s => let '(a, s') := m s in f a s'.
Definition get {S} : M S S := fun s => (s, s).
Definition gets {S A} (f : S -> A) : M S A := fun s => (f s, s).
Definition modify {S} (f : S -> S) : M S unit := fun s => (tt, f s).
Definition skip {S} : M S unit := fun s => (tt, s).
Arguments M_ret {_} _ _ /.
Arguments M_bind {_} _ _ _ _ /.
Notation "m ;;; k" := (mbind (fun _ => k) m) (at level 100, k at level 200, right associativity).
Notation "'when' c 'do' m" := (if c then m else skip) (at level 99, c at level 99, m at level 99).

(** * Reasoning about driver code *)

(** Run straight-line code on a state. *)
Ltac run := cbv [mbind M_bind mret M_ret get gets modify skip]; cbn.

Lemma bind_eq {S A B} (m : M S A) (f : A -> M S B) s a s' :
  m s = (a, s') -> mbind f m s = f a s'.
Proof. intros E. unfold mbind, M_bind. by rewrite E. Qed.

(**

    [ensures R m]: whatever the state, [m] relates it to the state it leaves. *)
Section Ensures.
Context {S : Type} (R : S -> S -> Prop) `{!PreOrder R}.
Definition ensures {A} (m : M S A) : Prop := forall s, R s (snd (m s)).
Lemma ensures_ret {A} (a : A) : ensures (mret a).
Proof. intros s. cbn. reflexivity. Qed.
Lemma ensures_skip : ensures skip.
Proof. intros s. cbn. reflexivity. Qed.
Lemma ensures_get : ensures get.
Proof. intros s. cbn. reflexivity. Qed.
Lemma ensures_gets {A} (f : S -> A) : ensures (gets f).
Proof. intros s. cbn. reflexivity. Qed.
Lemma ensures_bind {A B} (m : M S A) (f : A -> M S B) :
  ensures m -> (forall a, ensures (f a)) -> ensures (mbind f m).
Proof.
  intros Hm Hf s. unfold mbind, M_bind. specialize (Hm s). destruct (m s) as [a s'].
  cbn in Hm. etransitivity; [exact Hm|apply Hf].
Qed.
Lemma ensures_modify (f : S -> S) : (forall s, R s (f s)) -> ensures (modify f).
Proof. intros Hf s. apply Hf. Qed.
End Ensures.
(** Walk through the code, [leaf] solving the primitive steps. *)
Ltac walk leaf :=
  repeat
    (cbv beta zeta;
     lazymatch goal with
     | |- ensures _ skip => apply ensures_skip; exact _
     | |- ensures _ (mret _) => apply ensures_ret; exact _
     | |- ensures _ (gets _) => apply ensures_gets; exact _
     | |- ensures _ (mbind _ _) => apply ensures_bind; [exact _| |intros ?]
     | |- ensures _ (match ?x with _ => _ end) => destruct x eqn:?
     | |- ensures _ _ => solve [leaf]
     end).

(** Calls of a driver whose state carries its log. *)
Class HasLog (S : Type) := { log_of : S -> log; set_log : log -> S -> S }.
Section Calls.
Context {S : Type} `{!HasLog S} `{!Runtime}.
(** Make a call and return the runtime's answer. *)
Definition do_call (c : call) : M S Z := fun s =>
  (send_rc (log_of s) c, set_log (log_of s ++ [c]) s).
Definition driver_send_term (to : Z) (sp : spec) : M S Z := do_call (SendTerm to sp).
Definition driver_output_term (sp : spec) : M S Z := do_call (OutputTerm sp).
Definition driver_alloc_ok (n : Z) : M S bool := fun s => (alloc_ok (log_of s) n, s).
End Calls.
