(* ===== verification/Md4Drv.v ===== *)
(** The MD4 driver: [esmb/c_src/md4_drv.c].  A port command is one message;
    the answer is its digest, sent to the caller. *)
From S2P Require Import Prelude Md4 ErlTerm Erts.
#[local] Open Scope Z_scope.

(** [t_md4drv]; [context] and [digest] of the C struct are never used. The [world]
    adds the log of the calls made. *)
Record t_md4drv := Md4drv { port : Z; dport : Z }.
Record world := World { md4 : t_md4drv; calls : log }.
#[export] Instance world_log : HasLog world :=
  {| log_of := calls; set_log l s := World (md4 s) l |}.

Section Driver.
Context `{!Runtime}.
Abbreviation Md4 := (M world).

(** [driver_mk_port] maps a port to its identifier; [sizeof(t_md4drv)] is the
    parameter [sz]. [None] is [(ErlDrvData) -1]. *)
Definition md4drv_start (driver_mk_port : Z -> Z) (sz : Z) (port : Z) : option world :=
  if alloc_ok [] sz then Some (World (Md4drv port (driver_mk_port port)) []) else None.

Definition driver_send_bin (to : Z) (bin : bytes) (len : Z) : Md4 Z :=
  d ← gets md4;
  let spec := LOAD_PORT [] (dport d) in
  let spec := LOAD_ATOM spec "value" in
  let spec := LOAD_BINARY spec bin 0 len in
  let spec := LOAD_TUPLE spec 3 in
  driver_send_term to spec.

Definition driver_send_error (to : Z) (am : string) : Md4 Z :=
  d ← gets md4;
  let spec := LOAD_PORT [] (dport d) in
  let spec := LOAD_ATOM spec "error" in
  let spec := LOAD_ATOM spec am in
  let spec := LOAD_TUPLE spec 3 in
  driver_send_term to spec.

(** [to] is [driver_caller]; [w] the width of [UINT4]; [garbage] the 64 indeterminate
    bytes of the local [context.buffer]. *)
Definition md4drv_from_erlang (w : Z) (garbage : bytes) (to : Z) (buf : bytes) : Md4 unit :=
  let context := MD4Init (ctx_of_garbage garbage) in
  let context := MD4Update w context buf in
  let '(digest, _) := MD4Final w context in
  ok ← driver_alloc_ok 16;
  if negb ok : bool then
    driver_send_error to "enomem";;; skip
  else
    driver_send_bin to digest 16;;; skip.
End Driver.

Lemma length_md4_digest w c : length (fst (MD4Final w c)) = 16%nat.
Proof. done. Qed.

(** A port command is answered by exactly one message to its caller, which
    denotes {Port, value, Digest} with the RFC 1320 digest of the command when the
    binary can be allocated and {Port, error, enomem} when not. *)
Theorem md4drv_from_erlang_answer `{!Runtime} garbage to buf s :
  length garbage = 64%nat -> Z.of_nat (length buf) < 2 ^ 31 ->
  exists sp,
    calls (snd (md4drv_from_erlang 32 garbage to buf s)) = calls s ++ [SendTerm to sp] /\
    denotes sp (if alloc_ok (calls s) 16
      then TTuple [TPort (dport (md4 s)); TAtom "value"; TBinary (md4_spec buf)]
      else TTuple [TPort (dport (md4 s)); TAtom "error"; TAtom "enomem"]).
Proof.
  intros Hg Hb.
  assert (fst (MD4Final 32 (MD4Update 32 (MD4Init (ctx_of_garbage garbage)) buf)) = md4_spec buf) as E.
  { apply (MD4Final_spec _ ([] ++ buf)). apply represents_update; [|lia]. by apply represents_init. }
  unfold md4drv_from_erlang, driver_alloc_ok, mbind, M_bind. cbn [log_of world_log].
  destruct (MD4Final 32 _) as [digest c'] eqn:EF. cbn [fst] in E. subst digest.
  pose proof (f_equal (fun p => length (fst p)) EF) as L. cbn [fst] in L.
  rewrite length_md4_digest in L.
  destruct (alloc_ok (calls s) 16); cbn [negb]; eexists; (split; [reflexivity|]).
  - assert (read (md4_spec buf) 0 16 = Some (md4_spec buf)).
    { change 16 with (Z.of_nat 16). rewrite L. apply read_all. }
    solve_spec.
  - solve_spec.
Qed.

Lemma md4drv_from_erlang_answer_witness :
  exists sp,
    calls (snd (@md4drv_from_erlang rt_ok 32 (replicate 64 0) 7 [97; 98; 99]
                 (World (Md4drv 1 2) []))) = [SendTerm 7 sp] /\
    denotes sp (TTuple [TPort 2; TAtom "value"; TBinary (md4_spec [97; 98; 99])]).
Proof.
  apply (@md4drv_from_erlang_answer rt_ok (replicate 64 0) 7 [97; 98; 99] (World (Md4drv 1 2) []));
    [reflexivity|cbn; lia].
Defined.
