(* ===== verification/SlTermios.v ===== *)
(** The serial line driver, part one: its state and the terminal settings,
    [sl/c_src/sl_drv.c] lines 74-798 (the Unix branches).

    [<termios.h>] is not part of the repository: its constants and the [cf*]
    functions are the class [Termios]; which of the optional constants exist is
    a part of it, so the [#ifdef]s of the source are tests on the class. *)
From stdpp Require Import sorting.
From S2P Require Import Prelude.
#[local] Open Scope Z_scope.

(** * State *)

(** [struct termios]; [c_cc] elements are [unsigned char]. *)
Record termios := Tio {
  c_iflag : Z;
  c_oflag : Z;
  c_cflag : Z;
  c_lflag : Z;
  c_cc : bytes;
}.
Definition set_c_iflag (v : Z) (s : termios) : termios :=
  Tio v (c_oflag s) (c_cflag s) (c_lflag s) (c_cc s).
Definition set_c_oflag (v : Z) (s : termios) : termios :=
  Tio (c_iflag s) v (c_cflag s) (c_lflag s) (c_cc s).
Definition set_c_cflag (v : Z) (s : termios) : termios :=
  Tio (c_iflag s) (c_oflag s) v (c_lflag s) (c_cc s).
Definition set_c_lflag (v : Z) (s : termios) : termios :=
  Tio (c_iflag s) (c_oflag s) (c_cflag s) v (c_cc s).
Definition set_c_cc (v : bytes) (s : termios) : termios :=
  Tio (c_iflag s) (c_oflag s) (c_cflag s) (c_lflag s) v.

Class Termios := {
  NCCS : nat;                   (* elements of c_cc *)
  ICRNL : Z; INLCR : Z; IGNCR : Z; ISTRIP : Z; BRKINT : Z; IGNPAR : Z; IGNBRK : Z;
  INPCK : Z; PARMRK : Z; IXON : Z; IXOFF : Z;
  ECHOE : Z; ECHOK : Z; ECHOKE : Z; ECHONL : Z; ISIG : Z; IEXTEN : Z; ICANON : Z; ECHO : Z;
  OPOST : Z;
  CLOCAL : Z; PARENB : Z; PARODD : Z; CSTOPB : Z; CRTSCTS : Z;
  CSIZE : Z; CS5 : Z; CS6 : Z; CS7 : Z; CS8 : Z;
  VMIN : nat; VTIME : nat; VINTR : nat; VQUIT : nat; VERASE : nat; VKILL : nat; VEOF : nat;
  VSWTC : nat; VSUSP : nat; VEOL : nat; VSTART : nat; VSTOP : nat;
  VDISCARD : option nat; VREPRINT : option nat; VWERASE : option nat;
  VLNEXT : option nat; VEOL2 : option nat;
  B : Z -> Z;                   (* B0, B50, ..., by baud rate *)
  B_defined : Z -> bool;        (* #ifdef B<n>, for the optional ones *)
  EXTA : option Z; EXTB : option Z;
  cfsetispeed : termios -> Z -> termios;
  cfsetospeed : termios -> Z -> termios;
  cfgetispeed : termios -> Z;
}.

(** [sl_t]. *)
Record sl_t := Sl {
  port : Z;
  com : Z;  (* connection handle, -1 = INVALID *)
  ilen : Z;  (* length of input buffer *)
  ibuf : option Z;  (* NULL, or a block of that many bytes *)
  ipending : Z;
  olen : Z;
  obuf : option Z;
  opending : Z;  (* output is pending (windows only) *)
  cmode : Z;  (* current mode *)
  tio : termios;
  dev : option bytes;  (* device name, without the final NUL *)
  flags : Z;  (* pending changes, FL_ bits *)
  baud : Z;
  csize : Z;  (* 5,6,7,8 *)
  stopb : Z;  (* 1,2 *)
  parity : Z;  (* None=0,Odd=1,Even=2 *)
  hwflow : Z;
  swflow : Z;
  echo : Z;
  xonchar : Z;
  xoffchar : Z;
  eolchar : Z;
  eol2char : Z;
  bufsz : Z;  (* number of bytes to buffer *)
  buftm : Z;  (* buffer fill timeout *)
  mode : Z;  (* pending mode, RAW or LINE *)
}.
Definition w_port (v : Z) (s : sl_t) : sl_t :=
  Sl v (com s) (ilen s) (ibuf s) (ipending s) (olen s) (obuf s) (opending s) (cmode s) (tio s) (dev s) (flags s) (baud s) (csize s) (stopb s) (parity s) (hwflow s) (swflow s) (echo s) (xonchar s) (xoffchar s) (eolchar s) (eol2char s) (bufsz s) (buftm s) (mode s).
Definition w_com (v : Z) (s : sl_t) : sl_t :=
  Sl (port s) v (ilen s) (ibuf s) (ipending s) (olen s) (obuf s) (opending s) (cmode s) (tio s) (dev s) (flags s) (baud s) (csize s) (stopb s) (parity s) (hwflow s) (swflow s) (echo s) (xonchar s) (xoffchar s) (eolchar s) (eol2char s) (bufsz s) (buftm s) (mode s).
Definition w_ilen (v : Z) (s : sl_t) : sl_t :=
  Sl (port s) (com s) v (ibuf s) (ipending s) (olen s) (obuf s) (opending s) (cmode s) (tio s) (dev s) (flags s) (baud s) (csize s) (stopb s) (parity s) (hwflow s) (swflow s) (echo s) (xonchar s) (xoffchar s) (eolchar s) (eol2char s) (bufsz s) (buftm s) (mode s).
Definition w_ibuf (v : option Z) (s : sl_t) : sl_t :=
  Sl (port s) (com s) (ilen s) v (ipending s) (olen s) (obuf s) (opending s) (cmode s) (tio s) (dev s) (flags s) (baud s) (csize s) (stopb s) (parity s) (hwflow s) (swflow s) (echo s) (xonchar s) (xoffchar s) (eolchar s) (eol2char s) (bufsz s) (buftm s) (mode s).
Definition w_ipending (v : Z) (s : sl_t) : sl_t :=
  Sl (port s) (com s) (ilen s) (ibuf s) v (olen s) (obuf s) (opending s) (cmode s) (tio s) (dev s) (flags s) (baud s) (csize s) (stopb s) (parity s) (hwflow s) (swflow s) (echo s) (xonchar s) (xoffchar s) (eolchar s) (eol2char s) (bufsz s) (buftm s) (mode s).
Definition w_olen (v : Z) (s : sl_t) : sl_t :=
  Sl (port s) (com s) (ilen s) (ibuf s) (ipending s) v (obuf s) (opending s) (cmode s) (tio s) (dev s) (flags s) (baud s) (csize s) (stopb s) (parity s) (hwflow s) (swflow s) (echo s) (xonchar s) (xoffchar s) (eolchar s) (eol2char s) (bufsz s) (buftm s) (mode s).
Definition w_obuf (v : option Z) (s : sl_t) : sl_t :=
  Sl (port s) (com s) (ilen s) (ibuf s) (ipending s) (olen s) v (opending s) (cmode s) (tio s) (dev s) (flags s) (baud s) (csize s) (stopb s) (parity s) (hwflow s) (swflow s) (echo s) (xonchar s) (xoffchar s) (eolchar s) (eol2char s) (bufsz s) (buftm s) (mode s).
Definition w_opending (v : Z) (s : sl_t) : sl_t :=
  Sl (port s) (com s) (ilen s) (ibuf s) (ipending s) (olen s) (obuf s) v (cmode s) (tio s) (dev s) (flags s) (baud s) (csize s) (stopb s) (parity s) (hwflow s) (swflow s) (echo s) (xonchar s) (xoffchar s) (eolchar s) (eol2char s) (bufsz s) (buftm s) (mode s).
Definition w_cmode (v : Z) (s : sl_t) : sl_t :=
  Sl (port s) (com s) (ilen s) (ibuf s) (ipending s) (olen s) (obuf s) (opending s) v (tio s) (dev s) (flags s) (baud s) (csize s) (stopb s) (parity s) (hwflow s) (swflow s) (echo s) (xonchar s) (xoffchar s) (eolchar s) (eol2char s) (bufsz s) (buftm s) (mode s).
Definition w_tio (v : termios) (s : sl_t) : sl_t :=
  Sl (port s) (com s) (ilen s) (ibuf s) (ipending s) (olen s) (obuf s) (opending s) (cmode s) v (dev s) (flags s) (baud s) (csize s) (stopb s) (parity s) (hwflow s) (swflow s) (echo s) (xonchar s) (xoffchar s) (eolchar s) (eol2char s) (bufsz s) (buftm s) (mode s).
Definition w_dev (v : option bytes) (s : sl_t) : sl_t :=
  Sl (port s) (com s) (ilen s) (ibuf s) (ipending s) (olen s) (obuf s) (opending s) (cmode s) (tio s) v (flags s) (baud s) (csize s) (stopb s) (parity s) (hwflow s) (swflow s) (echo s) (xonchar s) (xoffchar s) (eolchar s) (eol2char s) (bufsz s) (buftm s) (mode s).
Definition w_flags (v : Z) (s : sl_t) : sl_t :=
  Sl (port s) (com s) (ilen s) (ibuf s) (ipending s) (olen s) (obuf s) (opending s) (cmode s) (tio s) (dev s) v (baud s) (csize s) (stopb s) (parity s) (hwflow s) (swflow s) (echo s) (xonchar s) (xoffchar s) (eolchar s) (eol2char s) (bufsz s) (buftm s) (mode s).
Definition w_baud (v : Z) (s : sl_t) : sl_t :=
  Sl (port s) (com s) (ilen s) (ibuf s) (ipending s) (olen s) (obuf s) (opending s) (cmode s) (tio s) (dev s) (flags s) v (csize s) (stopb s) (parity s) (hwflow s) (swflow s) (echo s) (xonchar s) (xoffchar s) (eolchar s) (eol2char s) (bufsz s) (buftm s) (mode s).
Definition w_csize (v : Z) (s : sl_t) : sl_t :=
  Sl (port s) (com s) (ilen s) (ibuf s) (ipending s) (olen s) (obuf s) (opending s) (cmode s) (tio s) (dev s) (flags s) (baud s) v (stopb s) (parity s) (hwflow s) (swflow s) (echo s) (xonchar s) (xoffchar s) (eolchar s) (eol2char s) (bufsz s) (buftm s) (mode s).
Definition w_stopb (v : Z) (s : sl_t) : sl_t :=
  Sl (port s) (com s) (ilen s) (ibuf s) (ipending s) (olen s) (obuf s) (opending s) (cmode s) (tio s) (dev s) (flags s) (baud s) (csize s) v (parity s) (hwflow s) (swflow s) (echo s) (xonchar s) (xoffchar s) (eolchar s) (eol2char s) (bufsz s) (buftm s) (mode s).
Definition w_parity (v : Z) (s : sl_t) : sl_t :=
  Sl (port s) (com s) (ilen s) (ibuf s) (ipending s) (olen s) (obuf s) (opending s) (cmode s) (tio s) (dev s) (flags s) (baud s) (csize s) (stopb s) v (hwflow s) (swflow s) (echo s) (xonchar s) (xoffchar s) (eolchar s) (eol2char s) (bufsz s) (buftm s) (mode s).
Definition w_hwflow (v : Z) (s : sl_t) : sl_t :=
  Sl (port s) (com s) (ilen s) (ibuf s) (ipending s) (olen s) (obuf s) (opending s) (cmode s) (tio s) (dev s) (flags s) (baud s) (csize s) (stopb s) (parity s) v (swflow s) (echo s) (xonchar s) (xoffchar s) (eolchar s) (eol2char s) (bufsz s) (buftm s) (mode s).
Definition w_swflow (v : Z) (s : sl_t) : sl_t :=
  Sl (port s) (com s) (ilen s) (ibuf s) (ipending s) (olen s) (obuf s) (opending s) (cmode s) (tio s) (dev s) (flags s) (baud s) (csize s) (stopb s) (parity s) (hwflow s) v (echo s) (xonchar s) (xoffchar s) (eolchar s) (eol2char s) (bufsz s) (buftm s) (mode s).
Definition w_echo (v : Z) (s : sl_t) : sl_t :=
  Sl (port s) (com s) (ilen s) (ibuf s) (ipending s) (olen s) (obuf s) (opending s) (cmode s) (tio s) (dev s) (flags s) (baud s) (csize s) (stopb s) (parity s) (hwflow s) (swflow s) v (xonchar s) (xoffchar s) (eolchar s) (eol2char s) (bufsz s) (buftm s) (mode s).
Definition w_xonchar (v : Z) (s : sl_t) : sl_t :=
  Sl (port s) (com s) (ilen s) (ibuf s) (ipending s) (olen s) (obuf s) (opending s) (cmode s) (tio s) (dev s) (flags s) (baud s) (csize s) (stopb s) (parity s) (hwflow s) (swflow s) (echo s) v (xoffchar s) (eolchar s) (eol2char s) (bufsz s) (buftm s) (mode s).
Definition w_xoffchar (v : Z) (s : sl_t) : sl_t :=
  Sl (port s) (com s) (ilen s) (ibuf s) (ipending s) (olen s) (obuf s) (opending s) (cmode s) (tio s) (dev s) (flags s) (baud s) (csize s) (stopb s) (parity s) (hwflow s) (swflow s) (echo s) (xonchar s) v (eolchar s) (eol2char s) (bufsz s) (buftm s) (mode s).
Definition w_eolchar (v : Z) (s : sl_t) : sl_t :=
  Sl (port s) (com s) (ilen s) (ibuf s) (ipending s) (olen s) (obuf s) (opending s) (cmode s) (tio s) (dev s) (flags s) (baud s) (csize s) (stopb s) (parity s) (hwflow s) (swflow s) (echo s) (xonchar s) (xoffchar s) v (eol2char s) (bufsz s) (buftm s) (mode s).
Definition w_eol2char (v : Z) (s : sl_t) : sl_t :=
  Sl (port s) (com s) (ilen s) (ibuf s) (ipending s) (olen s) (obuf s) (opending s) (cmode s) (tio s) (dev s) (flags s) (baud s) (csize s) (stopb s) (parity s) (hwflow s) (swflow s) (echo s) (xonchar s) (xoffchar s) (eolchar s) v (bufsz s) (buftm s) (mode s).
Definition w_bufsz (v : Z) (s : sl_t) : sl_t :=
  Sl (port s) (com s) (ilen s) (ibuf s) (ipending s) (olen s) (obuf s) (opending s) (cmode s) (tio s) (dev s) (flags s) (baud s) (csize s) (stopb s) (parity s) (hwflow s) (swflow s) (echo s) (xonchar s) (xoffchar s) (eolchar s) (eol2char s) v (buftm s) (mode s).
Definition w_buftm (v : Z) (s : sl_t) : sl_t :=
  Sl (port s) (com s) (ilen s) (ibuf s) (ipending s) (olen s) (obuf s) (opending s) (cmode s) (tio s) (dev s) (flags s) (baud s) (csize s) (stopb s) (parity s) (hwflow s) (swflow s) (echo s) (xonchar s) (xoffchar s) (eolchar s) (eol2char s) (bufsz s) v (mode s).
Definition w_mode (v : Z) (s : sl_t) : sl_t :=
  Sl (port s) (com s) (ilen s) (ibuf s) (ipending s) (olen s) (obuf s) (opending s) (cmode s) (tio s) (dev s) (flags s) (baud s) (csize s) (stopb s) (parity s) (hwflow s) (swflow s) (echo s) (xonchar s) (xoffchar s) (eolchar s) (eol2char s) (bufsz s) (buftm s) v.

Definition INVALID : Z := -1.

Definition SL_MODE_RAW := 0.
Definition SL_MODE_LINE := 1.

Definition FL_BAUD := 0x0001.
Definition FL_CSIZE := 0x0004.
Definition FL_STOPB := 0x0008.
Definition FL_PARITY := 0x0010.
Definition FL_BUFSZ := 0x0020.
Definition FL_BUFTM := 0x0040.
Definition FL_HWFLOW := 0x0080.
Definition FL_SWFLOW := 0x0100.
Definition FL_XONCHAR := 0x0200.
Definition FL_XOFFCHAR := 0x0400.
Definition FL_ECHO := 0x0800.
Definition FL_EOLCHAR := 0x1000.
Definition FL_EOL2CHAR := 0x2000.
Definition FL_MODE := 0x8000.

(** [x |= m], [x &= ~m], [x & m] as a condition. *)
Definition set_bits (x m : Z) : Z := (x |. m)%C.
Definition clr_bits (x m : Z) : Z := (x & ~. m)%C.
Definition has_bits (x m : Z) : bool := c_true (x & m)%C.

Section Termios.
Context `{T : Termios}.

(** * Baud rates *)

Definition opt_rate (baud : Z) (alt : option Z) : list (Z * Z) :=
  if B_defined baud then [(baud, B baud)]
  else match alt with Some s => [(baud, s)] | None => [] end.

(** [rtab], {baud, speed}, closed by baud -1. *)
Definition rates : list (Z * Z) :=
  [(0, B 0); (50, B 50); (75, B 75); (110, B 110); (134, B 134); (150, B 150); (200, B 200);
   (300, B 300); (600, B 600); (1200, B 1200); (1800, B 1800); (2400, B 2400); (4800, B 4800);
   (9600, B 9600)] ++
  opt_rate 19200 EXTA ++ opt_rate 38400 EXTB ++ opt_rate 57600 None ++ opt_rate 76800 None ++
  opt_rate 115200 None ++ opt_rate 153600 None ++ opt_rate 230400 None ++
  opt_rate 307200 None ++ opt_rate 460800 None ++ opt_rate 500000 None ++
  opt_rate 576000 None ++ opt_rate 921600 None ++ opt_rate 1000000 None ++
  opt_rate 1152000 None ++ opt_rate 1500000 None ++ opt_rate 2000000 None ++
  opt_rate 2500000 None ++ opt_rate 3000000 None ++ opt_rate 3500000 None ++
  opt_rate 4000000 None.
Definition rtab : list (Z * Z) := rates ++ [(-1, B 0)].

(** [while ((rtab[i].baud != -1) && stop) i++]: the index where the scan of a
    table stops. *)
Fixpoint scan (go : Z * Z -> bool) (tab : list (Z * Z)) (i : nat) : nat :=
  match tab with
  | [] => i
  | r :: tab => if negb (fst r =? -1) && go r then scan go tab (S i) else i
  end.
Definition rtab_at (i : nat) : Z * Z := nth i rtab (-1, B 0).

Definition to_speed (baud : Z) : Z :=
  let i := scan (fun r => fst r <? baud) rtab 0 in
  if fst (rtab_at i) =? -1 then snd (rtab_at (i - 1)) else snd (rtab_at i).

Definition from_speed (speed : Z) : Z :=
  let i := scan (fun r => negb (snd r =? speed)) rtab 0 in
  fst (rtab_at i).

(** * Reading and writing the settings *)

Definition put_cc (i : nat) (v : Z) (t : termios) : termios := set_c_cc (<[i := u8 v]> (c_cc t)) t.
Definition put_cc_opt (i : option nat) (v : Z) (t : termios) : termios :=
  match i with Some i => put_cc i v t | None => t end.
Definition get_cc (i : nat) (t : termios) : Z := byte_at (c_cc t) i.
Definition on_tio (f : termios -> termios) (slp : sl_t) : sl_t := w_tio (f (tio slp)) slp.

Definition raw_iflags : Z :=
  (ICRNL |. INLCR |. IGNCR |. ISTRIP |. BRKINT |. IGNPAR |. IGNBRK |. INPCK)%C.
Definition raw_lflags : Z := (ECHOE |. ECHOK |. ECHOKE |. ECHONL |. ISIG |. IEXTEN)%C.

Definition raw_tio (t : termios) : termios :=
  let t := set_c_iflag (clr_bits (c_iflag t) raw_iflags) t in
  let t := set_c_lflag (clr_bits (c_lflag t) raw_lflags) t in
  let t := set_c_lflag (clr_bits (c_lflag t) ICANON) t in
  let t := set_c_oflag (clr_bits (c_oflag t) OPOST) t in
  let t := set_c_cflag (set_bits (c_cflag t) CLOCAL) t in
  let t := put_cc VMIN 1 t in
  put_cc VTIME 0 t.
Definition set_raw_mode (slp : sl_t) : sl_t := w_cmode SL_MODE_RAW (on_tio raw_tio slp).

Definition line_tio (t : termios) : termios :=
  let t := set_c_iflag (clr_bits (c_iflag t) raw_iflags) t in
  let t := set_c_lflag (clr_bits (c_lflag t) raw_lflags) t in
  let t := set_c_lflag (set_bits (c_lflag t) ICANON) t in
  let t := set_c_oflag (clr_bits (c_oflag t) OPOST) t in
  let t := set_c_cflag (set_bits (c_cflag t) CLOCAL) t in
  let t := put_cc VINTR 0 t in
  let t := put_cc VQUIT 0 t in
  let t := put_cc VERASE 0 t in
  let t := put_cc VKILL 0 t in
  let t := put_cc VEOF 0 t in
  let t := put_cc VSWTC 0 t in
  let t := put_cc VSUSP 0 t in
  let t := put_cc VEOL 0 t in
  let t := put_cc_opt VDISCARD 0 t in
  let t := put_cc_opt VREPRINT 0 t in
  let t := put_cc_opt VWERASE 0 t in
  let t := put_cc_opt VLNEXT 0 t in
  put_cc_opt VEOL2 0 t.
Definition set_line_mode (slp : sl_t) : sl_t := w_cmode SL_MODE_LINE (on_tio line_tio slp).

Definition set_baud (slp : sl_t) (baud : Z) : sl_t :=
  let slp := on_tio (fun t => cfsetispeed t (to_speed baud)) slp in
  on_tio (fun t => cfsetospeed t (to_speed baud)) slp.
Definition get_baud (slp : sl_t) : Z := from_speed (cfgetispeed (tio slp)).

Definition set_parity (slp : sl_t) (parity : Z) : sl_t :=
  on_tio (fun t =>
    if parity =? 0 then                                      (* none *)
      let t := set_c_iflag (clr_bits (c_iflag t) PARMRK) t in
      set_c_cflag (clr_bits (c_cflag t) PARENB) t
    else if parity =? 1 then                                 (* odd *)
      let t := set_c_iflag (clr_bits (c_iflag t) PARMRK) t in
      let t := set_c_cflag (set_bits (c_cflag t) PARODD) t in
      set_c_cflag (set_bits (c_cflag t) PARENB) t
    else if parity =? 2 then                                 (* even *)
      let t := set_c_iflag (clr_bits (c_iflag t) PARMRK) t in
      let t := set_c_cflag (clr_bits (c_cflag t) PARODD) t in
      set_c_cflag (set_bits (c_cflag t) PARENB) t
    else if parity =? 3 then                                 (* mark *)
      let t := set_c_iflag (set_bits (c_iflag t) PARMRK) t in
      set_c_cflag (set_bits (c_cflag t) PARENB) t
    else t) slp.

Definition get_parity (slp : sl_t) : Z :=
  if has_bits (c_cflag (tio slp)) PARENB then
    if has_bits (c_iflag (tio slp)) PARMRK then 3
    else if has_bits (c_cflag (tio slp)) PARODD then 1
    else 2
  else 0.

Definition set_stopb (slp : sl_t) (stopb : Z) : sl_t :=
  on_tio (fun t =>
    if stopb =? 1 then set_c_cflag (clr_bits (c_cflag t) CSTOPB) t
    else if stopb =? 2 then set_c_cflag (set_bits (c_cflag t) CSTOPB) t
    else t) slp.
Definition get_stopb (slp : sl_t) : Z := if has_bits (c_cflag (tio slp)) CSTOPB then 2 else 1.

Definition set_csize (slp : sl_t) (csize : Z) : sl_t :=
  on_tio (fun t =>
    let t := set_c_cflag (clr_bits (c_cflag t) CSIZE) t in
    if csize =? 5 then set_c_cflag (set_bits (c_cflag t) CS5) t
    else if csize =? 6 then set_c_cflag (set_bits (c_cflag t) CS6) t
    else if csize =? 7 then set_c_cflag (set_bits (c_cflag t) CS7) t
    else if csize =? 8 then set_c_cflag (set_bits (c_cflag t) CS8) t
    else t) slp.
Definition get_csize (slp : sl_t) : Z :=
  let x := (c_cflag (tio slp) & CSIZE)%C in
  if x =? CS5 then 5 else if x =? CS6 then 6 else if x =? CS7 then 7
  else if x =? CS8 then 8 else -1.

Definition set_bufsz (slp : sl_t) (bufsz : Z) : sl_t := on_tio (put_cc VMIN bufsz) slp.
Definition get_bufsz (slp : sl_t) : Z := get_cc VMIN (tio slp).
Definition set_buftm (slp : sl_t) (buftm : Z) : sl_t := on_tio (put_cc VTIME buftm) slp.
Definition get_buftm (slp : sl_t) : Z := get_cc VTIME (tio slp).
Definition set_xonchar (slp : sl_t) (xonchar : Z) : sl_t := on_tio (put_cc VSTART xonchar) slp.
Definition get_xonchar (slp : sl_t) : Z := get_cc VSTART (tio slp).
Definition set_xoffchar (slp : sl_t) (xoffchar : Z) : sl_t := on_tio (put_cc VSTOP xoffchar) slp.
Definition get_xoffchar (slp : sl_t) : Z := get_cc VSTOP (tio slp).
Definition set_eolchar (slp : sl_t) (eolchar : Z) : sl_t := on_tio (put_cc VEOL eolchar) slp.
Definition get_eolchar (slp : sl_t) : Z := get_cc VEOL (tio slp).
Definition set_eol2char (slp : sl_t) (eol2char : Z) : sl_t := on_tio (put_cc_opt VEOL2 eol2char) slp.
Definition get_eol2char (slp : sl_t) : Z :=
  match VEOL2 with Some i => get_cc i (tio slp) | None => 0 end.

Definition set_swflow (slp : sl_t) (on : Z) : sl_t :=
  on_tio (fun t =>
    if c_true on then set_c_cflag (set_bits (c_cflag t) (IXON |. IXOFF)%C) t
    else set_c_cflag (clr_bits (c_cflag t) (IXON |. IXOFF)%C) t) slp.
Definition get_swflow (slp : sl_t) : Z :=
  let x := (c_cflag (tio slp) & (IXON |. IXOFF))%C in
  if x =? 0 then 0 else if x =? (IXON |. IXOFF)%C then 1 else -1.

(** The argument [on] is not used: the test is on [slp->hwflow]. *)
Definition set_hwflow (slp : sl_t) (on : Z) : sl_t :=
  on_tio (fun t =>
    if c_true (hwflow slp) then set_c_cflag (set_bits (c_cflag t) CRTSCTS) t
    else set_c_cflag (clr_bits (c_cflag t) CRTSCTS) t) slp.
Definition get_hwflow (slp : sl_t) : Z := c_bool (has_bits (c_cflag (tio slp)) CRTSCTS).

Definition set_echo (slp : sl_t) (on : Z) : sl_t :=
  on_tio (fun t =>
    if c_true on then set_c_lflag (set_bits (c_lflag t) ECHO) t
    else set_c_lflag (clr_bits (c_lflag t) ECHO) t) slp.
Definition get_echo (slp : sl_t) : Z := c_bool (has_bits (c_lflag (tio slp)) ECHO).

(** The assignments of [do_update] to [slp->tio], in its order, before the call
    of [set_com_state]. *)
Definition apply_flag (fl : Z) (f : sl_t -> sl_t) (slp : sl_t) : sl_t :=
  if has_bits (flags slp) fl then f slp else slp.
Definition updates : list (Z * (sl_t -> sl_t)) :=
  [(FL_MODE, fun s => if mode s =? SL_MODE_RAW then set_raw_mode s
                      else if mode s =? SL_MODE_LINE then set_line_mode s else s);
   (FL_BAUD, fun s => set_baud s (baud s)); (FL_CSIZE, fun s => set_csize s (csize s));
   (FL_STOPB, fun s => set_stopb s (stopb s)); (FL_PARITY, fun s => set_parity s (parity s));
   (FL_BUFSZ, fun s => set_bufsz s (bufsz s)); (FL_BUFTM, fun s => set_buftm s (buftm s));
   (FL_XONCHAR, fun s => set_xonchar s (xonchar s));
   (FL_XOFFCHAR, fun s => set_xoffchar s (xoffchar s));
   (FL_EOLCHAR, fun s => set_eolchar s (eolchar s));
   (FL_EOL2CHAR, fun s => set_eol2char s (eol2char s));
   (FL_HWFLOW, fun s => set_hwflow s (hwflow s)); (FL_SWFLOW, fun s => set_swflow s (swflow s));
   (FL_ECHO, fun s => set_echo s (echo s))].
Definition run (us : list (Z * (sl_t -> sl_t))) (s : sl_t) : sl_t :=
  fold_left (fun s '(fl, f) => apply_flag fl f s) us s.

Definition update_tio (slp : sl_t) : sl_t := run updates slp.
End Termios.

(** * Laws of the header *)

Definition disjoint (a b : Z) : Prop := (a & b)%C = 0.

Class TermiosLaws (T : Termios) := {
  cflag_disjoint : ForallOrdPairs disjoint
    [CSIZE; CSTOPB; PARENB; PARODD; CRTSCTS; (IXON |. IXOFF)%C];
  flags_nonzero : Forall (fun m => m <> 0)
    [CSTOPB; PARENB; PARODD; CRTSCTS; (IXON |. IXOFF)%C; PARMRK; ECHO];
  CS_in_CSIZE : Forall (fun m => (m & CSIZE)%C = m) [CS5; CS6; CS7; CS8];
  CS_distinct : NoDup [CS5; CS6; CS7; CS8];
  cc_distinct : NoDup ([VMIN; VTIME; VSTART; VSTOP; VEOL] ++ option_list VEOL2);
  speeds_distinct : NoDup (snd <$> rates);
  cc_in_range : Forall (fun i => (i < NCCS)%nat)
    ([VMIN; VTIME; VSTART; VSTOP; VEOL] ++ option_list VEOL2);
  speed_keeps_cc t s : c_cc (cfsetispeed t s) = c_cc t /\ c_cc (cfsetospeed t s) = c_cc t;
  speed_get_set t s : s ∈ (snd <$> rates) -> cfgetispeed (cfsetospeed (cfsetispeed t s) s) = s;
}.

Create HintDb sl.

(** Linux and glibc: the speeds are the [CBAUD] field of [c_cflag], which includes
    [CBAUDEX] = 0o10000. *)
Definition linux_B (baud : Z) : Z :=
  from_option snd 0 (head (filter (fun r => fst r = baud)
    (zip [0;50;75;110;134;150;200;300;600;1200;1800;2400;4800;9600;19200;38400;
          57600;115200;230400;460800;500000;576000;921600;1000000;1152000;1500000;
          2000000;2500000;3000000;3500000;4000000]
         ([0;1;2;3;4;5;6;7;8;9;10;11;12;13;14;15] ++
          (Z.add 0x1000 <$> [1;2;3;4;5;6;7;8;9;10;11;12;13;14;15]))))).
Definition linux_set_speed (t : termios) (s : Z) : termios :=
  set_c_cflag (clr_bits (c_cflag t) 0x100f |. (s & 0x100f))%C t.
Definition linux : Termios := {|
  NCCS := 32;
  ICRNL := 0x100; INLCR := 0x40; IGNCR := 0x80; ISTRIP := 0x20; BRKINT := 0x2; IGNPAR := 0x4;
  IGNBRK := 0x1; INPCK := 0x10; PARMRK := 0x8; IXON := 0x400; IXOFF := 0x1000;
  ECHOE := 0x10; ECHOK := 0x20; ECHOKE := 0x800; ECHONL := 0x40; ISIG := 0x1; IEXTEN := 0x8000;
  ICANON := 0x2; ECHO := 0x8; OPOST := 0x1;
  CLOCAL := 0x800; PARENB := 0x100; PARODD := 0x200; CSTOPB := 0x40; CRTSCTS := 0x80000000;
  CSIZE := 0x30; CS5 := 0; CS6 := 0x10; CS7 := 0x20; CS8 := 0x30;
  VMIN := 6; VTIME := 5; VINTR := 0; VQUIT := 1; VERASE := 2; VKILL := 3; VEOF := 4; VSWTC := 7;
  VSUSP := 10; VEOL := 11; VSTART := 8; VSTOP := 9;
  VDISCARD := Some 13%nat; VREPRINT := Some 12%nat; VWERASE := Some 14%nat;
  VLNEXT := Some 15%nat; VEOL2 := Some 16%nat;
  B := linux_B;
  B_defined b := negb ((b =? 76800) || (b =? 153600) || (b =? 307200));
  EXTA := Some 14; EXTB := Some 15;
  cfsetispeed := linux_set_speed; cfsetospeed := linux_set_speed;
  cfgetispeed t := (c_cflag t & 0x100f)%C |}.

(** * Proofs *)

Lemma land_set_disjoint x m K : disjoint m K -> Z.land (set_bits x m) K = Z.land x K.
Proof. intros E. unfold set_bits. rewrite Z.land_lor_distr_l, E. apply Z.lor_0_r. Qed.
Lemma land_clr_disjoint x m K : disjoint m K -> Z.land (clr_bits x m) K = Z.land x K.
Proof.
  unfold disjoint, clr_bits. intros E. apply Z.bits_inj'. intros i Hi.
  rewrite !Z.land_spec, Z.lnot_spec by lia.
  apply (f_equal (fun z => Z.testbit z i)) in E. rewrite Z.land_spec, Z.bits_0 in E.
  destruct (Z.testbit x i), (Z.testbit m i), (Z.testbit K i); done.
Qed.
(** Boolean identities of masks, bit by bit. *)
Ltac bitwise :=
  unfold set_bits, clr_bits; apply Z.bits_inj'; intros ? ?;
  rewrite ?Z.land_spec, ?Z.lor_spec, ?Z.lnot_spec, ?Z.bits_0 by lia;
  repeat match goal with |- context [Z.testbit ?x ?i] => destruct (Z.testbit x i) end; done.
Lemma land_set_same x m : Z.land (set_bits x m) m = m.
Proof. bitwise. Qed.
Lemma land_clr_same x m : Z.land (clr_bits x m) m = 0.
Proof. bitwise. Qed.
Lemma land_or_in x m K : Z.land m K = m -> Z.land (set_bits (clr_bits x K) m) K = m.
Proof.
  intros E. unfold set_bits. rewrite Z.land_lor_distr_l, E.
  change (Z.land (clr_bits x K) K |. m = m)%C. by rewrite land_clr_same.
Qed.
Lemma disjoint_sym a b : disjoint a b -> disjoint b a.
Proof. unfold disjoint. by rewrite Z.land_comm. Qed.
#[export] Hint Resolve disjoint_sym : sl.

(** ** Lists of updates *)

Section Updates.
Context `{TL : TermiosLaws}.

(** What the setters leave alone: everything but [cmode] and the values in [tio]. *)
Definition cfg (s : sl_t) : sl_t :=
  w_cmode 0 (w_tio (Tio 0 0 0 0 (replicate (length (c_cc (tio s))) 0)) s).

Definition keeps {A} (P : sl_t -> A) (f : sl_t -> sl_t) : Prop := forall s, P (f s) = P s.
Lemma run_keeps {A} (P : sl_t -> A) us : Forall (fun u => keeps P (snd u)) us -> keeps P (run us).
Proof.
  intros H. induction H as [|[fl f] us Hf _ IH]; intros s; [done|].
  cbn. unfold run in IH. rewrite IH. unfold apply_flag. case_match; [apply Hf|done].
Qed.

Lemma on_tio_cfg f s : length (c_cc (f (tio s))) = length (c_cc (tio s)) -> cfg (on_tio f s) = cfg s.
Proof. intros E. unfold cfg, on_tio, w_tio, w_cmode. cbn. by rewrite E. Qed.
Lemma put_cc_length i v t : length (c_cc (put_cc i v t)) = length (c_cc t).
Proof. apply length_insert. Qed.
Lemma put_cc_opt_length i v t : length (c_cc (put_cc_opt i v t)) = length (c_cc t).
Proof. destruct i; [apply put_cc_length|done]. Qed.
Lemma keeps_cfg_cmode v f : keeps cfg f -> keeps cfg (fun s => w_cmode v (f s)).
Proof. intros H s. rewrite <-(H s). done. Qed.
Lemma raw_cfg : keeps cfg set_raw_mode.
Proof.
  apply keeps_cfg_cmode. intros s. apply on_tio_cfg. unfold raw_tio.
  by rewrite !put_cc_length.
Qed.
Lemma line_cfg : keeps cfg set_line_mode.
Proof.
  apply keeps_cfg_cmode. intros s. apply on_tio_cfg. unfold line_tio.
  by rewrite !put_cc_opt_length, !put_cc_length.
Qed.
Lemma baud_cfg : keeps cfg (fun s => set_baud s (baud s)).
Proof.
  intros s. unfold set_baud. rewrite on_tio_cfg by apply f_equal, speed_keeps_cc.
  apply on_tio_cfg, f_equal, speed_keeps_cc.
Qed.
Lemma updates_cfg : Forall (fun u => keeps cfg (snd u)) updates.
Proof.
  unfold updates. rewrite !Forall_cons, Forall_nil; cbn [snd]. split_and!; [ |apply baud_cfg| .. ];
    try exact I; intros s; [repeat case_match; [apply raw_cfg|apply line_cfg|done] | .. ];
    apply on_tio_cfg; cbn beta zeta; rewrite ?put_cc_length, ?put_cc_opt_length;
    repeat case_match; reflexivity.
Qed.
Lemma update_tio_cfg s : cfg (update_tio s) = cfg s.
Proof. apply (run_keeps cfg), updates_cfg. Qed.

(** What [update_tio] leaves in a view [P] of the settings is what the pending
    update [f] put there, when every later update keeps [P]. *)
Lemma update_reads {A} (P : sl_t -> A) pre fl f post s v :
  updates = pre ++ (fl, f) :: post ->
  has_bits (flags s) fl = true ->
  Forall (fun u => keeps P (snd u)) post ->
  (forall s', cfg s' = cfg s -> P (f s') = v) ->
  P (update_tio s) = v.
Proof.
  intros E Hfl Hpost Hf. unfold update_tio. rewrite E. unfold run. rewrite fold_left_app. cbn [fold_left].
  change (P (run post (apply_flag fl f (run pre s))) = v).
  rewrite (run_keeps P post Hpost).
  assert (cfg (run pre s) = cfg s) as Ec.
  { apply run_keeps. pose proof updates_cfg as H. rewrite E in H. by apply Forall_app in H as [? _]. }
  unfold apply_flag. rewrite (f_equal flags Ec : flags (run pre s) = flags s), Hfl. by apply Hf.
Qed.

(** ** Views of the settings *)

Definition cflag_view (K : Z) (s : sl_t) : Z := Z.land (c_cflag (tio s)) K.
Definition iflag_view (K : Z) (s : sl_t) : Z := Z.land (c_iflag (tio s)) K.
Definition lflag_view (K : Z) (s : sl_t) : Z := Z.land (c_lflag (tio s)) K.
Definition cc_view (i : nat) (s : sl_t) : Z := get_cc i (tio s).

Lemma disjoint_CS m K : Z.land m CSIZE = m -> disjoint CSIZE K -> disjoint m K.
Proof.
  unfold disjoint. intros <- E. rewrite <-Z.land_assoc, E. apply Z.land_0_r.
Qed.
Lemma CS_disjoint K : disjoint CSIZE K -> Forall (fun m => disjoint m K) [CS5; CS6; CS7; CS8].
Proof.
  intros E. eapply Forall_impl; [apply CS_in_CSIZE|]. intros m Hm. by apply disjoint_CS.
Qed.

Lemma CS_neq : CS5 <> CS6 /\ CS5 <> CS7 /\ CS5 <> CS8 /\ CS6 <> CS7 /\ CS6 <> CS8 /\ CS7 <> CS8.
Proof.
  pose proof CS_distinct as H. rewrite !NoDup_cons in H. destruct H as (H5 & H6 & H7 & _).
  repeat split; intros E; [apply H5|apply H5|apply H5|apply H6|apply H6|apply H7];
    rewrite E; repeat constructor.
Qed.

(** The six masks of [c_cflag] in use are pairwise disjoint. *)
Lemma cflag_pairs :
  (disjoint CSIZE CSTOPB /\ disjoint CSIZE PARENB /\ disjoint CSIZE PARODD /\
   disjoint CSIZE CRTSCTS /\ disjoint CSIZE (IXON |. IXOFF)%C) /\
  (disjoint CSTOPB PARENB /\ disjoint CSTOPB PARODD /\ disjoint CSTOPB CRTSCTS /\
   disjoint CSTOPB (IXON |. IXOFF)%C) /\
  (disjoint PARENB PARODD /\ disjoint PARENB CRTSCTS /\ disjoint PARENB (IXON |. IXOFF)%C) /\
  (disjoint PARODD CRTSCTS /\ disjoint PARODD (IXON |. IXOFF)%C) /\
  disjoint CRTSCTS (IXON |. IXOFF)%C.
Proof.
  pose proof cflag_disjoint as H.
  repeat match goal with
    | H : ForallOrdPairs _ (_ :: _) |- _ => inversion_clear H
    | H : Forall _ (_ :: _) |- _ => apply Forall_cons in H as [? ?] end.
  tauto.
Qed.

(** [keeps_view] proves that a setter keeps a view it does not write. *)
Ltac keeps_view :=
  intros ?; unfold cflag_view, iflag_view, lflag_view, cc_view, set_stopb, set_parity,
    set_bufsz, set_buftm, set_xonchar, set_xoffchar, set_eolchar, set_eol2char,
    set_hwflow, set_swflow, set_echo, on_tio, put_cc_opt;
  cbn [tio w_tio]; repeat case_match; cbn [c_cflag c_iflag c_lflag c_cc set_c_cflag set_c_iflag
    set_c_lflag put_cc set_c_cc];
  rewrite ?land_set_disjoint, ?land_clr_disjoint by auto with sl; reflexivity.

Ltac keeps_all :=
  repeat apply Forall_cons_2; try apply Forall_nil_2; cbn [snd]; keeps_view.

(** Every mask of [c_cflag], with the [CS] values inside [CSIZE]. *)
Ltac masks :=
  destruct cflag_pairs as ((?&?&?&?&?)&(?&?&?&?)&(?&?&?)&(?&?)&?);
  pose proof flags_nonzero as Hnz; rewrite !Forall_cons in Hnz;
  destruct Hnz as (?&?&?&?&?&?&?&_).

(** ** Reading a pending value back *)

(** The getters through the views. *)
Lemma get_csize_view s : get_csize s =
  let x := cflag_view CSIZE s in
  if x =? CS5 then 5 else if x =? CS6 then 6 else if x =? CS7 then 7
  else if x =? CS8 then 8 else -1.
Proof. done. Qed.
Lemma get_stopb_view s : get_stopb s = if c_true (cflag_view CSTOPB s) then 2 else 1.
Proof. done. Qed.
Lemma get_parity_view s : get_parity s =
  if c_true (cflag_view PARENB s) then
    if c_true (iflag_view PARMRK s) then 3 else if c_true (cflag_view PARODD s) then 1 else 2
  else 0.
Proof. done. Qed.
Lemma get_hwflow_view s : get_hwflow s = c_bool (c_true (cflag_view CRTSCTS s)).
Proof. done. Qed.
Lemma get_swflow_view s : get_swflow s =
  let x := cflag_view (IXON |. IXOFF)%C s in
  if x =? 0 then 0 else if x =? (IXON |. IXOFF)%C then 1 else -1.
Proof. done. Qed.
Lemma get_echo_view s : get_echo s = c_bool (c_true (lflag_view ECHO s)).
Proof. done. Qed.
Lemma c_true_nonzero m : m <> 0 -> c_true m = true.
Proof. intros. unfold c_true. by rewrite (proj2 (Z.eqb_neq m 0)). Qed.

Section Readback.
Context (s : sl_t).

Lemma read_csize : has_bits (flags s) FL_CSIZE = true -> 5 <= csize s <= 8 ->
  get_csize (update_tio s) = csize s.
Proof.
  intros Hf Hc. masks. pose proof CS_in_CSIZE as Hin. rewrite !Forall_cons in Hin.
  destruct Hin as (?&?&?&?&_).
  assert (cflag_view CSIZE (update_tio s) =
    if csize s =? 5 then CS5 else if csize s =? 6 then CS6 else if csize s =? 7 then CS7 else CS8) as E.
  { eapply (update_reads _ [_; _]); [reflexivity|done|keeps_all|]. intros s' Es.
    unfold set_csize, on_tio, cflag_view. rewrite (f_equal csize Es : csize s' = csize s).
    cbn [tio w_tio]. repeat case_match; cbn [c_cflag set_c_cflag]; try apply land_or_in; try done.
    destruct_and?; lia. }
  rewrite get_csize_view, E. cbv zeta.
  assert (csize s = 5 \/ csize s = 6 \/ csize s = 7 \/ csize s = 8) as Hcase by lia.
  pose proof CS_neq as Hd. clear - Hcase Hd. destruct_and!.
  destruct Hcase as [-> | [-> | [-> | ->]]]; cbn [Z.eqb Pos.eqb];
    repeat match goal with |- context [?a =? ?b] => destruct (Z.eqb_spec a b) end; congruence.
Qed.

Lemma read_stopb : has_bits (flags s) FL_STOPB = true -> 1 <= stopb s <= 2 ->
  get_stopb (update_tio s) = stopb s.
Proof.
  intros Hf Hc. masks.
  assert (cflag_view CSTOPB (update_tio s) = if stopb s =? 2 then CSTOPB else 0) as E.
  { eapply (update_reads _ [_; _; _]); [reflexivity|done|keeps_all|]. intros s' Es.
    unfold set_stopb, on_tio, cflag_view. rewrite (f_equal stopb Es : stopb s' = stopb s).
    cbn [tio w_tio]. destruct (Z.eqb_spec (stopb s) 1), (Z.eqb_spec (stopb s) 2); try lia;
      cbn [c_cflag set_c_cflag]; [apply land_clr_same|apply land_set_same]. }
  rewrite get_stopb_view, E.
  destruct (Z.eqb_spec (stopb s) 2); [by rewrite c_true_nonzero|]. cbn. lia.
Qed.

Local Ltac parity_cases :=
  cbn [tio w_tio];
  repeat (match goal with |- context [?a =? ?b] => destruct (Z.eqb_spec a b) end;
          try (exfalso; lia));
  cbn [c_cflag c_iflag set_c_cflag set_c_iflag].
Lemma read_parity : has_bits (flags s) FL_PARITY = true -> 0 <= parity s <= 3 ->
  get_parity (update_tio s) = parity s.
Proof.
  intros Hf Hc. masks.
  assert (cflag_view PARENB (update_tio s) = if parity s =? 0 then 0 else PARENB) as E1.
  { eapply (update_reads _ [_; _; _; _]); [reflexivity|done|keeps_all|]. intros s' Es.
    unfold set_parity, on_tio, cflag_view. rewrite (f_equal parity Es : parity s' = parity s).
    parity_cases; auto using land_clr_same, land_set_same. }
  assert (iflag_view PARMRK (update_tio s) = if parity s =? 3 then PARMRK else 0) as E2.
  { eapply (update_reads _ [_; _; _; _]); [reflexivity|done|keeps_all|]. intros s' Es.
    unfold set_parity, on_tio, iflag_view. rewrite (f_equal parity Es : parity s' = parity s).
    parity_cases; auto using land_clr_same, land_set_same. }
  assert (1 <= parity s <= 2 ->
    cflag_view PARODD (update_tio s) = if parity s =? 1 then PARODD else 0) as E3.
  { intros Hp. eapply (update_reads _ [_; _; _; _]); [reflexivity|done|keeps_all|]. intros s' Es.
    unfold set_parity, on_tio, cflag_view. rewrite (f_equal parity Es : parity s' = parity s).
    parity_cases; rewrite land_set_disjoint by auto with sl;
      auto using land_clr_same, land_set_same. }
  rewrite get_parity_view, E1, E2.
  destruct (Z.eqb_spec (parity s) 0) as [->|]; [done|]. rewrite c_true_nonzero by done.
  destruct (Z.eqb_spec (parity s) 3) as [->|]; [by rewrite c_true_nonzero|].
  cbn [c_true negb Z.eqb]. rewrite E3 by lia.
  destruct (Z.eqb_spec (parity s) 1) as [->|]; [by rewrite c_true_nonzero|]. cbn. lia.
Qed.

Lemma read_hwflow : has_bits (flags s) FL_HWFLOW = true ->
  get_hwflow (update_tio s) = c_bool (c_true (hwflow s)).
Proof.
  intros Hf. masks.
  assert (cflag_view CRTSCTS (update_tio s) = if c_true (hwflow s) then CRTSCTS else 0) as E.
  { eapply (update_reads _ [_; _; _; _; _; _; _; _; _; _; _]); [reflexivity|done|keeps_all|].
    intros s' Es. unfold set_hwflow, on_tio, cflag_view.
    rewrite (f_equal hwflow Es : hwflow s' = hwflow s).
    cbn [tio w_tio]. case_match; cbn [c_cflag c_lflag set_c_cflag set_c_lflag];
      auto using land_clr_same, land_set_same. }
  rewrite get_hwflow_view, E. destruct (c_true (hwflow s)); [|done]. by rewrite c_true_nonzero.
Qed.

Lemma read_swflow : has_bits (flags s) FL_SWFLOW = true ->
  get_swflow (update_tio s) = c_bool (c_true (swflow s)).
Proof.
  intros Hf. masks.
  assert (cflag_view (IXON |. IXOFF)%C (update_tio s) =
          if c_true (swflow s) then (IXON |. IXOFF)%C else 0) as E.
  { eapply (update_reads _ [_; _; _; _; _; _; _; _; _; _; _; _]); [reflexivity|done|keeps_all|].
    intros s' Es. unfold set_swflow, on_tio, cflag_view.
    rewrite (f_equal swflow Es : swflow s' = swflow s).
    cbn [tio w_tio]. case_match; cbn [c_cflag c_lflag set_c_cflag set_c_lflag];
      auto using land_clr_same, land_set_same. }
  rewrite get_swflow_view, E. destruct (c_true (swflow s)); [|done]. cbv zeta.
  by rewrite (proj2 (Z.eqb_neq (IXON |. IXOFF)%C 0)), Z.eqb_refl.
Qed.

Lemma read_echo : has_bits (flags s) FL_ECHO = true ->
  get_echo (update_tio s) = c_bool (c_true (echo s)).
Proof.
  intros Hf. masks.
  assert (lflag_view ECHO (update_tio s) = if c_true (echo s) then ECHO else 0) as E.
  { eapply (update_reads _ [_; _; _; _; _; _; _; _; _; _; _; _; _]); [reflexivity|done|keeps_all|].
    intros s' Es. unfold set_echo, on_tio, lflag_view. rewrite (f_equal echo Es : echo s' = echo s).
    cbn [tio w_tio]. case_match; cbn [c_cflag c_lflag set_c_cflag set_c_lflag];
      auto using land_clr_same, land_set_same. }
  rewrite get_echo_view, E. destruct (c_true (echo s)); [|done]. by rewrite c_true_nonzero.
Qed.

(** The control characters: the index is in range, and no later update writes
    it. *)
Lemma byte_at_insert_ne (l : bytes) i j v : i <> j -> byte_at (<[j := v]> l) i = byte_at l i.
Proof. intros. unfold byte_at. by rewrite !nth_lookup, list_lookup_insert_ne. Qed.
Lemma byte_at_insert_eq (l : bytes) i v : (i < length l)%nat -> byte_at (<[i := v]> l) i = v.
Proof. intros. unfold byte_at. by rewrite nth_lookup, list_lookup_insert_eq. Qed.
Lemma cc_after_put i v (s' : sl_t) : (i < NCCS)%nat -> length (c_cc (tio s)) = NCCS ->
  cfg s' = cfg s -> cc_view i (on_tio (put_cc i v) s') = u8 v.
Proof.
  intros Hi Hl Es. unfold cc_view, get_cc, on_tio. cbn. apply byte_at_insert_eq.
  apply (f_equal (fun s => length (c_cc (tio s)))) in Es. cbn in Es.
  rewrite !length_replicate in Es. lia.
Qed.
Lemma cc_neq : let l := [VMIN; VTIME; VSTART; VSTOP; VEOL] ++ option_list VEOL2 in
  forall i j a b, l !! i = Some a -> l !! j = Some b -> i <> j -> a <> b.
Proof. intros l i j a b Ha Hb Hij ->. apply Hij. by apply (NoDup_lookup l i j b cc_distinct). Qed.
Lemma cc_lt : let l := [VMIN; VTIME; VSTART; VSTOP; VEOL] ++ option_list VEOL2 in
  forall i a, l !! i = Some a -> (a < NCCS)%nat.
Proof. intros l i a Ha. pose proof cc_in_range as H. rewrite Forall_lookup in H. by apply (H i). Qed.

Ltac cc_ne k j :=
  apply (cc_neq k j); [reflexivity| |lia];
  match goal with
  | E : VEOL2 = Some _ |- _ => by rewrite E
  | |- _ => reflexivity
  end.
Ltac keeps_cc k :=
  repeat apply Forall_cons_2; try apply Forall_nil_2; cbn [snd]; intros ?;
  unfold cc_view, get_cc, set_bufsz, set_buftm, set_xonchar, set_xoffchar, set_eolchar,
    set_eol2char, set_hwflow, set_swflow, set_echo, on_tio, put_cc_opt;
  cbn [tio w_tio]; repeat case_match; cbn [c_cc set_c_cflag set_c_lflag put_cc set_c_cc];
  first [reflexivity
    | apply byte_at_insert_ne;
      first [solve [cc_ne k 1%nat] | solve [cc_ne k 2%nat] | solve [cc_ne k 3%nat]
            | solve [cc_ne k 4%nat] | solve [cc_ne k 5%nat]]].

Hypothesis Hcc : length (c_cc (tio s)) = NCCS.

Lemma get_cc_views (s' : sl_t) :
  get_bufsz s' = cc_view VMIN s' /\ get_buftm s' = cc_view VTIME s' /\
  get_xonchar s' = cc_view VSTART s' /\ get_xoffchar s' = cc_view VSTOP s' /\
  get_eolchar s' = cc_view VEOL s'.
Proof. done. Qed.

Lemma read_bufsz : has_bits (flags s) FL_BUFSZ = true -> get_bufsz (update_tio s) = u8 (bufsz s).
Proof.
  intros Hf. rewrite (proj1 (get_cc_views _)).
  eapply (update_reads _ [_; _; _; _; _]); [reflexivity|done|keeps_cc 0%nat|].
  intros s' Es. rewrite <-(f_equal bufsz Es : bufsz s' = bufsz s).
  apply cc_after_put; [by apply (cc_lt 0)|done|done].
Qed.
Lemma read_buftm : has_bits (flags s) FL_BUFTM = true -> get_buftm (update_tio s) = u8 (buftm s).
Proof.
  intros Hf. rewrite (proj1 (proj2 (get_cc_views _))).
  eapply (update_reads _ [_; _; _; _; _; _]); [reflexivity|done|keeps_cc 1%nat|].
  intros s' Es. rewrite <-(f_equal buftm Es : buftm s' = buftm s).
  apply cc_after_put; [by apply (cc_lt 1)|done|done].
Qed.
Lemma read_xonchar : has_bits (flags s) FL_XONCHAR = true ->
  get_xonchar (update_tio s) = u8 (xonchar s).
Proof.
  intros Hf. rewrite (proj1 (proj2 (proj2 (get_cc_views _)))).
  eapply (update_reads _ [_; _; _; _; _; _; _]); [reflexivity|done|keeps_cc 2%nat|].
  intros s' Es. rewrite <-(f_equal xonchar Es : xonchar s' = xonchar s).
  apply cc_after_put; [by apply (cc_lt 2)|done|done].
Qed.
Lemma read_xoffchar : has_bits (flags s) FL_XOFFCHAR = true ->
  get_xoffchar (update_tio s) = u8 (xoffchar s).
Proof.
  intros Hf. rewrite (proj1 (proj2 (proj2 (proj2 (get_cc_views _))))).
  eapply (update_reads _ [_; _; _; _; _; _; _; _]); [reflexivity|done|keeps_cc 3%nat|].
  intros s' Es. rewrite <-(f_equal xoffchar Es : xoffchar s' = xoffchar s).
  apply cc_after_put; [by apply (cc_lt 3)|done|done].
Qed.
Lemma read_eolchar : has_bits (flags s) FL_EOLCHAR = true ->
  get_eolchar (update_tio s) = u8 (eolchar s).
Proof.
  intros Hf. rewrite (proj2 (proj2 (proj2 (proj2 (get_cc_views _))))).
  eapply (update_reads _ [_; _; _; _; _; _; _; _; _]); [reflexivity|done|keeps_cc 4%nat|].
  intros s' Es. rewrite <-(f_equal eolchar Es : eolchar s' = eolchar s).
  apply cc_after_put; [by apply (cc_lt 4)|done|done].
Qed.
End Readback.
End Updates.

(** ** Baud rates *)

Lemma StronglySorted_sublist {A} (R : relation A) l k :
  sublist l k -> StronglySorted R k -> StronglySorted R l.
Proof.
  induction 1 as [|x l k Hs IH|x l k Hs IH]; intros HS; inversion_clear HS; [constructor| |auto].
  constructor; [auto|]. apply Forall_forall. intros y Hy.
  eapply Forall_forall; [eassumption|]. by eapply sublist_subseteq.
Qed.

Definition all_bauds : list Z :=
  [0; 50; 75; 110; 134; 150; 200; 300; 600; 1200; 1800; 2400; 4800; 9600; 19200; 38400; 57600;
   76800; 115200; 153600; 230400; 307200; 460800; 500000; 576000; 921600; 1000000; 1152000;
   1500000; 2000000; 2500000; 3000000; 3500000; 4000000].

Section Rates.
Context `{T : Termios}.

Lemma opt_rate_sublist b alt : sublist (fst <$> opt_rate b alt) [b].
Proof. unfold opt_rate. repeat case_match; cbn; repeat constructor. Qed.
Lemma bauds_sublist : sublist (fst <$> rates) all_bauds.
Proof.
  unfold rates. rewrite !fmap_app.
  change all_bauds with ([0; 50; 75; 110; 134; 150; 200; 300; 600; 1200; 1800; 2400; 4800; 9600] ++
    [19200] ++ [38400] ++ [57600] ++ [76800] ++ [115200] ++ [153600] ++ [230400] ++ [307200] ++
    [460800] ++ [500000] ++ [576000] ++ [921600] ++ [1000000] ++ [1152000] ++ [1500000] ++
    [2000000] ++ [2500000] ++ [3000000] ++ [3500000] ++ [4000000]).
  apply sublist_app; [reflexivity|]. repeat (apply sublist_app; [apply opt_rate_sublist|]).
  apply opt_rate_sublist.
Qed.
Lemma bauds_sorted : StronglySorted Z.lt (fst <$> rates).
Proof.
  eapply StronglySorted_sublist; [apply bauds_sublist|].
  repeat constructor; lia.
Qed.
Lemma bauds_nonneg r : r ∈ rates -> 0 <= fst r.
Proof.
  intros Hr. assert (fst r ∈ all_bauds) as Hin.
  { eapply sublist_subseteq; [apply bauds_sublist|]. by apply list_elem_of_fmap_2. }
  revert Hin. generalize (fst r). apply Forall_forall. repeat constructor; lia.
Qed.

(** The scan stops at the first entry that does not go on, at the terminator
    when there is none. *)
Lemma scan_spec go tab e i : (forall r, r ∈ tab -> fst r <> -1) -> fst e = -1 ->
  exists pre post, tab = pre ++ post /\ scan go (tab ++ [e]) i = (i + length pre)%nat /\
    Forall (fun r => go r = true) pre /\
    match post with [] => True | r :: _ => go r = false end.
Proof.
  intros Hne He. revert i. induction tab as [|r tab IH]; intros i.
  - exists [], []. cbn [app scan length]. rewrite He. cbn. repeat split; [lia|constructor].
  - cbn [app scan]. rewrite (proj2 (Z.eqb_neq (fst r) (-1))) by (apply Hne; left). cbn [negb andb].
    destruct (go r) eqn:Eg.
    + destruct (IH ltac:(intros; apply Hne; by right) (S i)) as (pre & post & -> & Es & Hp & Hq).
      exists (r :: pre), post. rewrite Es. cbn. repeat split; [lia|by constructor|done].
    + exists [], (r :: tab). cbn. repeat split; [lia|constructor|done].
Qed.
Lemma scan_rtab go : exists pre post, rates = pre ++ post /\ scan go rtab 0 = length pre /\
  Forall (fun r => go r = true) pre /\ match post with [] => True | r :: _ => go r = false end.
Proof.
  destruct (scan_spec go rates (-1, B 0) 0) as (pre & post & ? & ? & ? & ?); [|done|by exists pre, post].
  intros r Hr%bauds_nonneg. lia.
Qed.
Lemma rtab_at_pre pre r post : rates = pre ++ r :: post -> rtab_at (length pre) = r.
Proof.
  intros E. unfold rtab_at, rtab. rewrite E, <-app_assoc, <-app_comm_cons.
  by rewrite app_nth2, Nat.sub_diag by lia.
Qed.

(** [to_speed] picks the entry with the least baud rate not below the request,
    or the last one. *)
Lemma to_speed_entry b : exists r, r ∈ rates /\ to_speed b = snd r /\
  (b <= fst r /\ (forall r', r' ∈ rates -> b <= fst r' -> fst r <= fst r') \/
   fst r < b /\ forall r', r' ∈ rates -> fst r' <= fst r).
Proof.
  pose proof bauds_sorted as HS.
  destruct (scan_rtab (fun r => fst r <? b)) as (pre & [|r post] & E & Es & Hp & Hq);
    unfold to_speed; rewrite Es; rewrite E in HS.
  - rewrite app_nil_r in *. destruct pre as [|r pre _] using rev_ind; [done|].
    exists r. rewrite E. rewrite length_app, Nat.add_sub. cbn [length].
    replace (rtab_at (length pre + 1)) with (-1, B 0).
    2: { unfold rtab_at, rtab. rewrite E, app_nth2 by (rewrite length_app; cbn; lia).
         rewrite length_app. cbn. by rewrite Nat.sub_diag. }
    rewrite (rtab_at_pre pre r []) by done. cbn [fst Z.eqb Pos.eqb].
    apply Forall_app in Hp as [_ [Hr _]%Forall_cons].
    split; [apply elem_of_app; right; by left|]. split; [done|]. right. split; [lia|].
    intros r' [Hr'|Hr']%elem_of_app; [|by apply list_elem_of_singleton in Hr' as ->].
    rewrite fmap_app in HS.
    apply Z.lt_le_incl, (StronglySorted_app_1_elem_of _ _ _ _ _ HS);
      [by apply list_elem_of_fmap_2|cbn; by left].
  - exists r. rewrite (rtab_at_pre pre r post E).
    assert (r ∈ rates) as Hr by (rewrite E; apply elem_of_app; right; by left).
    pose proof (bauds_nonneg r Hr). rewrite (proj2 (Z.eqb_neq (fst r) (-1))) by lia.
    split; [done|]. split; [done|]. left. split; [lia|].
    intros r'. rewrite E. rewrite fmap_app, fmap_cons in HS.
    intros [Hr'|[->|Hr']%elem_of_cons]%elem_of_app ?; [|lia|].
    + rewrite Forall_forall in Hp. specialize (Hp _ Hr'). lia.
    + apply StronglySorted_app_1_r in HS. inversion_clear HS as [|? ? _ Hf].
      rewrite Forall_forall in Hf. apply Z.lt_le_incl, Hf. by apply list_elem_of_fmap_2.
Qed.

Lemma from_speed_entry r : NoDup (snd <$> rates) -> r ∈ rates -> from_speed (snd r) = fst r.
Proof.
  intros HN Hr. unfold from_speed.
  destruct (scan_rtab (fun x => negb (snd x =? snd r))) as (pre & [|x post] & E & Es & Hp & Hq);
    rewrite Es.
  - rewrite app_nil_r in E. rewrite E in Hr. rewrite Forall_forall in Hp. specialize (Hp _ Hr).
    cbn in Hp. by rewrite Z.eqb_refl in Hp.
  - rewrite (rtab_at_pre pre x post E). apply negb_false_iff, Z.eqb_eq in Hq.
    apply list_elem_of_lookup in Hr as [i Hi].
    assert (rates !! length pre = Some x) as Hx by (by rewrite E, list_lookup_middle).
    assert (i = length pre) as ->; [|congruence].
    apply (NoDup_lookup (snd <$> rates) i (length pre) (snd r)); [done|by rewrite list_lookup_fmap, Hi|].
    rewrite list_lookup_fmap, Hx. cbn. by rewrite Hq.
Qed.
End Rates.

#[export] Instance linux_laws : TermiosLaws linux.
Proof.
  constructor.
  - repeat constructor.
  - repeat constructor; done.
  - repeat constructor.
  - by_decision.
  - by_decision.
  - by_decision.
  - repeat constructor; cbn; lia.
  - done.
  - intros t s Hs.
    assert (Z.land s 0x100f = s) as E.
    { revert Hs. revert s. apply Forall_forall. vm_compute. repeat constructor. }
    cbn [cfgetispeed cfsetospeed cfsetispeed linux linux_set_speed c_cflag set_c_cflag].
    rewrite E, Z.land_lor_distr_l, land_clr_same, E. apply Z.lor_0_l.
Qed.

(** * Properties *)

(** After the settings of an update are assigned, every setting that was pending
    reads back through its getter as the value that was pending: the numbers of data and stop bits and
    the parity in their range, the control characters modulo 256, the flow
    control and echo switches as truth values. *)
Theorem update_tio_readback `{TL : TermiosLaws} s :
  length (c_cc (tio s)) = NCCS ->
  let s' := update_tio s in
  (has_bits (flags s) FL_CSIZE = true -> 5 <= csize s <= 8 -> get_csize s' = csize s) /\
  (has_bits (flags s) FL_STOPB = true -> 1 <= stopb s <= 2 -> get_stopb s' = stopb s) /\
  (has_bits (flags s) FL_PARITY = true -> 0 <= parity s <= 3 -> get_parity s' = parity s) /\
  (has_bits (flags s) FL_BUFSZ = true -> get_bufsz s' = u8 (bufsz s)) /\
  (has_bits (flags s) FL_BUFTM = true -> get_buftm s' = u8 (buftm s)) /\
  (has_bits (flags s) FL_XONCHAR = true -> get_xonchar s' = u8 (xonchar s)) /\
  (has_bits (flags s) FL_XOFFCHAR = true -> get_xoffchar s' = u8 (xoffchar s)) /\
  (has_bits (flags s) FL_EOLCHAR = true -> get_eolchar s' = u8 (eolchar s)) /\
  (has_bits (flags s) FL_HWFLOW = true -> get_hwflow s' = c_bool (c_true (hwflow s))) /\
  (has_bits (flags s) FL_SWFLOW = true -> get_swflow s' = c_bool (c_true (swflow s))) /\
  (has_bits (flags s) FL_ECHO = true -> get_echo s' = c_bool (c_true (echo s))).
Proof.
  intros Hcc s'. unfold s'. split_and!; intros;
    auto using read_csize, read_stopb, read_parity, read_bufsz, read_buftm, read_xonchar,
      read_xoffchar, read_eolchar, read_hwflow, read_swflow, read_echo.
Qed.

(** A closed descriptor with nothing pending, all settings zero. *)
Definition sl_zero : sl_t :=
  Sl 1 INVALID 0 None 0 0 None 0 0 (Tio 0 0 0 0 (replicate 32 0)) None 0
     0 0 0 0 0 0 0 0 0 0 0 1 0 0.

Lemma update_tio_readback_witness :
  let s := w_flags FL_PARITY (w_parity 2 sl_zero) in
  @get_parity linux (@update_tio linux s) = 2.
Proof.
  intros s. destruct (@update_tio_readback linux linux_laws s eq_refl) as (_ & _ & Hp & _).
  apply Hp; [reflexivity|cbn; lia].
Defined.

(** Setting a baud rate and reading it back rounds it up to the next rate of
    [rtab], and down to the largest one when there is no such rate. *)
Theorem baud_rounds_up `{TL : TermiosLaws} s b :
  let r := get_baud (set_baud s b) in
  r ∈ (fst <$> rates) /\
  (b <= r /\ (forall x, x ∈ (fst <$> rates) -> b <= x -> r <= x) \/
   r < b /\ (forall x, x ∈ (fst <$> rates) -> x <= r)).
Proof.
  destruct (to_speed_entry b) as (e & He & Es & Hc). intros r.
  assert (r = fst e) as ->.
  { unfold r, get_baud, set_baud. rewrite Es.
    change (from_speed (cfgetispeed (cfsetospeed (cfsetispeed (tio s) (snd e)) (snd e))) = fst e).
    rewrite speed_get_set by by apply list_elem_of_fmap_2.
    apply from_speed_entry; [apply speeds_distinct|done]. }
  split; [by apply list_elem_of_fmap_2|].
  destruct Hc as [[Hb Hc]|[Hb Hc]]; [left|right]; (split; [done|]);
    intros x (r' & -> & ?)%list_elem_of_fmap; auto.
Qed.

Lemma baud_rounds_up_witness :
  let r := @get_baud linux (@set_baud linux sl_zero 9601) in
  r = 19200 /\ r ∈ (fst <$> @rates linux).
Proof.
  split; [vm_compute; reflexivity|]. apply (@baud_rounds_up linux linux_laws sl_zero 9601).
Defined.

(** Software flow control is written to the wrong word: a pending [swflow] never
    changes the [IXON] and [IXOFF] bits of [c_iflag], where termios keeps them, whatever its value. *)
Theorem set_swflow_misses_iflag `{T : Termios} s on :
  c_iflag (tio (set_swflow s on)) = c_iflag (tio s) /\
  c_lflag (tio (set_swflow s on)) = c_lflag (tio s) /\
  c_cc (tio (set_swflow s on)) = c_cc (tio s).
Proof. unfold set_swflow, on_tio. cbn. repeat case_match; done. Qed.

(** On Linux the misplaced bits overlap the speed: an update with 115200 baud
    and no software flow control pending, the defaults of [do_open], leaves the line at 75 baud. *)
Theorem linux_swflow_breaks_baud s :
  flags s = Z.lor FL_BAUD FL_SWFLOW -> baud s = 115200 -> swflow s = 0 ->
  @get_baud linux (@update_tio linux s) = 75.
Proof.
  intros Hf Hb Hs. set (clr := fun t => set_c_cflag (clr_bits (c_cflag t) 0x1400) t).
  assert (@update_tio linux s = on_tio clr (@set_baud linux s 115200)) as ->.
  { destruct s. cbn in Hf, Hb, Hs. subst. reflexivity. }
  unfold get_baud, set_baud, on_tio. cbn [tio w_tio cfgetispeed linux].
  replace (c_cflag _ & 4111)%C with 2; [vm_compute; reflexivity|].
  replace (to_speed 115200) with 0x1002 by (vm_compute; reflexivity). symmetry.
  cbn [cfsetispeed cfsetospeed linux]. unfold clr, linux_set_speed. cbn [c_cflag set_c_cflag].
  apply Z.bits_inj'. intros i Hi. unfold clr_bits.
  rewrite ?Z.land_spec, ?Z.lor_spec, ?Z.land_spec, ?Z.lor_spec, ?Z.land_spec, ?Z.lnot_spec by lia.
  destruct (Z.lt_ge_cases i 13) as [Hlt|Hge].
  - generalize (Z.testbit (c_cflag (tio s)) i). intros c.
    assert (i ∈ seqZ 0 13) as Hin by (apply elem_of_seqZ; lia). clear -Hin.
    change (seqZ 0 13) with [0; 1; 2; 3; 4; 5; 6; 7; 8; 9; 10; 11; 12] in Hin.
    repeat (apply elem_of_cons in Hin as [->|Hin]; [destruct c; reflexivity|]).
    by apply elem_of_nil in Hin.
  - rewrite (Z.bits_above_log2 4111 i), (Z.bits_above_log2 2 i) by (cbn; lia).
    by rewrite !andb_false_r.
Qed.

Lemma linux_swflow_breaks_baud_witness :
  let s := w_flags 0x101 (w_baud 115200 sl_zero) in
  @get_baud linux (@update_tio linux s) = 75.
Proof. apply linux_swflow_breaks_baud; reflexivity. Defined.
