(* ===== verification/SlDrv.v ===== *)
(** The serial line driver, Unix side: [sl/c_src/sl_drv.c].  Opening and closing
    the line, reading, writing with the port queue, and the control commands.
    The settings themselves are in [SlTermios].

    The operating system and the runtime are a parameter: what a call answers is
    a function of the calls made so far, the trace. *)
From stdpp Require Import strings.
From S2P Require Import Prelude Erts SlTermios.
#[local] Open Scope Z_scope.

(** * The environment *)

Inductive event :=
  | Select (fd : Z) (rd wr : bool) (on : bool)       (* driver_select *)
  | Output (b : bytes)                               (* driver_output *)
  | Open (dev : bytes) (fd : Z)                      (* open, its result *)
  | Nonblock (fd : Z)                                (* fcntl, O_NONBLOCK *)
  | Close (fd : Z)
  | Getattr (fd : Z) | Setattr (fd : Z) (t : termios)
  | Read (fd : Z) (block : option Z) (size : Z) (n : Z)   (* its buffer, size and result *)
  | Write (fd : Z) (chunks : list bytes) (n : Z)     (* write or writev, its result *)
  | Break (fd : Z) | Flow (fd : Z) (on : bool).      (* tcsendbreak, tcflow *)
Abbreviation trace := (list event).

Definition EAGAIN := 11.

(** Answers: [os_read] gives the result, [errno] and the bytes read. *)
Class Os := {
  os_open : trace -> bytes -> Z;
  os_tcgetattr : trace -> Z -> option termios;
  os_tcsetattr : trace -> Z -> termios -> Z;
  os_read : trace -> Z -> option Z -> Z -> Z * Z * bytes;
  os_write : trace -> Z -> list bytes -> Z * Z;
  os_alloc : trace -> Z -> bool;
}.

(** Documented results of [read] and [write]: at most the size asked for, or -1. *)
Class OsLaws (O : Os) : Prop := {
  os_read_law tr fd blk size : let '(n, _, data) := os_read tr fd blk size in
    -1 <= n <= Z.max 0 size /\ Z.of_nat (length data) = Z.max 0 n;
  os_write_law tr fd chunks :
    -1 <= fst (os_write tr fd chunks) <= Z.of_nat (length (concat chunks));
}.

(** The driver's block, the port's queue and the calls made. *)
Record world (Q : Type) := World { slp : sl_t; queue : Q; calls : trace }.
Arguments World {Q}. Arguments slp {Q}. Arguments queue {Q}. Arguments calls {Q}.

(** A control command writes its answer to [*rbuf], [rsize] bytes, or to a block
    of its own; [NullReply] is a write through the null pointer. *)
Inductive reply := InPlace (b : bytes) | Allocated (b : bytes) | NullReply.

Section Driver.
Context `{T : Termios} `{O : Os} {Q : Type} `{PQ : !PortQueue Q}.
Abbreviation W := (world Q).
Abbreviation Sl := (M W).

Definition upd (f : sl_t -> sl_t) : Sl unit :=
  modify (fun w => World (f (slp w)) (queue w) (calls w)).
Definition act (e : event) : Sl unit :=
  modify (fun w => World (slp w) (queue w) (calls w ++ [e])).
Definition get_slp : Sl sl_t := gets slp.

Definition driver_enq (b : bytes) : Sl unit :=
  modify (fun w => World (slp w) (Erts.driver_enq (queue w) b) (calls w)).
Definition driver_deq (n : Z) : Sl unit :=
  modify (fun w => World (slp w) (Erts.driver_deq (queue w) n) (calls w)).
Definition driver_sizeq : Sl Z := gets (fun w => Erts.driver_sizeq (queue w)).
Definition driver_peekq : Sl (list bytes) := gets (fun w => Erts.driver_peekq (queue w)).
Definition sys_read (fd : Z) (blk : option Z) (size : Z) : Sl (Z * Z * bytes) := fun w =>
  let '(n, errno, data) := os_read (calls w) fd blk size in
  (n, errno, data, World (slp w) (queue w) (calls w ++ [Read fd blk size n])).
Definition sys_write (fd : Z) (chunks : list bytes) : Sl (Z * Z) := fun w =>
  let '(n, errno) := os_write (calls w) fd chunks in
  (n, errno, World (slp w) (queue w) (calls w ++ [Write fd chunks n])).
Definition driver_alloc (n : Z) : Sl bool := gets (fun w => os_alloc (calls w) n).

(** * Device state *)

Definition get_com_state : Sl Z :=
  s ← get_slp;
  tr ← gets calls;
  act (Getattr (com s));;;
  match os_tcgetattr tr (com s) with
  | Some t => upd (w_tio t);;; mret 0
  | None => mret (-1)
  end.

Definition set_com_state : Sl Z :=
  s ← get_slp;
  tr ← gets calls;
  act (Setattr (com s) (tio s));;;
  mret (os_tcsetattr tr (com s) (tio s)).

Definition do_send_break : Sl unit :=
  s ← get_slp;
  when negb (com s =? INVALID) do act (Break (com s)).

Definition do_send_xon : Sl unit :=
  s ← get_slp;
  when negb (com s =? INVALID) && c_true (swflow s) do act (Flow (com s) true).

Definition do_send_xoff : Sl unit :=
  s ← get_slp;
  when negb (com s =? INVALID) && c_true (swflow s) do act (Flow (com s) false).

Definition do_close : Sl unit :=
  s ← get_slp;
  when negb (com s =? INVALID) do (
    act (Select (com s) true true false);;;
    act (Close (com s));;;
    upd (w_com INVALID)).

(** The assignments of [do_update] are [SlTermios.update_tio]. *)
Definition do_update : Sl unit :=
  s ← get_slp;
  if (flags s =? 0) || (com s =? INVALID) then skip else
  upd update_tio;;;
  set_com_state;;;
  upd (w_flags 0).

(** [driver_realloc(slp->ibuf, slp->bufsz)] when the buffer is missing or too
    short; the length is set even when the block could not be had. *)
Definition fit_ibuf : Sl unit :=
  s ← get_slp;
  when bool_decide (ibuf s = None) || (ilen s <? bufsz s) do (
    ok ← driver_alloc (bufsz s);
    upd (w_ibuf (if ok : bool then Some (bufsz s) else None));;;
    upd (w_ilen (bufsz s))).

Definition do_read : Sl Z :=
  s ← get_slp;
  if (com s =? INVALID) || c_true (ipending s) then mret (-1) else
  fit_ibuf;;;
  s ← get_slp;
  r ← sys_read (com s) (ibuf s) (bufsz s);
  let '(n, errno, data) := r in
  if 0 <? n then act (Output (take (Z.to_nat n) data));;; mret n
  else if (n <? 0) && (errno =? EAGAIN) then
    act (Select (com s) true false true);;; mret 0
  else mret n.

(** [before] is the byte in front of [buf]: with [n = -1] and an [errno] other than
    [EAGAIN] the second branch enqueues [buf - 1]. *)
Definition do_write_buf (before : Z) (buf : bytes) (len : Z) : Sl Z :=
  s ← get_slp;
  r ← sys_write (com s) [buf];
  let '(n, errno) := r in
  (if (n <? 0) && (errno =? EAGAIN) then
     driver_enq buf;;;
     act (Select (com s) false true true)
   else if n <? len then
     driver_enq (slice (Z.to_nat (1 + n)) (Z.to_nat (len - n)) (before :: buf));;;
     act (Select (com s) false true true)
   else skip);;;
  mret n.

(** The outer [n], which the inner one hides, is returned. *)
Definition do_write_more : Sl Z :=
  s ← get_slp;
  vector ← driver_peekq;
  (if bool_decide (vector = []) then skip else
     r ← sys_write (com s) vector;
     let '(n, _) := r in
     (when 0 <? n do driver_deq n);;;
     sz ← driver_sizeq;
     when sz =? 0 do act (Select (com s) false true false));;;
  mret 0.

Definition do_write_init (before : Z) (buf : bytes) (len : Z) : Sl Z :=
  s ← get_slp;
  if com s =? INVALID then mret (-1) else
  if len =? 0 then mret 0 else
  sz ← driver_sizeq;
  if c_true (opending s) || (0 <? sz) then driver_enq buf;;; mret 0 else
  do_write_buf before buf len.

(** One default of [do_open]: [if (!(slp->flags & FL)) { slp->x = v; slp->flags |= FL; }]. *)
Definition default (fl : Z) (f : sl_t -> sl_t) : Sl unit :=
  s ← get_slp;
  when negb (has_bits (flags s) fl) do (
    upd f;;;
    upd (fun s => w_flags (set_bits (flags s) fl) s)).

Definition do_open : Sl Z :=
  do_close;;;
  s ← get_slp;
  match dev s with
  | None => mret (-1)
  | Some d =>
      tr ← gets calls;
      let fd := os_open tr (c_str d) in
      act (Open (c_str d) fd);;;
      upd (w_com fd);;;
      if fd =? INVALID then mret (-1) else
      act (Nonblock fd);;;
      r ← get_com_state;
      if r <? 0 then mret (-1) else
      default FL_MODE (w_mode SL_MODE_RAW);;;
      default FL_BAUD (w_baud 9600);;;
      default FL_PARITY (w_parity 0);;;
      default FL_ECHO (w_echo 0);;;
      default FL_CSIZE (w_csize 8);;;
      default FL_HWFLOW (w_hwflow 1);;;
      default FL_SWFLOW (w_swflow 0);;;
      do_update;;;
      mret 0
  end.

Definition do_hangup : Sl Z :=
  s ← get_slp;
  if com s =? INVALID then mret (-1) else
  let t := cfsetispeed (tio s) (B 0) in
  let t := cfsetospeed t (B 0) in
  tr ← gets calls;
  act (Setattr (com s) t);;;
  mret (os_tcsetattr tr (com s) t).

(** * Control replies *)

Definition SL_OK := 0.
Definition SL_ERROR := 1.
Definition SL_INT := 0.
Definition SL_BOOL := 1.
Definition SL_STRING := 2.
Definition SL_ERR_OK := 0.
Definition SL_ERR_BADARG := 1.
Definition SL_ERR_NOTOPEN := 2.
Definition SL_ERR_ACCESS := 3.
Definition SL_ERR_NOMEM := 4.

(** The result of a control command: the number returned and what was written. *)
Definition ctl_reply (rep : Z) (buf : bytes) (rsize : Z) : Sl (Z * reply) :=
  let len := Z.of_nat (length buf) in
  let b := u8 rep :: buf in
  if len + 1 >? rsize then
    ok ← driver_alloc (len + 1);
    mret (len + 1, if ok : bool then Allocated b else NullReply)
  else mret (len + 1, InPlace b).

Definition ctl_reply_int (rep rsize : Z) : Sl (Z * reply) :=
  ctl_reply SL_OK (SL_INT :: put_int32 rep) rsize.

Definition ctl_reply_bool (rep rsize : Z) : Sl (Z * reply) :=
  ctl_reply SL_OK [SL_BOOL; if c_true rep then 1 else 0] rsize.

(** The names are lower case, [tolower] leaves them. *)
Definition ctl_error (err rsize : Z) : Sl (Z * reply) :=
  let s :=
    if err =? SL_ERR_OK then ""%string
    else if err =? SL_ERR_BADARG then "badarg"%string
    else if err =? SL_ERR_NOTOPEN then "not_open"%string
    else if err =? SL_ERR_ACCESS then "bad_access"%string
    else if err =? SL_ERR_NOMEM then "no_mem"%string
    else "unknown"%string in
  ctl_reply SL_ERROR (lit s) rsize.

Definition ctl_reply_string (str : bytes) (rsize : Z) : Sl (Z * reply) :=
  let n := Z.of_nat (length (c_str str)) in
  if 1024 <=? n then ctl_error SL_ERR_BADARG rsize
  else ctl_reply SL_OK (SL_STRING :: c_str str) rsize.

(** * The driver entries *)

(** [g] is the block [driver_alloc] returns, with indeterminate fields. *)
Definition sl_init (g : sl_t) (port : Z) : sl_t :=
  let s := w_port port g in
  let s := w_com INVALID s in
  let s := w_dev None s in
  let s := w_ilen 0 s in
  let s := w_ibuf None s in
  let s := w_ipending 0 s in
  let s := w_olen 0 s in
  let s := w_obuf None s in
  let s := w_opending 0 s in
  let s := w_tio (Tio 0 0 0 0 (replicate NCCS 0)) s in
  let s := w_flags 0 s in
  let s := w_bufsz 1 s in
  w_buftm 0 s.
(** [empty] is the port's queue when it is opened, [sz] is [sizeof(sl_t)]. *)
Definition sl_start (g : sl_t) (empty : Q) (sz port : Z) : option W :=
  if os_alloc [] sz then Some (World (sl_init g port) empty []) else None.

(** The blocks are freed with the port. *)
Definition sl_stop : Sl unit := do_close.

Definition sl_output (before : Z) (buf : bytes) : Sl unit :=
  do_write_init before buf (Z.of_nat (length buf));;; skip.

Definition sl_ready_input : Sl unit :=
  fit_ibuf;;;
  s ← get_slp;
  r ← sys_read (com s) (ibuf s) (bufsz s);
  let '(n, _, data) := r in
  when 0 <? n do act (Output (take (Z.to_nat n) data)).

Definition sl_ready_output : Sl unit := do_write_more;;; skip.

(** * Control commands *)

Definition SL_CONNECT := 1.
Definition SL_DISCONNECT := 2.
Definition SL_OPEN := 3.
Definition SL_CLOSE := 4.
Definition SL_XOFF := 5.
Definition SL_XON := 6.
Definition SL_BREAK := 7.
Definition SL_UPDATE := 8.
Definition SL_GET_RATES := 9.
Definition SL_REVERT := 10.
Definition SL_SET_DEV := 20.
Definition SL_GET_DEV := 21.
Definition SL_SET_BAUD := 22.
Definition SL_GET_BAUD := 23.
Definition SL_SET_CSIZE := 26.
Definition SL_GET_CSIZE := 27.
Definition SL_SET_BUFSZ := 28.
Definition SL_GET_BUFSZ := 29.
Definition SL_SET_BUFTM := 30.
Definition SL_GET_BUFTM := 31.
Definition SL_SET_STOPB := 32.
Definition SL_GET_STOPB := 33.
Definition SL_SET_PARITY := 34.
Definition SL_GET_PARITY := 35.
Definition SL_SET_HWFLOW := 36.
Definition SL_GET_HWFLOW := 37.
Definition SL_SET_SWFLOW := 38.
Definition SL_GET_SWFLOW := 39.
Definition SL_SET_XONCHAR := 40.
Definition SL_GET_XONCHAR := 41.
Definition SL_SET_XOFFCHAR := 42.
Definition SL_GET_XOFFCHAR := 43.
Definition SL_SET_ECHO := 44.
Definition SL_GET_ECHO := 45.
Definition SL_SET_MODE := 46.
Definition SL_GET_MODE := 47.
Definition SL_SET_EOLCHAR := 48.
Definition SL_GET_EOLCHAR := 49.
Definition SL_SET_EOL2CHAR := 50.
Definition SL_GET_EOL2CHAR := 51.

(** The cases of [sl_ctl], in groups: [k] is what the cases after the group answer. *)
Section Ctl.
Context (cmd : Z) (buf : bytes) (rsize : Z).

Definition ok : Sl (Z * reply) := ctl_reply SL_OK [] rsize.
Definition badarg : Sl (Z * reply) := ctl_error SL_ERR_BADARG rsize.
Definition pend (fl : Z) : Sl unit := upd (fun s => w_flags (set_bits (flags s) fl) s).

(** A case that sets an integer setting. *)
Definition set_int (put : Z -> sl_t -> sl_t) (fl : Z) : Sl (Z * reply) :=
  if negb (length buf =? 4)%nat then badarg else
  upd (put (get_int32 buf));;;
  pend fl;;;
  ok.
(** A case that reads a setting: the pending value, else that of the line. *)
Definition get_with (rep : Z -> Z -> Sl (Z * reply)) (fl : Z) (pending line : sl_t -> Z) :
    Sl (Z * reply) :=
  s ← get_slp;
  if has_bits (flags s) fl then rep (pending s) rsize
  else if negb (com s =? INVALID) then rep (line s) rsize
  else badarg.

Definition ctl_dev (k : Sl (Z * reply)) : Sl (Z * reply) :=
  if cmd =? SL_SET_DEV then
    upd (w_dev None);;;
    if (0 <? length buf)%nat then
      a ← driver_alloc (Z.of_nat (length buf) + 1);
      if negb a : bool then ctl_error SL_ERR_NOMEM rsize else
      upd (w_dev (Some buf));;;
      ok
    else ok
  else if cmd =? SL_GET_DEV then
    s ← get_slp;
    match dev s with None => badarg | Some d => ctl_reply_string d rsize end
  else k.

(** [bufsz] is kept between 1 and 255. *)
Definition store_bufsz : Sl unit :=
  upd (w_bufsz (get_int32 buf));;;
  s ← get_slp;
  if bufsz s <? 1 then upd (w_bufsz 1)
  else when bufsz s >? 255 do upd (w_bufsz 255).

Definition ctl_frame (k : Sl (Z * reply)) : Sl (Z * reply) :=
  if cmd =? SL_SET_BAUD then set_int w_baud FL_BAUD
  else if cmd =? SL_GET_BAUD then get_with ctl_reply_int FL_BAUD baud get_baud
  else if cmd =? SL_SET_CSIZE then set_int w_csize FL_CSIZE
  else if cmd =? SL_GET_CSIZE then get_with ctl_reply_int FL_CSIZE csize get_csize
  else if cmd =? SL_SET_BUFSZ then
    if negb (length buf =? 4)%nat then badarg else
    store_bufsz;;;
    pend FL_BUFSZ;;;
    ok
  else if cmd =? SL_GET_BUFSZ then get_with ctl_reply_int FL_BUFSZ bufsz get_bufsz
  else if cmd =? SL_SET_BUFTM then set_int w_buftm FL_BUFTM
  else if cmd =? SL_GET_BUFTM then get_with ctl_reply_int FL_BUFTM buftm get_buftm
  else if cmd =? SL_SET_STOPB then set_int w_stopb FL_STOPB
  else if cmd =? SL_GET_STOPB then get_with ctl_reply_int FL_STOPB stopb get_stopb
  else if cmd =? SL_SET_PARITY then set_int w_parity FL_PARITY
  else if cmd =? SL_GET_PARITY then get_with ctl_reply_int FL_PARITY parity get_parity
  else k.

Definition ctl_flow (k : Sl (Z * reply)) : Sl (Z * reply) :=
  if cmd =? SL_SET_HWFLOW then set_int w_hwflow FL_HWFLOW
  else if cmd =? SL_GET_HWFLOW then get_with ctl_reply_bool FL_HWFLOW hwflow get_hwflow
  else if cmd =? SL_SET_SWFLOW then set_int w_swflow FL_SWFLOW
  else if cmd =? SL_GET_SWFLOW then get_with ctl_reply_bool FL_SWFLOW swflow get_swflow
  else if cmd =? SL_SET_XONCHAR then set_int w_xonchar FL_XONCHAR
  else if cmd =? SL_GET_XONCHAR then get_with ctl_reply_int FL_XONCHAR xonchar get_xonchar
  else if cmd =? SL_SET_XOFFCHAR then set_int w_xoffchar FL_XOFFCHAR
  else if cmd =? SL_GET_XOFFCHAR then get_with ctl_reply_int FL_XOFFCHAR xoffchar get_xoffchar
  else if cmd =? SL_SET_EOLCHAR then set_int w_eolchar FL_EOLCHAR
  else if cmd =? SL_GET_EOLCHAR then get_with ctl_reply_int FL_EOLCHAR eolchar get_eolchar
  else if cmd =? SL_SET_EOL2CHAR then set_int w_eol2char FL_EOL2CHAR
  else if cmd =? SL_GET_EOL2CHAR then get_with ctl_reply_int FL_EOL2CHAR eol2char get_eol2char
  else if cmd =? SL_SET_ECHO then set_int w_echo FL_ECHO
  else if cmd =? SL_GET_ECHO then get_with ctl_reply_bool FL_ECHO echo get_echo
  else k.

Definition ctl_mode (k : Sl (Z * reply)) : Sl (Z * reply) :=
  if cmd =? SL_SET_MODE then
    if negb (length buf =? 4)%nat then badarg else
    let m := get_int32 buf in
    s ← get_slp;
    if negb (m =? mode s) then
      if m =? SL_MODE_RAW then upd (w_mode SL_MODE_RAW);;; pend FL_MODE;;; ok
      else if m =? SL_MODE_LINE then upd (w_mode SL_MODE_LINE);;; pend FL_MODE;;; ok
      else badarg
    else ok
  else if cmd =? SL_GET_MODE then get_with ctl_reply_int FL_MODE mode cmode
  else k.

(** [rates] has room for one number per entry of [rtab] but the last; all of it
    is sent. *)
Fixpoint put_rates (tab : list (Z * Z)) : bytes :=
  match tab with
  | [] => []
  | r :: tab => if fst r =? -1 then [] else put_int32 (fst r) ++ put_rates tab
  end.
Definition ctl_get_rates : Sl (Z * reply) :=
  ctl_reply SL_OK (take (1 + 4 * (length rtab - 1)) (SL_INT :: put_rates rtab)) rsize.

Definition ctl_open : Sl (Z * reply) :=
  r ← do_open;
  if r <? 0 then ctl_error SL_ERR_ACCESS rsize else
  s ← get_slp;
  act (Select (com s) true false true);;;
  ok.

Definition ctl_line : Sl (Z * reply) :=
  if (cmd =? SL_CONNECT) || (cmd =? SL_OPEN) then
    s ← get_slp;
    match dev s with
    | None => badarg
    | Some _ => ctl_open
    end
  else if cmd =? SL_DISCONNECT then do_hangup;;; do_close;;; ok
  else if cmd =? SL_CLOSE then do_close;;; ok
  else if cmd =? SL_XOFF then do_send_xoff;;; ok
  else if cmd =? SL_XON then do_send_xon;;; ok
  else if cmd =? SL_BREAK then do_send_break;;; ok
  else if cmd =? SL_UPDATE then do_update;;; ok
  else if cmd =? SL_REVERT then upd (w_flags 0);;; ok
  else if cmd =? SL_GET_RATES then ctl_get_rates
  else badarg.

Definition sl_ctl : Sl (Z * reply) := ctl_dev (ctl_frame (ctl_flow (ctl_mode ctl_line))).
End Ctl.
End Driver.

(** * Observations of a trace *)

(** The bytes the device took. *)
Definition written (tr : trace) : bytes :=
  concat (map (fun e => match e with
    | Write _ chunks n => take (Z.to_nat n) (concat chunks) | _ => [] end) tr).
(** Whether write readiness of the line is selected. *)
Definition armed (tr : trace) : bool :=
  fold_left (fun a e => match e with Select _ _ true on => on | _ => a end) tr false.
(** The bytes read, and the bytes passed to the port's owner. *)
Definition delivered (tr : trace) : bytes :=
  concat (map (fun e => match e with Output b => b | _ => [] end) tr).
(** Every read stays in its buffer. *)
Definition reads_fit (tr : trace) : Prop :=
  Forall (fun e => match e with Read _ (Some m) size _ => 0 < size <= m | _ => True end) tr.

Arguments written : simpl never.
Arguments armed : simpl never.
Arguments delivered : simpl never.
Lemma written_app a b : written (a ++ b) = written a ++ written b.
Proof. unfold written. by rewrite map_app, concat_app. Qed.
Lemma written_write fd chunks n : written [Write fd chunks n] = take (Z.to_nat n) (concat chunks).
Proof. apply app_nil_r. Qed.
Lemma written_select fd r w on : written [Select fd r w on] = [].
Proof. done. Qed.
Lemma written_read fd blk size n : written [Read fd blk size n] = [].
Proof. done. Qed.
Lemma written_output b : written [Output b] = [].
Proof. done. Qed.
Lemma armed_app a b : armed (a ++ b) =
  fold_left (fun a e => match e with Select _ _ true on => on | _ => a end) b (armed a).
Proof. apply fold_left_app. Qed.
Create Rewrite HintDb sl_trace.
#[export] Hint Rewrite written_app written_write written_select written_read written_output
  @app_nil_r : sl_trace.

(** * The driver as a transition system *)

Section Steps.
Context `{T : Termios} `{O : Os} {Q : Type} `{PQ : !PortQueue Q}.

(** What the runtime may call: output from the owner at any time, the readiness
    callbacks when selected (writes) or open (reads), and the control commands. *)
Inductive op := OpOutput (before : Z) (buf : bytes) | OpReadyIn | OpReadyOut
  | OpCtl (cmd : Z) (buf : bytes) (rsize : Z).
Definition exec (o : op) (w : world Q) : world Q :=
  match o with
  | OpOutput before buf => snd (sl_output before buf w)
  | OpReadyIn => snd (sl_ready_input w)
  | OpReadyOut => snd (sl_ready_output w)
  | OpCtl cmd buf rsize => snd (sl_ctl cmd buf rsize w)
  end.
Definition enabled (o : op) (w : world Q) : Prop :=
  match o with
  | OpReadyIn => com (slp w) <> INVALID
  | OpReadyOut => armed (calls w) = true
  | _ => True
  end.
Inductive steps : world Q -> list op -> world Q -> Prop :=
  | steps_nil w : steps w [] w
  | steps_cons w o ops w' : enabled o w -> steps (exec o w) ops w' -> steps w (o :: ops) w'.

(** The bytes of an output that reach the driver: those sent while the line is open. *)
Definition accepted (o : op) (w : world Q) : bytes :=
  match o with
  | OpOutput _ buf => if com (slp w) =? INVALID then [] else buf
  | _ => []
  end.
Fixpoint accepted_all (ops : list op) (w : world Q) : bytes :=
  match ops with [] => [] | o :: ops => accepted o w ++ accepted_all ops (exec o w) end.
End Steps.

(** ** What control commands leave alone *)

Create HintDb sl_ensures.
Section Ctl_ensures.
Context `{TL : TermiosLaws} `{O : Os} {Q : Type} `{PQ : !PortQueue Q}.
Context (R : world Q -> world Q -> Prop) `{!PreOrder R}.

(** A relation between states that the settings and the quiet calls respect. *)
Definition setting (f : sl_t -> sl_t) : Prop := forall s,
  (com (f s), opending (f s), bufsz (f s), ilen (f s), ibuf (f s)) =
  (com s, opending s, bufsz s, ilen s, ibuf s).
Definition quiet (e : event) : Prop :=
  match e with Select _ _ _ _ | Read _ _ _ _ | Write _ _ _ | Output _ => False | _ => True end.
Hypothesis R_upd : forall f, setting f -> ensures R (upd f).
Hypothesis R_act : forall e, quiet e -> ensures R (act e).
Hypothesis R_bufsz : forall buf, ensures R (store_bufsz buf).

Lemma cfg_setting s s' : cfg s' = cfg s ->
  (com s', opending s', bufsz s', ilen s', ibuf s') =
  (com s, opending s, bufsz s, ilen s, ibuf s).
Proof. intros E. destruct s, s'. injection E. cbn. congruence. Qed.
Lemma update_tio_setting : setting update_tio.
Proof. intros s. apply cfg_setting, update_tio_cfg. Qed.

Local Ltac go := unfold get_slp, driver_alloc;
  walk ltac:(first [assumption | solve [eauto with sl_ensures]
    | apply R_upd; first [done | apply update_tio_setting] | by apply R_act]).
Lemma ctl_reply_ensures rep buf rsize : ensures R (ctl_reply rep buf rsize).
Proof. unfold ctl_reply. go. Qed.
Hint Resolve ctl_reply_ensures : sl_ensures.
Lemma ctl_error_ensures err rsize : ensures R (ctl_error err rsize).
Proof. unfold ctl_error. go. Qed.
Hint Resolve ctl_error_ensures : sl_ensures.
Lemma ok_ensures rsize : ensures R (ok rsize).
Proof. apply ctl_reply_ensures. Qed.
Lemma badarg_ensures rsize : ensures R (badarg rsize).
Proof. apply ctl_error_ensures. Qed.
Lemma ctl_reply_string_ensures str rsize : ensures R (ctl_reply_string str rsize).
Proof. unfold ctl_reply_string. go. Qed.
Hint Resolve ok_ensures badarg_ensures ctl_reply_string_ensures : sl_ensures.
Lemma get_with_ensures rsize (rep : Z -> Z -> M (world Q) (Z * reply)) fl p l :
  (forall v, ensures R (rep v rsize)) -> ensures R (get_with rsize rep fl p l).
Proof. intros Hrep. unfold get_with. go. Qed.
Lemma get_int_ensures rsize fl p l : ensures R (get_with rsize ctl_reply_int fl p l).
Proof. apply get_with_ensures. intros v. apply ctl_reply_ensures. Qed.
Lemma get_bool_ensures rsize fl p l : ensures R (get_with rsize ctl_reply_bool fl p l).
Proof. apply get_with_ensures. intros v. apply ctl_reply_ensures. Qed.
Hint Resolve get_int_ensures get_bool_ensures : sl_ensures.
Lemma pend_ensures fl : ensures R (pend fl).
Proof. unfold pend. go. Qed.
Hint Resolve pend_ensures : sl_ensures.
Lemma set_int_ensures buf rsize put fl : (forall v, setting (put v)) ->
  ensures R (set_int buf rsize put fl).
Proof. intros Hput. unfold set_int. go. Qed.

Lemma ctl_dev_ensures cmd buf rsize k : ensures R k -> ensures R (ctl_dev cmd buf rsize k).
Proof. intros Hk. unfold ctl_dev. go. Qed.
Local Ltac go_set := go; repeat (apply set_int_ensures; intros ??; reflexivity).
Lemma ctl_frame_ensures cmd buf rsize k : ensures R k -> ensures R (ctl_frame cmd buf rsize k).
Proof. intros Hk. unfold ctl_frame. go_set. Qed.
Lemma ctl_flow_ensures cmd buf rsize k : ensures R k -> ensures R (ctl_flow cmd buf rsize k).
Proof. intros Hk. unfold ctl_flow. go_set. Qed.
Lemma ctl_mode_ensures cmd buf rsize k : ensures R k -> ensures R (ctl_mode cmd buf rsize k).
Proof. intros Hk. unfold ctl_mode. go_set. Qed.
Lemma do_update_ensures : ensures R do_update.
Proof. unfold do_update, set_com_state. go. Qed.
Lemma do_hangup_ensures : ensures R do_hangup.
Proof. unfold do_hangup. go. Qed.
Lemma send_ensures : ensures R do_send_xon /\ ensures R do_send_xoff /\ ensures R do_send_break.
Proof. split_and!; [unfold do_send_xon|unfold do_send_xoff|unfold do_send_break]; go. Qed.

(** The whole switch, when opening and closing ensure the relation too. *)
Lemma sl_ctl_ensures cmd buf rsize :
  (cmd = SL_CONNECT \/ cmd = SL_OPEN -> ensures R (ctl_open rsize)) ->
  (cmd = SL_DISCONNECT \/ cmd = SL_CLOSE -> ensures R do_close) ->
  ensures R (sl_ctl cmd buf rsize).
Proof.
  intros Ho Hc. destruct send_ensures as (?&?&?).
  apply ctl_dev_ensures, ctl_frame_ensures, ctl_flow_ensures, ctl_mode_ensures.
  pose proof do_update_ensures. pose proof do_hangup_ensures.
  assert (cmd = SL_DISCONNECT -> ensures R do_close) by auto.
  assert (cmd = SL_CLOSE -> ensures R do_close) by auto.
  assert ((cmd =? SL_CONNECT) || (cmd =? SL_OPEN) = true -> ensures R (ctl_open rsize)).
  { intros E. apply Ho. lia. }
  unfold ctl_line, ctl_get_rates. go;
    match goal with H : _ -> ensures R do_close |- _ => apply H; lia end.
Qed.
End Ctl_ensures.

Section Invariants.
Context `{TL : TermiosLaws} `{OL : OsLaws} {Q : Type} `{PL : PortQueueLaws Q}.

(** ** The byte stream *)

(** Nothing is written, delivered, enqueued or dequeued. *)
Definition same_io (w w' : world Q) : Prop :=
  queue w' = queue w /\ written (calls w') = written (calls w) /\
  delivered (calls w') = delivered (calls w).
#[local] Instance same_io_preorder : PreOrder same_io.
Proof. split; [done|]. intros ??? (?&?&?) (?&?&?). split_and!; congruence. Qed.
Lemma delivered_app a b : delivered (a ++ b) = delivered a ++ delivered b.
Proof. unfold delivered. by rewrite map_app, concat_app. Qed.

Definition silent (e : event) : Prop :=
  match e with Write _ _ _ | Output _ => False | _ => True end.
Lemma act_same_io e : silent e -> ensures same_io (act e).
Proof.
  intros He w. unfold same_io. cbn. rewrite written_app, delivered_app.
  destruct e; try done; cbn; by rewrite !app_nil_r.
Qed.
Lemma upd_same_io f : ensures same_io (upd f).
Proof. by intros w. Qed.
Local Ltac go := unfold get_slp, driver_alloc;
  walk ltac:(first [assumption | apply upd_same_io | by apply act_same_io]).
Lemma do_close_same_io : ensures same_io do_close.
Proof. unfold do_close. go. Qed.
Lemma fit_ibuf_same_io : ensures same_io fit_ibuf.
Proof. unfold fit_ibuf. go. Qed.
Lemma do_update_same_io : ensures same_io do_update.
Proof. unfold do_update, set_com_state. go. Qed.
Lemma do_open_same_io : ensures same_io do_open.
Proof.
  pose proof do_close_same_io. pose proof do_update_same_io.
  assert (forall fl f, ensures same_io (default fl f)) as Hd by (intros; unfold default; go).
  unfold do_open, get_com_state. go; apply Hd.
Qed.
Lemma store_bufsz_same_io buf : ensures same_io (store_bufsz buf).
Proof. unfold store_bufsz. go. Qed.
Lemma sl_ctl_same_io cmd buf rsize : ensures same_io (sl_ctl cmd buf rsize).
Proof.
  apply sl_ctl_ensures; auto using upd_same_io, store_bufsz_same_io.
  - exact _.
  - intros e He. apply act_same_io. by destruct e.
  - intros _. unfold ctl_open, ok, ctl_error, ctl_reply.
    pose proof do_open_same_io. go.
  - intros _. apply do_close_same_io.
Qed.

(** The device only ever reports that it is busy. *)
Definition soft_errors : Prop := forall tr fd chunks,
  fst (os_write tr fd chunks) < 0 -> snd (os_write tr fd chunks) = EAGAIN.

Definition stream (w : world Q) : bytes := written (calls w) ++ q_bytes (queue w).
Lemma same_io_stream w w' : same_io w w' -> stream w' = stream w.
Proof. intros (E & E' & _). unfold stream. by rewrite E, E'. Qed.

Lemma take_clamp (n : Z) (l : bytes) : n <= 0 -> take (Z.to_nat n) l = [].
Proof. intros. by replace (Z.to_nat n) with 0%nat by lia. Qed.

(** A write, when nothing is queued, and what is enqueued after it add up to the
    bytes to be written. *)
Lemma do_write_buf_stream before buf w : soft_errors -> q_bytes (queue w) = [] ->
  stream (snd (do_write_buf before buf (Z.of_nat (length buf)) w)) = stream w ++ buf.
Proof.
  intros Hs Hq. pose proof (os_write_law (calls w) (com (slp w)) [buf]) as Hl.
  specialize (Hs (calls w) (com (slp w)) [buf]).
  unfold do_write_buf, get_slp, gets, mbind, M_bind, sys_write.
  destruct (os_write _ _ _) as [n errno]. cbn [fst snd concat] in *. rewrite app_nil_r in Hl.
  unfold stream. rewrite Hq. destruct (Z.ltb_spec n 0); cbn [andb].
  - rewrite Hs by done. rewrite Z.eqb_refl. cbn. rewrite q_enq_bytes, Hq. autorewrite with sl_trace.
    by rewrite take_clamp, app_nil_r by lia.
  - destruct (Z.ltb_spec n (Z.of_nat (length buf))); cbn.
    + rewrite q_enq_bytes, Hq. autorewrite with sl_trace. cbn [concat]. rewrite app_nil_r.
      replace (Z.to_nat (1 + n)) with (S (Z.to_nat n)) by lia.
      unfold slice. cbn [drop app]. rewrite (take_ge (drop _ _)) by (rewrite length_drop; lia).
      by rewrite <-app_assoc, take_drop.
    + rewrite Hq. autorewrite with sl_trace. cbn [concat]. rewrite app_nil_r.
      by rewrite take_ge by lia.
Qed.

Lemma do_write_more_stream w : stream (snd (do_write_more w)) = stream w.
Proof.
  unfold do_write_more, get_slp, driver_peekq, driver_sizeq, gets, mbind, M_bind, sys_write.
  case_bool_decide; [done|].
  pose proof (os_write_law (calls w) (com (slp w)) (Erts.driver_peekq (queue w))) as Hl.
  destruct (os_write _ _ _) as [n errno]. cbn [fst] in Hl. rewrite q_peekq_bytes in Hl.
  unfold stream. destruct (Z.ltb_spec 0 n); cbn; destruct (Erts.driver_sizeq _ =? 0); cbn;
    autorewrite with sl_trace;
    rewrite ?q_peekq_bytes, ?q_deq_bytes, <-?app_assoc, ?take_drop by lia; try done.
  all: by rewrite take_clamp by lia.
Qed.

Lemma exec_stream o w : soft_errors -> stream (exec o w) = stream w ++ accepted o w.
Proof.
  intros Hs. destruct o as [before buf| | |cmd buf rsize]; cbn [exec accepted].
  - unfold sl_output, do_write_init, get_slp, driver_sizeq, gets, mbind, M_bind.
    destruct (com (slp w) =? INVALID); cbn [snd]; [by rewrite app_nil_r|].
    destruct (Z.eqb_spec (Z.of_nat (length buf)) 0) as [E|E].
    + destruct buf; [|done]. cbn. by rewrite app_nil_r.
    + destruct (_ || _) eqn:Eq.
      * cbn. unfold stream. cbn. by rewrite q_enq_bytes, app_assoc.
      * apply orb_false_iff in Eq as [_ Eq]. rewrite q_sizeq_bytes in Eq.
        assert (q_bytes (queue w) = []) as Hq by (apply length_zero_iff_nil; lia).
        pose proof (do_write_buf_stream before buf w Hs Hq) as E2.
        destruct (do_write_buf _ _ _ _). done.
  - rewrite app_nil_r. unfold sl_ready_input. unfold mbind at 1. unfold M_bind at 1.
    destruct (fit_ibuf w) as [u w1] eqn:E1. pose proof (fit_ibuf_same_io w) as H1.
    rewrite E1 in H1. rewrite <-(same_io_stream _ _ H1).
    unfold get_slp, gets, mbind, M_bind, sys_read.
    destruct (os_read _ _ _ _) as [[n errno] data]. unfold stream.
    destruct (0 <? n); cbn; by autorewrite with sl_trace.
  - rewrite app_nil_r. rewrite <-(do_write_more_stream w). unfold sl_ready_output, mbind, M_bind.
    by destruct (do_write_more w).
  - rewrite app_nil_r. apply same_io_stream, sl_ctl_same_io.
Qed.

(** ** Reads and the input buffer *)

(** The input buffer has the length the driver thinks, and every read so far fits. *)
Definition ibuf_ok (w : world Q) : Prop :=
  1 <= bufsz (slp w) <= 255 /\
  (forall m, ibuf (slp w) = Some m -> m = ilen (slp w)) /\ reads_fit (calls w).
Definition keeps_ibuf (w w' : world Q) : Prop := ibuf_ok w -> ibuf_ok w'.
#[local] Instance keeps_ibuf_preorder : PreOrder keeps_ibuf.
Proof. split; unfold keeps_ibuf; intros ?; auto. Qed.

Definition no_read (e : event) : Prop := match e with Read _ _ _ _ => False | _ => True end.
Lemma act_keeps_ibuf e : no_read e -> ensures keeps_ibuf (act e).
Proof.
  intros He w (H1 & H2 & H3). refine (conj H1 (conj H2 _)). apply Forall_app. split; [done|].
  constructor; [|constructor]. destruct e; first [exact I | destruct He].
Qed.
Lemma setting_keeps_ibuf f : setting f -> ensures keeps_ibuf (upd f).
Proof.
  intros Hf w (H1 & H2 & H3). specialize (Hf (slp w)). injection Hf as E1 E0 E2 E3 E4.
  unfold ibuf_ok. cbn. rewrite E2, E3, E4. auto.
Qed.
Lemma com_keeps_ibuf v : ensures keeps_ibuf (upd (w_com v)).
Proof. intros w Hw. exact Hw. Qed.
Lemma store_bufsz_keeps_ibuf buf : ensures keeps_ibuf (store_bufsz buf).
Proof.
  intros w (H1 & H2 & H3). unfold store_bufsz, get_slp, gets, mbind, M_bind. cbn.
  repeat (case_match; cbn); (refine (conj _ (conj H2 H3)); cbn in *; lia).
Qed.
Local Ltac go_ibuf := unfold get_slp, driver_alloc, driver_enq, driver_deq, driver_sizeq, driver_peekq;
  walk ltac:(first [assumption | by apply com_keeps_ibuf | by apply act_keeps_ibuf
    | apply setting_keeps_ibuf; first [done | apply update_tio_setting]
    | intros ? Hw; exact Hw]).
Lemma do_close_keeps_ibuf : ensures keeps_ibuf do_close.
Proof. unfold do_close. go_ibuf. Qed.
Lemma do_open_keeps_ibuf : ensures keeps_ibuf do_open.
Proof.
  pose proof do_close_keeps_ibuf.
  assert (ensures keeps_ibuf do_update) by (unfold do_update, set_com_state; go_ibuf).
  unfold do_open, get_com_state, default. go_ibuf.
Qed.
Lemma sl_ctl_keeps_ibuf cmd buf rsize : ensures keeps_ibuf (sl_ctl cmd buf rsize).
Proof.
  apply sl_ctl_ensures; auto using setting_keeps_ibuf, store_bufsz_keeps_ibuf.
  - exact _.
  - intros e He. apply act_keeps_ibuf. by destruct e.
  - intros _. unfold ctl_open, ok, ctl_error, ctl_reply. pose proof do_open_keeps_ibuf. go_ibuf.
  - intros _. apply do_close_keeps_ibuf.
Qed.
Lemma sys_write_keeps_ibuf fd chunks : ensures keeps_ibuf (sys_write fd chunks).
Proof.
  intros w Hw. pose proof (act_keeps_ibuf (Write fd chunks (fst (os_write (calls w) fd chunks))) I w Hw).
  unfold sys_write. by destruct (os_write _ _ _).
Qed.
Lemma sl_output_keeps_ibuf before buf : ensures keeps_ibuf (sl_output before buf).
Proof.
  pose proof sys_write_keeps_ibuf. unfold sl_output, do_write_init, do_write_buf. go_ibuf; auto.
Qed.
Lemma sl_ready_output_keeps_ibuf : ensures keeps_ibuf sl_ready_output.
Proof.
  pose proof sys_write_keeps_ibuf. unfold sl_ready_output, do_write_more. go_ibuf; auto.
Qed.
Lemma fit_ibuf_ok w : ibuf_ok w -> let w' := snd (fit_ibuf w) in
  ibuf_ok w' /\ (forall m, ibuf (slp w') = Some m -> bufsz (slp w') <= m).
Proof.
  intros (H1 & H2 & H3). unfold fit_ibuf, get_slp, driver_alloc, gets, mbind, M_bind, ibuf_ok.
  case_bool_decide as En; cbn.
  - destruct (os_alloc _ _); cbn; split; [|by intros ? [= ->]| |done];
      (refine (conj H1 (conj _ H3)); try done; by intros ? [= ->]).
  - destruct (Z.ltb_spec (ilen (slp w)) (bufsz (slp w))); cbn.
    + destruct (os_alloc _ _); cbn; split; [|by intros ? [= ->]| |done];
        (refine (conj H1 (conj _ H3)); try done; by intros ? [= ->]).
    + split; [done|]. intros m Hm. rewrite (H2 m Hm). lia.
Qed.
Lemma sl_ready_input_keeps_ibuf : ensures keeps_ibuf sl_ready_input.
Proof.
  intros w Hw. apply fit_ibuf_ok in Hw as [(H1 & H2 & H3) Hfit]. unfold sl_ready_input.
  unfold mbind at 1. unfold M_bind at 1. destruct (fit_ibuf w) as [u w1]. cbn [snd] in *.
  unfold get_slp, gets, mbind, M_bind, sys_read. destruct (os_read _ _ _ _) as [[n errno] data].
  assert (reads_fit (calls w1 ++ [Read (com (slp w1)) (ibuf (slp w1)) (bufsz (slp w1)) n])) as H4.
  { apply Forall_app. split; [done|]. constructor; [|constructor].
    destruct (ibuf (slp w1)) as [m|]; [|done]. specialize (Hfit m eq_refl). lia. }
  destruct (0 <? n); cbn; refine (conj H1 (conj H2 _)); cbn; [|done].
  apply Forall_app. split; [done|]. by constructor.
Qed.
Lemma exec_keeps_ibuf o w : ibuf_ok w -> ibuf_ok (exec o w).
Proof.
  destruct o; cbn [exec].
  - apply sl_output_keeps_ibuf.
  - apply sl_ready_input_keeps_ibuf.
  - apply sl_ready_output_keeps_ibuf.
  - apply sl_ctl_keeps_ibuf.
Qed.

(** ** Selection *)

(** The line stays as it is, open or closed, with the same selection. *)
Definition same_line (w w' : world Q) : Prop :=
  com (slp w') = com (slp w) /\ opending (slp w') = opending (slp w) /\
  armed (calls w') = armed (calls w).
#[local] Instance same_line_preorder : PreOrder same_line.
Proof. split; [done|]. intros ??? (?&?&?) (?&?&?). split_and!; congruence. Qed.
Lemma armed_keep tr e : match e with Select _ _ true _ => False | _ => True end ->
  armed (tr ++ [e]) = armed tr.
Proof. rewrite armed_app. cbn. destruct e as [? ? []| | | | | | | | | |]; done. Qed.
Lemma armed_select tr fd rd on : armed (tr ++ [Select fd rd true on]) = on.
Proof. by rewrite armed_app. Qed.
Lemma act_same_line e : match e with Select _ _ true _ => False | _ => True end ->
  ensures same_line (act e).
Proof. intros He w. split_and!; [done|done|]. by apply armed_keep. Qed.

(** Commands other than those that open or close the line. *)
Definition line_cmd (cmd : Z) : Prop :=
  cmd = SL_CONNECT \/ cmd = SL_OPEN \/ cmd = SL_DISCONNECT \/ cmd = SL_CLOSE.
Lemma sl_ctl_same_line cmd buf rsize : ~ line_cmd cmd -> ensures same_line (sl_ctl cmd buf rsize).
Proof.
  intros Hc. unfold line_cmd in Hc. apply sl_ctl_ensures; [exact _| | | |tauto..].
  - intros f Hf w. specialize (Hf (slp w)). injection Hf as ????. by split_and!.
  - intros e He. apply act_same_line. by destruct e.
  - intros b w. unfold store_bufsz, get_slp, gets, mbind, M_bind. cbn.
    repeat (case_match; cbn); done.
Qed.

(** Queued output is waited for; output is never pending elsewhere (Windows). *)
Definition waiting (w : world Q) : Prop :=
  opending (slp w) = 0 /\ (q_bytes (queue w) <> [] -> armed (calls w) = true).

Lemma do_write_buf_waiting before buf len w : waiting w ->
  waiting (snd (do_write_buf before buf len w)).
Proof.
  intros [H1 H2]. unfold do_write_buf, get_slp, gets, mbind, M_bind, sys_write.
  destruct (os_write _ _ _) as [n errno].
  destruct (_ && _); [|destruct (n <? _)]; (split; [done|]); cbn.
  - intros _. by rewrite armed_select.
  - intros _. by rewrite armed_select.
  - by rewrite armed_keep.
Qed.
Lemma sl_output_waiting before buf w : waiting w -> waiting (snd (sl_output before buf w)).
Proof.
  intros Hw. unfold sl_output, do_write_init, get_slp, driver_sizeq, gets, mbind, M_bind.
  destruct (com (slp w) =? INVALID); [done|]. destruct (_ =? 0); [done|].
  destruct Hw as [H1 H2]. rewrite H1. cbn [c_true negb Z.eqb orb].
  destruct (Z.ltb_spec 0 (Erts.driver_sizeq (queue w))) as [Hq|Hq].
  - split; [done|]. cbn. intros _. apply H2. rewrite q_sizeq_bytes in Hq. by destruct (q_bytes _).
  - assert (waiting (snd (do_write_buf before buf (Z.of_nat (length buf)) w))) as Hw
      by (by apply do_write_buf_waiting).
    by destruct (do_write_buf _ _ _ w).
Qed.
Lemma peekq_nil q : Erts.driver_peekq q = [] -> q_bytes q = [].
Proof. intros E. by rewrite <-q_peekq_bytes, E. Qed.

Local Ltac pair_if :=
  match goal with
  | |- context [(if ?c then ?a else ?b) ?w] => destruct ((if c then a else b) w)
  end.
(** One [ready_output]: what [writev] takes leaves the queue, and the selection
    ends with the queue. *)
Lemma sl_ready_output_step w :
  let n := fst (os_write (calls w) (com (slp w)) (Erts.driver_peekq (queue w))) in
  let w' := snd (sl_ready_output w) in
  slp w' = slp w /\
  q_bytes (queue w') = drop (Z.to_nat n) (q_bytes (queue w)) /\
  (q_bytes (queue w') = [] \/ armed (calls w') = armed (calls w)) /\
  (q_bytes (queue w) <> [] -> q_bytes (queue w') = [] -> armed (calls w') = false).
Proof.
  intros n. unfold sl_ready_output, do_write_more, get_slp, driver_peekq, driver_sizeq, gets, mbind, M_bind,
    sys_write.
  pose proof (os_write_law (calls w) (com (slp w)) (Erts.driver_peekq (queue w))) as Hl.
  rewrite q_peekq_bytes in Hl. unfold n.
  case_bool_decide as En; cbv zeta.
  { rewrite (peekq_nil _ En), drop_nil. cbn. rewrite (peekq_nil _ En). split_and!; auto. done. }
  destruct (os_write _ _ _) as [m errno]. cbn [fst] in *.
  assert (forall q' : Q, q_bytes q' = drop (Z.to_nat m) (q_bytes (queue w)) ->
    let w1 := World (slp w) q' (calls w ++ [Write (com (slp w)) (Erts.driver_peekq (queue w)) m]) in
    let w2 := snd ((when Erts.driver_sizeq q' =? 0 do act (Select (com (slp w)) false true false)) w1) in
    slp w2 = slp w /\ q_bytes (queue w2) = drop (Z.to_nat m) (q_bytes (queue w)) /\
    (q_bytes (queue w2) = [] \/ armed (calls w2) = armed (calls w)) /\
    (q_bytes (queue w) <> [] -> q_bytes (queue w2) = [] -> armed (calls w2) = false)) as Hq.
  { intros q' E. cbv zeta. rewrite q_sizeq_bytes.
    destruct (Z.eqb_spec (Z.of_nat (length (q_bytes q'))) 0) as [E0|E0]; cbn.
    - rewrite armed_select. split_and!; auto. left. apply length_zero_iff_nil. lia.
    - rewrite armed_keep by done. split_and!; auto. intros _ E1. by rewrite E1 in E0. }
  destruct (Z.ltb_spec 0 m) as [Hm|Hm]; cbn.
  - specialize (Hq (Erts.driver_deq (queue w) m)). rewrite q_deq_bytes in Hq by lia.
    specialize (Hq eq_refl). cbv zeta in Hq. by pair_if.
  - specialize (Hq (queue w)). replace (Z.to_nat m) with 0%nat in * by lia. rewrite drop_0 in Hq.
    specialize (Hq eq_refl). cbv zeta in Hq. rewrite drop_0. by pair_if.
Qed.
Lemma sl_ready_output_waiting w : waiting w -> waiting (snd (sl_ready_output w)).
Proof.
  intros [H1 H2]. destruct (sl_ready_output_step w) as (E1 & E2 & [E3|E3] & _); (split; [by rewrite E1|]).
  - by rewrite E3.
  - rewrite E2, E3. intros Hq. apply H2. intros E. by rewrite E, drop_nil in Hq.
Qed.
Lemma sl_ready_input_same_line : ensures same_line sl_ready_input.
Proof.
  assert (ensures same_line fit_ibuf) as Hf.
  { unfold fit_ibuf, get_slp, driver_alloc. walk ltac:(by intros ?). }
  unfold sl_ready_input, get_slp. walk ltac:(first [exact Hf | by apply act_same_line | idtac]).
  intros w. unfold sys_read. destruct (os_read _ _ _ _) as [[n errno] data].
  split_and!; [done|done|]. by apply armed_keep.
Qed.
Lemma sl_ready_input_same_io_queue (w : world Q) : queue (snd (sl_ready_input w)) = queue w.
Proof.
  unfold sl_ready_input. unfold mbind at 1. unfold M_bind at 1.
  pose proof (fit_ibuf_same_io w) as (E & _). destruct (fit_ibuf w) as [u w1]. cbn [snd] in E.
  unfold get_slp, gets, mbind, M_bind, sys_read. destruct (os_read _ _ _ _) as [[n errno] data].
  by destruct (0 <? n).
Qed.
Lemma same_line_waiting w w' : queue w' = queue w -> same_line w w' -> waiting w -> waiting w'.
Proof. intros Eq (_ & E1 & E2) [H1 H2]. split; [by rewrite E1|]. by rewrite Eq, E2. Qed.
Lemma exec_waiting o w : (forall cmd buf rsize, o = OpCtl cmd buf rsize -> ~ line_cmd cmd) ->
  waiting w -> waiting (exec o w).
Proof.
  intros Ho Hw. destruct o as [before buf| | |cmd buf rsize]; cbn [exec].
  - by apply sl_output_waiting.
  - apply (same_line_waiting w); [apply sl_ready_input_same_io_queue|apply sl_ready_input_same_line|done].
  - by apply sl_ready_output_waiting.
  - apply (same_line_waiting w); [apply sl_ctl_same_io|apply sl_ctl_same_line; eauto|done].
Qed.

(** ** Runs *)

Lemma steps_stream (w : world Q) ops w' : soft_errors -> steps w ops w' ->
  stream w' = stream w ++ accepted_all ops w.
Proof.
  intros Hs Hst. induction Hst as [w|w o ops w' _ _ IH]; cbn; [by rewrite app_nil_r|].
  by rewrite IH, exec_stream, app_assoc.
Qed.
Lemma steps_ibuf (w : world Q) ops w' : steps w ops w' -> ibuf_ok w -> ibuf_ok w'.
Proof. induction 1; auto using exec_keeps_ibuf. Qed.
Lemma steps_waiting (w : world Q) ops w' :
  (forall cmd buf rsize, OpCtl cmd buf rsize ∈ ops -> ~ line_cmd cmd) ->
  steps w ops w' -> waiting w -> waiting w'.
Proof.
  intros Ho Hst. induction Hst as [|w o ops w' _ _ IH]; [done|]. intros Hw.
  apply IH; [|apply exec_waiting; [|done]].
  - intros cmd buf rsize Hin. apply (Ho cmd buf rsize). by right.
  - intros cmd buf rsize ->. apply (Ho cmd buf rsize). left.
Qed.
Lemma sl_start_inv g (empty : Q) sz port w : sl_start g empty sz port = Some w ->
  w = World (sl_init g port) empty [].
Proof. unfold sl_start. destruct (os_alloc _ _); congruence. Qed.
Lemma sl_init_ibuf g (empty : Q) port : ibuf_ok (World (sl_init g port) empty []).
Proof. split; [cbn; lia|]. split; [done|constructor]. Qed.

(** The device makes progress: it takes at least a byte of what is offered. *)
Definition write_progress : Prop := forall tr fd chunks,
  concat chunks <> [] -> 0 < fst (os_write tr fd chunks).

Lemma drain_steps (w : world Q) : write_progress -> waiting w -> exists k w',
  (k <= length (q_bytes (queue w)))%nat /\ steps w (replicate k OpReadyOut) w' /\
  q_bytes (queue w') = [] /\ (q_bytes (queue w) <> [] -> armed (calls w') = false).
Proof.
  intros Hp. remember (length (q_bytes (queue w))) as len eqn:El. revert w El.
  induction len as [len IH] using lt_wf_ind. intros w El Hw.
  destruct (decide (q_bytes (queue w) = [])) as [Eq|Nq].
  { exists 0%nat, w. split_and!; [lia|constructor|done|done]. }
  destruct (sl_ready_output_step w) as (_ & E2 & _ & E4).
  pose proof (Hp (calls w) (com (slp w)) (Erts.driver_peekq (queue w))) as Hn.
  rewrite q_peekq_bytes in Hn. specialize (Hn Nq).
  set (w1 := snd (sl_ready_output w)) in *.
  assert (length (q_bytes (queue w1)) < len)%nat as Hlt.
  { rewrite E2, length_drop. destruct (q_bytes (queue w)); [done|]. cbn [length] in *. lia. }
  destruct (IH _ Hlt w1 eq_refl) as (k & w' & Hk & Hst & Eq' & Ha);
    [by apply sl_ready_output_waiting|].
  exists (S k), w'. split_and!; [lia| |done|].
  - apply (steps_cons _ OpReadyOut); [by apply Hw|done].
  - intros _. destruct (decide (q_bytes (queue w1) = [])) as [E1|]; [|by apply Ha].
    assert (k = 0)%nat as -> by (rewrite E1 in Hk; cbn in Hk; lia).
    inversion Hst; subst. by apply E4.
Qed.

(** ** Output stalled by a close *)

(** Queued output nobody waits for. *)
Definition stalled (w : world Q) : Prop :=
  q_bytes (queue w) <> [] /\ armed (calls w) = false.
Definition stays_stalled (w w' : world Q) : Prop :=
  stalled w -> stalled w' /\ written (calls w') = written (calls w).
#[local] Instance stays_stalled_preorder : PreOrder stays_stalled.
Proof.
  split; [by intros ??|]. intros x y z Hxy Hyz Hx. destruct (Hxy Hx) as [Hy Ey].
  destruct (Hyz Hy) as [Hz Ez]. split; [done|congruence].
Qed.
Definition no_arm (e : event) : Prop :=
  match e with Select _ _ true on => on = false | Write _ _ _ => False | _ => True end.
Lemma act_stays_stalled e : no_arm e -> ensures stays_stalled (act e).
Proof.
  intros He w [H1 H2]. unfold stalled. cbn. rewrite written_app.
  assert (armed (calls w ++ [e]) = false) as ->.
  { rewrite armed_app. destruct e as [? ? [] ?| | | | | | | | | |]; cbn in *; congruence. }
  destruct e; cbn in He; try done; (split; [done|]); apply app_nil_r.
Qed.
Lemma upd_stays_stalled f : ensures stays_stalled (upd f).
Proof. intros w Hw. done. Qed.
Local Ltac go_st := unfold get_slp, driver_alloc, driver_sizeq;
  walk ltac:(first [assumption | apply upd_stays_stalled | by apply act_stays_stalled]).
Lemma do_close_stays_stalled : ensures stays_stalled do_close.
Proof. unfold do_close. go_st. Qed.
Lemma do_open_stays_stalled : ensures stays_stalled do_open.
Proof.
  pose proof do_close_stays_stalled.
  assert (ensures stays_stalled do_update) by (unfold do_update, set_com_state; go_st).
  assert (forall fl f, ensures stays_stalled (default fl f)) as Hd by (intros; unfold default; go_st).
  unfold do_open, get_com_state. go_st; apply Hd.
Qed.
Lemma sl_ctl_stays_stalled cmd buf rsize : ensures stays_stalled (sl_ctl cmd buf rsize).
Proof.
  apply sl_ctl_ensures; auto using upd_stays_stalled.
  - exact _.
  - intros e He. apply act_stays_stalled. by destruct e.
  - intros b. unfold store_bufsz. go_st.
  - intros _. unfold ctl_open, ok, ctl_error, ctl_reply. pose proof do_open_stays_stalled. go_st.
  - intros _. apply do_close_stays_stalled.
Qed.
Lemma sl_ready_input_stays_stalled : ensures stays_stalled sl_ready_input.
Proof.
  assert (forall fd blk size, ensures stays_stalled (sys_read fd blk size)) as Hr.
  { intros fd blk size w Hw. unfold sys_read. destruct (os_read _ _ _ _) as [[n errno] data].
    apply (act_stays_stalled (Read fd blk size n) I w Hw). }
  unfold sl_ready_input, fit_ibuf. go_st; apply Hr.
Qed.
Lemma sl_output_stays_stalled before buf : ensures stays_stalled (sl_output before buf).
Proof.
  intros w [H1 H2]. unfold sl_output, do_write_init, get_slp, driver_sizeq, gets, mbind, M_bind.
  destruct (com (slp w) =? INVALID); [done|]. destruct (_ =? 0); [done|].
  rewrite q_sizeq_bytes, (proj2 (Z.ltb_lt _ _)), orb_true_r by (destruct (q_bytes _); [done|cbn; lia]).
  cbn. split; [|done]. split; [|done]. cbn. rewrite q_enq_bytes. by destruct (q_bytes (queue w)).
Qed.
Lemma steps_stalled (w : world Q) ops w' : steps w ops w' -> stays_stalled w w'.
Proof.
  induction 1 as [w|w o ops w' He _ IH]; [reflexivity|]. transitivity (exec o w); [|done].
  destruct o; cbn [exec].
  - apply sl_output_stays_stalled.
  - apply sl_ready_input_stays_stalled.
  - intros [_ Ha]. cbn in He. congruence.
  - apply sl_ctl_stays_stalled.
Qed.

(** ** No overlapped output on Unix *)

Definition same_opending (w w' : world Q) : Prop := opending (slp w') = opending (slp w).
#[local] Instance same_opending_preorder : PreOrder same_opending.
Proof. split; unfold same_opending; [done|]. congruence. Qed.
Lemma upd_same_opending f : setting f -> ensures same_opending (upd f).
Proof. intros Hf w. specialize (Hf (slp w)). by injection Hf. Qed.
Local Ltac go_op := unfold get_slp, driver_alloc, driver_enq, driver_deq, driver_sizeq, driver_peekq;
  walk ltac:(first [assumption | by intros ? | apply upd_same_opending, update_tio_setting]).
Lemma exec_opending o w : opending (slp (exec o w)) = opending (slp w).
Proof.
  assert (ensures same_opending do_close) by (unfold do_close; go_op).
  assert (ensures same_opending do_update) by (unfold do_update, set_com_state; go_op).
  assert (ensures same_opending do_open) by (unfold do_open, get_com_state, default; go_op).
  assert (forall fd ch, ensures same_opending (sys_write fd ch)) as Hw.
  { intros fd ch w1. unfold sys_write. by destruct (os_write _ _ _). }
  destruct o as [before buf| | |cmd buf rsize]; cbn [exec].
  - revert w. change (ensures same_opending (sl_output before buf)).
    unfold sl_output, do_write_init, do_write_buf. go_op; apply Hw.
  - revert w. change (ensures same_opending sl_ready_input). unfold sl_ready_input, fit_ibuf. go_op.
    intros w1. unfold sys_read. by destruct (os_read _ _ _ _) as [[??]?].
  - revert w. change (ensures same_opending sl_ready_output).
    unfold sl_ready_output, do_write_more. go_op; apply Hw.
  - revert w. apply (sl_ctl_ensures same_opending); auto using upd_same_opending; [by intros ? ? ? | .. ].
    + intros b. unfold store_bufsz. go_op.
    + intros _. unfold ctl_open, ok, ctl_error, ctl_reply. go_op.
Qed.
Lemma steps_opending (w : world Q) ops w' : steps w ops w' -> opending (slp w') = opending (slp w).
Proof. induction 1 as [|w o ops w' _ _ IH]; [done|]. by rewrite IH, exec_opending. Qed.
Lemma accepted_ready_output k (w : world Q) : accepted_all (replicate k OpReadyOut) w = [].
Proof. revert w. induction k as [|k IH]; intros w; [done|]. apply IH. Qed.
End Invariants.

(** ** Setting and reading back *)

Section Settings.
Context `{T : Termios} `{O : Os} {Q : Type} `{PQ : !PortQueue Q}.
Implicit Types w : world Q.

Definition put_slp (f : sl_t -> sl_t) w : world Q := World (f (slp w)) (queue w) (calls w).
Lemma ctl_reply_in_place rep buf rsize w : Z.of_nat (length buf) + 1 <= rsize ->
  ctl_reply rep buf rsize w = (Z.of_nat (length buf) + 1, InPlace (u8 rep :: buf), w).
Proof. intros H. unfold ctl_reply. by rewrite Z.gtb_ltb, (proj2 (Z.ltb_ge _ _)) by lia. Qed.
Lemma has_set_bits x m : m <> 0 -> has_bits (set_bits x m) m = true.
Proof. intros Hm. unfold has_bits. by rewrite land_set_same, c_true_nonzero. Qed.

(** A setting: its commands, flag, field, and the reply that reads it. *)
Record opt := Opt {
  o_set : Z; o_get : Z; o_fl : Z; o_put : Z -> sl_t -> sl_t; o_pending : sl_t -> Z;
  o_line : sl_t -> Z; o_bool : bool }.
Definition opts : list opt := [
  Opt SL_SET_BAUD SL_GET_BAUD FL_BAUD w_baud baud get_baud false;
  Opt SL_SET_CSIZE SL_GET_CSIZE FL_CSIZE w_csize csize get_csize false;
  Opt SL_SET_BUFTM SL_GET_BUFTM FL_BUFTM w_buftm buftm get_buftm false;
  Opt SL_SET_STOPB SL_GET_STOPB FL_STOPB w_stopb stopb get_stopb false;
  Opt SL_SET_PARITY SL_GET_PARITY FL_PARITY w_parity parity get_parity false;
  Opt SL_SET_HWFLOW SL_GET_HWFLOW FL_HWFLOW w_hwflow hwflow get_hwflow true;
  Opt SL_SET_SWFLOW SL_GET_SWFLOW FL_SWFLOW w_swflow swflow get_swflow true;
  Opt SL_SET_XONCHAR SL_GET_XONCHAR FL_XONCHAR w_xonchar xonchar get_xonchar false;
  Opt SL_SET_XOFFCHAR SL_GET_XOFFCHAR FL_XOFFCHAR w_xoffchar xoffchar get_xoffchar false;
  Opt SL_SET_EOLCHAR SL_GET_EOLCHAR FL_EOLCHAR w_eolchar eolchar get_eolchar false;
  Opt SL_SET_EOL2CHAR SL_GET_EOL2CHAR FL_EOL2CHAR w_eol2char eol2char get_eol2char false;
  Opt SL_SET_ECHO SL_GET_ECHO FL_ECHO w_echo echo get_echo true].
Definition o_reply (o : opt) (v : Z) : bytes :=
  SL_OK :: (if o_bool o then [SL_BOOL; c_bool (c_true v)] else SL_INT :: put_int32 v).

Lemma opts_ctl o : o ∈ opts ->
  (forall buf rsize, sl_ctl (Q := Q) (o_set o) buf rsize = set_int buf rsize (o_put o) (o_fl o)) /\
  (forall buf rsize, sl_ctl (Q := Q) (o_get o) buf rsize =
     get_with rsize (if o_bool o then ctl_reply_bool else ctl_reply_int) (o_fl o) (o_pending o) (o_line o)) /\
  (forall v s, flags (o_put o v s) = flags s) /\
  (forall v s fl, o_pending o (w_flags fl (o_put o v s)) = v) /\ o_fl o <> 0.
Proof.
  intros Ho. unfold opts in Ho.
  repeat (apply elem_of_cons in Ho as [->|Ho]; [split_and!; reflexivity || done|]).
  by apply elem_of_nil in Ho.
Qed.
End Settings.

(** ** Opening and updating *)

Section Opening.
Context `{TL : TermiosLaws} `{O : Os} {Q : Type} `{PQ : !PortQueue Q}.
Implicit Types w : world Q.

(** The calls that close the line. *)
Definition closing (s : sl_t) : trace :=
  if com s =? INVALID then [] else [Select (com s) true true false; Close (com s)].
Lemma do_close_eq w :
  do_close w = (tt, World (w_com INVALID (slp w)) (queue w) (calls w ++ closing (slp w))).
Proof.
  unfold do_close, closing, get_slp, gets, mbind, M_bind.
  destruct (Z.eqb_spec (com (slp w)) INVALID) as [E|]; cbn.
  - rewrite app_nil_r. destruct w as [s q tr]. cbn in *. unfold skip. rewrite <-E. by destruct s.
  - by rewrite <-app_assoc.
Qed.
Lemma setting_com f s : setting f -> com (f s) = com s.
Proof. intros Hf. specialize (Hf s). by injection Hf. Qed.
Lemma com_update_tio s : com (update_tio s) = com s.
Proof. apply (setting_com update_tio), update_tio_setting. Qed.
Lemma do_update_eq s (q : Q) c : flags s <> 0 -> com s <> INVALID ->
  do_update (World s q c) =
  (tt, World (w_flags 0 (update_tio s)) q (c ++ [Setattr (com s) (tio (update_tio s))])).
Proof.
  intros Hf Hc. unfold do_update, get_slp, gets, mbind, M_bind. cbn [slp].
  rewrite (proj2 (Z.eqb_neq _ _) Hf), (proj2 (Z.eqb_neq _ _) Hc). cbn [orb].
  unfold upd, modify, set_com_state, get_slp, gets, mbind, M_bind, act, modify.
  rewrite <-(com_update_tio s). cbn [slp queue calls]. by generalize (update_tio s).
Qed.
Lemma com_w_flags v s : com (w_flags v s) = com s.
Proof. done. Qed.

(** The defaults of [do_open], in place of the settings that are not pending. *)
Definition or_default (fl : Z) (f : sl_t -> sl_t) (s : sl_t) : sl_t :=
  if has_bits (flags s) fl then s else w_flags (set_bits (flags (f s)) fl) (f s).
Definition with_defaults (s : sl_t) : sl_t :=
  or_default FL_SWFLOW (w_swflow 0) (or_default FL_HWFLOW (w_hwflow 1) (
  or_default FL_CSIZE (w_csize 8) (or_default FL_ECHO (w_echo 0) (
  or_default FL_PARITY (w_parity 0) (or_default FL_BAUD (w_baud 9600) (
  or_default FL_MODE (w_mode SL_MODE_RAW) s)))))).
Lemma default_eq fl f s (q : Q) c :
  default fl f (World s q c) = (tt, World (or_default fl f s) q c).
Proof.
  unfold default, get_slp, gets, mbind, M_bind, or_default. cbn [slp].
  by destruct (has_bits (flags s) fl).
Qed.

Lemma has_bits_pow x n : 0 <= n -> has_bits x (2 ^ n) = Z.testbit x n.
Proof.
  intros Hn. unfold has_bits, c_true. destruct (Z.testbit x n) eqn:E.
  - apply negb_true_iff, Z.eqb_neq. intros E0. pose proof (Z.land_spec x (2 ^ n) n) as E2.
    rewrite E0, Z.bits_0, E, Z.pow2_bits_true in E2 by done. discriminate.
  - apply negb_false_iff, Z.eqb_eq. apply Z.bits_inj'. intros m Hm. rewrite Z.land_spec, Z.bits_0.
    destruct (Z.eq_dec m n) as [->|]; [by rewrite E|].
    by rewrite Z.pow2_bits_false, andb_false_r by lia.
Qed.
Lemma has_bits_set_pow x n m : 0 <= n -> 0 <= m ->
  has_bits (set_bits x (2 ^ n)) (2 ^ m) = (n =? m) || has_bits x (2 ^ m).
Proof.
  intros Hn Hm. rewrite !has_bits_pow by done. unfold set_bits.
  rewrite Z.lor_spec, Z.pow2_bits_eqb by done. apply orb_comm.
Qed.
Lemma flags_nonzero x fl : has_bits x fl = true -> x <> 0.
Proof. by intros H ->. Qed.

Definition single_bit (fl : Z) : Prop := exists n, 0 <= n /\ fl = 2 ^ n.
Lemma has_or_default fl fl' f s : single_bit fl -> single_bit fl' -> flags (f s) = flags s ->
  has_bits (flags (or_default fl f s)) fl' = (fl =? fl') || has_bits (flags s) fl'.
Proof.
  intros (n & Hn & ->) (m & Hm & ->) Ef. unfold or_default.
  assert ((2 ^ n =? 2 ^ m) = (n =? m)) as ->.
  { destruct (Z.eqb_spec n m) as [->|]; [apply Z.eqb_refl|]. apply Z.eqb_neq.
    intros E. by apply (Z.pow_inj_r 2) in E. }
  destruct (has_bits (flags s) (2 ^ n)) eqn:E.
  - destruct (Z.eqb_spec n m) as [->|]; done.
  - cbn [flags w_flags]. by rewrite Ef, has_bits_set_pow.
Qed.
Lemma or_default_keep {A} (P : sl_t -> A) fl f s :
  P (f s) = P s -> (forall v s', P (w_flags v s') = P s') -> P (or_default fl f s) = P s.
Proof. intros H1 H2. unfold or_default. case_match; [done|]. by rewrite H2. Qed.
Lemma or_default_value {A} (P : sl_t -> A) fl f s def :
  P (f s) = def -> (forall v s', P (w_flags v s') = P s') ->
  P (or_default fl f s) = if has_bits (flags s) fl then P s else def.
Proof. intros H1 H2. unfold or_default. case_match; [done|]. by rewrite H2. Qed.

Lemma default_flags_single : Forall single_bit
  [FL_MODE; FL_BAUD; FL_PARITY; FL_ECHO; FL_CSIZE; FL_HWFLOW; FL_SWFLOW].
Proof.
  repeat constructor; [exists 15|exists 0|exists 4|exists 11|exists 2|exists 7|exists 8];
    (split; [lia|reflexivity]).
Qed.
Local Ltac single := eapply Forall_forall; [apply default_flags_single|];
  repeat (first [apply elem_of_cons; left; reflexivity | apply elem_of_cons; right]).
Lemma with_defaults_flags s fl :
  fl ∈ [FL_MODE; FL_BAUD; FL_PARITY; FL_ECHO; FL_CSIZE; FL_HWFLOW; FL_SWFLOW] ->
  has_bits (flags (with_defaults s)) fl = true.
Proof.
  intros Hfl. assert (single_bit fl) by (by eapply Forall_forall; [apply default_flags_single|]).
  unfold with_defaults. rewrite !has_or_default by first [assumption | reflexivity | single].
  repeat (apply elem_of_cons in Hfl as [->|Hfl];
    [rewrite Z.eqb_refl; by rewrite ?orb_true_l, ?orb_true_r|]). by apply elem_of_nil in Hfl.
Qed.
Local Ltac value :=
  unfold with_defaults;
  repeat match goal with
  | |- ?P (or_default ?fl ?f ?s) = (if has_bits _ ?fl then _ else _) =>
      erewrite (or_default_value P fl f s) by reflexivity
  | |- ?P (or_default ?fl ?f ?s) = _ => rewrite (or_default_keep P fl f s) by reflexivity
  end;
  rewrite ?has_or_default by first [reflexivity | single];
  rewrite ?or_default_keep by reflexivity; reflexivity.
Lemma with_defaults_value s fl get def :
  (fl, get, def) ∈ [(FL_MODE, mode, SL_MODE_RAW); (FL_BAUD, baud, 9600);
      (FL_PARITY, parity, 0); (FL_ECHO, echo, 0); (FL_CSIZE, csize, 8); (FL_HWFLOW, hwflow, 1);
      (FL_SWFLOW, swflow, 0)] ->
  get (with_defaults s) = if has_bits (flags s) fl then get s else def.
Proof.
  intros Hin.
  repeat (apply elem_of_cons in Hin as [[= -> -> ->]|Hin]; [value|]). by apply elem_of_nil in Hin.
Qed.
Lemma with_defaults_com s : com (with_defaults s) = com s /\ tio (with_defaults s) = tio s.
Proof. unfold with_defaults. by rewrite !or_default_keep. Qed.
Lemma defaults_eq {A} (k : M (world Q) A) s q c :
  (default FL_MODE (w_mode SL_MODE_RAW);;; default FL_BAUD (w_baud 9600);;;
   default FL_PARITY (w_parity 0);;; default FL_ECHO (w_echo 0);;; default FL_CSIZE (w_csize 8);;;
   default FL_HWFLOW (w_hwflow 1);;; default FL_SWFLOW (w_swflow 0);;; k) (World s q c) =
  k (World (with_defaults s) q c).
Proof. do 7 rewrite (bind_eq (default _ _) _ _ _ _ (default_eq _ _ _ _ _)). reflexivity. Qed.
Lemma do_open_eq w d fd t :
  let tr := calls w ++ closing (slp w) in
  dev (slp w) = Some d -> os_open tr (c_str d) = fd -> fd <> INVALID ->
  os_tcgetattr (tr ++ [Open (c_str d) fd; Nonblock fd]) fd = Some t ->
  let s := with_defaults (w_tio t (w_com fd (slp w))) in
  do_open w = (0, World (w_flags 0 (update_tio s)) (queue w)
    (tr ++ [Open (c_str d) fd; Nonblock fd; Getattr fd; Setattr fd (tio (update_tio s))])).
Proof.
  intros tr Ed Eo Hfd Eg s. unfold do_open.
  rewrite (bind_eq _ _ _ _ _ (do_close_eq w)).
  rewrite (bind_eq get_slp _ _ _ _ eq_refl). cbn [slp dev w_com]. rewrite Ed.
  rewrite (bind_eq (gets calls) _ _ _ _ eq_refl). cbn [calls]. fold tr. cbv zeta. rewrite Eo.
  rewrite (bind_eq (act _) _ _ _ _ eq_refl), (bind_eq (upd _) _ _ _ _ eq_refl).
  rewrite (proj2 (Z.eqb_neq _ _) Hfd), (bind_eq (act _) _ _ _ _ eq_refl). cbn [slp queue calls].
  rewrite <-app_assoc. cbn [app].
  erewrite (bind_eq get_com_state); last first.
  { unfold get_com_state. rewrite (bind_eq get_slp _ _ _ _ eq_refl).
    rewrite (bind_eq (gets calls) _ _ _ _ eq_refl), (bind_eq (act _) _ _ _ _ eq_refl).
    cbn [slp calls com w_com]. rewrite Eg. reflexivity. }
  cbn [Z.ltb Z.compare slp queue calls].
  change (w_com fd (w_com INVALID (slp w))) with (w_com fd (slp w)).
  rewrite defaults_eq. fold s.
  assert (com s = fd) as Ec by apply with_defaults_com.
  assert (flags s <> 0) as Hf.
  { apply (flags_nonzero _ FL_MODE), with_defaults_flags, elem_of_cons. by left. }
  clearbody s. rewrite (bind_eq do_update _ _ _ _ (do_update_eq _ _ _ Hf (eq_ind_r (fun c => c <> _) Hfd Ec))).
  rewrite Ec, <-!app_assoc. reflexivity.
Qed.
End Opening.

(** * Properties *)

(** C5: Whatever the owner and the line do, the bytes the device took followed by the
    queued ones are exactly the bytes sent while the line was open, in order: none is lost, repeated
    or reordered, as long as the device fails a write only because it is busy. *)
Theorem sl_stream_integrity `{TL : TermiosLaws} `{OL : OsLaws} `{PL : PortQueueLaws Q}
    g empty sz port w0 ops w :
  soft_errors -> q_bytes empty = [] -> sl_start g empty sz port = Some w0 -> steps w0 ops w ->
  written (calls w) ++ q_bytes (queue w) = accepted_all ops w0.
Proof.
  intros Hs He H0 Hst. apply sl_start_inv in H0 as ->.
  pose proof (steps_stream _ _ _ Hs Hst) as E. unfold stream in E. cbn in E. by rewrite He in E.
Qed.


(** Output queued when the line is closed is stuck for good: whatever follows, reopening the
    line included, nothing is written to a device any more, because only a write made with an
    empty queue selects write readiness. *)
Theorem sl_close_stalls_output `{TL : TermiosLaws} `{OL : OsLaws} `{PL : PortQueueLaws Q}
    (w : world Q) buf rsize ops w' :
  com (slp w) <> INVALID -> q_bytes (queue w) <> [] ->
  steps (exec (OpCtl SL_CLOSE buf rsize) w) ops w' ->
  written (calls w') = written (calls w) /\ q_bytes (queue w') <> [].
Proof.
  intros Hc Hq Hst.
  assert (stalled (exec (OpCtl SL_CLOSE buf rsize) w) /\ written (calls (exec (OpCtl SL_CLOSE buf rsize) w)) = written (calls w)) as [H1 E1].
  { pose proof (sl_ctl_same_io SL_CLOSE buf rsize w) as (E1 & E2 & _). cbn [exec].
    split; [|done]. split; [by rewrite E1|].
    assert (snd (sl_ctl SL_CLOSE buf rsize w) = snd (do_close w)) as ->.
    { change (sl_ctl SL_CLOSE buf rsize) with (do_close;;; ctl_reply (Q := Q) SL_OK [] rsize).
      unfold ctl_reply, driver_alloc, gets, mbind, M_bind. destruct (do_close w). by destruct (_ >? _). }
    unfold do_close, get_slp, gets, mbind, M_bind.
    destruct (Z.eqb_spec (com (slp w)) INVALID) as [|_]; [done|]. cbn.
    by rewrite armed_keep, armed_select by done. }
  destruct (steps_stalled _ _ _ Hst H1) as [[Hq' _] E]. split; [congruence|done].
Qed.

(** No read overruns its buffer: in every state reached, every [read] was given at most
    the size of the block behind it, between 1 and 255 bytes. *)
Theorem sl_reads_fit `{TL : TermiosLaws} `{OL : OsLaws} `{PL : PortQueueLaws Q}
    g (empty : Q) sz port w0 ops w :
  sl_start g empty sz port = Some w0 -> steps w0 ops w ->
  reads_fit (calls w) /\ 1 <= bufsz (slp w) <= 255.
Proof.
  intros H0 Hst. apply sl_start_inv in H0 as ->.
  destruct (steps_ibuf _ _ _ Hst (sl_init_ibuf g empty port)) as (H1 & _ & H3). done.
Qed.

(** Each of the twelve 4-byte settings, set and read back before an update,
    answers the value that was set, the switches as truth values; a command of another length answers
    badarg and changes nothing; an unset one reads from the line, or is badarg when closed. *)
Theorem sl_set_get `{T : Termios} `{O : Os} {Q} `{PQ : !PortQueue Q} o rsize (w : world Q) :
  o ∈ opts -> 7 <= rsize ->
  (forall buf, length buf <> 4%nat ->
    sl_ctl (o_set o) buf rsize w = (7, InPlace (SL_ERROR :: lit "badarg"), w)) /\
  (forall v, - 2 ^ 31 <= v < 2 ^ 31 ->
    let w' := put_slp (fun s => w_flags (set_bits (flags s) (o_fl o)) (o_put o v s)) w in
    sl_ctl (o_set o) (put_int32 v) rsize w = (1, InPlace [SL_OK], w') /\
    forall buf, sl_ctl (o_get o) buf rsize w' =
      (Z.of_nat (length (o_reply o v)), InPlace (o_reply o v), w')) /\
  (forall buf, has_bits (flags (slp w)) (o_fl o) = false ->
    sl_ctl (o_get o) buf rsize w =
      if com (slp w) =? INVALID then (7, InPlace (SL_ERROR :: lit "badarg"), w)
      else let r := o_reply o (o_line o (slp w)) in (Z.of_nat (length r), InPlace r, w)).
Proof.
  intros Ho Hr. destruct (opts_ctl (Q := Q) o Ho) as (Es & Eg & Ef & Ep & Hfl).
  assert (badarg rsize w = (7, InPlace (SL_ERROR :: lit "badarg"), w)) as Ebad.
  { unfold badarg, ctl_error. by rewrite ctl_reply_in_place by (cbn; lia). }
  assert (forall v (w' : world Q),
    (if o_bool o then ctl_reply_bool else ctl_reply_int) v rsize w' =
    (Z.of_nat (length (o_reply o v)), InPlace (o_reply o v), w')) as Erep.
  { intros v w'. unfold o_reply, ctl_reply_bool, ctl_reply_int.
    destruct (o_bool o); rewrite ctl_reply_in_place by (cbn; lia); done. }
  split; [|split].
  - intros buf Hl. rewrite Es. unfold set_int. by rewrite (proj2 (Nat.eqb_neq _ _) Hl).
  - intros v Hv w'. split.
    + rewrite Es. unfold set_int. cbn [negb]. change (length (put_int32 v) =? 4)%nat with true.
      cbn [negb]. pose proof (get_put_int32 v []) as Ev. rewrite app_nil_r in Ev.
      rewrite Ev. rewrite sint_small by lia.
      unfold pend, upd, modify, mbind, M_bind, ok. cbv beta iota zeta.
      rewrite ctl_reply_in_place by (cbn; lia). unfold w', put_slp, upd, modify. cbn. by rewrite Ef.
    + intros buf. rewrite Eg. unfold get_with, get_slp, gets, mbind, M_bind. unfold w', put_slp.
      cbn [slp flags w_flags]. rewrite has_set_bits, Erep, Ep by done. done.
  - intros buf Hf. rewrite Eg. unfold get_with, get_slp, gets, mbind, M_bind. rewrite Hf.
    destruct (com (slp w) =? INVALID); cbn [negb]; [done|]. apply Erep.
Qed.

(** Opening the line with a device set, when [open] and [tcgetattr] succeed, closes the old
    line, opens the device non-blocking, reads its settings [t], installs with a single [tcsetattr]
    the pending ones and, for those not pending, raw 9600 8N with hardware and no software flow
    control and no echo, and selects reading. *)
Theorem sl_open_calls `{TL : TermiosLaws} `{O : Os} {Q} `{PQ : !PortQueue Q}
    (w : world Q) buf rsize d fd t :
  let tr := calls w ++ closing (slp w) in
  1 <= rsize -> dev (slp w) = Some d -> os_open tr (c_str d) = fd -> fd <> INVALID ->
  os_tcgetattr (tr ++ [Open (c_str d) fd; Nonblock fd]) fd = Some t ->
  exists s, sl_ctl SL_OPEN buf rsize w =
    (1, InPlace [SL_OK], World (w_flags 0 (update_tio s)) (queue w)
      (tr ++ [Open (c_str d) fd; Nonblock fd; Getattr fd; Setattr fd (tio (update_tio s));
              Select fd true false true])) /\
  com s = fd /\ tio s = t /\
  (forall fl, fl ∈ [FL_MODE; FL_BAUD; FL_PARITY; FL_ECHO; FL_CSIZE; FL_HWFLOW; FL_SWFLOW] ->
    has_bits (flags s) fl = true) /\
  (forall fl get def, (fl, get, def) ∈ [(FL_MODE, mode, SL_MODE_RAW); (FL_BAUD, baud, 9600);
      (FL_PARITY, parity, 0); (FL_ECHO, echo, 0); (FL_CSIZE, csize, 8); (FL_HWFLOW, hwflow, 1);
      (FL_SWFLOW, swflow, 0)] ->
    get s = if has_bits (flags (slp w)) fl then get (slp w) else def).
Proof.
  intros tr Hr Ed Eo Hfd Eg.
  exists (with_defaults (w_tio t (w_com fd (slp w)))).
  destruct (with_defaults_com (w_tio t (w_com fd (slp w)))) as [Ec Et].
  split; [|split; [exact Ec|split; [exact Et|split]]].
  - pose proof (do_open_eq w d fd t Ed Eo Hfd Eg) as Eopen. cbv zeta in Eopen.
    change (com (w_tio t (w_com fd (slp w)))) with fd in Ec.
    revert Ec Eopen. generalize (with_defaults (w_tio t (w_com fd (slp w)))). intros s Ec Eopen.
    change (sl_ctl SL_OPEN buf rsize w) with
      ((match dev (slp w) with None => badarg (Q := Q) rsize | Some _ => ctl_open rsize end) w).
    rewrite Ed. unfold ctl_open. rewrite (bind_eq _ _ _ _ _ Eopen).
    rewrite <-Ec, <-(com_update_tio s), <-(com_w_flags 0 (update_tio s)).
    generalize (w_flags 0 (update_tio s)). intros s'. cbn [Z.ltb Z.compare].
    rewrite (bind_eq get_slp _ _ _ _ eq_refl), (bind_eq (act _) _ _ _ _ eq_refl).
    unfold ok. rewrite ctl_reply_in_place by (cbn; lia). cbn [slp queue calls].
    by rewrite <-app_assoc.
  - apply with_defaults_flags.
  - intros fl get def Hin. rewrite (with_defaults_value _ _ _ _ Hin).
    repeat (apply elem_of_cons in Hin as [[= -> -> ->]|Hin]; [done|]). by apply elem_of_nil in Hin.
Qed.

(** A list of control commands and their replies. *)
Fixpoint session `{Termios} `{Os} {Q} `{PortQueue Q} (cmds : list (Z * bytes)) (rsize : Z) :
    M (world Q) (list (Z * reply)) :=
  match cmds with
  | [] => mret []
  | (cmd, buf) :: cmds => r ← sl_ctl cmd buf rsize; rs ← session cmds rsize; mret (r :: rs)
  end.

(** A mode change that was reverted cannot be made again: setting line mode, reverting, setting
    line mode and updating answers ok four times, but makes no system call and leaves the line's settings
    and current mode as they were, since the second set compares with the reverted value. *)
Theorem sl_revert_loses_mode `{T : Termios} `{O : Os} {Q} `{PQ : !PortQueue Q} (w : world Q) rsize :
  1 <= rsize -> mode (slp w) <> SL_MODE_LINE -> flags (slp w) = 0 ->
  session [(SL_SET_MODE, put_int32 SL_MODE_LINE); (SL_REVERT, []);
           (SL_SET_MODE, put_int32 SL_MODE_LINE); (SL_UPDATE, [])] rsize w =
  (replicate 4 (1, InPlace [SL_OK]), put_slp (w_mode SL_MODE_LINE) w).
Proof.
  intros Hr Hm Hf.
  assert (forall w' : world Q, ok rsize w' = (1, InPlace [SL_OK], w')) as Eok
    by (intros; unfold ok; by rewrite ctl_reply_in_place by (cbn; lia)).
  destruct w as [s q c]. cbn [slp] in Hm, Hf. set (s1 := w_mode SL_MODE_LINE s).
  assert (sl_ctl SL_SET_MODE (put_int32 SL_MODE_LINE) rsize (World s q c) =
    (1, InPlace [SL_OK], World (w_flags (set_bits (flags s) FL_MODE) s1) q c)) as E1.
  { change (sl_ctl SL_SET_MODE (put_int32 SL_MODE_LINE) rsize (World s q c)) with
      ((if negb (SL_MODE_LINE =? mode s)
        then upd (w_mode SL_MODE_LINE);;; pend FL_MODE;;; ok rsize else ok rsize) (World s q c)).
    rewrite (proj2 (Z.eqb_neq _ _)) by congruence. cbn [negb].
    rewrite (bind_eq (upd _) _ _ _ _ eq_refl), (bind_eq (pend _) _ _ _ _ eq_refl). apply Eok. }
  assert (forall v, sl_ctl SL_REVERT [] rsize (World (w_flags v s1) q c) =
    (1, InPlace [SL_OK], World (w_flags 0 s1) q c)) as E2.
  { intros v. change (sl_ctl SL_REVERT [] rsize (World (w_flags v s1) q c)) with
      ((upd (w_flags 0);;; ok (Q := Q) rsize) (World (w_flags v s1) q c)).
    rewrite (bind_eq (upd _) _ _ _ _ eq_refl). apply Eok. }
  assert (sl_ctl SL_SET_MODE (put_int32 SL_MODE_LINE) rsize (World (w_flags 0 s1) q c) =
    (1, InPlace [SL_OK], World (w_flags 0 s1) q c)) as E3
    by exact (Eok (World (w_flags 0 s1) q c)).
  assert (sl_ctl SL_UPDATE [] rsize (World (w_flags 0 s1) q c) =
    (1, InPlace [SL_OK], World (w_flags 0 s1) q c)) as E4
    by exact (Eok (World (w_flags 0 s1) q c)).
  cbn [session]. rewrite (bind_eq _ _ _ _ _ E1). erewrite bind_eq; [reflexivity|].
  rewrite (bind_eq _ _ _ _ _ (E2 _)). erewrite bind_eq; [reflexivity|].
  rewrite (bind_eq _ _ _ _ _ E3). erewrite bind_eq; [reflexivity|].
  rewrite (bind_eq _ _ _ _ _ E4). cbn [mret].
  unfold put_slp. cbn [slp queue calls].
  assert (w_flags 0 s1 = s1) as -> by (unfold s1; destruct s; cbn in Hf; by subst).
  reflexivity.
Qed.

(** A write that fails with an error other than [EAGAIN] is not reported: the whole output
    is queued to be written again, preceded by the byte in front of the caller's buffer, which
    is outside it. *)
Theorem sl_write_error_reads_before `{T : Termios} `{O : Os} `{PL : PortQueueLaws Q}
    before buf errno (w : world Q) :
  com (slp w) <> INVALID -> opending (slp w) = 0 -> q_bytes (queue w) = [] -> buf <> [] ->
  os_write (calls w) (com (slp w)) [buf] = (-1, errno) -> errno <> EAGAIN ->
  let w' := snd (sl_output before buf w) in
  q_bytes (queue w') = before :: buf /\
  calls w' = calls w ++ [Write (com (slp w)) [buf] (-1); Select (com (slp w)) false true true].
Proof.
  intros Hc Ho Hq Hb Ew He w'. unfold w', sl_output, do_write_init, get_slp, driver_sizeq.
  apply Z.eqb_neq in Hc, He.
  assert (do_write_buf before buf (Z.of_nat (length buf)) w = (-1, World (slp w)
    (Erts.driver_enq (queue w) (before :: buf))
    (calls w ++ [Write (com (slp w)) [buf] (-1); Select (com (slp w)) false true true]))) as E.
  { unfold do_write_buf, get_slp, gets, mbind, M_bind, sys_write. rewrite Ew, He. cbn [andb].
    rewrite andb_false_r, (proj2 (Z.ltb_lt _ _)) by lia. cbn. rewrite <-app_assoc. cbn.
    unfold slice. rewrite take_ge by (cbn; rewrite drop_0; cbn; lia). done. }
  assert (Z.of_nat (length buf) <> 0) as Hl by (destruct buf; [done|cbn; lia]).
  unfold gets, mbind, M_bind. rewrite Hc, (proj2 (Z.eqb_neq _ _) Hl), Ho. cbn [c_true negb Z.eqb orb].
  rewrite q_sizeq_bytes, Hq. change (0 <? Z.of_nat (@length Z [])) with false.
  cbv beta iota. rewrite E. cbn.
  by rewrite q_enq_bytes, Hq.
Qed.

(** * Examples

    A device on Linux that takes at most two bytes of a write and has nothing to read. *)
#[local] Instance demo : Os := {|
  os_open _ _ := 3;
  os_tcgetattr _ _ := Some (Tio 0 0 0 0 (replicate 32 0));
  os_tcsetattr _ _ _ := 0;
  os_read _ _ _ _ := (-1, EAGAIN, []);
  os_write _ _ chunks := (Z.min 2 (Z.of_nat (length (concat chunks))), 0);
  os_alloc _ _ := true;
|}.
#[local] Instance demo_laws : OsLaws demo.
Proof. split; intros; cbn; lia. Qed.
Lemma demo_soft : soft_errors.
Proof. intros tr fd chunks. cbn. lia. Qed.
Lemma demo_progress : write_progress.
Proof. intros tr fd chunks Hc. cbn. destruct (concat chunks); [done|]. cbn [length]. lia. Qed.
#[local] Existing Instance linux.
#[local] Existing Instance linux_laws.

Definition exec_all (ops : list op) (w : world (list bytes)) : world (list bytes) :=
  fold_left (fun w o => exec o w) ops w.
Lemma exec_all_app a b w : exec_all (a ++ b) w = exec_all b (exec_all a w).
Proof. apply fold_left_app. Qed.
Lemma exec_all_cons o b w : exec_all (o :: b) w = exec_all b (exec o w).
Proof. done. Qed.
Definition unprompted (o : op) : Prop := match o with OpReadyIn | OpReadyOut => False | _ => True end.
Lemma steps_exec_all ops w : Forall unprompted ops -> steps w ops (exec_all ops w).
Proof.
  intros H. revert w. induction H as [|o ops Ho _ IH]; intros w; [constructor|].
  constructor; [by destruct o|apply IH].
Qed.

Definition demo_start : world (list bytes) := World (sl_init sl_zero 1) [] [].
Definition demo_open : list op := [OpCtl SL_SET_DEV [116] 64; OpCtl SL_OPEN [] 64].
Definition demo_sent : list op := [OpOutput 0 [1; 2; 3; 4; 5]].

Lemma sl_stream_integrity_witness :
  let w := exec_all (demo_open ++ demo_sent) demo_start in
  written (calls w) ++ q_bytes (queue w) = [1; 2; 3; 4; 5] /\ written (calls w) = [1; 2].
Proof.
  intros w. split; [|vm_compute; reflexivity].
  apply (sl_stream_integrity (TL := linux_laws) (PL := chunk_queue_laws) sl_zero [] 0 1 demo_start (demo_open ++ demo_sent) w demo_soft eq_refl eq_refl).
  apply steps_exec_all. repeat constructor.
Defined.


Lemma sl_close_stalls_output_witness :
  let w := exec_all (demo_open ++ demo_sent) demo_start in
  let w' := exec_all (OpCtl SL_CLOSE [] 64 :: OpCtl SL_OPEN [] 64 :: demo_sent) w in
  written (calls w') = written (calls w) /\ q_bytes (queue w') <> [].
Proof.
  intros w w'. apply (sl_close_stalls_output (TL := linux_laws) (PL := chunk_queue_laws) w [] 64 (OpCtl SL_OPEN [] 64 :: demo_sent) w').
  - vm_compute. discriminate.
  - vm_compute. discriminate.
  - unfold w'. rewrite exec_all_cons. apply steps_exec_all. repeat constructor.
Defined.

Lemma sl_reads_fit_witness :
  let w := exec_all demo_open demo_start in reads_fit (calls w) /\ 1 <= bufsz (slp w) <= 255.
Proof.
  intros w. apply (sl_reads_fit (TL := linux_laws) (OL := demo_laws) (PL := chunk_queue_laws) sl_zero [] 0 1 demo_start demo_open w eq_refl).
  apply steps_exec_all. repeat constructor.
Defined.

Lemma sl_set_get_witness :
  fst (sl_ctl SL_SET_CSIZE (put_int32 7) 64 demo_start) = (1, InPlace [SL_OK]).
Proof.
  destruct (sl_set_get (Opt SL_SET_CSIZE SL_GET_CSIZE FL_CSIZE w_csize csize get_csize false) 64 demo_start)
    as (_ & H & _); [right; left|lia|].
  destruct (H 7) as [E _]; [lia|]. exact (f_equal fst E).
Defined.

Lemma sl_open_calls_witness :
  let w := exec_all [OpCtl SL_SET_DEV [116] 64] demo_start in
  exists s, fst (sl_ctl SL_OPEN [] 64 w) = (1, InPlace [SL_OK]) /\ com s = 3 /\ baud s = 9600.
Proof.
  intros w. destruct (sl_open_calls w [] 64 [116] 3 (Tio 0 0 0 0 (replicate 32 0)))
    as (s & E & Hc & _ & _ & Hd); [lia|reflexivity|reflexivity|discriminate|reflexivity|].
  exists s. split; [by rewrite E|]. split; [done|]. apply (Hd FL_BAUD). right. left.
Defined.

Lemma sl_revert_loses_mode_witness :
  fst (session [(SL_SET_MODE, put_int32 SL_MODE_LINE); (SL_REVERT, []);
    (SL_SET_MODE, put_int32 SL_MODE_LINE); (SL_UPDATE, [])] 64 demo_start) =
  replicate 4 (1, InPlace [SL_OK]).
Proof. by rewrite (sl_revert_loses_mode demo_start 64) by (cbn; lia || discriminate || reflexivity). Defined.

Lemma sl_write_error_reads_before_witness :
  let O := {| os_open := @os_open demo; os_tcgetattr := @os_tcgetattr demo;
    os_tcsetattr := @os_tcsetattr demo; os_read := @os_read demo;
    os_write _ _ _ := (-1, 5); os_alloc := @os_alloc demo |} in
  let w := World (w_com 3 (sl_init sl_zero 1)) [] [] in
  queue (snd (@sl_output O (list bytes) _ 99 [1; 2] w)) = [[99; 1; 2]].
Proof.
  intros O w. destruct (@sl_write_error_reads_before linux O (list bytes) _ _ 99 [1; 2] 5 w) as [E _];
    [discriminate|reflexivity|reflexivity|discriminate|reflexivity|discriminate|]. reflexivity.
Defined.
