(* ===== verification/LoopDesc.v ===== *)
(** The descriptors of the loop driver, [ssh/c_src/loop_drv.c]: a port that emulates
    a connected TCP socket of inet_drv, what is sent to it comes back through the
    packet layer.  Constants, the descriptor structs, the driver's state, and the
    queue of asynchronous operations with the replies that use it.

    Built without [HAVE_IN6]: the only address family is [AF_INET]. *)
From Stdlib Require Export SpecFloat.
From stdpp Require Import strings.
From S2P Require Import Prelude ErlTerm Erts.
#[local] Open Scope Z_scope.

(** * Constants *)

Definition INET_AF_INET := 1.
Definition INET_TYPE_STREAM := 1.
Definition INET_TYPE_DGRAM := 2.
Definition INET_MODE_LIST := 0.
Definition INET_MODE_BINARY := 1.
Definition INET_DELIVER_PORT := 0.
Definition INET_DELIVER_TERM := 1.
Definition INET_PASSIVE := 0.
Definition INET_ACTIVE := 1.
Definition INET_ONCE := 2.
Definition INET_F_OPEN := 0x0001.
Definition INET_F_BOUND := 0x0002.
Definition INET_F_ACTIVE := 0x0004.
Definition INET_F_BUSY := 0x0080.
Definition INET_STATE_CLOSED := 0.
Definition INET_STATE_OPEN := INET_F_OPEN.
Definition INET_STATE_BOUND := (INET_STATE_OPEN |. INET_F_BOUND)%C.
Definition INET_STATE_CONNECTED := (INET_STATE_BOUND |. INET_F_ACTIVE)%C.
Definition INET_REQ_OPEN := 1.
Definition INET_REQ_CLOSE := 2.
Definition INET_REQ_CONNECT := 3.
Definition INET_REQ_PEER := 4.
Definition INET_REQ_NAME := 5.
Definition INET_REQ_BIND := 6.
Definition INET_REQ_SETOPTS := 7.
Definition INET_REQ_GETOPTS := 8.
Definition INET_REQ_GETIX := 9.
Definition INET_REQ_GETSTAT := 11.
Definition INET_REQ_GETHOSTNAME := 12.
Definition INET_REQ_FDOPEN := 13.
Definition INET_REQ_GETFD := 14.
Definition INET_REQ_GETTYPE := 15.
Definition INET_REQ_GETSTATUS := 16.
Definition INET_REQ_GETSERVBYNAME := 17.
Definition INET_REQ_GETSERVBYPORT := 18.
Definition INET_REQ_SETNAME := 19.
Definition INET_REQ_SETPEER := 20.
Definition INET_REQ_GETIFLIST := 21.
Definition INET_REQ_IFGET := 22.
Definition INET_REQ_IFSET := 23.
Definition INET_REQ_SUBSCRIBE := 24.
Definition INET_SUBS_EMPTY_OUT_Q := 1.
Definition INET_REP_ERROR := 0.
Definition INET_REP_OK := 1.
Definition INET_OPT_REUSEADDR := 0.
Definition INET_OPT_KEEPALIVE := 1.
Definition INET_OPT_DONTROUTE := 2.
Definition INET_OPT_LINGER := 3.
Definition INET_OPT_BROADCAST := 4.
Definition INET_OPT_OOBINLINE := 5.
Definition INET_OPT_SNDBUF := 6.
Definition INET_OPT_RCVBUF := 7.
Definition TCP_OPT_NODELAY := 10.
Definition INET_LOPT_BUFFER := 20.
Definition INET_LOPT_HEADER := 21.
Definition INET_LOPT_ACTIVE := 22.
Definition INET_LOPT_PACKET := 23.
Definition INET_LOPT_MODE := 24.
Definition INET_LOPT_DELIVER := 25.
Definition INET_LOPT_EXITONCLOSE := 26.
Definition INET_LOPT_TCP_HIWTRMRK := 27.
Definition INET_LOPT_TCP_LOWTRMRK := 28.
Definition INET_LOPT_BIT8 := 29.
Definition INET_LOPT_TCP_SEND_TIMEOUT := 30.
Definition INET_BIT8_CLEAR := 0.
Definition INET_BIT8_SET := 1.
Definition INET_BIT8_ON := 2.
Definition INET_BIT8_OFF := 3.
Definition INET_STAT_RECV_CNT := 1.
Definition INET_STAT_RECV_MAX := 2.
Definition INET_STAT_RECV_AVG := 3.
Definition INET_STAT_RECV_DVI := 4.
Definition INET_STAT_SEND_CNT := 5.
Definition INET_STAT_SEND_MAX := 6.
Definition INET_STAT_SEND_AVG := 7.
Definition INET_STAT_SEND_PND := 8.
Definition INET_STAT_RECV_OCT := 9.
Definition INET_STAT_SEND_OCT := 10.
Definition INET_DEF_BUFFER := 1024.
Definition INET_MIN_BUFFER := 1.
Definition INET_MAX_BUFFER := (1024*64).
Definition INET_HIGH_WATERMARK := (1024*8).
Definition INET_LOW_WATERMARK := (1024*4).
Definition INET_INFINITY := 0xffffffff.
Definition INET_MAX_ASYNC := 1.
Definition TCP_REQ_ACCEPT := 30.
Definition TCP_REQ_LISTEN := 31.
Definition TCP_REQ_RECV := 32.
Definition TCP_REQ_UNRECV := 33.
Definition TCP_REQ_SHUTDOWN := 34.
Definition TCP_STATE_OPEN := INET_F_OPEN.
Definition TCP_STATE_BOUND := (TCP_STATE_OPEN |. INET_F_BOUND)%C.
Definition TCP_STATE_CONNECTED := (TCP_STATE_BOUND |. INET_F_ACTIVE)%C.
Definition TCP_PB_RAW := 0.
Definition TCP_PB_1 := 1.
Definition TCP_PB_2 := 2.
Definition TCP_PB_4 := 3.
Definition TCP_PB_ASN1 := 4.
Definition TCP_PB_RM := 5.
Definition TCP_PB_CDR := 6.
Definition TCP_PB_FCGI := 7.
Definition TCP_PB_LINE_LF := 8.
Definition TCP_PB_TPKT := 9.
Definition TCP_PB_HTTP := 10.
Definition TCP_PB_HTTPH := 11.
Definition TCP_MAX_PACKET_SIZE := 0x1000000.
Definition BUFFER_STACK_SIZE : nat := 16.

(** Values of the system headers. *)
Definition AF_INET := 2.
Definition SOCK_STREAM := 1.
Definition SOCK_DGRAM := 2.
Definition EINVAL := 22.
Definition ENOMEM := 12.
Definition ENOTCONN := 107.
Definition EISCONN := 106.
Definition EALREADY := 114.
Definition EMSGSIZE := 90.

(** * Data *)

(** An [ErlDrvBinary], [orig_size] is the length. *)
Abbreviation binary := bytes (only parsing).
Definition orig_size (b : binary) : Z := Z.of_nat (length b).

(** [double]: IEEE binary64. *)
Abbreviation double := spec_float.
Definition d_add := SFadd 53 1024.
Definition d_sub := SFsub 53 1024.
Definition d_div := SFdiv 53 1024.
Definition d_of_Z (z : Z) : double := binary_normalize 53 1024 z 0 false.
Definition d_zero : double := S754_zero false.

(** [sockaddr_in]: the port in network order, four address bytes. *)
Record inet_address := Addr { sin_family : Z; sin_port : Z; sin_addr : bytes }.

Record inet_async_op := Op { id : Z; op_caller : Z; req : Z }.
(** [oph], [opt] point into [op_queue], or are NULL. *)
Record async_queue := AQ { oph : option nat; opt : option nat; op_queue : list inet_async_op }.

Record statistics := Stats {
  recv_oct0 : Z;  (* low word *)
  recv_oct1 : Z;  (* high word *)
  recv_cnt : Z;
  recv_max : Z;
  recv_avg : double;
  recv_dvi : double;
  send_oct0 : Z;
  send_oct1 : Z;
  send_cnt : Z;
  send_max : Z;
  send_avg : double;
}.
Definition s_recv_oct0 (v : Z) (s : statistics) : statistics :=
  Stats v (recv_oct1 s) (recv_cnt s) (recv_max s) (recv_avg s) (recv_dvi s) (send_oct0 s) (send_oct1 s) (send_cnt s) (send_max s) (send_avg s).
Definition s_recv_oct1 (v : Z) (s : statistics) : statistics :=
  Stats (recv_oct0 s) v (recv_cnt s) (recv_max s) (recv_avg s) (recv_dvi s) (send_oct0 s) (send_oct1 s) (send_cnt s) (send_max s) (send_avg s).
Definition s_recv_cnt (v : Z) (s : statistics) : statistics :=
  Stats (recv_oct0 s) (recv_oct1 s) v (recv_max s) (recv_avg s) (recv_dvi s) (send_oct0 s) (send_oct1 s) (send_cnt s) (send_max s) (send_avg s).
Definition s_recv_max (v : Z) (s : statistics) : statistics :=
  Stats (recv_oct0 s) (recv_oct1 s) (recv_cnt s) v (recv_avg s) (recv_dvi s) (send_oct0 s) (send_oct1 s) (send_cnt s) (send_max s) (send_avg s).
Definition s_recv_avg (v : double) (s : statistics) : statistics :=
  Stats (recv_oct0 s) (recv_oct1 s) (recv_cnt s) (recv_max s) v (recv_dvi s) (send_oct0 s) (send_oct1 s) (send_cnt s) (send_max s) (send_avg s).
Definition s_recv_dvi (v : double) (s : statistics) : statistics :=
  Stats (recv_oct0 s) (recv_oct1 s) (recv_cnt s) (recv_max s) (recv_avg s) v (send_oct0 s) (send_oct1 s) (send_cnt s) (send_max s) (send_avg s).
Definition s_send_oct0 (v : Z) (s : statistics) : statistics :=
  Stats (recv_oct0 s) (recv_oct1 s) (recv_cnt s) (recv_max s) (recv_avg s) (recv_dvi s) v (send_oct1 s) (send_cnt s) (send_max s) (send_avg s).
Definition s_send_oct1 (v : Z) (s : statistics) : statistics :=
  Stats (recv_oct0 s) (recv_oct1 s) (recv_cnt s) (recv_max s) (recv_avg s) (recv_dvi s) (send_oct0 s) v (send_cnt s) (send_max s) (send_avg s).
Definition s_send_cnt (v : Z) (s : statistics) : statistics :=
  Stats (recv_oct0 s) (recv_oct1 s) (recv_cnt s) (recv_max s) (recv_avg s) (recv_dvi s) (send_oct0 s) (send_oct1 s) v (send_max s) (send_avg s).
Definition s_send_max (v : Z) (s : statistics) : statistics :=
  Stats (recv_oct0 s) (recv_oct1 s) (recv_cnt s) (recv_max s) (recv_avg s) (recv_dvi s) (send_oct0 s) (send_oct1 s) (send_cnt s) v (send_avg s).
Definition s_send_avg (v : double) (s : statistics) : statistics :=
  Stats (recv_oct0 s) (recv_oct1 s) (recv_cnt s) (recv_max s) (recv_avg s) (recv_dvi s) (send_oct0 s) (send_oct1 s) (send_cnt s) (send_max s) v.

Record inet_descriptor := Inet {
  dport : Z;  (* the port identifier *)
  state : Z;  (* INET_F_ bits *)
  mode : Z;  (* BINARY | LIST *)
  exitf : Z;  (* exit port on close or not *)
  bit8f : Z;  (* check if data has bit number 7 set *)
  deliver : Z;  (* TERM or PORT *)
  caller : Z;  (* recipient of sync reply *)
  ops : async_queue;  (* oph, opt and op_queue *)
  active : Z;  (* 0 = passive, 1 = active, 2 = active once *)
  stype : Z;
  sfamily : Z;
  htype : Z;  (* header type *)
  bit8 : Z;  (* some data seen had the 7th bit set *)
  peer_addr : inet_address;  (* fake peer address *)
  name_addr : inet_address;  (* fake local address *)
  peer_ptr : bool;  (* peer_ptr is &peer_addr, or NULL *)
  name_ptr : bool;
  bufsz : Z;  (* minimum buffer constraint *)
  hsz : Z;  (* the list header size, unsigned *)
  stats : statistics;
  empty_out_q_subs : list Z;  (* subscribers, head first; [] is NO_PROCESS *)
}.
Definition w_dport (v : Z) (s : inet_descriptor) : inet_descriptor :=
  Inet v (state s) (mode s) (exitf s) (bit8f s) (deliver s) (caller s) (ops s) (active s) (stype s) (sfamily s) (htype s) (bit8 s) (peer_addr s) (name_addr s) (peer_ptr s) (name_ptr s) (bufsz s) (hsz s) (stats s) (empty_out_q_subs s).
Definition w_state (v : Z) (s : inet_descriptor) : inet_descriptor :=
  Inet (dport s) v (mode s) (exitf s) (bit8f s) (deliver s) (caller s) (ops s) (active s) (stype s) (sfamily s) (htype s) (bit8 s) (peer_addr s) (name_addr s) (peer_ptr s) (name_ptr s) (bufsz s) (hsz s) (stats s) (empty_out_q_subs s).
Definition w_mode (v : Z) (s : inet_descriptor) : inet_descriptor :=
  Inet (dport s) (state s) v (exitf s) (bit8f s) (deliver s) (caller s) (ops s) (active s) (stype s) (sfamily s) (htype s) (bit8 s) (peer_addr s) (name_addr s) (peer_ptr s) (name_ptr s) (bufsz s) (hsz s) (stats s) (empty_out_q_subs s).
Definition w_exitf (v : Z) (s : inet_descriptor) : inet_descriptor :=
  Inet (dport s) (state s) (mode s) v (bit8f s) (deliver s) (caller s) (ops s) (active s) (stype s) (sfamily s) (htype s) (bit8 s) (peer_addr s) (name_addr s) (peer_ptr s) (name_ptr s) (bufsz s) (hsz s) (stats s) (empty_out_q_subs s).
Definition w_bit8f (v : Z) (s : inet_descriptor) : inet_descriptor :=
  Inet (dport s) (state s) (mode s) (exitf s) v (deliver s) (caller s) (ops s) (active s) (stype s) (sfamily s) (htype s) (bit8 s) (peer_addr s) (name_addr s) (peer_ptr s) (name_ptr s) (bufsz s) (hsz s) (stats s) (empty_out_q_subs s).
Definition w_deliver (v : Z) (s : inet_descriptor) : inet_descriptor :=
  Inet (dport s) (state s) (mode s) (exitf s) (bit8f s) v (caller s) (ops s) (active s) (stype s) (sfamily s) (htype s) (bit8 s) (peer_addr s) (name_addr s) (peer_ptr s) (name_ptr s) (bufsz s) (hsz s) (stats s) (empty_out_q_subs s).
Definition w_caller (v : Z) (s : inet_descriptor) : inet_descriptor :=
  Inet (dport s) (state s) (mode s) (exitf s) (bit8f s) (deliver s) v (ops s) (active s) (stype s) (sfamily s) (htype s) (bit8 s) (peer_addr s) (name_addr s) (peer_ptr s) (name_ptr s) (bufsz s) (hsz s) (stats s) (empty_out_q_subs s).
Definition w_ops (v : async_queue) (s : inet_descriptor) : inet_descriptor :=
  Inet (dport s) (state s) (mode s) (exitf s) (bit8f s) (deliver s) (caller s) v (active s) (stype s) (sfamily s) (htype s) (bit8 s) (peer_addr s) (name_addr s) (peer_ptr s) (name_ptr s) (bufsz s) (hsz s) (stats s) (empty_out_q_subs s).
Definition w_active (v : Z) (s : inet_descriptor) : inet_descriptor :=
  Inet (dport s) (state s) (mode s) (exitf s) (bit8f s) (deliver s) (caller s) (ops s) v (stype s) (sfamily s) (htype s) (bit8 s) (peer_addr s) (name_addr s) (peer_ptr s) (name_ptr s) (bufsz s) (hsz s) (stats s) (empty_out_q_subs s).
Definition w_stype (v : Z) (s : inet_descriptor) : inet_descriptor :=
  Inet (dport s) (state s) (mode s) (exitf s) (bit8f s) (deliver s) (caller s) (ops s) (active s) v (sfamily s) (htype s) (bit8 s) (peer_addr s) (name_addr s) (peer_ptr s) (name_ptr s) (bufsz s) (hsz s) (stats s) (empty_out_q_subs s).
Definition w_sfamily (v : Z) (s : inet_descriptor) : inet_descriptor :=
  Inet (dport s) (state s) (mode s) (exitf s) (bit8f s) (deliver s) (caller s) (ops s) (active s) (stype s) v (htype s) (bit8 s) (peer_addr s) (name_addr s) (peer_ptr s) (name_ptr s) (bufsz s) (hsz s) (stats s) (empty_out_q_subs s).
Definition w_htype (v : Z) (s : inet_descriptor) : inet_descriptor :=
  Inet (dport s) (state s) (mode s) (exitf s) (bit8f s) (deliver s) (caller s) (ops s) (active s) (stype s) (sfamily s) v (bit8 s) (peer_addr s) (name_addr s) (peer_ptr s) (name_ptr s) (bufsz s) (hsz s) (stats s) (empty_out_q_subs s).
Definition w_bit8 (v : Z) (s : inet_descriptor) : inet_descriptor :=
  Inet (dport s) (state s) (mode s) (exitf s) (bit8f s) (deliver s) (caller s) (ops s) (active s) (stype s) (sfamily s) (htype s) v (peer_addr s) (name_addr s) (peer_ptr s) (name_ptr s) (bufsz s) (hsz s) (stats s) (empty_out_q_subs s).
Definition w_peer_addr (v : inet_address) (s : inet_descriptor) : inet_descriptor :=
  Inet (dport s) (state s) (mode s) (exitf s) (bit8f s) (deliver s) (caller s) (ops s) (active s) (stype s) (sfamily s) (htype s) (bit8 s) v (name_addr s) (peer_ptr s) (name_ptr s) (bufsz s) (hsz s) (stats s) (empty_out_q_subs s).
Definition w_name_addr (v : inet_address) (s : inet_descriptor) : inet_descriptor :=
  Inet (dport s) (state s) (mode s) (exitf s) (bit8f s) (deliver s) (caller s) (ops s) (active s) (stype s) (sfamily s) (htype s) (bit8 s) (peer_addr s) v (peer_ptr s) (name_ptr s) (bufsz s) (hsz s) (stats s) (empty_out_q_subs s).
Definition w_peer_ptr (v : bool) (s : inet_descriptor) : inet_descriptor :=
  Inet (dport s) (state s) (mode s) (exitf s) (bit8f s) (deliver s) (caller s) (ops s) (active s) (stype s) (sfamily s) (htype s) (bit8 s) (peer_addr s) (name_addr s) v (name_ptr s) (bufsz s) (hsz s) (stats s) (empty_out_q_subs s).
Definition w_name_ptr (v : bool) (s : inet_descriptor) : inet_descriptor :=
  Inet (dport s) (state s) (mode s) (exitf s) (bit8f s) (deliver s) (caller s) (ops s) (active s) (stype s) (sfamily s) (htype s) (bit8 s) (peer_addr s) (name_addr s) (peer_ptr s) v (bufsz s) (hsz s) (stats s) (empty_out_q_subs s).
Definition w_bufsz (v : Z) (s : inet_descriptor) : inet_descriptor :=
  Inet (dport s) (state s) (mode s) (exitf s) (bit8f s) (deliver s) (caller s) (ops s) (active s) (stype s) (sfamily s) (htype s) (bit8 s) (peer_addr s) (name_addr s) (peer_ptr s) (name_ptr s) v (hsz s) (stats s) (empty_out_q_subs s).
Definition w_hsz (v : Z) (s : inet_descriptor) : inet_descriptor :=
  Inet (dport s) (state s) (mode s) (exitf s) (bit8f s) (deliver s) (caller s) (ops s) (active s) (stype s) (sfamily s) (htype s) (bit8 s) (peer_addr s) (name_addr s) (peer_ptr s) (name_ptr s) (bufsz s) v (stats s) (empty_out_q_subs s).
Definition w_stats (v : statistics) (s : inet_descriptor) : inet_descriptor :=
  Inet (dport s) (state s) (mode s) (exitf s) (bit8f s) (deliver s) (caller s) (ops s) (active s) (stype s) (sfamily s) (htype s) (bit8 s) (peer_addr s) (name_addr s) (peer_ptr s) (name_ptr s) (bufsz s) (hsz s) v (empty_out_q_subs s).
Definition w_empty_out_q_subs (v : list Z) (s : inet_descriptor) : inet_descriptor :=
  Inet (dport s) (state s) (mode s) (exitf s) (bit8f s) (deliver s) (caller s) (ops s) (active s) (stype s) (sfamily s) (htype s) (bit8 s) (peer_addr s) (name_addr s) (peer_ptr s) (name_ptr s) (bufsz s) (hsz s) (stats s) v.

Record loop_descriptor := Loop {
  inet : inet_descriptor;
  high : Z;  (* high watermark *)
  low : Z;  (* low watermark *)
  send_timeout : Z;
  busy_on_send : Z;
  i_bufsz : Z;  (* current input buffer size *)
  i_buf : option binary;
  i_ptr : Z;  (* offset in i_buf *)
  i_ptr_start : Z;  (* offset in i_buf *)
  i_remain : Z;  (* remaining chars to read *)
  http_state : Z;  (* 0 = response|request  1 = headers fields *)
}.
Definition w_inet (v : inet_descriptor) (s : loop_descriptor) : loop_descriptor :=
  Loop v (high s) (low s) (send_timeout s) (busy_on_send s) (i_bufsz s) (i_buf s) (i_ptr s) (i_ptr_start s) (i_remain s) (http_state s).
Definition w_high (v : Z) (s : loop_descriptor) : loop_descriptor :=
  Loop (inet s) v (low s) (send_timeout s) (busy_on_send s) (i_bufsz s) (i_buf s) (i_ptr s) (i_ptr_start s) (i_remain s) (http_state s).
Definition w_low (v : Z) (s : loop_descriptor) : loop_descriptor :=
  Loop (inet s) (high s) v (send_timeout s) (busy_on_send s) (i_bufsz s) (i_buf s) (i_ptr s) (i_ptr_start s) (i_remain s) (http_state s).
Definition w_send_timeout (v : Z) (s : loop_descriptor) : loop_descriptor :=
  Loop (inet s) (high s) (low s) v (busy_on_send s) (i_bufsz s) (i_buf s) (i_ptr s) (i_ptr_start s) (i_remain s) (http_state s).
Definition w_busy_on_send (v : Z) (s : loop_descriptor) : loop_descriptor :=
  Loop (inet s) (high s) (low s) (send_timeout s) v (i_bufsz s) (i_buf s) (i_ptr s) (i_ptr_start s) (i_remain s) (http_state s).
Definition w_i_bufsz (v : Z) (s : loop_descriptor) : loop_descriptor :=
  Loop (inet s) (high s) (low s) (send_timeout s) (busy_on_send s) v (i_buf s) (i_ptr s) (i_ptr_start s) (i_remain s) (http_state s).
Definition w_i_buf (v : option binary) (s : loop_descriptor) : loop_descriptor :=
  Loop (inet s) (high s) (low s) (send_timeout s) (busy_on_send s) (i_bufsz s) v (i_ptr s) (i_ptr_start s) (i_remain s) (http_state s).
Definition w_i_ptr (v : Z) (s : loop_descriptor) : loop_descriptor :=
  Loop (inet s) (high s) (low s) (send_timeout s) (busy_on_send s) (i_bufsz s) (i_buf s) v (i_ptr_start s) (i_remain s) (http_state s).
Definition w_i_ptr_start (v : Z) (s : loop_descriptor) : loop_descriptor :=
  Loop (inet s) (high s) (low s) (send_timeout s) (busy_on_send s) (i_bufsz s) (i_buf s) (i_ptr s) v (i_remain s) (http_state s).
Definition w_i_remain (v : Z) (s : loop_descriptor) : loop_descriptor :=
  Loop (inet s) (high s) (low s) (send_timeout s) (busy_on_send s) (i_bufsz s) (i_buf s) (i_ptr s) (i_ptr_start s) v (http_state s).
Definition w_http_state (v : Z) (s : loop_descriptor) : loop_descriptor :=
  Loop (inet s) (high s) (low s) (send_timeout s) (busy_on_send s) (i_bufsz s) (i_buf s) (i_ptr s) (i_ptr_start s) (i_remain s) v.


(** * The driver's state *)

(** The descriptor of the port, the globals [buffer_stack] and [async_ref], the port's
    queue, the calls made, and a ghost: the packets handed to [loop_reply_data]
    and [loop_reply_binary_data], headers included. *)
Record world (Q : Type) := World {
  desc : loop_descriptor;
  buffer_stack : list binary;      (* top first *)
  async_ref : Z;
  queue : Q;
  calls : log;
  packets : list bytes;
}.
Arguments World {Q}. Arguments desc {Q}. Arguments buffer_stack {Q}. Arguments async_ref {Q}.
Arguments queue {Q}. Arguments calls {Q}. Arguments packets {Q}.
#[export] Instance world_log {Q} : HasLog (world Q) := {|
  log_of := calls;
  set_log l w := World (desc w) (buffer_stack w) (async_ref w) (queue w) l (packets w) |}.

(** What the runtime and the C library answer: the process that made the call, the
    name of an error, the bytes of a block just allocated, and the number of references to a binary
    after it was sent. *)
Class LoopEnv := {
  driver_caller : log -> Z;
  erl_errno_id : Z -> string;
  fresh : log -> Z -> bytes;
  refc : log -> Z;
}.
Class LoopEnvLaws (E : LoopEnv) : Prop := {
  fresh_length l n : Z.of_nat (length (fresh l n)) = Z.max 0 n;
}.

Section Desc.
Context {Q : Type} `{PQ : !PortQueue Q} `{RT : !Runtime} `{E : !LoopEnv}.
Abbreviation W := (world Q).
Abbreviation Loop := (M W).

Definition get_desc : Loop loop_descriptor := gets desc.
Definition get_inet : Loop inet_descriptor := gets (fun w => inet (desc w)).
Definition upd (f : loop_descriptor -> loop_descriptor) : Loop unit := modify (fun w =>
  World (f (desc w)) (buffer_stack w) (async_ref w) (queue w) (calls w) (packets w)).
Definition upd_inet (f : inet_descriptor -> inet_descriptor) : Loop unit :=
  upd (fun d => w_inet (f (inet d)) d).
Definition act (c : call) : Loop unit := do_call c;;; skip.

Definition IS_OPEN (d : inet_descriptor) : bool :=
  Z.land (state d) INET_F_OPEN =? INET_F_OPEN.
Definition IS_BOUND (d : inet_descriptor) : bool :=
  Z.land (state d) INET_F_BOUND =? INET_F_BOUND.
Definition IS_CONNECTED (d : inet_descriptor) : bool :=
  Z.land (state d) INET_STATE_CONNECTED =? INET_STATE_CONNECTED.
Definition IS_BUSY (d : inet_descriptor) : bool :=
  Z.land (state d) INET_F_BUSY =? INET_F_BUSY.

Definition error_atom (err : Z) : string := tolower (erl_errno_id err).

(** ** Asynchronous operations

    The queue is a ring of [max] places. *)
Definition next_op (max : nat) (opp : nat) : nat := if (max <=? S opp)%nat then 0%nat else S opp.
Definition aq_enq (max : nat) (op : inet_async_op) (q : async_queue) : option async_queue :=
  match oph q with
  | None => Some (AQ (Some (next_op max 0)) (Some 0%nat) (<[0%nat := op]> (op_queue q)))
  | Some h =>
      if bool_decide (oph q = opt q) then None
      else Some (AQ (Some (next_op max h)) (opt q) (<[h := op]> (op_queue q)))
  end.
Definition aq_deq (max : nat) (q : async_queue) : option (inet_async_op * async_queue) :=
  match opt q with
  | None => None
  | Some t =>
      let op := nth t (op_queue q) (Op 0 0 0) in
      let t' := next_op max t in
      Some (op, if bool_decide (Some t' = oph q) then AQ None None (op_queue q)
                else AQ (oph q) (Some t') (op_queue q))
  end.

(** The id, as written to [buf], or [None] when the queue is full. *)
Definition enq_async (rq : Z) : Loop (option Z) :=
  w ← get;
  let new_id := (async_ref w & 0xffff)%C in
  modify (fun w => World (desc w) (buffer_stack w) (int32 (async_ref w + 1)) (queue w) (calls w)
    (packets w));;;
  match aq_enq (Z.to_nat INET_MAX_ASYNC) (Op new_id (driver_caller (calls w)) rq) (ops (inet (desc w))) with
  | None => mret None
  | Some q => upd_inet (w_ops q);;; mret (Some new_id)
  end.

Definition deq_async : Loop (option inet_async_op) :=
  d ← get_inet;
  match aq_deq (Z.to_nat INET_MAX_ASYNC) (ops d) with
  | None => mret None
  | Some (op, q) => upd_inet (w_ops q);;; mret (Some op)
  end.
End Desc.

(** * The ring of operations is a bounded queue *)

Section Ring.
Context (max : nat) (Hmax : (0 < max)%nat).

(** [l] is the operations in the ring, the oldest first. *)
Definition aq_rep (q : async_queue) (l : list inet_async_op) : Prop :=
  length (op_queue q) = max /\
  match opt q, oph q with
  | None, None => l = []
  | Some t, Some h =>
      (t < max)%nat /\ (1 <= length l <= max)%nat /\ h = ((t + length l) mod max)%nat /\
      forall i, (i < length l)%nat -> op_queue q !! ((t + i) mod max)%nat = l !! i
  | _, _ => False
  end.

Lemma ring_mod a : (a < 2 * max)%nat ->
  (a mod max = if a <? max then a else a - max)%nat.
Proof.
  intros Ha. destruct (Nat.ltb_spec a max); [by apply Nat.mod_small|].
  replace a with (a - max + 1 * max)%nat at 1 by lia.
  rewrite Nat.Div0.mod_add. apply Nat.mod_small. lia.
Qed.
Lemma next_op_mod t : (t < max)%nat -> next_op max t = ((t + 1) mod max)%nat.
Proof.
  intros Ht. unfold next_op. rewrite ring_mod by lia.
  destruct (Nat.leb_spec max (S t)), (Nat.ltb_spec (t + 1) max); lia.
Qed.

Lemma aq_enq_full op q l : aq_rep q l -> length l = max -> aq_enq max op q = None.
Proof.
  intros [Hl Hq] Hf. unfold aq_enq. destruct (opt q) as [t|], (oph q) as [h|]; try done.
  - destruct Hq as (Ht & _ & -> & _). rewrite Hf, ring_mod by lia.
    rewrite (proj2 (Nat.ltb_ge _ _)) by lia. rewrite bool_decide_true; [done|]. f_equal. lia.
  - subst. cbn in Hf. lia.
Qed.
Lemma aq_enq_room op q l : aq_rep q l -> (length l < max)%nat ->
  exists q', aq_enq max op q = Some q' /\ aq_rep q' (l ++ [op]).
Proof.
  intros [Hl Hq] Hf. unfold aq_enq. destruct (opt q) as [t|] eqn:Et, (oph q) as [h|] eqn:Eh; try done.
  - destruct Hq as (Ht & Hlen & -> & Hi). rewrite bool_decide_false; [eexists; split; [done|]|].
    2: { intros [= E]. rewrite ring_mod in E by lia.
         destruct (Nat.ltb_spec (t + length l) max); lia. }
    assert ((t + length l) mod max < max)%nat by (apply Nat.mod_upper_bound; lia).
    split; [by rewrite <-Hl; apply length_insert|]. cbn. rewrite length_app. cbn.
    split; [done|]. split; [lia|]. split.
    + rewrite next_op_mod by done. rewrite Nat.Div0.add_mod_idemp_l. f_equal. lia.
    + intros i Hi'. destruct (Nat.eq_dec i (length l)) as [->|].
      * rewrite list_lookup_insert_eq by lia. by rewrite list_lookup_middle.
      * rewrite lookup_app_l, <-Hi by lia. apply list_lookup_insert_ne.
        rewrite !ring_mod by lia.
        destruct (Nat.ltb_spec (t + length l) max), (Nat.ltb_spec (t + i) max); lia.
  - subst l. eexists. split; [done|]. split; [by rewrite <-Hl; apply length_insert|]. cbn.
    split; [lia|]. split; [lia|]. split; [apply next_op_mod; lia|].
    intros [|i] ?; [|lia]. rewrite Nat.Div0.mod_0_l. apply list_lookup_insert_eq. lia.
Qed.
Lemma aq_deq_empty q : aq_rep q [] -> aq_deq max q = None.
Proof.
  intros [Hl Hq]. unfold aq_deq. destruct (opt q), (oph q); try done. cbn in Hq. lia.
Qed.
Lemma aq_deq_cons q op l : aq_rep q (op :: l) ->
  exists q', aq_deq max q = Some (op, q') /\ aq_rep q' l.
Proof.
  intros [Hl Hq]. unfold aq_deq. destruct (opt q) as [t|] eqn:Et, (oph q) as [h|] eqn:Eh; try done.
  destruct Hq as (Ht & Hlen & -> & Hi). cbn [length] in *. eexists. split.
  - do 2 f_equal. pose proof (Hi 0%nat ltac:(lia)) as H0. rewrite Nat.add_0_r, Nat.mod_small in H0 by lia.
    apply nth_lookup_Some with (d := Op 0 0 0) in H0. exact H0.
  - rewrite next_op_mod by done. case_bool_decide as E.
    + split; [done|]. cbn. injection E as E. destruct l as [|op' l]; [done|]. cbn [length] in *.
      rewrite !ring_mod in E by lia.
      destruct (Nat.ltb_spec (t + 1) max), (Nat.ltb_spec (t + S (S (length l))) max); lia.
    + split; [done|]. cbn. split; [apply Nat.mod_upper_bound; lia|]. split; [split; [|lia]|split].
      * destruct l; [|cbn; lia]. by cbn in E.
      * rewrite Nat.Div0.add_mod_idemp_l. f_equal. lia.
      * intros i Hi'. rewrite Nat.Div0.add_mod_idemp_l.
        replace (t + 1 + i)%nat with (t + S i)%nat by lia. rewrite Hi by lia. done.
Qed.
End Ring.

(** C39: For every capacity, the ring of asynchronous operations is a bounded first-in first-out
    queue: enqueueing appends while fewer than the capacity are pending and fails on a full
    ring, dequeueing takes the oldest and fails on an empty one. *)
Theorem async_ring_fifo max q l : (0 < max)%nat -> aq_rep max q l ->
  (forall op, if (length l <? max)%nat
    then exists q', aq_enq max op q = Some q' /\ aq_rep max q' (l ++ [op])
    else aq_enq max op q = None) /\
  match l with
  | [] => aq_deq max q = None
  | op :: l' => exists q', aq_deq max q = Some (op, q') /\ aq_rep max q' l'
  end.
Proof.
  intros Hm Hq. split.
  - intros op. destruct (Nat.ltb_spec (length l) max); [by apply aq_enq_room|].
    apply (aq_enq_full max Hm op q l Hq). destruct Hq as [_ Hq].
    destruct (opt q), (oph q); try done; [lia|]. subst. cbn in *. lia.
  - destruct l; [by apply aq_deq_empty|by apply aq_deq_cons].
Qed.
Lemma async_ring_fifo_witness :
  let q := AQ (Some 1%nat) (Some 2%nat) [Op 7 0 0; Op 0 0 0; Op 6 0 0] in
  exists q', aq_deq 3 q = Some (Op 6 0 0, q') /\ aq_rep 3 q' [Op 7 0 0].
Proof.
  intros q. apply (async_ring_fifo 3 q [Op 6 0 0; Op 7 0 0]); [lia|].
  split; [reflexivity|]. split; [lia|]. split; [cbn; lia|]. split; [reflexivity|].
  intros [|[|]] Hi; [reflexivity|reflexivity|cbn in Hi; lia].
Defined.

(** * A closed port, for examples *)

Definition sample_env : LoopEnv :=
  {| driver_caller _ := 7; erl_errno_id _ := "EINVAL"%string;
     fresh _ n := replicate (Z.to_nat n) 0; refc _ := 2 |}.
#[export] Instance sample_env_laws : LoopEnvLaws sample_env.
Proof. split. intros l n. cbn. rewrite length_replicate. lia. Qed.
Definition sample_inet : inet_descriptor :=
  Inet 1 INET_STATE_CONNECTED INET_MODE_LIST 1 0 INET_DELIVER_TERM 0 (AQ None None [Op 0 0 0])
    INET_ACTIVE SOCK_STREAM AF_INET TCP_PB_RAW 0 (Addr 0 0 []) (Addr 0 0 []) false false
    INET_DEF_BUFFER 0 (Stats 0 0 0 0 d_zero d_zero 0 0 0 0 d_zero) [].
Definition sample_desc : loop_descriptor :=
  Loop sample_inet INET_HIGH_WATERMARK INET_LOW_WATERMARK (-1) 0 0 None 0 0 0 0.
Definition sample_world : world (list bytes) := World sample_desc [] 0 [] [] [].
