(* ===== verification/LoopMsg.v ===== *)
(** The messages of the loop driver: replies to asynchronous and synchronous
    operations and the delivery of received data, [ssh/c_src/loop_drv.c] from
    [send_async_ok] to [inet_port_binary_data] and from [inet_async_data] to
    [loop_error_message].  Each array of terms is a definition of its own. *)
From stdpp Require Import strings.
From S2P Require Import Prelude ErlTerm Erts LoopDesc.
#[local] Open Scope Z_scope.

(** * Term arrays *)

Definition async_ok_spec (sender aid : Z) : spec :=
  let spec := LOAD_ATOM [] "inet_async" in
  let spec := LOAD_PORT spec sender in
  let spec := LOAD_INT spec aid in
  let spec := LOAD_ATOM spec "ok" in
  LOAD_TUPLE spec 4.

Definition async_error_spec (port ref : Z) (reason : string) : spec :=
  let spec := LOAD_ATOM [] "inet_async" in
  let spec := LOAD_PORT spec port in
  let spec := LOAD_INT spec ref in
  let spec := LOAD_ATOM spec "error" in
  let spec := LOAD_ATOM spec reason in
  let spec := LOAD_TUPLE spec 2 in
  LOAD_TUPLE spec 4.

Definition reply_ok_spec (dport : Z) : spec :=
  let spec := LOAD_ATOM [] "inet_reply" in
  let spec := LOAD_PORT spec dport in
  let spec := LOAD_ATOM spec "ok" in
  LOAD_TUPLE spec 3.

Definition reply_error_spec (dport : Z) (reason : string) : spec :=
  let spec := LOAD_ATOM [] "inet_reply" in
  let spec := LOAD_PORT spec dport in
  let spec := LOAD_ATOM spec "error" in
  let spec := LOAD_ATOM spec reason in
  let spec := LOAD_TUPLE spec 2 in
  LOAD_TUPLE spec 3.

Definition closed_spec (dport : Z) : spec :=
  let spec := LOAD_ATOM [] "tcp_closed" in
  let spec := LOAD_PORT spec dport in
  LOAD_TUPLE spec 2.

Definition error_spec (dport : Z) (am_err : string) : spec :=
  let spec := LOAD_ATOM [] "tcp_error" in
  let spec := LOAD_PORT spec dport in
  let spec := LOAD_ATOM spec am_err in
  LOAD_TUPLE spec 3.

Definition empty_out_q_spec (dport : Z) : spec :=
  let spec := LOAD_ATOM [] "empty_out_q" in
  let spec := LOAD_PORT spec dport in
  LOAD_TUPLE spec 2.

(** The data of a packet as a term: a string, or a binary with the first [hsz]
    bytes consed in front.  [bin] is the binary and [offs] the offset in it. *)
Definition load_string (v : spec) (buf : bytes) (len : Z) : spec := LOAD_STRING v buf len.
Definition load_binary (v : spec) (buf : bytes) (hsz : Z) (bin : bytes) (offs sz : Z) : spec :=
  let v := LOAD_BINARY v bin offs sz in
  if 0 <? hsz then LOAD_STRING_CONS v buf hsz else v.

Definition async_data_head (dport aid : Z) : spec :=
  let spec := LOAD_ATOM [] "inet_async" in
  let spec := LOAD_PORT spec dport in
  let spec := LOAD_INT spec aid in
  LOAD_ATOM spec "ok".
Definition message_head (dport : Z) : spec :=
  let spec := LOAD_ATOM [] "tcp" in
  LOAD_PORT spec dport.

(** * Sending *)

(** [(mode == INET_MODE_LIST) || (hsz > len)]; the comparison is unsigned. *)
Definition as_list (d : inet_descriptor) (hsz len : Z) : bool :=
  (mode d =? INET_MODE_LIST) || (hsz >? u32 len).

Section Msg.
Context {Q : Type} `{PQ : !PortQueue Q} `{RT : !Runtime} `{E : !LoopEnv}.
Abbreviation Loop := (M (world Q)).

Definition send_async_ok (sender aid recipient : Z) : Loop Z :=
  driver_send_term recipient (async_ok_spec sender aid).

Definition send_async_error (port ref recipient : Z) (reason : string) : Loop Z :=
  driver_send_term recipient (async_error_spec port ref reason).

Definition async_ok : Loop Z :=
  op ← deq_async;
  match op with
  | None => mret (-1)
  | Some op => d ← get_inet; send_async_ok (dport d) (id op) (op_caller op)
  end.

Definition async_error_am (reason : string) : Loop Z :=
  op ← deq_async;
  match op with
  | None => mret (-1)
  | Some op => d ← get_inet; send_async_error (dport d) (id op) (op_caller op) reason
  end.

(** The loop dequeues at most [INET_MAX_ASYNC] times, [fuel] of them and the one
    that fails. *)
Fixpoint async_error_all (fuel : nat) (reason : string) : Loop unit :=
  match fuel with
  | O => skip
  | S fuel =>
      op ← deq_async;
      match op with
      | None => skip
      | Some op =>
          d ← get_inet;
          send_async_error (dport d) (id op) (op_caller op) reason;;;
          async_error_all fuel reason
      end
  end.
Definition async_error_am_all (reason : string) : Loop Z :=
  async_error_all (S (Z.to_nat INET_MAX_ASYNC)) reason;;; mret 0.

Definition async_error (err : Z) : Loop Z := async_error_am (error_atom err).

Definition inet_reply_ok : Loop Z :=
  d ← get_inet;
  upd_inet (w_caller 0);;;
  driver_send_term (caller d) (reply_ok_spec (dport d)).

Definition inet_reply_error_am (reason : string) : Loop Z :=
  d ← get_inet;
  upd_inet (w_caller 0);;;
  driver_send_term (caller d) (reply_error_spec (dport d) reason).

Definition inet_reply_error (err : Z) : Loop Z := inet_reply_error_am (error_atom err).

(** ** Data *)

Definition inet_port_data (buf : bytes) (len : Z) : Loop Z :=
  d ← get_inet;
  if as_list d (hsz d) len then do_call (Output2 buf len [] 0)
  else if 0 <? hsz d then
    do_call (Output2 buf (hsz d) (drop (Z.to_nat (hsz d)) buf) (len - hsz d))
  else do_call (Output buf len).

Definition inet_port_binary_data (bin : binary) (offs len : Z) : Loop Z :=
  d ← get_inet;
  let buf := drop (Z.to_nat offs) bin in
  if as_list d (hsz d) len then do_call (Output2 buf len [] 0)
  else do_call (OutputBinary buf (hsz d) bin (offs + hsz d) (len - hsz d)).

(** When no binary can be had, [async_error] dequeues a second operation. *)
Definition inet_async_data (buf : bytes) (len : Z) : Loop Z :=
  d ← get_inet;
  op ← deq_async;
  match op with
  | None => mret (-1)
  | Some op =>
      let spec := async_data_head (dport d) (id op) in
      if as_list d (hsz d) len then
        let spec := load_string spec buf len in
        let spec := LOAD_TUPLE spec 2 in
        let spec := LOAD_TUPLE spec 4 in
        upd_inet (w_caller 0);;;
        driver_send_term (op_caller op) spec
      else
        let sz := len - hsz d in
        ok ← driver_alloc_ok sz;
        if negb ok : bool then async_error ENOMEM else
        let bin := slice (Z.to_nat (hsz d)) (Z.to_nat sz) buf in
        let spec := load_binary spec buf (hsz d) bin 0 sz in
        let spec := LOAD_TUPLE spec 2 in
        let spec := LOAD_TUPLE spec 4 in
        upd_inet (w_caller 0);;;
        driver_send_term (op_caller op) spec
  end.

Definition inet_async_binary_data (phsz : Z) (bin : binary) (offs len : Z) : Loop Z :=
  d ← get_inet;
  let hsz := u32 (hsz d + phsz) in
  op ← deq_async;
  match op with
  | None => mret (-1)
  | Some op =>
      let buf := drop (Z.to_nat offs) bin in
      let spec := async_data_head (dport d) (id op) in
      let spec := if as_list d hsz len then load_string spec buf len
                  else load_binary spec buf hsz bin (offs + hsz) (len - hsz) in
      let spec := LOAD_TUPLE spec 2 in
      let spec := LOAD_TUPLE spec 4 in
      upd_inet (w_caller 0);;;
      driver_send_term (op_caller op) spec
  end.

Definition loop_message (buf : bytes) (len : Z) : Loop Z :=
  d ← get_inet;
  let spec := message_head (dport d) in
  if as_list d (hsz d) len then
    let spec := load_string spec buf len in
    driver_output_term (LOAD_TUPLE spec 3)
  else
    let sz := len - hsz d in
    ok ← driver_alloc_ok sz;
    if negb ok : bool then async_error ENOMEM else
    let bin := slice (Z.to_nat (hsz d)) (Z.to_nat sz) buf in
    let spec := load_binary spec buf (hsz d) bin 0 sz in
    driver_output_term (LOAD_TUPLE spec 3).

Definition loop_binary_message (bin : binary) (offs len : Z) : Loop Z :=
  d ← get_inet;
  let buf := drop (Z.to_nat offs) bin in
  let spec := message_head (dport d) in
  let spec := if as_list d (hsz d) len then load_string spec buf len
              else load_binary spec buf (hsz d) bin (offs + hsz d) (len - hsz d) in
  driver_output_term (LOAD_TUPLE spec 3).

Definition loop_closed_message : Loop Z :=
  d ← get_inet; driver_output_term (closed_spec (dport d)).

Definition loop_error_message (err : Z) : Loop Z :=
  d ← get_inet; driver_output_term (error_spec (dport d) (error_atom err)).
End Msg.

(** * What the data messages denote *)

(** The data of a packet: a list in list mode or when it is shorter than the header, else the
    header consed to a binary. *)
Definition data_term (d : inet_descriptor) (data : bytes) : term :=
  if (mode d =? INET_MODE_LIST) || (Z.of_nat (length data) <? hsz d) then TString data
  else string_on (take (Z.to_nat (hsz d)) data) (TBinary (drop (Z.to_nat (hsz d)) data)).
Definition tcp_term (d : inet_descriptor) (data : bytes) : term :=
  TTuple [TAtom "tcp"; TPort (dport d); data_term d data].
Definition async_term (d : inet_descriptor) (ref : Z) (data : bytes) : term :=
  TTuple [TAtom "inet_async"; TPort (dport d); TInt ref; TTuple [TAtom "ok"; data_term d data]].

(** One message is sent, with this meaning: to a process, or to the owner of the port. *)
Definition emits {Q} (to : option Z) (t : term) (w w' : world Q) : Prop :=
  exists sp, denotes sp t /\
    calls w' = calls w ++ [match to with Some p => SendTerm p sp | None => OutputTerm sp end].

Section Denote.
Context (d : inet_descriptor) (bin : bytes) (offs len : Z).
Context (Ho : 0 <= offs) (Hl : 0 <= len < 2 ^ 32) (Hsz : offs + len <= Z.of_nat (length bin)) (Hh : 0 <= hsz d).
Let data := slice (Z.to_nat offs) (Z.to_nat len) bin.

Lemma length_data : Z.of_nat (length data) = len.
Proof. unfold data. rewrite length_slice. lia. Qed.
Lemma as_list_data : as_list d (hsz d) len = (mode d =? INET_MODE_LIST) || (Z.of_nat (length data) <? hsz d).
Proof. unfold as_list. by rewrite wrap_small, Z.gtb_ltb, length_data. Qed.
Lemma read_data : read (drop (Z.to_nat offs) bin) 0 len = Some data.
Proof. rewrite read_slice by (rewrite ?length_drop; lia). done. Qed.
Lemma read_header : hsz d <= len -> read (drop (Z.to_nat offs) bin) 0 (hsz d) = Some (take (Z.to_nat (hsz d)) data).
Proof.
  intros. rewrite read_slice by (rewrite ?length_drop; lia). unfold data, slice.
  rewrite take_take, drop_0. do 2 f_equal. lia.
Qed.
(** The data in list form, copied to a binary of its own, or in the buffer's binary. *)
Lemma string_runs v st st' : as_list d (hsz d) len = true -> runs v st st' ->
  runs (load_string v (drop (Z.to_nat offs) bin) len) st (data_term d data :: st').
Proof.
  rewrite as_list_data. intros Ha Hv. unfold data_term. rewrite Ha.
  apply runs_string; [done|apply read_data].
Qed.
Lemma load_binary_runs v st st' mem o : as_list d (hsz d) len = false ->
  read mem o (len - hsz d) = Some (drop (Z.to_nat (hsz d)) data) -> runs v st st' ->
  runs (load_binary v (drop (Z.to_nat offs) bin) (hsz d) mem o (len - hsz d)) st (data_term d data :: st').
Proof.
  rewrite as_list_data. intros Ha Hr Hv. unfold data_term. rewrite Ha. unfold load_binary.
  apply orb_false_iff in Ha as [_ Ha]. apply Z.ltb_ge in Ha. rewrite length_data in Ha.
  pose proof (runs_binary _ _ _ Hv _ _ _ _ Hr) as Hb. destruct (Z.ltb_spec 0 (hsz d)).
  - apply runs_string_cons; [done|by apply read_header].
  - assert (hsz d = 0) as E0 by lia. rewrite E0 in *. exact Hb.
Qed.
Lemma read_rest : as_list d (hsz d) len = false ->
  read bin (offs + hsz d) (len - hsz d) = Some (drop (Z.to_nat (hsz d)) data).
Proof.
  rewrite as_list_data. intros Ha. apply orb_false_iff in Ha as [_ Ha]. apply Z.ltb_ge in Ha.
  rewrite length_data in Ha. rewrite read_slice by lia. unfold data, slice.
  rewrite skipn_firstn_comm, drop_drop. f_equal. f_equal; [lia|f_equal; lia].
Qed.
Lemma read_copy : as_list d (hsz d) len = false ->
  read (slice (Z.to_nat (hsz d)) (Z.to_nat (len - hsz d)) (drop (Z.to_nat offs) bin)) 0 (len - hsz d) =
  Some (drop (Z.to_nat (hsz d)) data).
Proof.
  intros Ha. pose proof (read_rest Ha) as Hr. rewrite as_list_data in Ha.
  apply orb_false_iff in Ha as [_ Ha]. apply Z.ltb_ge in Ha. rewrite length_data in Ha.
  rewrite read_slice in Hr by lia. injection Hr as <-.
  replace (slice (Z.to_nat (hsz d)) (Z.to_nat (len - hsz d)) (drop (Z.to_nat offs) bin))
    with (slice (Z.to_nat (offs + hsz d)) (Z.to_nat (len - hsz d)) bin)
    by (unfold slice; rewrite drop_drop; do 2 f_equal; lia).
  replace (len - hsz d) with (Z.of_nat (length (slice (Z.to_nat (offs + hsz d)) (Z.to_nat (len - hsz d)) bin))) at 2
    by (rewrite length_slice; lia).
  apply read_all.
Qed.
(** The choice of the functions that share the buffer. *)
Lemma data_runs v st st' : runs v st st' ->
  runs (if as_list d (hsz d) len then load_string v (drop (Z.to_nat offs) bin) len
        else load_binary v (drop (Z.to_nat offs) bin) (hsz d) bin (offs + hsz d) (len - hsz d))
    st (data_term d data :: st').
Proof.
  intros Hv. destruct (as_list d (hsz d) len) eqn:Ha; [by apply string_runs|].
  by apply load_binary_runs, Hv; [|apply read_rest].
Qed.
End Denote.

Section Emit.
Context {Q : Type} `{PQ : !PortQueue Q} `{RT : !Runtime} `{E : !LoopEnv}.
Implicit Types (w : world Q).

Lemma deq_async_eq w op q : aq_deq (Z.to_nat INET_MAX_ASYNC) (ops (inet (desc w))) = Some (op, q) ->
  deq_async w = (Some op, snd (upd_inet (w_ops q) w)).
Proof. intros Hq. unfold deq_async. rewrite (bind_eq get_inet _ _ _ _ eq_refl), Hq. done. Qed.
Lemma deq_async_none w : aq_deq (Z.to_nat INET_MAX_ASYNC) (ops (inet (desc w))) = None ->
  deq_async w = (None, w).
Proof. intros Hq. unfold deq_async. by rewrite (bind_eq get_inet _ _ _ _ eq_refl), Hq. Qed.
Lemma caller_eq w : upd_inet (w_caller 0) w = (tt, snd (upd_inet (w_caller 0) w)).
Proof. done. Qed.

(** The answer to an asynchronous operation, as the two functions end. *)
Lemma async_answer w op q (v : spec) t :
  runs v [] [t; TAtom "ok"; TInt (id op); TPort (dport (inet (desc w))); TAtom "inet_async"] ->
  let w1 := snd (upd_inet (w_ops q) w) in
  let w' := snd ((upd_inet (w_caller 0);;;
    driver_send_term (op_caller op) (LOAD_TUPLE (LOAD_TUPLE v 2) 4)) w1) in
  emits (Some (op_caller op)) (TTuple [TAtom "inet_async"; TPort (dport (inet (desc w))); TInt (id op);
    TTuple [TAtom "ok"; t]]) w w' /\
  inet (desc w') = w_caller 0 (w_ops q (inet (desc w))).
Proof.
  intros Hv w1 w'. split; [|done]. exists (LOAD_TUPLE (LOAD_TUPLE v 2) 4). split; [|done].
  apply runs_denotes, runs_tuple4, runs_tuple2, Hv.
Qed.
Lemma async_head_runs port aid :
  runs (async_data_head port aid) [] [TAtom "ok"; TInt aid; TPort port; TAtom "inet_async"].
Proof. unfold async_data_head. eauto 10 with spec. Qed.
Lemma message_head_runs port : runs (message_head port) [] [TPort port; TAtom "tcp"].
Proof. unfold message_head. eauto 10 with spec. Qed.

Context `{MEM : !Memory}.
Lemma loop_message_answer w bin offs len : 0 <= offs -> 0 <= len < 2 ^ 32 ->
  offs + len <= Z.of_nat (length bin) -> 0 <= hsz (inet (desc w)) ->
  let w' := snd (loop_message (drop (Z.to_nat offs) bin) len w) in
  emits None (tcp_term (inet (desc w)) (slice (Z.to_nat offs) (Z.to_nat len) bin)) w w' /\
  inet (desc w') = inet (desc w).
Proof.
  intros Ho Hl Hsz Hh. unfold loop_message. rewrite (bind_eq get_inet _ _ _ _ eq_refl). cbv zeta.
  destruct (as_list (inet (desc w)) (hsz (inet (desc w))) len) eqn:El.
  - split; [|done]. eexists. split; [|done]. apply runs_denotes, runs_tuple3, string_runs; try lia; try done; apply message_head_runs.
  - rewrite (bind_eq (driver_alloc_ok _) _ _ true w) by (unfold driver_alloc_ok; by rewrite memory). cbn [negb].
    split; [|done]. eexists. split; [|done].
    apply runs_denotes, runs_tuple3, load_binary_runs; try lia; try done; first [solve [apply read_copy; done || lia]|apply message_head_runs].
Qed.
Lemma loop_binary_message_answer w bin offs len : 0 <= offs -> 0 <= len < 2 ^ 32 ->
  offs + len <= Z.of_nat (length bin) -> 0 <= hsz (inet (desc w)) ->
  let w' := snd (loop_binary_message bin offs len w) in
  emits None (tcp_term (inet (desc w)) (slice (Z.to_nat offs) (Z.to_nat len) bin)) w w' /\
  inet (desc w') = inet (desc w).
Proof.
  intros Ho Hl Hsz Hh. unfold loop_binary_message. rewrite (bind_eq get_inet _ _ _ _ eq_refl). split; [|done].
  eexists. split; [|done]. apply runs_denotes, runs_tuple3, data_runs; try lia; apply message_head_runs.
Qed.
Lemma inet_async_binary_data_answer w bin offs len op q :
  aq_deq (Z.to_nat INET_MAX_ASYNC) (ops (inet (desc w))) = Some (op, q) -> 0 <= offs -> 0 <= len < 2 ^ 32 ->
  offs + len <= Z.of_nat (length bin) -> 0 <= hsz (inet (desc w)) < 2 ^ 32 ->
  let w' := snd (inet_async_binary_data 0 bin offs len w) in
  emits (Some (op_caller op)) (async_term (inet (desc w)) (id op) (slice (Z.to_nat offs) (Z.to_nat len) bin)) w w' /\
  inet (desc w') = w_caller 0 (w_ops q (inet (desc w))).
Proof.
  intros Hq Ho Hl Hsz Hh.
  unfold inet_async_binary_data. rewrite (bind_eq get_inet _ _ _ _ eq_refl), (bind_eq _ _ _ _ _ (deq_async_eq _ _ _ Hq)).
  rewrite Z.add_0_r, wrap_small by done. cbv zeta. apply async_answer.
  apply data_runs; try lia; apply async_head_runs.
Qed.
Lemma inet_async_data_answer w bin offs len op q : 
  aq_deq (Z.to_nat INET_MAX_ASYNC) (ops (inet (desc w))) = Some (op, q) -> 0 <= offs -> 0 <= len < 2 ^ 32 ->
  offs + len <= Z.of_nat (length bin) -> 0 <= hsz (inet (desc w)) ->
  let w' := snd (inet_async_data (drop (Z.to_nat offs) bin) len w) in
  emits (Some (op_caller op)) (async_term (inet (desc w)) (id op) (slice (Z.to_nat offs) (Z.to_nat len) bin)) w w' /\
  inet (desc w') = w_caller 0 (w_ops q (inet (desc w))).
Proof.
  intros Hq Ho Hl Hsz Hh. unfold inet_async_data. rewrite (bind_eq get_inet _ _ _ _ eq_refl). cbv zeta.
  rewrite (bind_eq _ _ _ _ _ (deq_async_eq _ _ _ Hq)).
  destruct (as_list (inet (desc w)) (hsz (inet (desc w))) len) eqn:El.
  - apply async_answer, string_runs; try lia; try done; apply async_head_runs.
  - rewrite (bind_eq (driver_alloc_ok _) _ _ true (snd (upd_inet (w_ops q) w))) by (unfold driver_alloc_ok; by rewrite memory).
    apply async_answer, load_binary_runs; try lia; try done; first [solve [apply read_copy; done || lia]|apply async_head_runs].
Qed.
End Emit.

(** C31: With memory, a packet in the buffer is delivered as the term the documentation gives,
    whichever way it is sent: as a list or a binary, copied or sharing the buffer, with the header in
    front; a pending asynchronous operation is answered with its reference and removed. *)
Theorem data_messages {Q} `{PQ : !PortQueue Q} `{RT : !Runtime} `{MEM : !Memory} `{E : !LoopEnv}
    (w : world Q) bin offs len :
  0 <= offs -> 0 <= len < 2 ^ 32 ->
  offs + len <= Z.of_nat (length bin) -> 0 <= hsz (inet (desc w)) < 2 ^ 32 ->
  let d := inet (desc w) in
  let data := slice (Z.to_nat offs) (Z.to_nat len) bin in
  let buf := drop (Z.to_nat offs) bin in
  Forall (fun m => emits None (tcp_term d data) w (snd (m w)) /\ inet (desc (snd (m w))) = d)
    [loop_message buf len; loop_binary_message bin offs len] /\
  forall op q, aq_deq (Z.to_nat INET_MAX_ASYNC) (ops d) = Some (op, q) ->
    Forall (fun m => emits (Some (op_caller op)) (async_term d (id op) data) w (snd (m w)) /\
                     inet (desc (snd (m w))) = w_caller 0 (w_ops q d))
      [inet_async_data buf len; inet_async_binary_data 0 bin offs len].
Proof.
  intros Ho Hl Hsz Hh d data buf. subst d data buf.
  split; [|intros op q Hq]; (apply Forall_cons; split; [|apply Forall_singleton]).
  - apply loop_message_answer; done || lia.
  - apply loop_binary_message_answer; lia.
  - apply inet_async_data_answer; done || lia.
  - apply inet_async_binary_data_answer; done || lia.
Qed.

(** When no binary can be allocated for the data of a receive, the driver takes the operation off
    its queue before it tries to report the error to it: the process that waits for the data is never
    answered, and no error is reported. *)
Theorem async_nomem_unanswered {Q} `{PQ : !PortQueue Q} `{RT : !Runtime} `{E : !LoopEnv} (w : world Q) op buf len :
  (forall l n, alloc_ok l n = false) ->
  aq_rep (Z.to_nat INET_MAX_ASYNC) (ops (inet (desc w))) [op] ->
  as_list (inet (desc w)) (hsz (inet (desc w))) len = false ->
  let '(r, w') := inet_async_data buf len w in
  r = -1 /\ calls w' = calls w /\ aq_rep (Z.to_nat INET_MAX_ASYNC) (ops (inet (desc w'))) [].
Proof.
  intros Ha Hq El. destruct (aq_deq_cons (Z.to_nat INET_MAX_ASYNC) Nat.lt_0_1 _ _ _ Hq) as (q' & Ed & Hq').
  unfold inet_async_data. rewrite (bind_eq get_inet _ _ _ _ eq_refl). cbv zeta.
  rewrite (bind_eq _ _ _ _ _ (deq_async_eq _ _ _ Ed)), El.
  set (w1 := snd (upd_inet (w_ops q') w)).
  rewrite (bind_eq (driver_alloc_ok _) _ _ false w1) by (unfold driver_alloc_ok; by rewrite Ha). cbn [negb].
  unfold async_error, async_error_am. rewrite (bind_eq deq_async _ w1 None w1).
  - done.
  - apply deq_async_none. apply aq_deq_empty, Hq'. exact Nat.lt_0_1.
Qed.

(** ** Examples *)

Definition sample_msg_world : world (list bytes) :=
  World (w_inet (w_hsz 1 (w_mode INET_MODE_BINARY
    (w_ops (AQ (Some 0%nat) (Some 0%nat) [Op 5 9 TCP_REQ_RECV]) sample_inet))) sample_desc) [] 0 [] [] [].
Lemma data_messages_witness :
  let w := sample_msg_world in
  let d := inet (desc w) in
  let data := slice (Z.to_nat 1) (Z.to_nat 3) [0; 1; 2; 3] in
  let buf := drop (Z.to_nat 1) [0; 1; 2; 3] in
  Forall (fun m => emits None (tcp_term d data) w (snd (m w)) /\ inet (desc (snd (m w))) = d)
    [loop_message (RT := rt_ok) (E := sample_env) buf 3; loop_binary_message (RT := rt_ok) [0; 1; 2; 3] 1 3] /\
  forall op q, aq_deq (Z.to_nat INET_MAX_ASYNC) (ops d) = Some (op, q) ->
    Forall (fun m => emits (Some (op_caller op)) (async_term d (id op) data) w (snd (m w)) /\
                     inet (desc (snd (m w))) = w_caller 0 (w_ops q d))
      [inet_async_data (RT := rt_ok) (E := sample_env) buf 3; inet_async_binary_data (RT := rt_ok) 0 [0; 1; 2; 3] 1 3].
Proof.
  apply (data_messages (RT := rt_ok) (E := sample_env) sample_msg_world [0; 1; 2; 3] 1 3); cbn; lia.
Defined.
Lemma async_nomem_unanswered_witness :
  let '(r, w') := inet_async_data (RT := rt_nomem) (E := sample_env) [1; 2] 2 sample_msg_world in
  r = -1 /\ calls w' = calls sample_msg_world /\
  aq_rep (Z.to_nat INET_MAX_ASYNC) (ops (inet (desc w'))) [].
Proof.
  apply (async_nomem_unanswered (RT := rt_nomem) (E := sample_env) sample_msg_world (Op 5 9 TCP_REQ_RECV) [1; 2] 2).
  - reflexivity.
  - split; [reflexivity|]. split; [vm_compute; lia|]. split; [vm_compute; lia|]. split; [reflexivity|].
    intros [|i] Hi; [reflexivity|cbn in Hi; lia].
  - reflexivity.
Defined.
