(* ===== verification/LoopHttp.v ===== *)
(** The HTTP packet types of the loop driver: tables of the known methods and
    header names, and [http_message], which turns a start line or header line into
    a message; [ssh/c_src/loop_drv.c] from [HTTP_HDR_HASH_SIZE] to [http_message].

    A pointer is the memory from there on.  Reads past the end of that memory find
    no matching character. *)
From stdpp Require Import strings.
From S2P Require Import Prelude ErlTerm Erts LoopDesc LoopMsg.
#[local] Open Scope Z_scope.

(** * Characters and strings *)

Definition CR := 13.
Definition LF := 10.
Definition SPC := 32.
Definition TAB := 9.
Definition CRNL (p : bytes) : bool := (byte_at p 0 =? CR) && (byte_at p 1 =? LF).
Definition NL (p : bytes) : bool := byte_at p 0 =? LF.
Definition SP (p : bytes) : bool := (byte_at p 0 =? SPC) || (byte_at p 0 =? TAB).

(** [ctype.h] in the C locale. *)
Definition isdigit (c : Z) : bool := (48 <=? c) && (c <=? 57).
Definition islower (c : Z) : bool := (97 <=? c) && (c <=? 122).
Definition isupper (c : Z) : bool := (65 <=? c) && (c <=? 90).
Definition toupper (c : Z) : Z := if islower c then c - 32 else c.
Definition tolower_c (c : Z) : Z := if isupper c then c + 32 else c.

(** [strncmp(a, b, n) == 0]. *)
Fixpoint strncmp_eq (a b : bytes) (n : nat) : bool :=
  match n with
  | O => true
  | S n => (byte_at a 0 =? byte_at b 0) &&
           ((byte_at a 0 =? 0) || strncmp_eq (tail a) (tail b) n)
  end.
(** [memchr] as an index. *)
Fixpoint memchr (p : bytes) (c : Z) (n : nat) : option nat :=
  match n, p with
  | S n, x :: p => if x =? c then Some 0%nat else S <$> memchr p c n
  | _, _ => None
  end.

Fixpoint my_strncasecmp_loop (s1 s2 : bytes) (n : nat) : Z :=
  match n with
  | S n =>
      if negb (byte_at s1 0 =? 0) && negb (byte_at s2 0 =? 0) &&
         (toupper (byte_at s1 0) =? toupper (byte_at s2 0))
      then my_strncasecmp_loop (tail s1) (tail s2) n
      else toupper (byte_at s1 0) - toupper (byte_at s2 0)
  | O => toupper (byte_at s1 0) - toupper (byte_at s2 0)
  end.
(** [n] is not 0. *)
Definition my_strncasecmp (s1 s2 : bytes) (n : nat) : Z := my_strncasecmp_loop s1 s2 (n - 1).

(** * Tables *)

Definition HTTP_HDR_HASH_SIZE := 53.
Definition HTTP_METH_HASH_SIZE := 13.

Definition http_hdr_strings : list string := [
  "Cache-Control"; "Connection"; "Date"; "Pragma"; "Transfer-Encoding"; "Upgrade"; "Via";
  "Accept"; "Accept-Charset"; "Accept-Encoding"; "Accept-Language"; "Authorization"; "From";
  "Host"; "If-Modified-Since"; "If-Match"; "If-None-Match"; "If-Range"; "If-Unmodified-Since";
  "Max-Forwards"; "Proxy-Authorization"; "Range"; "Referer"; "User-Agent"; "Age"; "Location";
  "Proxy-Authenticate"; "Public"; "Retry-After"; "Server"; "Vary"; "Warning";
  "Www-Authenticate"; "Allow"; "Content-Base"; "Content-Encoding"; "Content-Language";
  "Content-Length"; "Content-Location"; "Content-Md5"; "Content-Range"; "Content-Type"; "Etag";
  "Expires"; "Last-Modified"; "Accept-Ranges"; "Set-Cookie"; "Set-Cookie2"; "X-Forwarded-For";
  "Cookie"; "Keep-Alive"; "Proxy-Connection"]%string.
Definition http_meth_strings : list string :=
  ["OPTIONS"; "GET"; "HEAD"; "POST"; "PUT"; "DELETE"; "TRACE"]%string.

(** An entry; [atom] is the atom of [name]. *)
Record http_atom := HttpAtom { h : Z; name : string; len : Z; index : Z }.
Definition atom (a : http_atom) : string := name a.

(** Entries of the same hash value modulo the table size, the last added first. *)
Abbreviation http_table := (list (list http_atom)).

(** [tspecial] after [http_init]: 127 keeps the 0 of a static array. *)
Definition tspecial : list Z :=
  let t := replicate 128 0 in
  let t := fold_left (fun t i => <[i := 1]> t) (seq 0 33) t in
  let t := fold_left (fun t i => <[i := 0]> t) (seq 33 94) t in
  fold_left (fun t c => <[Z.to_nat c := 1]> t) (lit "()<>@,;:\/[]?={} " ++ [34; TAB]) t.
Definition is_tspecial (x : Z) : bool :=
  if (32 <? x) && (x <? 128) then c_true (nth (Z.to_nat x) tspecial 0) else true.

(** [unsigned long] has [ulong] bits. *)
Section Hash.
Context (ulong : Z).
Definition hash_update (h c : Z) : Z :=
  let h := wrap ulong ((h << 4)%C + c) in
  let g := (h & 0xf0000000)%C in
  if c_true g then (h ^. g >> 24 ^. g)%C else h.
Definition hash_name (name : bytes) : Z := fold_left hash_update name 0.

Definition http_hash (nm : string) (ix : Z) (hash : http_table) (hsize : Z) : http_table :=
  let hv := hash_name (lit nm) in
  let entry := HttpAtom hv nm (Z.of_nat (length (lit nm))) ix in
  let i := Z.to_nat (hv `mod` hsize) in
  <[i := entry :: nth i hash []]> hash.

Definition http_hash_lookup (nm : bytes) (nlen : Z) (hv : Z) (hash : http_table) (hsize : Z) :
    option http_atom :=
  List.find (fun ap => (h ap =? hv) && (len ap =? nlen) &&
                  strncmp_eq (lit (name ap)) nm (Z.to_nat nlen))
    (nth (Z.to_nat (hv `mod` hsize)) hash []).

Fixpoint http_hash_all (names : list string) (i : Z) (hash : http_table) (hsize : Z) : http_table :=
  match names with
  | [] => hash
  | nm :: names => http_hash_all names (i + 1) (http_hash nm i hash hsize) hsize
  end.
Definition http_hdr_hash : http_table :=
  http_hash_all http_hdr_strings 0 (replicate (Z.to_nat HTTP_HDR_HASH_SIZE) []) HTTP_HDR_HASH_SIZE.
Definition http_meth_hash : http_table :=
  http_hash_all http_meth_strings 0 (replicate (Z.to_nat HTTP_METH_HASH_SIZE) []) HTTP_METH_HASH_SIZE.
End Hash.

(** * Scanning *)

(** [while (n && isdigit( *p)) { v = 10*v + ( *p - '0'); p++; n--; }] *)
Fixpoint digits (v : Z) (p : bytes) (n : Z) : Z * bytes * Z :=
  match p with
  | c :: p' => if negb (n =? 0) && isdigit c
               then digits (int32 (10 * v + (c - 48))) p' (n - 1) else (v, p, n)
  | [] => (v, p, n)
  end.
(** [while (n && SP(p)) { p++; n--; }] *)
Fixpoint skip_sp (p : bytes) (n : Z) : bytes * Z :=
  match p with
  | c :: p' => if negb (n =? 0) && SP p then skip_sp p' (n - 1) else (p, n)
  | [] => (p, n)
  end.
Fixpoint skip_to_sp (p : bytes) (n : Z) : bytes * Z :=
  match p with
  | c :: p' => if negb (n =? 0) && negb (SP p) then skip_to_sp p' (n - 1) else (p, n)
  | [] => (p, n)
  end.
(** The scan of the method: the hash value, and the rest. *)
Fixpoint scan_method (ulong hv : Z) (p : bytes) (n : Z) : Z * bytes * Z :=
  match p with
  | c :: p' => if negb (n =? 0) && negb (is_tspecial c)
               then scan_method ulong (hash_update ulong hv c) p' (n - 1) else (hv, p, n)
  | [] => (hv, p, n)
  end.
(** The scan of a header name writes it back with each word capitalised: the
    hash value, the bytes written, and the rest. *)
Definition recase (up : bool) (c : Z) : Z * bool :=
  if up then (if islower c then toupper c else c, false)
  else if isupper c then (tolower_c c, false)
  else (c, c =? 45).
Fixpoint scan_name (ulong : Z) (up : bool) (hv : Z) (p : bytes) (n : Z) : Z * bytes * bytes * Z :=
  match p with
  | c :: p' =>
      if negb (n =? 0) && negb (is_tspecial c) then
        let '(c, up) := recase up c in
        let '(hv, nm, p'', n') := scan_name ulong up (hash_update ulong hv c) p' (n - 1) in
        (hv, c :: nm, p'', n')
      else (hv, [], p, n)
  | [] => (hv, [], p, n)
  end.

(** * URIs *)

Definition http_load_absoluteURI (v : spec) (scheme : string) (uri_ptr : bytes) (uri_len : Z) : spec :=
  let '(abs_path_ptr, abs_path_len, uri_len) :=
    match memchr uri_ptr 47 (Z.to_nat uri_len) with
    | None => ([47], 1, uri_len)
    | Some n => (drop n uri_ptr, uri_len - Z.of_nat n, Z.of_nat n)
    end in
  let v := LOAD_ATOM v "absoluteURI" in
  let v := LOAD_ATOM v scheme in
  let v :=
    match memchr uri_ptr 58 (Z.to_nat uri_len) with
    | None => LOAD_ATOM (LOAD_STRING v uri_ptr uri_len) "undefined"
    | Some n =>
        let v := LOAD_STRING v uri_ptr (Z.of_nat n) in
        let '(port, _, n) := digits 0 (drop (S n) uri_ptr) (uri_len - (Z.of_nat n + 1)) in
        if negb (n =? 0) || (port =? 0) then LOAD_ATOM v "undefined" else LOAD_INT v port
    end in
  let v := LOAD_STRING v abs_path_ptr abs_path_len in
  LOAD_TUPLE v 5.

Definition http_load_uri (v : spec) (uri_ptr : bytes) (uri_len : Z) : spec :=
  if (uri_len =? 1) && (byte_at uri_ptr 0 =? 42) then LOAD_ATOM v "*"
  else if (uri_len <=? 1) || (byte_at uri_ptr 0 =? 47) then
    let v := LOAD_ATOM v "abs_path" in
    let v := LOAD_STRING v uri_ptr uri_len in
    LOAD_TUPLE v 2
  else if (7 <=? uri_len) && (my_strncasecmp uri_ptr (lit "http://") 7 =? 0) then
    http_load_absoluteURI v "http" (drop 7 uri_ptr) (uri_len - 7)
  else if (8 <=? uri_len) && (my_strncasecmp uri_ptr (lit "https://") 8 =? 0) then
    http_load_absoluteURI v "https" (drop 8 uri_ptr) (uri_len - 8)
  else
    match memchr uri_ptr 58 (Z.to_nat uri_len) with
    | None => LOAD_STRING v uri_ptr uri_len
    | Some slen =>
        let v := LOAD_ATOM v "scheme" in
        let v := LOAD_STRING v uri_ptr (Z.of_nat slen) in
        let v := LOAD_STRING v (drop (S slen) uri_ptr) (uri_len - (Z.of_nat slen + 1)) in
        LOAD_TUPLE v 3
    end.

(** * Term arrays *)

(** [{inet_async,S,Ref,{ok,...}}] around the items of [body]. *)
Definition async_head (dport aid : Z) (am : string) : spec :=
  let v := LOAD_ATOM [] "inet_async" in
  let v := LOAD_PORT v dport in
  let v := LOAD_INT v aid in
  LOAD_ATOM v am.

Definition load_version (v : spec) (major minor : Z) : spec :=
  let v := LOAD_INT v major in
  let v := LOAD_INT v minor in
  LOAD_TUPLE v 2.

Definition response_async_spec (dport aid major minor status : Z) (phrase : bytes) (phrase_len : Z) : spec :=
  let v := async_head dport aid "ok" in
  let v := LOAD_ATOM v "http_response" in
  let v := load_version v major minor in
  let v := LOAD_INT v status in
  let v := LOAD_STRING v phrase phrase_len in
  let v := LOAD_TUPLE v 4 in
  let v := LOAD_TUPLE v 2 in
  LOAD_TUPLE v 4.
Definition response_spec (dport major minor status : Z) (phrase : bytes) (phrase_len : Z) : spec :=
  let v := LOAD_ATOM [] "http_response" in
  let v := LOAD_PORT v dport in
  let v := load_version v major minor in
  let v := LOAD_INT v status in
  let v := LOAD_STRING v phrase phrase_len in
  LOAD_TUPLE v 5.

Definition load_meth (v : spec) (meth : option http_atom) (meth_ptr : bytes) (meth_len : Z) : spec :=
  match meth with Some m => LOAD_ATOM v (atom m) | None => LOAD_STRING v meth_ptr meth_len end.
Definition request_async_spec (dport aid : Z) (meth : option http_atom) (meth_ptr : bytes)
    (meth_len : Z) (uri_ptr : bytes) (uri_len major minor : Z) : spec :=
  let v := async_head dport aid "ok" in
  let v := LOAD_ATOM v "http_request" in
  let v := load_meth v meth meth_ptr meth_len in
  let v := http_load_uri v uri_ptr uri_len in
  let v := load_version v major minor in
  let v := LOAD_TUPLE v 4 in
  let v := LOAD_TUPLE v 2 in
  LOAD_TUPLE v 4.
Definition request_spec (dport : Z) (meth : option http_atom) (meth_ptr : bytes)
    (meth_len : Z) (uri_ptr : bytes) (uri_len major minor : Z) : spec :=
  let v := LOAD_ATOM [] "http_request" in
  let v := LOAD_PORT v dport in
  let v := load_meth v meth meth_ptr meth_len in
  let v := http_load_uri v uri_ptr uri_len in
  let v := load_version v major minor in
  LOAD_TUPLE v 5.

Definition load_name (v : spec) (nm : option http_atom) (name_ptr : bytes) (name_len : Z) : spec :=
  match nm with
  | Some a => LOAD_ATOM (LOAD_INT v (index a + 1)) (atom a)
  | None => LOAD_STRING (LOAD_INT v 0) name_ptr name_len
  end.
Definition header_async_spec (dport aid : Z) (nm : option http_atom) (name_ptr : bytes)
    (name_len : Z) (value_ptr : bytes) (value_len : Z) : spec :=
  let v := async_head dport aid "ok" in
  let v := LOAD_ATOM v "http_header" in
  let v := load_name v nm name_ptr name_len in
  let v := LOAD_ATOM v "undefined" in
  let v := LOAD_STRING v value_ptr value_len in
  let v := LOAD_TUPLE v 5 in
  let v := LOAD_TUPLE v 2 in
  LOAD_TUPLE v 4.
Definition header_spec (dport : Z) (nm : option http_atom) (name_ptr : bytes)
    (name_len : Z) (value_ptr : bytes) (value_len : Z) : spec :=
  let v := LOAD_ATOM [] "http_header" in
  let v := LOAD_PORT v dport in
  let v := load_name v nm name_ptr name_len in
  let v := LOAD_ATOM v "undefined" in
  let v := LOAD_STRING v value_ptr value_len in
  LOAD_TUPLE v 6.

Definition eoh_async_spec (dport aid : Z) : spec :=
  let v := async_head dport aid "ok" in
  let v := LOAD_ATOM v "http_eoh" in
  let v := LOAD_TUPLE v 2 in
  LOAD_TUPLE v 4.
Definition eoh_spec (dport : Z) : spec :=
  let v := LOAD_ATOM [] "http_eoh" in
  let v := LOAD_PORT v dport in
  LOAD_TUPLE v 2.

Definition http_error_async_spec (dport aid : Z) (buf : bytes) (len : Z) : spec :=
  let v := async_head dport aid "error" in
  let v := LOAD_ATOM v "http_error" in
  let v := LOAD_STRING v buf len in
  let v := LOAD_TUPLE v 2 in
  let v := LOAD_TUPLE v 2 in
  LOAD_TUPLE v 4.
Definition http_error_spec (dport : Z) (buf : bytes) (len : Z) : spec :=
  let v := LOAD_ATOM [] "http_error" in
  let v := LOAD_PORT v dport in
  let v := LOAD_STRING v buf len in
  LOAD_TUPLE v 3.

(** * Messages *)

Section Http.
Context {Q : Type} `{PQ : !PortQueue Q} `{RT : !Runtime} `{E : !LoopEnv} (ulong : Z).
Abbreviation Loop := (M (world Q)).

(** In passive mode the reply of the oldest operation, else a message to the owner. *)
Definition http_send (async : Z -> Z -> spec) (sync : Z -> spec) : Loop Z :=
  d ← get_inet;
  if active d =? INET_PASSIVE then
    op ← deq_async;
    match op with
    | None => mret (-1)
    | Some op => driver_send_term (op_caller op) (async (dport d) (id op))
    end
  else driver_output_term (sync (dport d)).

Definition http_response_message (major minor status : Z) (phrase : bytes) (phrase_len : Z) : Loop Z :=
  http_send (fun p a => response_async_spec p a major minor status phrase phrase_len)
            (fun p => response_spec p major minor status phrase phrase_len).
Definition http_request_message (meth : option http_atom) (meth_ptr : bytes) (meth_len : Z)
    (uri_ptr : bytes) (uri_len major minor : Z) : Loop Z :=
  http_send (fun p a => request_async_spec p a meth meth_ptr meth_len uri_ptr uri_len major minor)
            (fun p => request_spec p meth meth_ptr meth_len uri_ptr uri_len major minor).
Definition http_header_message (nm : option http_atom) (name_ptr : bytes) (name_len : Z)
    (value_ptr : bytes) (value_len : Z) : Loop Z :=
  http_send (fun p a => header_async_spec p a nm name_ptr name_len value_ptr value_len)
            (fun p => header_spec p nm name_ptr name_len value_ptr value_len).
Definition http_eoh_message : Loop Z := http_send eoh_async_spec eoh_spec.
Definition http_error_message (buf : bytes) (len : Z) : Loop Z :=
  http_send (fun p a => http_error_async_spec p a buf len) (fun p => http_error_spec p buf len).

Definition incr_http_state : Loop unit := upd (fun d => w_http_state (http_state d + 1) d).

(** [HTTP/1*DIGIT.1*DIGIT] from the first digit on. *)
Definition scan_version (p : bytes) (n : Z) : option (Z * Z * bytes * Z) :=
  if (n =? 0) || negb (isdigit (byte_at p 0)) then None else
  let '(major, p, n) := digits 0 p n in
  if (n =? 0) || negb (byte_at p 0 =? 46) then None else
  let p := tail p in
  let n := n - 1 in
  if (n =? 0) || negb (isdigit (byte_at p 0)) then None else
  let '(minor, p, n) := digits 0 p n in
  Some (major, minor, p, n).

(** Status-Line, [p] at the character after [/]. *)
Definition http_status_line (p : bytes) (n : Z) : Loop Z :=
  match scan_version p n with
  | None => mret (-1)
  | Some (major, minor, p, n) =>
      if (n =? 0) || negb (SP p) then mret (-1) else
      let '(p, n) := skip_sp p n in
      let '(status, p, n) := digits 0 p n in
      if (n =? 0) || negb (SP p) then mret (-1) else
      let '(p, n) := skip_sp p n in
      incr_http_state;;;
      http_response_message major minor status p n
  end.

(** Request-Line, [p] at the space after the method. *)
Definition http_request_line (meth : option http_atom) (meth_ptr : bytes) (meth_len : Z)
    (p : bytes) (n : Z) : Loop Z :=
  let '(p, n) := skip_sp p n in
  let uri_ptr := p in
  let '(p, n') := skip_to_sp p n in
  let uri_len := n - n' in
  if uri_len =? 0 then mret (-1) else
  let '(p, n) := skip_sp p n' in
  if n =? 0 then
    incr_http_state;;;
    http_request_message meth meth_ptr meth_len uri_ptr uri_len 0 9
  else if n <? 8 then mret (-1)
  else if negb (strncmp_eq p (lit "HTTP/") 5) then mret (-1)
  else
    match scan_version (drop 5 p) (n - 5) with
    | None => mret (-1)
    | Some (major, minor, _, _) =>
        incr_http_state;;;
        http_request_message meth meth_ptr meth_len uri_ptr uri_len major minor
    end.

Definition http_start_line (buf : bytes) (n : Z) : Loop Z :=
  if n =? 0 then mret 0 else
  let '(hv, p, n') := scan_method ulong 0 buf n in
  let meth_len := n - n' in
  if meth_len =? 0 then mret (-1) else
  let meth := http_hash_lookup buf meth_len hv (http_meth_hash ulong) HTTP_METH_HASH_SIZE in
  if n' =? 0 then mret (-1)
  else if (byte_at p 0 =? 47) && strncmp_eq buf (lit "HTTP") 4 then
    http_status_line (tail p) (n' - 1)
  else if SP p then http_request_line meth buf meth_len p n'
  else mret (-1).

(** The header name in the buffer is overwritten with [nm]: the second result is
    the buffer afterwards. *)
Definition http_header_line (buf : bytes) (n : Z) : Loop (Z * bytes) :=
  if n =? 0 then
    upd (w_http_state 0);;;
    r ← http_eoh_message;
    mret (r, buf)
  else
    let '(hv, nm, p, n') := scan_name ulong true 0 buf n in
    let buf := nm ++ p in
    if negb (byte_at p 0 =? 58) then mret (-1, buf) else
    let name_len := Z.of_nat (length nm) in
    let a := http_hash_lookup buf name_len hv (http_hdr_hash ulong) HTTP_HDR_HASH_SIZE in
    let '(p, n') := skip_sp (tail p) (n' - 1) in
    r ← http_header_message a buf name_len p n';
    mret (r, buf).

Definition http_trim (buf : bytes) (len : Z) : Z :=
  if (2 <=? len) && (byte_at buf (Z.to_nat (len - 2)) =? CR) then len - 2
  else if (1 <=? len) && (byte_at buf (Z.to_nat (len - 1)) =? LF) then len - 1
  else len.

Definition http_message (buf : bytes) (len : Z) : Loop (Z * bytes) :=
  let n := http_trim buf len in
  d ← get_desc;
  if http_state d =? 0 then
    r ← http_start_line buf n;
    mret (r, buf)
  else http_header_line buf n.
End Http.

(** * The tables are searched completely *)

Section Tables.
Context (ulong : Z).

Definition entry_of (nm : string) (ix : Z) : http_atom :=
  HttpAtom (hash_name ulong (lit nm)) nm (Z.of_nat (length (lit nm))) ix.
(** The entries of a list of names, indexed from [i]. *)
Fixpoint entries (names : list string) (i : Z) : list http_atom :=
  match names with [] => [] | nm :: names => entry_of nm i :: entries names (i + 1) end.

Definition bucket (hash : http_table) (hv hsize : Z) : list http_atom :=
  nth (Z.to_nat (hv `mod` hsize)) hash [].

Lemma http_hash_bucket nm ix hash hsize hv a : 0 < hsize -> length hash = Z.to_nat hsize ->
  a ∈ bucket (http_hash ulong nm ix hash hsize) hv hsize <->
  (a = entry_of nm ix /\ h a `mod` hsize = hv `mod` hsize) \/ a ∈ bucket hash hv hsize.
Proof.
  intros Hs Hl. unfold http_hash, bucket. fold (entry_of nm ix).
  set (k := hash_name ulong (lit nm) `mod` hsize).
  assert (0 <= k < hsize) by (apply Z.mod_pos_bound; lia).
  assert (0 <= hv `mod` hsize < hsize) by (apply Z.mod_pos_bound; lia).
  rewrite !nth_lookup. destruct (Z.eq_dec k (hv `mod` hsize)) as [E|E].
  - rewrite <-E, list_lookup_insert_eq by lia. cbn [from_option]. unfold Datatypes.id at 1. rewrite elem_of_cons. split.
    + intros [->|Ha]; [by left|by right].
    + intros [[-> _]|Ha]; [by left|by right].
  - rewrite list_lookup_insert_ne by (intros ?; apply E; lia). split; [by right|].
    intros [[-> Ea]|]; [|done]. by destruct E.
Qed.
Lemma http_hash_length nm ix hash hsize : length (http_hash ulong nm ix hash hsize) = length hash.
Proof. apply length_insert. Qed.
Lemma http_hash_all_bucket names i hash hsize hv a : 0 < hsize -> length hash = Z.to_nat hsize ->
  a ∈ bucket (http_hash_all ulong names i hash hsize) hv hsize <->
  (a ∈ entries names i /\ h a `mod` hsize = hv `mod` hsize) \/ a ∈ bucket hash hv hsize.
Proof.
  intros Hs. revert i hash. induction names as [|nm names IH]; intros i hash Hl; cbn [http_hash_all entries].
  - rewrite elem_of_nil. tauto.
  - rewrite IH, http_hash_bucket by (rewrite ?http_hash_length; done). rewrite elem_of_cons. tauto.
Qed.
Lemma empty_bucket hsize hv a : a ∈ bucket (replicate (Z.to_nat hsize) []) hv hsize <-> False.
Proof.
  unfold bucket. rewrite nth_lookup. split; [|done].
  destruct (replicate _ _ !! _) as [l|] eqn:El; [|by rewrite elem_of_nil].
  apply lookup_replicate in El as [-> _]. by rewrite elem_of_nil.
Qed.

Lemma strncmp_eq_spec a b : Forall (fun c => c <> 0) a ->
  strncmp_eq a b (length a) = true <-> take (length a) b = a.
Proof.
  intros Ha. revert b. induction Ha as [|c a Hc Ha IH]; intros b; [done|].
  cbn [length strncmp_eq tail]. change (byte_at (c :: a) 0) with c.
  rewrite (proj2 (Z.eqb_neq c 0) Hc). cbn [orb]. destruct b as [|c' b].
  - change (byte_at [] 0) with 0. rewrite (proj2 (Z.eqb_neq c 0) Hc). done.
  - change (byte_at (c' :: b) 0) with c'. cbn [take tail]. rewrite andb_true_iff, Z.eqb_eq, IH.
    split; [intros [-> ->]; done|]. intros [= -> E]. done.
Qed.

Lemma lookup_entries names i a : a ∈ entries names i ->
  exists k, names !! k = Some (name a) /\ a = entry_of (name a) (i + Z.of_nat k).
Proof.
  revert i. induction names as [|nm names IH]; intros i; cbn [entries]; [by rewrite elem_of_nil|].
  rewrite elem_of_cons. intros [->|Ha].
  - exists 0%nat. split; [done|]. cbn. by rewrite Z.add_0_r.
  - destruct (IH _ Ha) as (k & Hk & E). exists (S k). split; [done|]. rewrite E at 1. f_equal. lia.
Qed.
Lemma entries_lookup names i k nm : names !! k = Some nm -> entry_of nm (i + Z.of_nat k) ∈ entries names i.
Proof.
  revert i k. induction names as [|nm' names IH]; intros i k; [done|]. destruct k as [|k]; cbn [entries lookup list_lookup].
  - intros [= ->]. rewrite Z.add_0_r. apply elem_of_cons. by left.
  - intros Hk. apply elem_of_cons. right. specialize (IH (i + 1) k Hk).
    by replace (i + Z.of_nat (S k)) with (i + 1 + Z.of_nat k) by lia.
Qed.

(** The position of a name in a list, as written. *)
Fixpoint find_name (names : list string) (nm : bytes) (i : Z) : option (string * Z) :=
  match names with
  | [] => None
  | s :: names => if bool_decide (lit s = nm) then Some (s, i) else find_name names nm (i + 1)
  end.
Lemma find_name_some names nm i s ix : find_name names nm i = Some (s, ix) ->
  exists k, names !! k = Some s /\ lit s = nm /\ ix = i + Z.of_nat k.
Proof.
  revert i. induction names as [|s' names IH]; intros i; cbn [find_name]; [done|].
  case_bool_decide as E.
  - intros [= <- <-]. exists 0%nat. rewrite Z.add_0_r. done.
  - intros Hf. destruct (IH _ Hf) as (k & Hk & ? & ->). exists (S k). split_and!; [done|done|lia].
Qed.
Lemma find_name_none names nm i k s : find_name names nm i = None -> names !! k = Some s -> lit s <> nm.
Proof.
  revert i k. induction names as [|s' names IH]; intros i k; [done|]. cbn [find_name].
  case_bool_decide as E; [done|]. intros Hf. destruct k; cbn; [intros [= ->]; done|]. by apply (IH (i + 1)).
Qed.

Lemma hash_lookup_spec names hsize nm rest : 0 < hsize ->
  NoDup (lit <$> names) -> Forall (fun s => Forall (fun c => c <> 0) (lit s)) names ->
  http_hash_lookup (nm ++ rest) (Z.of_nat (length nm)) (hash_name ulong nm)
    (http_hash_all ulong names 0 (replicate (Z.to_nat hsize) []) hsize) hsize =
  (fun p => entry_of p.1 p.2) <$> find_name names nm 0.
Proof.
  intros Hs Hnd Hnz. unfold http_hash_lookup. fold (bucket (http_hash_all ulong names 0 (replicate (Z.to_nat hsize) []) hsize) (hash_name ulong nm) hsize).
  set (ok := fun ap : http_atom => _).
  assert (forall a, a ∈ entries names 0 -> ok a = true <-> lit (name a) = nm) as Hok.
  { intros a Ha. destruct (lookup_entries _ _ _ Ha) as (k & Hk & Ea).
    assert (Forall (fun c => c <> 0) (lit (name a))) as Hz.
    { rewrite Forall_lookup in Hnz. by apply (Hnz k). }
    unfold ok. rewrite !andb_true_iff, !Z.eqb_eq, Nat2Z.id.
    assert (h a = hash_name ulong (lit (name a)) /\ len a = Z.of_nat (length (lit (name a)))) as [-> ->]
      by (rewrite Ea; done).
    split.
    - intros [[_ El] Hc]. apply Nat2Z.inj in El. rewrite <-El in Hc. apply strncmp_eq_spec in Hc; [|done].
      rewrite El, take_app_length in Hc. done.
    - intros <-. split; [done|]. apply strncmp_eq_spec; [done|]. apply take_app_length. }
  assert (forall a, a ∈ bucket (http_hash_all ulong names 0 (replicate (Z.to_nat hsize) []) hsize)
      (hash_name ulong nm) hsize <-> a ∈ entries names 0 /\ h a `mod` hsize = hash_name ulong nm `mod` hsize) as Hb.
  { intros a. rewrite http_hash_all_bucket, empty_bucket by (rewrite ?length_replicate; done). tauto. }
  destruct (List.find ok _) as [a|] eqn:Ef.
  - apply find_some in Ef as [Hin Hoka]. apply list_elem_of_In in Hin. apply Hb in Hin as [Hin _].
    apply (Hok a Hin) in Hoka. destruct (lookup_entries _ _ _ Hin) as (k & Hk & Ea).
    destruct (find_name names nm 0) as [[s ix]|] eqn:En; cbn.
    + destruct (find_name_some _ _ _ _ _ En) as (k' & Hk' & Es & ->).
      assert (k = k') as <-.
      { apply (NoDup_lookup (lit <$> names) k k' nm Hnd); rewrite list_lookup_fmap; [rewrite Hk|rewrite Hk'];
          cbn; by f_equal. }
      rewrite Hk in Hk'. injection Hk' as Hk'. rewrite Ea, Hk'. done.
    + by destruct (find_name_none _ _ _ _ _ En Hk).
  - destruct (find_name names nm 0) as [[s ix]|] eqn:En; cbn; [|done].
    destruct (find_name_some _ _ _ _ _ En) as (k & Hk & Es & ->).
    pose proof (entries_lookup names 0 k s Hk) as Hin.
    assert (ok (entry_of s (0 + Z.of_nat k)) = true) as Ho by (by apply Hok).
    rewrite (find_none _ _ Ef) in Ho; [done|]. apply list_elem_of_In, Hb. split; [done|]. cbn. by rewrite Es.
Qed.
End Tables.

(** * Scanning, on lists *)

Lemma byte_at_hd c p : byte_at (c :: p) 0 = c.
Proof. done. Qed.
Lemma byte_at_app_hd a c p : byte_at (a ++ c :: p) (length a) = c.
Proof. unfold byte_at. by rewrite nth_lookup, list_lookup_middle. Qed.

Definition token (c : Z) : Prop := is_tspecial c = false.

Section Scan.
Context (ulong : Z).
Fixpoint canon (up : bool) (p : bytes) : bytes :=
  match p with
  | [] => []
  | c :: p => let '(c, up) := recase up c in c :: canon up p
  end.
Lemma length_canon up p : length (canon up p) = length p.
Proof. revert up. induction p as [|c p IH]; intros up; [done|]. cbn. destruct (recase up c). cbn. by rewrite IH. Qed.

Lemma scan_name_spec nm c rest n up hv : Forall token nm -> is_tspecial c = true ->
  Z.of_nat (length nm) <= n ->
  scan_name ulong up hv (nm ++ c :: rest) n =
  (fold_left (hash_update ulong) (canon up nm) hv, canon up nm, c :: rest, n - Z.of_nat (length nm)).
Proof.
  intros Hnm Hc. revert n up hv. induction Hnm as [|x nm Hx Hnm IH]; intros n up hv Hn.
  - cbn [app scan_name canon fold_left length]. rewrite Hc, andb_false_r. cbn. by rewrite Z.sub_0_r.
  - cbn [app scan_name canon]. cbn [length] in Hn. rewrite Hx, (proj2 (Z.eqb_neq _ _)) by lia.
    cbn [negb andb]. destruct (recase up x) as [x' up']. rewrite IH by lia.
    cbn [fold_left length]. f_equal. lia.
Qed.
Lemma scan_method_spec m c rest n hv : Forall token m -> is_tspecial c = true ->
  Z.of_nat (length m) <= n ->
  scan_method ulong hv (m ++ c :: rest) n =
  (fold_left (hash_update ulong) m hv, c :: rest, n - Z.of_nat (length m)).
Proof.
  intros Hm Hc. revert n hv. induction Hm as [|x m Hx Hm IH]; intros n hv Hn.
  - cbn [app scan_method fold_left length]. rewrite Hc, andb_false_r. by rewrite Z.sub_0_r.
  - cbn [app scan_method]. cbn [length] in Hn. rewrite Hx, (proj2 (Z.eqb_neq _ _)) by lia.
    cbn [negb andb fold_left]. rewrite IH by lia. f_equal. cbn [length]. lia.
Qed.
End Scan.

Definition blank (c : Z) : bool := (c =? SPC) || (c =? TAB).
Lemma skip_sp_spec ws rest n : Forall (fun c => blank c = true) ws ->
  Z.of_nat (length ws) <= n -> n = Z.of_nat (length ws) \/ blank (byte_at rest 0) = false ->
  skip_sp (ws ++ rest) n = (rest, n - Z.of_nat (length ws)).
Proof.
  intros Hws. revert n. induction Hws as [|c ws Hc Hws IH]; intros n Hn Hr.
  - cbn [app length]. rewrite Z.sub_0_r. destruct rest as [|c rest]; [done|]. cbn [skip_sp].
    destruct Hr as [->|Hr]; [done|]. change (SP (c :: rest)) with (blank c). rewrite byte_at_hd in Hr. rewrite Hr.
    by rewrite andb_false_r.
  - cbn [length] in *. cbn [app skip_sp]. change (SP (c :: ws ++ rest)) with (blank c).
    rewrite Hc, (proj2 (Z.eqb_neq _ _)) by lia. cbn [negb andb]. rewrite IH; [f_equal; lia|lia|].
    destruct Hr; [left; lia|by right].
Qed.
Lemma skip_to_sp_spec u rest n : Forall (fun c => blank c = false) u ->
  Z.of_nat (length u) <= n -> n = Z.of_nat (length u) \/ blank (byte_at rest 0) = true ->
  skip_to_sp (u ++ rest) n = (rest, n - Z.of_nat (length u)).
Proof.
  intros Hu. revert n. induction Hu as [|c u Hc Hu IH]; intros n Hn Hr.
  - cbn [app length]. rewrite Z.sub_0_r. destruct rest as [|c rest]; [done|]. cbn [skip_to_sp].
    destruct Hr as [->|Hr]; [done|]. change (SP (c :: rest)) with (blank c). rewrite byte_at_hd in Hr. rewrite Hr.
    by rewrite andb_false_r.
  - cbn [length] in *. cbn [app skip_to_sp]. change (SP (c :: u ++ rest)) with (blank c).
    rewrite Hc, (proj2 (Z.eqb_neq _ _)) by lia. cbn [negb andb]. rewrite IH; [f_equal; lia|lia|].
    destruct Hr; [left; lia|by right].
Qed.

(** The number a string of digits stands for, in an [int]. *)
Definition digits_value (ds : bytes) : Z := fold_left (fun v c => int32 (10 * v + (c - 48))) ds 0.
Lemma digits_spec ds rest n v : Forall (fun c => isdigit c = true) ds ->
  Z.of_nat (length ds) <= n -> n = Z.of_nat (length ds) \/ isdigit (byte_at rest 0) = false ->
  digits v (ds ++ rest) n =
  (fold_left (fun v c => int32 (10 * v + (c - 48))) ds v, rest, n - Z.of_nat (length ds)).
Proof.
  intros Hds. revert n v. induction Hds as [|c ds Hc Hds IH]; intros n v Hn Hr.
  - cbn [app length]. rewrite Z.sub_0_r. destruct rest as [|c rest]; [done|]. cbn [digits fold_left].
    destruct Hr as [->|Hr]; [done|]. rewrite byte_at_hd in Hr. by rewrite Hr, andb_false_r.
  - cbn [length] in *. cbn [app digits fold_left].
    rewrite Hc, (proj2 (Z.eqb_neq _ _)) by lia. cbn [negb andb]. rewrite IH; [f_equal; lia|lia|].
    destruct Hr; [left; lia|by right].
Qed.

(** * URIs, on lists *)

(** The part before the first [c], and the part after it. *)
Fixpoint split_at (c : Z) (l : bytes) : bytes * option bytes :=
  match l with
  | [] => ([], None)
  | x :: l => if x =? c then ([], Some l)
              else let '(a, b) := split_at c l in (x :: a, b)
  end.
Definition port_term (ds : option bytes) : term :=
  match ds with
  | None => TAtom "undefined"
  | Some ds => if forallb isdigit ds && negb (digits_value ds =? 0)
               then TInt (digits_value ds) else TAtom "undefined"
  end.
Definition absolute_term (scheme : string) (u : bytes) : term :=
  let '(loc, path) := split_at 47 u in
  let '(host, port) := split_at 58 loc in
  TTuple [TAtom "absoluteURI"; TAtom scheme; TString host; port_term port;
          TString (47 :: default [] path)].
(** [u] starts with [pre], letters in any case. *)
Definition has_prefix (pre u : bytes) : bool :=
  (length pre <=? length u)%nat && bool_decide (map toupper (take (length pre) u) = map toupper pre).
Definition uri_term (u : bytes) : term :=
  if bool_decide (u = [42]) then TAtom "*"
  else if (length u <=? 1)%nat || (byte_at u 0 =? 47) then TTuple [TAtom "abs_path"; TString u]
  else if has_prefix (lit "http://") u then absolute_term "http" (drop 7 u)
  else if has_prefix (lit "https://") u then absolute_term "https" (drop 8 u)
  else match split_at 58 u with
       | (_, None) => TString u
       | (s, Some r) => TTuple [TAtom "scheme"; TString s; TString r]
       end.

Lemma memchr_split c u rest : memchr (u ++ rest) c (length u) =
  match split_at c u with (a, Some _) => Some (length a) | (_, None) => None end.
Proof.
  induction u as [|x u IH]; [by destruct rest|]. cbn [app length memchr split_at].
  destruct (Z.eqb_spec x c); [done|]. rewrite IH. by destruct (split_at c u) as [a [b|]].
Qed.
Lemma split_at_some c u a b : split_at c u = (a, Some b) -> u = a ++ c :: b.
Proof.
  revert a. induction u as [|x u IH]; intros a; cbn [split_at]; [done|].
  destruct (Z.eqb_spec x c) as [->|]; [by intros [= <- <-]|].
  destruct (split_at c u) as [a' b']. intros [= <- ->]. by rewrite (IH a').
Qed.
Lemma split_at_none c u a : split_at c u = (a, None) -> a = u.
Proof.
  revert a. induction u as [|x u IH]; intros a; cbn [split_at]; [by intros [= <-]|].
  destruct (Z.eqb_spec x c) as [->|]; [done|].
  destruct (split_at c u) as [a' b']. intros [= <- ->]. by rewrite (IH a').
Qed.

(** Scanning all of a string: the count that is left is 0 when it is all digits. *)
Lemma digits_all v u rest : let '(v', _, n) := digits v (u ++ rest) (Z.of_nat (length u)) in
  if forallb isdigit u then v' = fold_left (fun v c => int32 (10 * v + (c - 48))) u v /\ n = 0
  else n <> 0.
Proof.
  revert v. induction u as [|c u IH]; intros v.
  - cbn. by destruct rest.
  - cbn [app digits length forallb]. rewrite (proj2 (Z.eqb_neq _ _)) by lia. cbn [negb andb].
    destruct (isdigit c) eqn:Ec; cbn [andb]; [|lia].
    replace (Z.of_nat (S (length u)) - 1) with (Z.of_nat (length u)) by lia. apply IH.
Qed.

Lemma toupper_nonzero c : c <> 0 -> toupper c <> 0.
Proof. unfold toupper, islower. bool_cases. Qed.
Lemma strncasecmp_loop_spec n : forall s1 s2, (n < length s1)%nat -> (n < length s2)%nat ->
  Forall (fun c => c <> 0) s2 ->
  my_strncasecmp_loop s1 s2 n = 0 <-> map toupper (take (S n) s1) = map toupper (take (S n) s2).
Proof.
  induction n as [|n IH]; intros [|c1 s1] [|c2 s2] H1 H2 Hnz; cbn [length] in *; try lia.
  - cbn. change (byte_at (c1 :: s1) 0) with c1. change (byte_at (c2 :: s2) 0) with c2.
    split; [intros E; f_equal; lia|intros [= ->]; lia].
  - cbn [my_strncasecmp_loop tail]. change (byte_at (c1 :: s1) 0) with c1.
    change (byte_at (c2 :: s2) 0) with c2. inversion Hnz as [|?? Hc2 Hnz']; subst.
    rewrite (proj2 (Z.eqb_neq c2 0) Hc2). cbn [negb andb].
    rewrite !firstn_cons. cbn [map].
    destruct (Z.eqb_spec (toupper c1) (toupper c2)) as [E|E].
    + destruct (Z.eqb_spec c1 0) as [->|]; cbn [negb andb].
      * exfalso. apply (toupper_nonzero c2 Hc2). by rewrite <-E.
      * rewrite IH by (done || lia). rewrite E. split; [by intros ->|]. intros [= Ei]. done.
    + rewrite andb_false_r. split; [intros; lia|]. intros [=]. done.
Qed.
Lemma strncasecmp_spec u rest pre : (0 < length pre)%nat -> Forall (fun c => c <> 0) pre ->
  (Z.of_nat (length pre) <=? Z.of_nat (length u)) && (my_strncasecmp (u ++ rest) pre (length pre) =? 0) =
  has_prefix pre u.
Proof.
  intros Hp Hnz. unfold has_prefix, my_strncasecmp.
  destruct (Nat.leb_spec (length pre) (length u)) as [Hl|Hl];
    [rewrite (proj2 (Z.leb_le _ _)) by lia|by rewrite (proj2 (Z.leb_gt _ _)) by lia].
  cbn [andb]. apply eq_true_iff_eq. rewrite Z.eqb_eq, bool_decide_eq_true.
  rewrite strncasecmp_loop_spec by (rewrite ?length_app; done || lia).
  replace (S (length pre - 1)) with (length pre) by lia.
  rewrite (firstn_all pre), take_app_le by lia. done.
Qed.

Lemma drop_app_cons (a : bytes) c b : drop (S (length a)) (a ++ c :: b) = b.
Proof. by induction a. Qed.

Section Uri.
Context (v : spec) (st : list term).

Lemma load_absoluteURI_runs scheme u rest st' : runs v st st' ->
  runs (http_load_absoluteURI v scheme (u ++ rest) (Z.of_nat (length u))) st
    (absolute_term scheme u :: st').
Proof.
  intros Hv. unfold http_load_absoluteURI, absolute_term. rewrite Nat2Z.id, memchr_split.
  assert (forall loc rest' path_ptr path_len path, read path_ptr 0 path_len = Some path ->
    let v := LOAD_ATOM v "absoluteURI" in
    let v := LOAD_ATOM v scheme in
    let v := match memchr (loc ++ rest') 58 (Z.to_nat (Z.of_nat (length loc))) with
      | None => LOAD_ATOM (LOAD_STRING v (loc ++ rest') (Z.of_nat (length loc))) "undefined"
      | Some n =>
        let v := LOAD_STRING v (loc ++ rest') (Z.of_nat n) in
        let '(port, _, n) := digits 0 (drop (S n) (loc ++ rest')) (Z.of_nat (length loc) - (Z.of_nat n + 1)) in
        if negb (n =? 0) || (port =? 0) then LOAD_ATOM v "undefined" else LOAD_INT v port
      end in
    runs (LOAD_TUPLE (LOAD_STRING v path_ptr path_len) 5) st
      ((let '(host, port) := split_at 58 loc in
        TTuple [TAtom "absoluteURI"; TAtom scheme; TString host; port_term port; TString path]) :: st'))
    as Hloc.
  { intros loc rest' pp pl path Hpath. cbv zeta. rewrite Nat2Z.id, memchr_split.
    destruct (split_at 58 loc) as [host [ds|]] eqn:Es.
    - apply split_at_some in Es as ->. rewrite <-app_assoc. cbn [app].
      rewrite drop_app_cons.
      rewrite length_app. cbn [length].
      replace (Z.of_nat (length host + S (length ds)) - (Z.of_nat (length host) + 1))
        with (Z.of_nat (length ds)) by lia.
      pose proof (digits_all 0 ds rest') as Hd. destruct (digits 0 (ds ++ rest') _) as [[port p'] n].
      cbn [port_term]. destruct (forallb isdigit ds); cbn [andb].
      + destruct Hd as [-> ->]. cbn [Z.eqb negb orb]. unfold digits_value.
        destruct (fold_left _ ds 0 =? 0); cbn [negb]; eauto 20 with spec.
      + rewrite (proj2 (Z.eqb_neq _ _) Hd). cbn [negb orb]. eauto 20 with spec.
    - apply split_at_none in Es as ->. cbn [port_term]. eauto 20 with spec. }
  destruct (split_at 47 u) as [loc [path|]] eqn:Es.
  - apply split_at_some in Es as ->. rewrite <-app_assoc. cbn [app]. rewrite drop_app_length.
    change (47 :: path ++ rest) with ((47 :: path) ++ rest). apply Hloc.
    apply read_app_eq. rewrite length_app. cbn [length from_option].
    unfold Datatypes.id. lia.
  - apply split_at_none in Es as ->. apply (Hloc u rest [47] 1 [47]). done.
Qed.
Lemma load_uri_runs u rest st' : runs v st st' ->
  runs (http_load_uri v (u ++ rest) (Z.of_nat (length u))) st (uri_term u :: st').
Proof.
  intros Hv. unfold http_load_uri, uri_term.
  assert (byte_at (u ++ rest) 0 = byte_at u 0 \/ u = []) as Hu by (destruct u; [by right|by left]).
  case_bool_decide as Estar.
  { subst u. exact (runs_atom v st st' Hv "*"). }
  destruct (Z.eqb_spec (Z.of_nat (length u)) 1) as [E1|E1]; cbn [andb].
  { destruct u as [|c [|]]; try (cbn in E1; lia). cbn [app].
    change (byte_at (c :: rest) 0) with c. destruct (Z.eqb_spec c 42) as [->|]; [done|].
    change (runs (LOAD_TUPLE (LOAD_STRING (LOAD_ATOM v "abs_path") ([c] ++ rest) (Z.of_nat (length [c]))) 2)
      st (TTuple [TAtom "abs_path"; TString [c]] :: st')). eauto 20 with spec. }
  destruct u as [|c u].
  { change (runs (LOAD_TUPLE (LOAD_STRING (LOAD_ATOM v "abs_path") ([] ++ rest) (Z.of_nat (@length Z []))) 2)
      st (TTuple [TAtom "abs_path"; TString []] :: st')). eauto 20 with spec. }
  cbn [app].
  change (byte_at (c :: u ++ rest) 0) with c. change (byte_at (c :: u) 0) with c.
  rewrite (proj2 (Z.leb_gt _ _)), (proj2 (Nat.leb_gt _ _)) by (cbn [length] in *; lia). cbn [orb].
  destruct (c =? 47); [change (c :: u ++ rest) with ((c :: u) ++ rest); eauto 20 with spec|]. change (c :: u ++ rest) with ((c :: u) ++ rest).
  pose proof (strncasecmp_spec (c :: u) rest (lit "http://") ltac:(cbn; lia) ltac:(repeat constructor; done)) as E7.
  change (Z.of_nat (length (lit "http://"))) with 7 in E7. change (length (lit "http://")) with 7%nat in E7.
  rewrite E7. clear E7.
  pose proof (strncasecmp_spec (c :: u) rest (lit "https://") ltac:(cbn; lia) ltac:(repeat constructor; done)) as E8.
  change (Z.of_nat (length (lit "https://"))) with 8 in E8. change (length (lit "https://")) with 8%nat in E8.
  rewrite E8. clear E8.
  assert (forall n, (n <= length (c :: u))%nat -> drop n ((c :: u) ++ rest) = drop n (c :: u) ++ rest /\
    Z.of_nat (length (c :: u)) - Z.of_nat n = Z.of_nat (length (drop n (c :: u)))) as Hd.
  { intros n Hn. rewrite drop_app_le, length_drop by lia. split; [done|lia]. }
  destruct (has_prefix (lit "http://") (c :: u)) eqn:Ep.
  { apply andb_true_iff in Ep as [Hl _]. apply Nat.leb_le in Hl. destruct (Hd 7%nat Hl) as [-> E].
    change 7 with (Z.of_nat 7). rewrite E. by apply load_absoluteURI_runs. }
  destruct (has_prefix (lit "https://") (c :: u)) eqn:Ep'.
  { apply andb_true_iff in Ep' as [Hl _]. apply Nat.leb_le in Hl. destruct (Hd 8%nat Hl) as [-> E].
    change 8 with (Z.of_nat 8). rewrite E. by apply load_absoluteURI_runs. }
  rewrite Nat2Z.id, memchr_split. destruct (split_at 58 (c :: u)) as [sch [r|]] eqn:Es.
  - apply split_at_some in Es as ->. rewrite <-app_assoc. cbn [app]. rewrite drop_app_cons.
    rewrite length_app. cbn [length].
    replace (Z.of_nat (length sch + S (length r)) - (Z.of_nat (length sch) + 1))
      with (Z.of_nat (length r)) by lia. eauto 20 with spec.
  - eauto with spec.
Qed.
End Uri.

(** * What a line is answered with *)

Lemma hdr_names_ok : NoDup (lit <$> http_hdr_strings) /\
  Forall (fun s => Forall (fun c => c <> 0) (lit s)) http_hdr_strings.
Proof. split; [by_decision|]. repeat constructor; done. Qed.
Lemma meth_names_ok : NoDup (lit <$> http_meth_strings) /\
  Forall (fun s => Forall (fun c => c <> 0) (lit s)) http_meth_strings.
Proof. split; [by_decision|]. repeat constructor; done. Qed.

Section Answers.
Context {Q : Type} `{PQ : !PortQueue Q} `{RT : !Runtime} `{E : !LoopEnv} (ulong : Z).

(** In passive mode the oldest operation is answered with [t], in active mode the
    owner is sent [direct]. *)
Definition answered (w w' : world Q) (t direct : term) : Prop :=
  if active (inet (desc w)) =? INET_PASSIVE then
    exists op q sp, aq_deq (Z.to_nat INET_MAX_ASYNC) (ops (inet (desc w))) = Some (op, q) /\
      calls w' = calls w ++ [SendTerm (op_caller op) sp] /\ ops (inet (desc w')) = q /\
      denotes sp (TTuple [TAtom "inet_async"; TPort (dport (inet (desc w))); TInt (id op); t])
  else exists sp, calls w' = calls w ++ [OutputTerm sp] /\ denotes sp direct.
(** Passive mode has an operation to answer. *)
Definition can_answer (w : world Q) : Prop :=
  active (inet (desc w)) = INET_PASSIVE ->
  aq_deq (Z.to_nat INET_MAX_ASYNC) (ops (inet (desc w))) <> None.

Lemma http_send_eq async sync (w : world Q) : http_send async sync w =
  if active (inet (desc w)) =? INET_PASSIVE then
    match aq_deq (Z.to_nat INET_MAX_ASYNC) (ops (inet (desc w))) with
    | None => (-1, w)
    | Some (op, q) => driver_send_term (op_caller op) (async (dport (inet (desc w))) (id op))
                        (snd (upd_inet (w_ops q) w))
    end
  else driver_output_term (sync (dport (inet (desc w)))) w.
Proof.
  unfold http_send, deq_async, get_inet, gets, mbind, M_bind.
  destruct (_ =? _); [|done]. by destruct (aq_deq _ _) as [[op q]|].
Qed.
Lemma http_send_answered async sync (w w0 : world Q) t direct :
  can_answer w -> inet (desc w) = inet (desc w0) -> calls w = calls w0 ->
  (forall aid, denotes (async (dport (inet (desc w))) aid)
     (TTuple [TAtom "inet_async"; TPort (dport (inet (desc w))); TInt aid; t])) ->
  denotes (sync (dport (inet (desc w)))) direct ->
  answered w0 (snd (http_send async sync w)) t direct.
Proof.
  intros Hc Ei Ec Ha Hs. unfold answered. rewrite <-Ei, <-Ec, http_send_eq.
  destruct (Z.eqb_spec (active (inet (desc w))) INET_PASSIVE) as [Ep|Ep].
  - specialize (Hc Ep). destruct (aq_deq _ _) as [[op q]|]; [|done].
    exists op, q, (async (dport (inet (desc w))) (id op)). split_and!; [done..|apply Ha].
  - exists (sync (dport (inet (desc w)))). split; [done|auto].
Qed.

Lemma http_send_state async sync (w : world Q) :
  http_state (desc (snd (http_send async sync w))) = http_state (desc w).
Proof.
  rewrite http_send_eq. destruct (_ =? _); [|done]. by destruct (aq_deq _ _) as [[op q]|].
Qed.

(** ** Header lines *)

Definition header_terms (nm : bytes) : term * term :=
  match find_name http_hdr_strings (canon true nm) 0 with
  | Some (s, ix) => (TInt (ix + 1), TAtom s)
  | None => (TInt 0, TString (canon true nm))
  end.
Definition header_line (nm ws value : bytes) : bytes := nm ++ [58] ++ ws ++ value ++ [CR; LF].

Lemma http_trim_crlf l rest :
  http_trim ((l ++ [CR; LF]) ++ rest) (Z.of_nat (length (l ++ [CR; LF]))) = Z.of_nat (length l).
Proof.
  unfold http_trim. rewrite length_app. cbn [length].
  replace (Z.to_nat (Z.of_nat (length l + 2) - 2)) with (length l) by lia.
  rewrite <-app_assoc. cbn [app]. rewrite byte_at_app_hd, (proj2 (Z.leb_le _ _)) by lia. cbn. lia.
Qed.

Lemma header_lookup nm rest :
  http_hash_lookup (canon true nm ++ rest) (Z.of_nat (length (canon true nm)))
    (fold_left (hash_update ulong) (canon true nm) 0) (http_hdr_hash ulong) HTTP_HDR_HASH_SIZE =
  (fun p => entry_of ulong p.1 p.2) <$> find_name http_hdr_strings (canon true nm) 0.
Proof. destruct hdr_names_ok. by apply (hash_lookup_spec ulong http_hdr_strings HTTP_HDR_HASH_SIZE). Qed.
Lemma load_name_runs v st st' nm rest : runs v st st' ->
  runs (load_name v ((fun p => entry_of ulong p.1 p.2) <$> find_name http_hdr_strings (canon true nm) 0)
    (canon true nm ++ rest) (Z.of_nat (length (canon true nm)))) st
    ((header_terms nm).2 :: (header_terms nm).1 :: st').
Proof.
  intros Hv. unfold load_name, header_terms.
  destruct (find_name _ _ _) as [[s ix]|]; cbn [fmap option_fmap option_map fst snd]; eauto with spec.
Qed.

(** A header line [Name: value CRLF] is answered with
    [{http_header, Index, Name, undefined, Value}]: the name with each word capitalised, as an
    atom with its position when the tables have it; blanks before the value are dropped and the state stays. *)
Theorem http_header_line_answered nm ws value rest (w : world Q) :
  http_state (desc w) <> 0 -> can_answer w ->
  Forall token nm -> Forall (fun c => blank c = true) ws -> blank (byte_at value 0) = false ->
  let line := header_line nm ws value in
  let r := http_message ulong (line ++ rest) (Z.of_nat (length line)) w in
  http_state (desc (snd r)) = http_state (desc w) /\
  answered w (snd r)
    (TTuple [TAtom "ok"; TTuple [TAtom "http_header"; (header_terms nm).1; (header_terms nm).2;
      TAtom "undefined"; TString value]])
    (TTuple [TAtom "http_header"; TPort (dport (inet (desc w))); (header_terms nm).1;
      (header_terms nm).2; TAtom "undefined"; TString value]).
Proof.
  intros Hst Hc Hnm Hws Hv line r.
  assert (line = (nm ++ [58] ++ ws ++ value) ++ [CR; LF]) as El
    by (unfold line, header_line; by rewrite <-!app_assoc).
  unfold r, http_message. rewrite El, http_trim_crlf.
  rewrite (bind_eq get_desc _ _ _ _ eq_refl), (proj2 (Z.eqb_neq _ _) Hst).
  unfold http_header_line. rewrite !length_app. cbn [length].
  rewrite (proj2 (Z.eqb_neq _ _)) by lia.
  rewrite <-!app_assoc. cbn [app]. rewrite (scan_name_spec _ nm 58) by (done || lia).
  rewrite byte_at_hd. cbn [Z.eqb Pos.eqb negb tail]. rewrite length_canon.
  replace (Z.of_nat (length nm + S (length ws + length value)) - Z.of_nat (length nm) - 1)
    with (Z.of_nat (length ws + length value)) by lia.
  rewrite (skip_sp_spec ws _ _ Hws); [|lia|destruct value; [left; cbn; lia|by right]].
  rewrite <-(length_canon true nm).
  replace (Z.of_nat (length (canon true nm) + (1 + (length ws + length value))) -
    Z.of_nat (length (canon true nm)) - 1 - Z.of_nat (length ws)) with (Z.of_nat (length value)) by lia.
  rewrite header_lookup. unfold http_header_message.
  match goal with |- context [mbind _ (http_send ?a ?s)] =>
    pose proof (http_send_answered a s w w) as Hans; pose proof (http_send_state a s w) as Hs;
    destruct (http_send a s w) as [rc w1] eqn:Ew; rewrite (bind_eq _ _ _ _ _ Ew) end.
  split; [exact Hs|]. apply Hans; [done..| |].
  - intros aid. unfold header_async_spec. apply runs_denotes.
    apply runs_tuple4, runs_tuple2, runs_tuple5, runs_string, read_app. apply runs_atom.
    apply load_name_runs. unfold async_head. eauto 20 with spec.
  - unfold header_spec. apply runs_denotes.
    apply runs_tuple6, runs_string, read_app. apply runs_atom. apply load_name_runs. eauto 20 with spec.
Qed.

(** ** Request and response lines *)

Definition is_digits (ds : bytes) : Prop := ds <> [] /\ Forall (fun c => isdigit c = true) ds.
Lemma digits_hd ds rest : is_digits ds -> isdigit (byte_at (ds ++ rest) 0) = true.
Proof. intros [? Hd]. destruct Hd as [|c ds Hc Hd]; [done|exact Hc]. Qed.
Lemma digits_length ds : is_digits ds -> 0 < Z.of_nat (length ds).
Proof. intros [? _]. destruct ds; [done|]. cbn. lia. Qed.
Lemma scan_version_spec maj mnr rest n : is_digits maj -> is_digits mnr ->
  Z.of_nat (length maj + 1 + length mnr) <= n ->
  n = Z.of_nat (length maj + 1 + length mnr) \/ isdigit (byte_at rest 0) = false ->
  scan_version (maj ++ 46 :: mnr ++ rest) n =
  Some (digits_value maj, digits_value mnr, rest, n - Z.of_nat (length maj + 1 + length mnr)).
Proof.
  intros Hma Hmi Hn Hr. pose proof (digits_length _ Hma). pose proof (digits_length _ Hmi).
  unfold scan_version. rewrite (proj2 (Z.eqb_neq _ _)), digits_hd by (done || lia). cbn [negb orb].
  destruct Hma as [_ Hma], Hmi as [Hne Hmi].
  rewrite (digits_spec maj _ n 0 Hma) by (lia || by right).
  rewrite (proj2 (Z.eqb_neq _ _)) by lia. rewrite byte_at_hd. cbn [Z.eqb Pos.eqb negb orb tail].
  rewrite (proj2 (Z.eqb_neq _ _)), digits_hd by (done || lia). cbn [negb orb].
  rewrite (digits_spec mnr rest _ 0 Hmi); [|lia|destruct Hr; [left; lia|by right]].
  f_equal. f_equal. lia.
Qed.

Definition meth_term (m : bytes) : term :=
  match find_name http_meth_strings m 0 with Some (s, _) => TAtom s | None => TString m end.
Definition version_term (maj mnr : bytes) : term :=
  TTuple [TInt (digits_value maj); TInt (digits_value mnr)].
Definition http_version (maj mnr : bytes) : bytes := lit "HTTP/" ++ maj ++ 46 :: mnr.
Definition request_line (m ws u ws' maj mnr : bytes) : bytes :=
  m ++ SPC :: ws ++ u ++ SPC :: ws' ++ http_version maj mnr ++ [CR; LF].
Definition response_line (maj mnr ws status ws' phrase : bytes) : bytes :=
  http_version maj mnr ++ SPC :: ws ++ status ++ SPC :: ws' ++ phrase ++ [CR; LF].

Lemma meth_lookup m rest :
  http_hash_lookup (m ++ rest) (Z.of_nat (length m))
    (fold_left (hash_update ulong) m 0) (http_meth_hash ulong) HTTP_METH_HASH_SIZE =
  (fun p => entry_of ulong p.1 p.2) <$> find_name http_meth_strings m 0.
Proof. destruct meth_names_ok. by apply (hash_lookup_spec ulong http_meth_strings HTTP_METH_HASH_SIZE). Qed.
Lemma load_meth_runs v st st' m rest : runs v st st' ->
  runs (load_meth v ((fun p => entry_of ulong p.1 p.2) <$> find_name http_meth_strings m 0)
    (m ++ rest) (Z.of_nat (length m))) st (meth_term m :: st').
Proof.
  intros Hv. unfold load_meth, meth_term.
  destruct (find_name _ _ _) as [[s ix]|]; cbn [fmap option_fmap option_map fst snd]; eauto with spec.
Qed.
Lemma load_version_runs v st st' maj mnr : runs v st st' ->
  runs (load_version v (digits_value maj) (digits_value mnr)) st (version_term maj mnr :: st').
Proof. intros Hv. unfold load_version, version_term. eauto with spec. Qed.

(** What a start line leaves: an answer and the next state. *)
Lemma start_answered async sync (w : world Q) t direct :
  http_state (desc w) = 0 -> can_answer w ->
  (forall aid, denotes (async (dport (inet (desc w))) aid)
     (TTuple [TAtom "inet_async"; TPort (dport (inet (desc w))); TInt aid; t])) ->
  denotes (sync (dport (inet (desc w)))) direct ->
  let w' := snd ((incr_http_state;;; http_send async sync) w) in
  http_state (desc w') = 1 /\ answered w w' t direct.
Proof.
  intros H0 Hc Ha Hs w'. unfold w'. rewrite (bind_eq incr_http_state _ _ _ _ eq_refl).
  split; [rewrite http_send_state; cbn; lia|]. by apply http_send_answered.
Qed.
Lemma snd_fmap_buf (m : M (world Q) Z) (buf : bytes) w :
  snd ((r ← m; mret (r, buf)) w) = snd (m w).
Proof. unfold mbind, M_bind. by destruct (m w). Qed.

Lemma request_line_runs m ws u ws' maj mnr rest (w : world Q) :
  m <> [] -> Forall token m -> u <> [] -> Forall (fun c => blank c = false) u ->
  Forall (fun c => blank c = true) ws -> Forall (fun c => blank c = true) ws' ->
  is_digits maj -> is_digits mnr ->
  let n := length (m ++ SPC :: ws ++ u ++ SPC :: ws' ++ http_version maj mnr) in
  let buf := m ++ SPC :: ws ++ u ++ SPC :: ws' ++ http_version maj mnr ++ rest in
  http_start_line ulong buf (Z.of_nat n) w =
  (incr_http_state;;;
   http_request_message ((fun p => entry_of ulong p.1 p.2) <$> find_name http_meth_strings m 0)
     buf (Z.of_nat (length m))
     (u ++ SPC :: ws' ++ http_version maj mnr ++ rest) (Z.of_nat (length u))
     (digits_value maj) (digits_value mnr)) w.
Proof.
  intros Hm Htok Hu Hub Hws Hws' Hma Hmi n buf. subst n.
  pose proof (digits_length _ Hma). pose proof (digits_length _ Hmi).
  assert (0 < length m)%nat by (destruct m; [done|cbn; lia]).
  assert (0 < length u)%nat by (destruct u; [done|cbn; lia]).
  assert (blank (byte_at (u ++ SPC :: ws' ++ http_version maj mnr ++ rest) 0) = false) as Hub0
    by (destruct Hub; [done|assumption]).
  assert (exists k, Z.of_nat (length (m ++ SPC :: ws ++ u ++ SPC :: ws' ++ http_version maj mnr)) = k /\
    k = Z.of_nat (length m + S (length ws + length u + S (length ws' + 5 + (length maj + 1 + length mnr)))))
    as (k & -> & Hk).
  { eexists. split; [done|]. unfold http_version. autorewrite with clen.
    change (length (lit "HTTP/")) with 5%nat. lia. }
  unfold http_start_line.
  rewrite (proj2 (Z.eqb_neq _ _)) by lia.
  unfold buf at 1. rewrite (scan_method_spec _ m SPC) by (done || lia).
  match goal with |- context [?a - (?a - Z.of_nat (length m))] =>
    replace (a - (a - Z.of_nat (length m))) with (Z.of_nat (length m)) by lia end.
  rewrite (proj2 (Z.eqb_neq (Z.of_nat (length m)) 0)) by lia.
  rewrite (proj2 (Z.eqb_neq _ 0)) by lia.
  rewrite byte_at_hd. change (SPC =? 47) with false. cbn [andb].
  change (SP (SPC :: _)) with true. cbv iota.
  unfold buf at 1. rewrite meth_lookup. clearbody buf.
  unfold http_request_line.
  change (SPC :: ws ++ u ++ SPC :: ws' ++ http_version maj mnr ++ rest)
    with ((SPC :: ws) ++ (u ++ SPC :: ws' ++ http_version maj mnr ++ rest)).
  rewrite (skip_sp_spec (SPC :: ws)) by (by constructor || (cbn [length]; lia) || by right).
  rewrite (skip_to_sp_spec u) by (done || (cbn [length]; lia) || by right).
  replace (k - Z.of_nat (length m) - Z.of_nat (length (SPC :: ws)) -
    (k - Z.of_nat (length m) - Z.of_nat (length (SPC :: ws)) - Z.of_nat (length u)))
    with (Z.of_nat (length u)) by lia.
  rewrite (proj2 (Z.eqb_neq _ _)) by lia.
  change (SPC :: ws' ++ http_version maj mnr ++ rest)
    with ((SPC :: ws') ++ (http_version maj mnr ++ rest)) at 1.
  rewrite (skip_sp_spec (SPC :: ws')) by (by constructor || (cbn [length]; lia) || by right).
  cbn [length]. rewrite (proj2 (Z.eqb_neq _ 0)) by lia. rewrite (proj2 (Z.ltb_ge _ _)) by lia.
  unfold http_version at 1 2. rewrite <-!app_assoc.
  change (strncmp_eq _ _ 5) with true. change (drop 5 (lit "HTTP/" ++ ?x)) with x. cbn [negb].
  cbn [app]. rewrite (scan_version_spec maj mnr rest) by (done || lia || (left; lia)). done.
Qed.

(** C40: A request line [METHOD SP URI SP HTTP/maj.min CRLF] is answered with
    [{http_request, Method, Uri, {Maj, Min}}]: a method of the table as an atom, another as a
    string, and the URI in the form [uri_term] gives it; header lines follow. *)
Theorem http_request_line_answered m ws u ws' maj mnr rest (w : world Q) :
  http_state (desc w) = 0 -> can_answer w ->
  m <> [] -> Forall token m -> u <> [] -> Forall (fun c => blank c = false) u ->
  Forall (fun c => blank c = true) ws -> Forall (fun c => blank c = true) ws' ->
  is_digits maj -> is_digits mnr ->
  let line := request_line m ws u ws' maj mnr in
  let w' := snd (http_message ulong (line ++ rest) (Z.of_nat (length line)) w) in
  http_state (desc w') = 1 /\
  answered w w'
    (TTuple [TAtom "ok"; TTuple [TAtom "http_request"; meth_term m; uri_term u; version_term maj mnr]])
    (TTuple [TAtom "http_request"; TPort (dport (inet (desc w))); meth_term m; uri_term u;
      version_term maj mnr]).
Proof.
  intros Hst Hc Hm Htok Hu Hub Hws Hws' Hma Hmi line w'.
  assert (line = (m ++ SPC :: ws ++ u ++ SPC :: ws' ++ http_version maj mnr) ++ [CR; LF]) as El.
  { unfold line, request_line. by repeat (rewrite <-app_assoc; cbn [app]). }
  unfold w', http_message. rewrite El, http_trim_crlf.
  rewrite (bind_eq get_desc _ _ _ _ eq_refl), (proj2 (Z.eqb_eq _ _) Hst), snd_fmap_buf.
  repeat (rewrite <-app_assoc; cbn [app]).
  rewrite request_line_runs by done.
  apply start_answered; [done|done|intros aid|].
  - unfold request_async_spec. apply runs_denotes.
    apply runs_tuple4, runs_tuple2, runs_tuple4, load_version_runs, load_uri_runs, load_meth_runs.
    unfold async_head. eauto 20 with spec.
  - unfold request_spec. apply runs_denotes.
    apply runs_tuple5, load_version_runs, load_uri_runs, load_meth_runs. eauto 20 with spec.
Qed.

Lemma response_line_runs maj mnr ws status ws' phrase rest (w : world Q) :
  is_digits maj -> is_digits mnr -> is_digits status ->
  Forall (fun c => blank c = true) ws -> Forall (fun c => blank c = true) ws' ->
  blank (byte_at phrase 0) = false ->
  let n := length (http_version maj mnr ++ SPC :: ws ++ status ++ SPC :: ws' ++ phrase) in
  let buf := http_version maj mnr ++ SPC :: ws ++ status ++ SPC :: ws' ++ phrase ++ rest in
  http_start_line ulong buf (Z.of_nat n) w =
  (incr_http_state;;;
   http_response_message (digits_value maj) (digits_value mnr) (digits_value status)
     (phrase ++ rest) (Z.of_nat (length phrase))) w.
Proof.
  intros Hma Hmi Hs Hws Hws' Hph n buf. subst n.
  pose proof (digits_length _ Hma). pose proof (digits_length _ Hmi). pose proof (digits_length _ Hs).
  assert (blank (byte_at (status ++ SPC :: ws' ++ phrase ++ rest) 0) = false) as Hb0.
  { destruct Hs as [? Hs]. destruct Hs as [|c ds Hc Hs]; [done|]. cbn [app]. rewrite byte_at_hd.
    unfold isdigit, blank, SPC, TAB in *. lia. }
  assert (exists k, Z.of_nat (length (http_version maj mnr ++ SPC :: ws ++ status ++ SPC :: ws' ++ phrase)) = k /\
    k = Z.of_nat (5 + (length maj + 1 + length mnr) +
      S (length ws + length status + S (length ws' + length phrase)))) as (k & -> & Hk).
  { eexists. split; [done|]. unfold http_version. autorewrite with clen.
    change (length (lit "HTTP/")) with 5%nat. lia. }
  unfold http_start_line. rewrite (proj2 (Z.eqb_neq _ _)) by lia.
  assert (exists tl, buf = lit "HTTP" ++ 47 :: tl /\
    tl = maj ++ 46 :: mnr ++ SPC :: ws ++ status ++ SPC :: ws' ++ phrase ++ rest) as (tl & Eb & Etl).
  { eexists. split; [|done]. unfold buf, http_version. rewrite <-!app_assoc. done. }
  clearbody buf. subst buf.
  rewrite (scan_method_spec _ (lit "HTTP") 47); [|by repeat constructor|done|cbn [lit]; cbn; lia].
  change (Z.of_nat (length (lit "HTTP"))) with 4.
  rewrite (proj2 (Z.eqb_neq (k - (k - 4)) 0)), (proj2 (Z.eqb_neq (k - 4) 0)) by lia.
  rewrite byte_at_hd. change (47 =? 47) with true. change (strncmp_eq _ _ 4) with true. cbn [andb tail].
  unfold http_status_line. rewrite Etl.
  rewrite (scan_version_spec maj mnr (SPC :: _)) by (done || lia || by right).
  rewrite (proj2 (Z.eqb_neq _ 0)) by lia. change (SP (SPC :: _)) with true. cbn [orb negb].
  match goal with |- context [skip_sp (SPC :: ws ++ ?x)] => change (SPC :: ws ++ x) with ((SPC :: ws) ++ x) end.
  rewrite (skip_sp_spec (SPC :: ws)) by (by constructor || (cbn [length]; lia) || by right).
  destruct Hs as [Hne Hs]. rewrite (digits_spec status) by (done || (cbn [length]; lia) || by right).
  cbn [length]. rewrite (proj2 (Z.eqb_neq _ 0)) by lia. change (SP (SPC :: _)) with true. cbn [orb negb].
  match goal with |- context [skip_sp (SPC :: ws' ++ ?x)] => change (SPC :: ws' ++ x) with ((SPC :: ws') ++ x) end.
  rewrite (skip_sp_spec (SPC :: ws')).
  2: by constructor. 2: cbn [length]; lia.
  2: { destruct phrase; [left; cbn [length] in *; lia|by right]. }
  match goal with |- context [http_response_message _ _ _ _ ?x] =>
    replace x with (Z.of_nat (length phrase)) by (cbn [length]; lia) end. done.
Qed.

(** A status line [HTTP/maj.min SP status SP phrase CRLF] is answered with
    [{http_response, {Maj, Min}, Status, Phrase}]; header lines follow. *)
Theorem http_response_line_answered maj mnr ws status ws' phrase rest (w : world Q) :
  http_state (desc w) = 0 -> can_answer w ->
  is_digits maj -> is_digits mnr -> is_digits status ->
  Forall (fun c => blank c = true) ws -> Forall (fun c => blank c = true) ws' ->
  blank (byte_at phrase 0) = false ->
  let line := response_line maj mnr ws status ws' phrase in
  let w' := snd (http_message ulong (line ++ rest) (Z.of_nat (length line)) w) in
  http_state (desc w') = 1 /\
  answered w w'
    (TTuple [TAtom "ok"; TTuple [TAtom "http_response"; version_term maj mnr;
      TInt (digits_value status); TString phrase]])
    (TTuple [TAtom "http_response"; TPort (dport (inet (desc w))); version_term maj mnr;
      TInt (digits_value status); TString phrase]).
Proof.
  intros Hst Hc Hma Hmi Hs Hws Hws' Hph line w'.
  assert (line = (http_version maj mnr ++ SPC :: ws ++ status ++ SPC :: ws' ++ phrase) ++ [CR; LF]) as El.
  { unfold line, response_line. by repeat (rewrite <-app_assoc; cbn [app]). }
  unfold w', http_message. rewrite El, http_trim_crlf.
  rewrite (bind_eq get_desc _ _ _ _ eq_refl), (proj2 (Z.eqb_eq _ _) Hst), snd_fmap_buf.
  repeat (rewrite <-app_assoc; cbn [app]).
  rewrite response_line_runs by done.
  apply start_answered; [done|done|intros aid|].
  - unfold response_async_spec. apply runs_denotes.
    apply runs_tuple4, runs_tuple2, runs_tuple4, runs_string, read_app. apply runs_int, load_version_runs.
    unfold async_head. eauto 20 with spec.
  - unfold response_spec. apply runs_denotes.
    apply runs_tuple5, runs_string, read_app. apply runs_int, load_version_runs. eauto 20 with spec.
Qed.

(** Looking a name up in the hash tables [http_init] builds is a search of the lists of
    header and method names: the entry found is the one of that name, with its position, for every
    width of [unsigned long]. *)
Theorem http_lookup_is_search nm rest :
  http_hash_lookup (nm ++ rest) (Z.of_nat (length nm)) (hash_name ulong nm)
    (http_hdr_hash ulong) HTTP_HDR_HASH_SIZE =
    (fun p => entry_of ulong p.1 p.2) <$> find_name http_hdr_strings nm 0 /\
  http_hash_lookup (nm ++ rest) (Z.of_nat (length nm)) (hash_name ulong nm)
    (http_meth_hash ulong) HTTP_METH_HASH_SIZE =
    (fun p => entry_of ulong p.1 p.2) <$> find_name http_meth_strings nm 0.
Proof.
  destruct hdr_names_ok, meth_names_ok.
  split; by apply hash_lookup_spec.
Qed.
End Answers.

(** * Examples *)

Lemma sample_can_answer : can_answer sample_world.
Proof. done. Qed.
Ltac solve_line := cbv [lit map String.list_ascii_of_string Ascii.nat_of_ascii]; repeat constructor.
Lemma http_request_line_answered_witness :
  let line := request_line (lit "GET") [] (lit "http://a:80/x") [] (lit "1") (lit "1") in
  let w' := snd (http_message (RT := rt_ok) 64 (line ++ []) (Z.of_nat (length line)) sample_world) in
  http_state (desc w') = 1 /\
  answered sample_world w' (TTuple [TAtom "ok"; TTuple [TAtom "http_request"; TAtom "GET";
      TTuple [TAtom "absoluteURI"; TAtom "http"; TString (lit "a"); TInt 80; TString (lit "/x")];
      TTuple [TInt 1; TInt 1]]])
    (TTuple [TAtom "http_request"; TPort 1; TAtom "GET";
      TTuple [TAtom "absoluteURI"; TAtom "http"; TString (lit "a"); TInt 80; TString (lit "/x")];
      TTuple [TInt 1; TInt 1]]).
Proof.
  apply (http_request_line_answered (RT := rt_ok) 64 (lit "GET") [] (lit "http://a:80/x") [] (lit "1") (lit "1")
    [] sample_world); try done; solve_line; done.
Defined.
Lemma http_response_line_answered_witness :
  let line := response_line (lit "1") (lit "0") [] (lit "404") [] (lit "Not Found") in
  let w' := snd (http_message (RT := rt_ok) 64 (line ++ []) (Z.of_nat (length line)) sample_world) in
  http_state (desc w') = 1 /\
  answered sample_world w' (TTuple [TAtom "ok"; TTuple [TAtom "http_response";
      TTuple [TInt 1; TInt 0]; TInt 404; TString (lit "Not Found")]])
    (TTuple [TAtom "http_response"; TPort 1; TTuple [TInt 1; TInt 0]; TInt 404; TString (lit "Not Found")]).
Proof.
  apply (http_response_line_answered (RT := rt_ok) 64 (lit "1") (lit "0") [] (lit "404") [] (lit "Not Found")
    [] sample_world); try done; solve_line; done.
Defined.
Definition sample_headers : world (list bytes) :=
  World (w_http_state 1 sample_desc) [] 0 [] [] [].
Lemma http_header_line_answered_witness :
  let line := header_line (lit "content-LENGTH") (lit " ") (lit "12") in
  let r := http_message (RT := rt_ok) 64 (line ++ []) (Z.of_nat (length line)) sample_headers in
  http_state (desc (snd r)) = http_state (desc sample_headers) /\
  answered sample_headers (snd r)
    (TTuple [TAtom "ok"; TTuple [TAtom "http_header"; TInt 38; TAtom "Content-Length";
      TAtom "undefined"; TString (lit "12")]])
    (TTuple [TAtom "http_header"; TPort 1; TInt 38; TAtom "Content-Length";
      TAtom "undefined"; TString (lit "12")]).
Proof.
  apply (http_header_line_answered (RT := rt_ok) 64 (lit "content-LENGTH") (lit " ") (lit "12")
    [] sample_headers); try done; solve_line; done.
Defined.
