(* ===== verification/LoopBuf.v ===== *)
(** The input buffer of the loop driver, [ssh/c_src/loop_drv.c]: buffers and the stack of
    free ones, the operations on the current one, the detection of packets in it
    ([loop_remain]), statistics and subscriptions.

    Positions are offsets in the current binary.  A store beyond the end of a binary
    hits memory that is not modelled. *)
From stdpp Require Import strings.
From S2P Require Import Prelude ErlTerm Erts LoopDesc LoopMsg LoopHttp.
#[local] Open Scope Z_scope.

(** * Buffers *)

(** [memcpy (b->orig_bytes + off, src, ...)]. *)
Definition store (b : binary) (off : Z) (src : bytes) : binary :=
  take (length b) (memcpy_at b (Z.to_nat off) src).

Section Buf.
Context {Q : Type} `{PQ : !PortQueue Q} `{RT : !Runtime} `{E : !LoopEnv}.
Abbreviation W := (world Q).
Abbreviation Loop := (M W).

Definition set_stack (st : list binary) : Loop unit := modify (fun w : W =>
  World (desc w) st (async_ref w) (queue w) (calls w) (packets w)).
Definition set_queue (q : Q) : Loop unit := modify (fun w : W =>
  World (desc w) (buffer_stack w) (async_ref w) q (calls w) (packets w)).
(** Ghost: record a packet. *)
Definition handed (p : bytes) : Loop unit := modify (fun w : W =>
  World (desc w) (buffer_stack w) (async_ref w) (queue w) (calls w) (packets w ++ [p])).

Definition driver_alloc_binary (n : Z) : Loop (option binary) :=
  ok ← driver_alloc_ok n;
  w ← get;
  mret (if ok : bool then Some (fresh (calls w) n) else None).
Definition driver_realloc_binary (b : binary) (n : Z) : Loop (option binary) :=
  ok ← driver_alloc_ok n;
  w ← get;
  mret (if ok : bool then Some (take (Z.to_nat n) b ++ fresh (calls w) (n - orig_size b)) else None).

Definition alloc_buffer (minsz : Z) : Loop (option binary) :=
  w ← get;
  match buffer_stack w with
  | buf :: st =>
      set_stack st;;;
      if orig_size buf <? minsz then driver_realloc_binary buf minsz else mret (Some buf)
  | [] => driver_alloc_binary minsz
  end.

Definition release_buffer (buf : binary) : Loop unit :=
  w ← get;
  if (orig_size buf >? INET_MAX_BUFFER) || (BUFFER_STACK_SIZE <=? length (buffer_stack w))%nat
  then skip
  else set_stack (buf :: buffer_stack w).

Definition free_buffer (buf : binary) : Loop unit :=
  w ← get;
  if refc (calls w) =? 1 then release_buffer buf else skip.

Definition i_buf_bytes (d : loop_descriptor) : binary := default [] (i_buf d).

Definition loop_expand_buffer (len : Z) : Loop Z :=
  d ← get_desc;
  let ulen := int32 (i_ptr_start d + len) in
  if ulen <=? i_bufsz d then mret 0
  else if ulen <=? orig_size (i_buf_bytes d) then
    upd (w_i_bufsz ulen);;;
    mret 0
  else
    bin ← driver_realloc_binary (i_buf_bytes d) ulen;
    match bin with
    | None => mret (-1)
    | Some bin =>
        upd (w_i_buf (Some bin));;;
        upd (w_i_bufsz ulen);;;
        mret 0
    end.

(** The result of [alloc_buffer] is not tested in the source: without memory it is
    dereferenced, and nothing of what follows is meaningful. *)
Definition loop_push_buffer (buf : bytes) (len : Z) : Loop Z :=
  d ← get_desc;
  let src := take (Z.to_nat len) buf in
  match i_buf d with
  | None =>
      bin ← alloc_buffer len;
      upd (fun d => w_i_ptr len (w_i_ptr_start 0 (w_i_bufsz len
        (w_i_buf ((fun b => store b 0 src) <$> bin) d))))
  | Some b =>
      let sz_before := i_ptr_start d in
      let sz_filled := i_ptr d - i_ptr_start d in
      if len <=? sz_before then
        upd (fun d => w_i_ptr_start (i_ptr_start d - len)
          (w_i_buf (Some (store b (i_ptr_start d - len) src)) d))
      else
        bin ← alloc_buffer (int32 (i_bufsz d + len));
        let data := slice (Z.to_nat (i_ptr_start d)) (Z.to_nat sz_filled) b in
        free_buffer b;;;
        upd (fun d => w_i_ptr (sz_filled + len) (w_i_ptr_start 0
          (w_i_bufsz (int32 (i_bufsz d + len))
            (w_i_buf ((fun bin => store (store bin 0 src) len data) <$> bin) d))))
  end;;;
  upd (w_i_remain 0);;;
  mret 0.

Definition loop_clear_input : Loop unit :=
  d ← get_desc;
  match i_buf d with Some b => free_buffer b | None => skip end;;;
  upd (fun d => w_i_bufsz 0 (w_i_ptr_start 0 (w_i_ptr 0 (w_i_remain 0 (w_i_buf None d))))).

Definition loop_restart_input : Loop unit :=
  d ← get_desc;
  if negb (i_ptr_start d =? 0) then
    let n := i_ptr d - i_ptr_start d in
    let b := i_buf_bytes d in
    upd (fun d => w_i_ptr n (w_i_ptr_start 0
      (w_i_buf (Some (store b 0 (slice (Z.to_nat (i_ptr_start d)) (Z.to_nat n) b))) d)))
  else skip.

(** * Subscriptions

    [subs_list]: the first element is in the descriptor, a new one is linked after it. *)
Definition NO_SUBSCRIBERS (subs : list Z) : bool := match subs with [] => true | _ => false end.
Definition sizeof_subs_list := 16.

Definition save_subscriber (pid : Z) : Loop Z :=
  d ← get_inet;
  match empty_out_q_subs d with
  | [] => upd_inet (w_empty_out_q_subs [pid]);;; mret 1
  | s :: next =>
      ok ← driver_alloc_ok sizeof_subs_list;
      if ok : bool then
        upd_inet (w_empty_out_q_subs (s :: pid :: next));;;
        mret 1
      else mret 0
  end.

Definition free_subscribers : Loop unit := upd_inet (w_empty_out_q_subs []).

Fixpoint send_all (subs : list Z) (msg : spec) : Loop unit :=
  match subs with
  | [] => skip
  | s :: subs => driver_send_term s msg;;; send_all subs msg
  end.
Definition send_to_subscribers (free_subs : bool) (msg : spec) : Loop unit :=
  d ← get_inet;
  if NO_SUBSCRIBERS (empty_out_q_subs d) then skip else
  send_all (empty_out_q_subs d) msg;;;
  when free_subs do upd_inet (w_empty_out_q_subs []).

Definition send_empty_out_q_msgs : Loop unit :=
  d ← get_inet;
  if NO_SUBSCRIBERS (empty_out_q_subs d) then skip else
  send_to_subscribers true (empty_out_q_spec (dport d)).

Definition loop_clear_output : Loop unit :=
  w ← get;
  set_queue (driver_deq (queue w) (int32 (driver_sizeq (queue w))));;;
  send_empty_out_q_msgs.

(** * Statistics

    [unsigned long] has [ulong] bits. *)
Section Stats.
Context (ulong : Z).
(** [double + (int - double) / unsigned long]. *)
Definition d_avg (avg : double) (len n : Z) : double :=
  d_add avg (d_div (d_sub (d_of_Z len) avg) (d_of_Z n)).

Definition count_output (len : Z) (s : statistics) : statistics :=
  let n := wrap ulong (send_cnt s + 1) in
  let t := wrap ulong (send_oct0 s + len) in
  let c := c_bool (t <? send_oct0 s) in
  let avg := send_avg s in
  let s := s_send_oct0 t s in
  let s := s_send_oct1 (wrap ulong (send_oct1 s + c)) s in
  let n := if n =? 0 then 1 else n in
  let s := s_send_avg (d_avg avg len n) s in
  let s := if wrap ulong len >? send_max s then s_send_max (wrap ulong len) s else s in
  s_send_cnt n s.
Definition inet_output_count (len : Z) : Loop unit :=
  upd_inet (fun d => w_stats (count_output len (stats d)) d).

Definition count_input (len : Z) (s : statistics) : statistics :=
  let n := wrap ulong (recv_cnt s + 1) in
  let t := wrap ulong (recv_oct0 s + len) in
  let c := c_bool (t <? recv_oct0 s) in
  let avg := recv_avg s in
  let s := s_recv_oct0 t s in
  let s := s_recv_oct1 (wrap ulong (recv_oct1 s + c)) s in
  let n := if n =? 0 then 1 else n in
  let avg := d_avg avg len n in
  let s := s_recv_avg avg s in
  let s := if wrap ulong len >? recv_max s then s_recv_max (wrap ulong len) s else s in
  let dvi := recv_dvi s in
  let s := s_recv_dvi (d_add dvi (d_div (d_sub (d_sub (d_of_Z len) avg) dvi) (d_of_Z n))) s in
  s_recv_cnt n s.
Definition inet_input_count (len : Z) : Loop unit :=
  upd_inet (fun d => w_stats (count_input len (stats d)) d).
End Stats.
End Buf.

(** * Packets *)

Definition FCGI_VERSION_1 := 1.
Definition CDR_MAGIC := "GIOP"%string.
Definition TPKT_VRSN := 3.
Definition fcgi_head_size := 8.
Definition cdr_head_size := 12.
Definition tpkt_head_size := 4.

(** Where the cases of the [switch] go: the labels [done], [remain], [more] and
    [error], and the returns. *)
Inductive packet_case :=
  | Done (plen : Z) | Remain (plen hlen : Z) | More | PacketError.
#[export] Instance packet_case_eq_dec : EqDecision packet_case.
Proof. solve_decision. Defined.

(** [memchr] with an [int] count: a negative one is a huge [size_t]. *)
Definition memchr_int (p : bytes) (c n : Z) : option Z :=
  Z.of_nat <$> memchr p c (if n <? 0 then length p else Z.to_nat n).

(** The long tag of ASN.1: [while (nn && (( *tptr & 0x80) == 0x80)) { tptr++; nn--; }] *)
Fixpoint asn1_tag (tptr : bytes) (nn : Z) : bytes * Z :=
  match tptr with
  | c :: tptr' => if negb (nn =? 0) && ((c & 0x80)%C =? 0x80) then asn1_tag tptr' (nn - 1) else (tptr, nn)
  | [] => (tptr, nn)
  end.
(** The length field of ASN.1 at [tptr], [nn] characters remain. *)
Definition asn1_length (ptr tptr : bytes) (nn : Z) : packet_case :=
  let length := (byte_at tptr 0 & 0x7f)%C in
  let hlen_at (tptr : bytes) := Z.of_nat (List.length ptr) - Z.of_nat (List.length tptr) in
  if (byte_at tptr 0 & 0x80)%C =? 0x80 then
    let tptr := tail tptr in
    let nn := nn - 1 in
    if nn <? length then More
    else if length =? 1 then Remain (get_int8 tptr) (hlen_at (drop 1 tptr))
    else if length =? 2 then Remain (get_int16 tptr) (hlen_at (drop 2 tptr))
    else if length =? 3 then Remain (get_int24 tptr) (hlen_at (drop 3 tptr))
    else if length =? 4 then Remain (get_int32 tptr) (hlen_at (drop 4 tptr))
    else PacketError
  else Remain length (hlen_at (tail tptr)).
Definition asn1_case (ptr : bytes) (n : Z) : packet_case :=
  if n <? 2 then More else
  let nn := n - 1 in
  let tptr := tail ptr in
  if (byte_at ptr 0 & 0x1f)%C =? 0x1f then
    let '(tptr, nn) := asn1_tag tptr nn in
    if nn <? 2 then More else asn1_length ptr (tail tptr) (nn - 1)
  else asn1_length ptr tptr nn.

(** The lines of a header, [ptr1] is [ptr + off].  Every turn moves [ptr1]: [fuel]
    is the size of the memory. *)
Fixpoint http_lines (fuel : nat) (http_state : Z) (ptr : bytes) (off len n nsz nfill : Z) : packet_case :=
  match fuel with
  | O => More
  | S fuel =>
      match memchr_int (drop (Z.to_nat off) ptr) LF len with
      | None => if (nsz =? 0) && (nfill =? n) then Done n else More
      | Some i =>
          let plen := off + i + 1 in
          if http_state =? 0 then Done plen
          else if plen <? n then
            if SP (drop (Z.to_nat plen) ptr) then http_lines fuel http_state ptr plen (len - plen) n nsz nfill
            else Done plen
          else More
      end
  end.
Definition http_case (http_state : Z) (ptr : bytes) (n nsz nfill : Z) : packet_case :=
  if ((n =? 1) && NL ptr) || ((n =? 2) && CRNL ptr) then Done n
  else http_lines (S (length ptr)) http_state ptr 0 n n nsz nfill.

(** [ptr] is the memory from [i_ptr_start] on, [n] bytes of it are read. *)
Definition packet_case_of (htype http_state : Z) (ptr : bytes) (n nsz nfill : Z) : packet_case :=
  if htype =? TCP_PB_RAW then if n =? 0 then More else Done n
  else if htype =? TCP_PB_1 then
    if n <? 1 then More else Remain (get_int8 ptr) 1
  else if htype =? TCP_PB_2 then
    if n <? 2 then More else Remain (get_int16 ptr) 2
  else if htype =? TCP_PB_4 then
    if n <? 4 then More else Remain (get_int32 ptr) 4
  else if htype =? TCP_PB_RM then
    if n <? 4 then More else Remain (get_int32 ptr & 0x7fffffff)%C 4
  else if htype =? TCP_PB_LINE_LF then
    match memchr_int ptr LF n with
    | None => if (nsz =? 0) && (nfill =? n) then Done n else More
    | Some i => Done (i + 1)
    end
  else if htype =? TCP_PB_ASN1 then asn1_case ptr n
  else if htype =? TCP_PB_CDR then
    if n <? cdr_head_size then More
    else if negb (bool_decide (take 4 ptr = lit CDR_MAGIC)) then PacketError
    else if c_true (byte_at ptr 6 & 0x01)%C then Remain (get_little_int32 (drop 8 ptr)) cdr_head_size
    else Remain (get_int32 (drop 8 ptr)) cdr_head_size
  else if htype =? TCP_PB_FCGI then
    if n <? fcgi_head_size then More
    else if negb (byte_at ptr 0 =? FCGI_VERSION_1) then PacketError
    else Remain ((byte_at ptr 4 << 8 |. byte_at ptr 5)%C + byte_at ptr 6) fcgi_head_size
  else if htype =? TCP_PB_HTTPH then http_case 1 ptr n nsz nfill
  else if htype =? TCP_PB_HTTP then http_case http_state ptr n nsz nfill
  else if htype =? TCP_PB_TPKT then
    if n <? tpkt_head_size then More
    else if byte_at ptr 0 =? TPKT_VRSN then
      let plen := get_int16 (drop 2 ptr) - tpkt_head_size in
      if plen <? 0 then PacketError else Remain plen tpkt_head_size
    else PacketError
  else PacketError.

Section Remain.
Context {Q : Type} `{PQ : !PortQueue Q} `{RT : !Runtime} `{E : !LoopEnv}.

(** The result and [*len]; [*len] is 0 where the source leaves it alone, on an error. *)
Definition loop_remain : M (world Q) (Z * Z) :=
  d ← get_desc;
  let ptr := drop (Z.to_nat (i_ptr_start d)) (i_buf_bytes d) in
  let nfill := i_ptr d in
  let nsz := i_bufsz d - nfill in
  let n := i_ptr d - i_ptr_start d in
  when htype (inet d) =? TCP_PB_HTTPH do upd (w_http_state 1);;;
  match packet_case_of (htype (inet d)) (http_state d) ptr n nsz nfill with
  | Done plen => mret (0, plen)
  | Remain plen hlen =>
      let total := int32 (plen + hlen) in
      let remain := int32 (total - n) in
      if remain <=? 0 then mret (0, total)
      else
        r ← loop_expand_buffer total;
        if r <? 0 then mret (-1, 0) else mret (remain, remain)
  | More =>
      if nsz =? 0 then
        if nfill =? n then mret (-1, 0) else mret (nfill - n, 0)
      else mret (nsz, 0)
  | PacketError => mret (-1, 0)
  end.
End Remain.

(** * Stores and slices *)

Section Store.
Implicit Types (b src : bytes).
Lemma length_store b off src : length (store b off src) = length b.
Proof. unfold store, memcpy_at. autorewrite with clen. lia. Qed.
Lemma orig_size_store b off src : orig_size (store b off src) = orig_size b.
Proof. unfold orig_size. by rewrite length_store. Qed.
Lemma store_fits b off src : 0 <= off -> off + Z.of_nat (length src) <= orig_size b ->
  store b off src = memcpy_at b (Z.to_nat off) src.
Proof.
  unfold orig_size. intros. unfold store. apply take_ge. rewrite length_memcpy_at; lia.
Qed.
Lemma slice_store b off src : 0 <= off -> off + Z.of_nat (length src) <= orig_size b ->
  slice (Z.to_nat off) (length src) (store b off src) = src.
Proof.
  intros. rewrite store_fits, slice_drop_take, take_memcpy_at by (done || (unfold orig_size in *; lia)).
  rewrite drop_app_ge, length_take by (rewrite length_take; lia).
  replace (Z.to_nat off - Z.to_nat off `min` length b)%nat with 0%nat; [done|]. unfold orig_size in *. lia.
Qed.
(** Appending at the end of a slice. *)
Lemma slice_store_append b o off src : 0 <= o <= off -> off + Z.of_nat (length src) <= orig_size b ->
  slice (Z.to_nat o) (Z.to_nat (off + Z.of_nat (length src) - o)) (store b off src) =
  slice (Z.to_nat o) (Z.to_nat (off - o)) b ++ src.
Proof.
  unfold orig_size. intros. rewrite store_fits, !slice_drop_take by (unfold orig_size; lia).
  replace (Z.to_nat o + Z.to_nat (off + Z.of_nat (length src) - o))%nat
    with (Z.to_nat off + length src)%nat by lia.
  replace (Z.to_nat o + Z.to_nat (off - o))%nat with (Z.to_nat off) by lia.
  rewrite take_memcpy_at, drop_app_le by (rewrite ?length_take; lia). done.
Qed.
(** Stores elsewhere do not matter. *)
Lemma slice_store_after b off src o n : 0 <= off -> off + Z.of_nat (length src) <= orig_size b ->
  off + Z.of_nat (length src) <= o -> slice (Z.to_nat o) n (store b off src) = slice (Z.to_nat o) n b.
Proof.
  unfold orig_size. intros. rewrite store_fits by (unfold orig_size; lia).
  unfold slice, memcpy_at. f_equal. rewrite app_assoc, drop_app_ge; autorewrite with clen; [|lia].
  rewrite drop_drop. f_equal. lia.
Qed.
End Store.

(** Run straight-line code of the driver. *)
Ltac lrun := cbv [upd upd_inet get_desc get_inet set_stack set_queue handed
  mbind M_bind mret M_ret get gets modify skip act]; cbn.

(** * The buffer invariant *)

(** The bytes read and not yet delivered. *)
Definition unread (d : loop_descriptor) : bytes :=
  slice (Z.to_nat (i_ptr_start d)) (Z.to_nat (i_ptr d - i_ptr_start d)) (i_buf_bytes d).

(** The positions are in order and inside the binary, and so is what is still to be read;
    a cleared buffer has them all 0. *)
Record buf_ok (d : loop_descriptor) : Prop := BufOk {
  ok_start : 0 <= i_ptr_start d <= i_ptr d;
  ok_size : i_ptr d <= i_bufsz d <= orig_size (i_buf_bytes d);
  ok_remain : 0 <= i_remain d;
  ok_read : i_ptr d + i_remain d <= i_bufsz d;
  ok_int : i_bufsz d < 2 ^ 31;
}.
Lemma length_unread d : buf_ok d -> Z.of_nat (length (unread d)) = i_ptr d - i_ptr_start d.
Proof. intros []. unfold unread, orig_size in *. rewrite length_slice. lia. Qed.

(** Two descriptors with the same buffer. *)
Definition buf_view (d : loop_descriptor) : Z * option binary * Z * Z * Z :=
  (i_bufsz d, i_buf d, i_ptr d, i_ptr_start d, i_remain d).
Lemma buf_view_ok d d' : buf_view d = buf_view d' -> buf_ok d -> buf_ok d'.
Proof.
  intros [= E1 E2 E3 E4 E5] []. split; unfold i_buf_bytes in *; congruence.
Qed.
Lemma buf_view_unread d d' : buf_view d = buf_view d' -> unread d = unread d'.
Proof. intros [= E1 E2 E3 E4 E5]. unfold unread, i_buf_bytes. congruence. Qed.

Section Ops.
Context {Q : Type} `{PQ : !PortQueue Q} `{RT : !Runtime} `{E : !LoopEnv} `{EL : !LoopEnvLaws E}.
Implicit Types (w : world Q).

(** Everything but the buffer, the stack and the state of HTTP. *)
Definition rest_view w : inet_descriptor * Z * Q * log * list bytes :=
  (inet (desc w), async_ref w, queue w, calls w, packets w).

Lemma alloc_buffer_spec n w : 0 <= n ->
  let r := alloc_buffer n w in
  desc (snd r) = desc w /\ rest_view (snd r) = rest_view w /\
  (forall b, fst r = Some b -> n <= orig_size b) /\
  (Memory -> fst r <> None).
Proof.
  intros Hn. unfold alloc_buffer, driver_realloc_binary, driver_alloc_binary, driver_alloc_ok, set_stack.
  destruct w as [d [|b st] ar q cs ps]; lrun.
  - split_and!; [done|done| |].
    + destruct (alloc_ok _ _); [|done]. intros b [= <-]. unfold orig_size. rewrite fresh_length. lia.
    + intros Hm. by rewrite (Hm _ _).
  - destruct (Z.ltb_spec (orig_size b) n); lrun; split_and!; try done.
    + destruct (alloc_ok _ _); [|done]. intros b' [= <-]. unfold orig_size in *.
      rewrite length_app, Nat2Z.inj_add, fresh_length, length_take. lia.
    + intros Hm. by rewrite (Hm _ _).
    + by intros b' [= <-].
Qed.
Lemma free_buffer_view b w : desc (snd (free_buffer b w)) = desc w /\
  rest_view (snd (free_buffer b w)) = rest_view w.
Proof.
  unfold free_buffer, release_buffer, mbind, M_bind, get.
  destruct (_ =? 1); [|done]. destruct (_ || _); done.
Qed.

Lemma loop_restart_input_spec w : buf_ok (desc w) -> let w' := snd (loop_restart_input w) in
  buf_ok (desc w') /\ unread (desc w') = unread (desc w) /\ rest_view w' = rest_view w /\
  i_ptr_start (desc w') = 0 /\ i_remain (desc w') = i_remain (desc w) /\
  (i_buf (desc w') = None -> i_buf (desc w) = None) /\
  i_ptr (desc w') <= i_ptr (desc w) /\ i_bufsz (desc w') = i_bufsz (desc w).
Proof.
  intros Hok w'. pose proof (length_unread _ Hok) as Hl. destruct Hok.
  unfold w', loop_restart_input. rewrite (bind_eq get_desc _ _ _ _ eq_refl).
  destruct (Z.eqb_spec (i_ptr_start (desc w)) 0) as [E0|E0]; cbn [negb].
  { split_and!; done || lia. }
  assert (exists u, u = unread (desc w)) as [u Eu] by eauto. rewrite <-Eu in *.
  assert (0 + Z.of_nat (length u) <= orig_size (i_buf_bytes (desc w))) by lia.
  cbn. split_and!; try done || lia.
  - split; cbn; rewrite ?orig_size_store; lia.
  - unfold unread. cbn. fold (unread (desc w)). rewrite <-Eu, Z.sub_0_r, <-Hl, Nat2Z.id. by apply (slice_store _ 0).
Qed.

Lemma loop_expand_buffer_spec len w : buf_ok (desc w) -> 0 <= i_ptr_start (desc w) + len < 2 ^ 31 ->
  let r := loop_expand_buffer len w in let w' := snd r in
  buf_ok (desc w') /\ unread (desc w') = unread (desc w) /\ rest_view w' = rest_view w /\
  i_ptr_start (desc w') = i_ptr_start (desc w) /\ i_ptr (desc w') = i_ptr (desc w) /\
  i_remain (desc w') = i_remain (desc w) /\ fst r <= 0 /\
  (i_buf (desc w') = None -> i_buf (desc w) = None) /\
  (0 <= fst r -> i_ptr_start (desc w) + len <= i_bufsz (desc w')) /\
  (Memory -> fst r = 0) /\
  i_bufsz (desc w) <= i_bufsz (desc w') <= Z.max (i_bufsz (desc w)) (i_ptr_start (desc w) + len).
Proof.
  intros Hok Hlen r w'. pose proof Hok as [Hs Hz Hr Hp Hi]. unfold w', r, loop_expand_buffer.
  rewrite (bind_eq get_desc _ _ _ _ eq_refl), sint_small by lia.
  destruct (Z.leb_spec (i_ptr_start (desc w) + len) (i_bufsz (desc w))) as [H1|H1].
  { cbn [fst snd mret M_ret]. split_and!; done || lia. }
  destruct (Z.leb_spec (i_ptr_start (desc w) + len) (orig_size (i_buf_bytes (desc w)))) as [H2|H2].
  { lrun. split_and!; try done || lia. split; cbn; unfold i_buf_bytes in *; lia. }
  set (u := i_ptr_start (desc w) + len) in *.
  unfold driver_realloc_binary, driver_alloc_ok. lrun. destruct (alloc_ok (calls w) u) eqn:Ea; lrun.
  2: { split_and!; try done || lia. intros Hm. by rewrite (Hm _ _) in Ea. }
  assert (orig_size (take (Z.to_nat u) (i_buf_bytes (desc w)) ++
    fresh (calls w) (u - orig_size (i_buf_bytes (desc w)))) = u) as Esz.
  { unfold orig_size in *. rewrite length_app, Nat2Z.inj_add, fresh_length, length_take. lia. }
  split_and!; try done || lia.
  - split; cbn; unfold i_buf_bytes in *; cbn; rewrite ?Esz; lia.
  - unfold unread, i_buf_bytes in *. cbn. rewrite !slice_drop_take.
    unfold orig_size in *. rewrite take_app_le by (rewrite length_take; lia). rewrite take_take.
    do 2 f_equal. lia.
Qed.

(** ** Packets *)

Lemma memchr_lt p c n i : memchr p c n = Some i -> (i < n)%nat.
Proof.
  revert p i. induction n as [|n IH]; intros [|x p] i; try done. cbn. destruct (x =? c).
  - intros [= <-]. lia.
  - destruct (memchr p c n) eqn:Em; [|done]. intros [= <-]. specialize (IH _ _ Em). lia.
Qed.
Lemma memchr_int_lt p c n i : 0 <= n -> memchr_int p c n = Some i -> 0 <= i < n.
Proof.
  intros Hn. unfold memchr_int. rewrite (proj2 (Z.ltb_ge n 0)) by done.
  destruct (memchr _ _ _) eqn:Em; [|done]. intros [= <-]. apply memchr_lt in Em. lia.
Qed.
Lemma memchr_int_nonneg p c n i : memchr_int p c n = Some i -> 0 <= i.
Proof. unfold memchr_int. destruct (memchr _ _ _); [|done]. intros [= <-]. lia. Qed.
Lemma http_lines_done fuel hs ptr off len n nsz nfill plen :
  0 <= off -> 0 <= n -> (hs = 0 -> 0 <= len /\ off + len <= n) ->
  http_lines fuel hs ptr off len n nsz nfill = Done plen -> 0 <= plen <= n.
Proof.
  revert off len. induction fuel as [|fuel IH]; intros off len Ho Hn Hh; [done|]. cbn [http_lines].
  destruct (memchr_int _ _ _) as [i|] eqn:Em.
  2: { destruct (_ && _); [|done]. intros [= <-]. lia. }
  pose proof (memchr_int_nonneg _ _ _ _ Em).
  destruct (Z.eqb_spec hs 0) as [E0|E0].
  { intros [= <-]. specialize (Hh E0). apply memchr_int_lt in Em; lia. }
  destruct (Z.ltb_spec (off + i + 1) n); [|done].
  destruct (SP _); [apply IH; [lia..|done]|]. intros [= <-]. lia.
Qed.
Lemma asn1_length_done ptr tptr nn plen : asn1_length ptr tptr nn <> Done plen.
Proof. unfold asn1_length. repeat case_match; done. Qed.
Lemma packet_case_done htype hs ptr n nsz nfill plen : 0 <= n ->
  packet_case_of htype hs ptr n nsz nfill = Done plen -> 0 <= plen <= n.
Proof.
  intros Hn. unfold packet_case_of.
  destruct (htype =? TCP_PB_RAW). { destruct (n =? 0); [done|]. intros [= <-]. lia. }
  destruct (htype =? TCP_PB_1). { by case_match. } destruct (htype =? TCP_PB_2). { by case_match. }
  destruct (htype =? TCP_PB_4). { by case_match. } destruct (htype =? TCP_PB_RM). { by case_match. }
  destruct (htype =? TCP_PB_LINE_LF).
  { destruct (memchr_int ptr LF n) as [i|] eqn:Em.
    - intros [= <-]. apply memchr_int_lt in Em; lia.
    - destruct (_ && _); [|done]. intros [= <-]. lia. }
  destruct (htype =? TCP_PB_ASN1).
  { unfold asn1_case. destruct (n <? 2); [done|]. destruct (_ =? 0x1f).
    - destruct (asn1_tag _ _) as [tptr nn]. destruct (nn <? 2); [done|]. intros Hd. by apply asn1_length_done in Hd.
    - intros Hd. by apply asn1_length_done in Hd. }
  destruct (htype =? TCP_PB_CDR). { repeat case_match; done. }
  destruct (htype =? TCP_PB_FCGI). { repeat case_match; done. }
  assert (forall hs, http_case hs ptr n nsz nfill = Done plen -> 0 <= plen <= n) as Hhttp.
  { intros hs'. unfold http_case. destruct (_ || _); [intros [= <-]; lia|].
    apply http_lines_done; lia. }
  destruct (htype =? TCP_PB_HTTPH); [apply Hhttp|]. destruct (htype =? TCP_PB_HTTP); [apply Hhttp|].
  repeat case_match; done.
Qed.

Definition case_at (d : loop_descriptor) : packet_case :=
  packet_case_of (htype (inet d)) (http_state d) (drop (Z.to_nat (i_ptr_start d)) (i_buf_bytes d))
    (i_ptr d - i_ptr_start d) (i_bufsz d - i_ptr d) (i_ptr d).
(** The size a packet header claims, added to the position, is an [int]. *)
Definition size_fits (d : loop_descriptor) : Prop :=
  match case_at d with
  | Remain plen hlen => - 2 ^ 31 <= int32 (plen + hlen) - (i_ptr d - i_ptr_start d) /\
                        i_ptr_start d + int32 (plen + hlen) < 2 ^ 31
  | _ => True
  end.
Definition set_http (w : world Q) : world Q :=
  if htype (inet (desc w)) =? TCP_PB_HTTPH then snd (upd (w_http_state 1) w) else w.

(** What [loop_remain] promises: [r] and [len] are its results. *)
Record remain_spec w (r len : Z) (w' : world Q) : Prop := RemainSpec {
  rs_ok : buf_ok (desc w');
  rs_unread : unread (desc w') = unread (desc w);
  rs_rest : rest_view w' = rest_view w;
  rs_start : i_ptr_start (desc w') = i_ptr_start (desc w);
  rs_ptr : i_ptr (desc w') = i_ptr (desc w);
  rs_remain : i_remain (desc w') = i_remain (desc w);
  rs_buf : i_buf (desc w') = None -> i_buf (desc w) = None;
  rs_done : r = 0 -> len <= i_ptr (desc w) - i_ptr_start (desc w);
  rs_len : r <> 0 -> 0 <= len;
  rs_exact : 0 < r -> 0 < len -> len = r /\ i_ptr (desc w) + r <= i_bufsz (desc w');
  rs_bufsz : i_bufsz (desc w) <= i_bufsz (desc w');
  rs_upper : 0 < r -> len = 0 -> i_ptr (desc w) + r = i_bufsz (desc w') \/ r = i_ptr_start (desc w);
}.
Lemma loop_remain_eq w : loop_remain w =
  (match case_at (desc w) with
  | Done plen => mret (0, plen)
  | Remain plen hlen =>
      let total := int32 (plen + hlen) in
      let remain := int32 (total - (i_ptr (desc w) - i_ptr_start (desc w))) in
      if remain <=? 0 then mret (0, total)
      else
        r ← loop_expand_buffer total;
        if r <? 0 then mret (-1, 0) else mret (remain, remain)
  | More =>
      let nsz := i_bufsz (desc w) - i_ptr (desc w) in
      if nsz =? 0 then
        if i_ptr (desc w) =? i_ptr (desc w) - i_ptr_start (desc w) then mret (-1, 0)
        else mret (i_ptr (desc w) - (i_ptr (desc w) - i_ptr_start (desc w)), 0)
      else mret (nsz, 0)
  | PacketError => mret (-1, 0)
  end) (set_http w).
Proof.
  unfold loop_remain, set_http. rewrite (bind_eq get_desc _ _ _ _ eq_refl).
  destruct (_ =? TCP_PB_HTTPH); reflexivity.
Qed.
Lemma set_http_view w : buf_view (desc (set_http w)) = buf_view (desc w) /\ rest_view (set_http w) = rest_view w.
Proof. unfold set_http. by destruct (_ =? _). Qed.

Lemma loop_remain_spec w : buf_ok (desc w) -> size_fits (desc w) ->
  let r := loop_remain w in remain_spec w (fst (fst r)) (snd (fst r)) (snd r).
Proof.
  intros Hok Hfit r. subst r. rewrite loop_remain_eq.
  destruct (set_http_view w) as [Ev Er]. pose proof (buf_view_unread _ _ Ev) as Eu.
  pose proof (buf_view_ok _ _ (eq_sym Ev) Hok) as Hok'.
  injection Ev as E1 E2 E3 E4 E5. pose proof Hok as [Hs Hz Hr Hp Hi].
  assert (forall r len, 
    (r = 0 -> len <= i_ptr (desc w) - i_ptr_start (desc w)) -> (r <> 0 -> len = 0) ->
    (0 < r -> i_ptr (desc w) + r = i_bufsz (desc w) \/ r = i_ptr_start (desc w)) ->
    remain_spec w r len (set_http w)) as Hsame.
  { intros r len H1 H2 H3. split; try done; try congruence; rewrite ?E1; intros; try lia; auto. }
  unfold size_fits in Hfit. destruct (case_at (desc w)) as [plen|plen hlen| |] eqn:Ec; cbv zeta.
  - cbn [fst snd mret M_ret]. apply Hsame; [|done|lia]. intros _. apply packet_case_done in Ec; lia.
  - destruct Hfit as [Hf1 Hf2].
    assert (i_ptr_start (desc w) + int32 (plen + hlen) < 2 ^ 31) by done.
    pose proof (sint_range 32 (plen + hlen) ltac:(lia)) as Hrange. change (2 ^ (32 - 1)) with (2 ^ 31) in Hrange.
    set (total := int32 (plen + hlen)) in *. rewrite sint_small by lia.
    destruct (Z.leb_spec (total - (i_ptr (desc w) - i_ptr_start (desc w))) 0).
    { cbn [fst snd mret M_ret]. apply Hsame; lia. }
    destruct (loop_expand_buffer_spec total (set_http w) Hok' ltac:(lia)) as
      (Hok2 & Eu2 & Er2 & Es2 & Ep2 & Ei2 & Hle & Hn2 & Hsz & _ & Hgrow).
    destruct (loop_expand_buffer total (set_http w)) as [r2 w2] eqn:Ex. cbn [fst snd] in *.
    rewrite (bind_eq _ _ _ _ _ Ex).
    destruct (Z.ltb_spec r2 0); cbn [fst snd mret M_ret]; split; try done; try congruence; try lia;
      try (intros Hn; apply Hn2 in Hn; congruence).
  - destruct (Z.eqb_spec (i_bufsz (desc w) - i_ptr (desc w)) 0).
    + destruct (_ =? _); cbn [fst snd mret M_ret]; apply Hsame; lia.
    + cbn [fst snd mret M_ret]. apply Hsame; lia.
  - cbn [fst snd mret M_ret]. apply Hsame; lia.
Qed.
End Ops.

(** * Pushing data back *)

Lemma slice_store_before b off src n : 0 <= off -> off + Z.of_nat (length src) + n <= orig_size b -> 0 <= n ->
  slice (Z.to_nat off) (Z.to_nat (Z.of_nat (length src) + n)) (store b off src) =
  src ++ slice (Z.to_nat (off + Z.of_nat (length src))) (Z.to_nat n) b.
Proof.
  intros. rewrite Z2Nat.inj_add, Nat2Z.id, slice_split, slice_store by lia. f_equal.
  replace (Z.to_nat off + length src)%nat with (Z.to_nat (off + Z.of_nat (length src))) by lia.
  apply slice_store_after; lia.
Qed.

(** With memory, pushing data back ([unrecv]) puts it in front of the bytes not yet delivered,
    in the space before them or in a new buffer, keeps the positions inside the binary and
    changes nothing else. *)
Theorem push_buffer_prepends {Q} `{PQ : !PortQueue Q} `{RT : !Runtime} `{E : !LoopEnv}
    `{MEM : !Memory} `{EL : !LoopEnvLaws E} (w : world Q) buf :
  buf_ok (desc w) ->
  i_bufsz (desc w) + Z.of_nat (length buf) < 2 ^ 31 ->
  let w' := snd (loop_push_buffer buf (Z.of_nat (length buf)) w) in
  buf_ok (desc w') /\ unread (desc w') = buf ++ unread (desc w) /\
  i_remain (desc w') = 0 /\ rest_view w' = rest_view w.
Proof.
  intros Hok Hsz w'. pose proof (length_unread _ Hok) as Hl. pose proof Hok as [Hs Hz Hr Hp Hi].
  unfold w', loop_push_buffer. rewrite Nat2Z.id, take_ge by lia.
  rewrite (bind_eq get_desc _ _ _ _ eq_refl).
  destruct (i_buf (desc w)) as [b|] eqn:Eb.
  - assert (i_buf_bytes (desc w) = b) as Ebb by (unfold i_buf_bytes; by rewrite Eb).
    rewrite Ebb in *. cbv zeta.
    destruct (Z.leb_spec (Z.of_nat (length buf)) (i_ptr_start (desc w))).
    + lrun. split_and!; [|unfold unread; cbn|done|done].
      * split; cbn; rewrite ?orig_size_store; lia.
      * replace (i_ptr (desc w) - (i_ptr_start (desc w) - Z.of_nat (length buf)))
          with (Z.of_nat (length buf) + (i_ptr (desc w) - i_ptr_start (desc w))) by lia.
        rewrite slice_store_before, Ebb by lia. do 3 f_equal. lia.
    + destruct (alloc_buffer_spec (int32 (i_bufsz (desc w) + Z.of_nat (length buf))) w) as (Ed & Er & Hb & Hn).
      { rewrite sint_small; lia. }
      destruct (alloc_buffer _ w) as [[bin|] w1] eqn:Ea; cbn [fst snd] in *; [|by destruct (Hn MEM)].
      assert (i_bufsz (desc w) + Z.of_nat (length buf) <= orig_size bin) as Hbin.
      { rewrite sint_small in Hb by lia. by apply Hb. }
      destruct (free_buffer_view b w1) as [Ed2 Er2].
      destruct (free_buffer b w1) as [[] w2] eqn:Ef. cbn [snd] in *.
      assert (slice (Z.to_nat (i_ptr_start (desc w))) (Z.to_nat (i_ptr (desc w) - i_ptr_start (desc w))) b
        = unread (desc w)) as Eu by (unfold unread; by rewrite Ebb).
      cbv [mbind M_bind upd modify mret M_ret]. rewrite Ea. cbv beta iota zeta. rewrite Ef, Eu.
      cbn [fmap option_fmap option_map]. rewrite Ed2, Ed, sint_small by lia.
      assert (Z.of_nat (length buf) + Z.of_nat (length (unread (desc w))) <=
        orig_size (store bin 0 buf)) by (rewrite orig_size_store; lia).
      injection Er2 as Ei2 Ea2 Eq2 Ec2 Ep2. injection Er as Ei1 Ea1 Eq1 Ec1 Ep1.
      cbn. split_and!; [|unfold unread; cbn|done|unfold rest_view; cbn; congruence].
      * split; cbn; rewrite ?orig_size_store; lia.
      * fold (unread (desc w)). rewrite Z.sub_0_r, <-Hl.
        pose proof (slice_store_append (store bin 0 buf) 0 (Z.of_nat (length buf)) (unread (desc w))) as Hap.
        rewrite !Z.sub_0_r in Hap.
        replace (Z.of_nat (length (unread (desc w))) + Z.of_nat (length buf))
          with (Z.of_nat (length buf) + Z.of_nat (length (unread (desc w)))) by lia.
        rewrite Hap, Nat2Z.id by lia. f_equal. apply (slice_store bin 0 buf); lia.
  - assert (i_buf_bytes (desc w) = []) as Ebb by (unfold i_buf_bytes; by rewrite Eb).
    rewrite Ebb in Hz. unfold orig_size in Hz. cbn in Hz.
    destruct (alloc_buffer_spec (Z.of_nat (length buf)) w) as (Ed & Er & Hb & Hn); [lia|].
    destruct (alloc_buffer _ w) as [[bin|] w1] eqn:Ea; cbn [fst snd] in *; [|by destruct (Hn MEM)].
    specialize (Hb bin eq_refl).
    cbv [mbind M_bind upd modify mret M_ret]. rewrite Ea. cbn [fmap option_fmap option_map].
    injection Er as Ei1 Ea1 Eq1 Ec1 Ep1.
    cbn. rewrite Ed. split_and!; [|unfold unread; cbn|done|unfold rest_view; cbn; congruence].
    + split; cbn; rewrite ?orig_size_store; lia.
    + rewrite Z.sub_0_r, Nat2Z.id. rewrite (slice_store bin 0 buf) by lia.
      fold (unread (desc w)). destruct (unread (desc w)); [by rewrite app_nil_r|cbn in *; lia].
Qed.

(** * Counters *)

Definition sum (ls : list Z) : Z := fold_right Z.add 0 ls.
Definition send_total (ulong : Z) (s : statistics) : Z := send_oct1 s * 2 ^ ulong + send_oct0 s.
Definition recv_total (ulong : Z) (s : statistics) : Z := recv_oct1 s * 2 ^ ulong + recv_oct0 s.
Definition counters_ok (ulong : Z) (s : statistics) : Prop :=
  0 <= send_oct0 s < 2 ^ ulong /\ 0 <= send_oct1 s < 2 ^ ulong /\
  0 <= recv_oct0 s < 2 ^ ulong /\ 0 <= recv_oct1 s < 2 ^ ulong.

(** Adding to two words with the carry of the comparison. *)
Lemma carry_add u lo hi n : 0 < u -> 0 <= lo < 2 ^ u -> 0 <= hi -> 0 <= n < 2 ^ u ->
  let t := wrap u (lo + n) in
  wrap u (hi + c_bool (t <? lo)) * 2 ^ u + t = (hi * 2 ^ u + lo + n) `mod` 2 ^ (2 * u).
Proof.
  intros Hu Hlo Hhi Hn t. assert (0 < 2 ^ u) by lia.
  replace (2 ^ (2 * u)) with (2 ^ u * 2 ^ u) by (rewrite <-Z.pow_add_r by lia; f_equal; lia).
  assert (hi * 2 ^ u + lo + n = (hi + c_bool (t <? lo)) * 2 ^ u + t) as ->.
  { unfold t, wrap. destruct (Z.ltb_spec ((lo + n) `mod` 2 ^ u) lo) as [Hlt|Hge]; cbn [c_bool].
    - assert ((lo + n) `mod` 2 ^ u = lo + n - 2 ^ u); [|lia].
      destruct (Z.lt_ge_cases (lo + n) (2 ^ u)); [rewrite Z.mod_small in Hlt by lia; lia|].
      symmetry. apply Z.mod_unique with 1; lia.
    - rewrite Z.mod_small; [lia|]. split; [lia|].
      destruct (Z.lt_ge_cases (lo + n) (2 ^ u)); [done|].
      assert ((lo + n) `mod` 2 ^ u = lo + n - 2 ^ u); [|lia].
      symmetry. apply Z.mod_unique with 1; lia. }
  assert (0 <= t < 2 ^ u) by (apply wrap_range; lia).
  rewrite (Z.add_comm _ t), (Z.add_comm _ t), (Z.mul_comm (wrap _ _)), (Z.mul_comm (hi + _)).
  rewrite Z.rem_mul_r by lia. rewrite (Z.mul_comm (2 ^ u) (hi + _)), Z.mod_add, Z.div_add by lia.
  rewrite Z.mod_small, Z.div_small by done. done.
Qed.
Lemma count_output_octets u len s : 32 <= u -> counters_ok u s -> 0 <= len < 2 ^ 31 ->
  counters_ok u (count_output u len s) /\
  send_total u (count_output u len s) = (send_total u s + len) `mod` 2 ^ (2 * u) /\
  recv_total u (count_output u len s) = recv_total u s /\
  send_max (count_output u len s) = Z.max (send_max s) len.
Proof.
  intros Hu (H1 & H2 & H3 & H4) Hl.
  assert (2 ^ 32 <= 2 ^ u) by (apply Z.pow_le_mono_r; lia).
  unfold count_output. rewrite (wrap_small u len) by lia. rewrite Z.gtb_ltb.
  match goal with |- context [Z.ltb ?a len] => change a with (send_max s) end.
  destruct (Z.ltb_spec (send_max s) len) as [Hm|Hm];
    unfold counters_ok, send_total, recv_total; cbn;
    (split_and!; try apply wrap_range; try lia; try done);
    (rewrite (carry_add u (send_oct0 s) (send_oct1 s) len) by lia; done).
Qed.
Lemma count_input_octets u len s : 32 <= u -> counters_ok u s -> 0 <= len < 2 ^ 31 ->
  counters_ok u (count_input u len s) /\
  recv_total u (count_input u len s) = (recv_total u s + len) `mod` 2 ^ (2 * u) /\
  send_total u (count_input u len s) = send_total u s /\
  recv_max (count_input u len s) = Z.max (recv_max s) len.
Proof.
  intros Hu (H1 & H2 & H3 & H4) Hl.
  assert (2 ^ 32 <= 2 ^ u) by (apply Z.pow_le_mono_r; lia).
  unfold count_input. rewrite (wrap_small u len) by lia. rewrite Z.gtb_ltb.
  match goal with |- context [Z.ltb ?a len] => change a with (recv_max s) end.
  destruct (Z.ltb_spec (recv_max s) len) as [Hm|Hm];
    unfold counters_ok, send_total, recv_total; cbn;
    (split_and!; try apply wrap_range; try lia; try done);
    (rewrite (carry_add u (recv_oct0 s) (recv_oct1 s) len) by lia; done).
Qed.

(** The octet counters are exact: over any sequence of packets sent and received, the two
    words of each direction hold the sum of the lengths, modulo the square of the word size, and
    the maximum is the longest packet. *)
Theorem octets_exact u outs ins s : 32 <= u -> counters_ok u s ->
  Forall (fun l => 0 <= l < 2 ^ 31) outs -> Forall (fun l => 0 <= l < 2 ^ 31) ins ->
  send_total u s < 2 ^ (2 * u) -> recv_total u s < 2 ^ (2 * u) ->
  let s' := fold_left (fun s l => count_input u l s) ins
              (fold_left (fun s l => count_output u l s) outs s) in
  counters_ok u s' /\
  send_total u s' = (send_total u s + sum outs) `mod` 2 ^ (2 * u) /\
  recv_total u s' = (recv_total u s + sum ins) `mod` 2 ^ (2 * u).
Proof.
  intros Hu Hok Houts Hins Hs Hr s'.
  assert (forall t, counters_ok u t -> 0 <= send_total u t /\ 0 <= recv_total u t) as Hpos.
  { intros t (?&?&?&?). unfold send_total, recv_total. nia. }
  assert (0 < 2 ^ (2 * u)) as Hm by lia.
  subst s'. revert s Hok Hs Hr. induction Houts as [|l outs Hl Houts IH]; intros s Hok Hs Hr.
  - cbn [fold_left sum fold_right]. rewrite Z.add_0_r, (Z.mod_small (send_total u s)) by (destruct (Hpos s Hok); lia).
    revert s Hok Hs Hr. induction Hins as [|l ins Hl Hins IH]; intros s Hok Hs Hr.
    + cbn. rewrite Z.add_0_r, Z.mod_small by (destruct (Hpos s Hok); lia). done.
    + cbn [fold_left sum fold_right]. destruct (count_input_octets u l s Hu Hok Hl) as (Hok' & Hr' & Hs' & _).
      destruct (IH _ Hok' ltac:(by rewrite Hs') ltac:(rewrite Hr'; apply Z.mod_pos_bound; lia)) as (? & -> & ->).
      split_and!; [done|done|]. rewrite Hr', Zplus_mod_idemp_l. f_equal. unfold sum. lia.
  - cbn [fold_left]. destruct (count_output_octets u l s Hu Hok Hl) as (Hok' & Hs' & Hr' & _).
    destruct (IH _ Hok' ltac:(rewrite Hs'; apply Z.mod_pos_bound; lia) ltac:(by rewrite Hr')) as (? & -> & ->).
    split_and!; [done| |by rewrite Hr'].
    cbn [sum fold_right]. rewrite Hs', Zplus_mod_idemp_l. f_equal. unfold sum. lia.
Qed.

(** * Subscribers *)

Lemma send_all_calls {Q} `{RT : !Runtime} subs msg (w : world Q) :
  snd (send_all subs msg w) = set_log (calls w ++ map (fun s => SendTerm s msg) subs) w.
Proof.
  revert w. induction subs as [|s subs IH]; intros w.
  - cbn. rewrite app_nil_r. by destruct w.
  - cbn [send_all map]. unfold driver_send_term, do_call. cbv [mbind M_bind]. rewrite IH. cbn.
    by rewrite <-app_assoc.
Qed.
Fixpoint save_all {Q} `{RT : !Runtime} (ps : list Z) : M (world Q) unit :=
  match ps with
  | [] => skip
  | p :: ps => save_subscriber p;;; save_all ps
  end.

(** With memory, every process that subscribed gets exactly one [empty_out_q] message when
    the queue is reported empty, and no subscription is left. *)
Theorem subscribers_notified_once {Q} `{RT : !Runtime} `{MEM : !Memory} ps (w : world Q) :
  empty_out_q_subs (inet (desc w)) = [] ->
  let w' := snd ((save_all ps;;; send_empty_out_q_msgs) w) in
  exists order, order ≡ₚ ps /\
    calls w' = calls w ++ map (fun p => SendTerm p (empty_out_q_spec (dport (inet (desc w))))) order /\
    empty_out_q_subs (inet (desc w')) = [].
Proof.
  intros H0 w'.
  assert (forall ps (w : world Q), let w1 := snd (save_all ps w) in
    empty_out_q_subs (inet (desc w1)) ≡ₚ ps ++ empty_out_q_subs (inet (desc w)) /\
    calls w1 = calls w /\ dport (inet (desc w1)) = dport (inet (desc w))) as Hsave.
  { clear ps w w' H0. intros ps. induction ps as [|p ps IH]; intros w; [done|]. cbn [save_all].
    assert (exists w1 r, save_subscriber p w = (r, w1) /\ calls w1 = calls w /\
      dport (inet (desc w1)) = dport (inet (desc w)) /\
      empty_out_q_subs (inet (desc w1)) ≡ₚ p :: empty_out_q_subs (inet (desc w))) as (w1 & r & E1 & Ec & Ed & Es).
    { unfold save_subscriber. rewrite (bind_eq get_inet _ _ _ _ eq_refl).
      destruct (empty_out_q_subs (inet (desc w))) as [|s next]; [by do 2 eexists|].
      unfold driver_alloc_ok. lrun. rewrite memory. do 2 eexists. split_and!; try done. apply perm_swap. }
    rewrite (bind_eq _ _ _ _ _ E1). destruct (IH w1) as (Hp & -> & ->). split_and!; [|done|done].
    rewrite Hp, Es. symmetry. apply Permutation_middle. }
  destruct (Hsave ps w) as (Hp & Hc & Hd). rewrite H0, app_nil_r in Hp.
  unfold w'. destruct (save_all ps w) as [[] w1] eqn:E1. cbn [snd] in *. rewrite (bind_eq _ _ _ _ _ E1).
  exists (empty_out_q_subs (inet (desc w1))). split; [done|]. rewrite <-Hc, <-Hd.
  unfold send_empty_out_q_msgs, send_to_subscribers. rewrite (bind_eq get_inet _ _ _ _ eq_refl).
  destruct (empty_out_q_subs (inet (desc w1))) as [|s next] eqn:En; cbn [NO_SUBSCRIBERS].
  { cbn. by rewrite app_nil_r, En. }
  rewrite (bind_eq get_inet _ _ _ _ eq_refl), En. cbn [NO_SUBSCRIBERS].
  pose proof (send_all_calls (s :: next) (empty_out_q_spec (dport (inet (desc w1)))) w1) as Hs.
  destruct (send_all (s :: next) _ w1) as [[] w2] eqn:E2. cbn [snd] in Hs. subst w2.
  rewrite (bind_eq _ _ _ _ _ E2). done.
Qed.

(** * Framing *)

(** A big-endian number. *)
Definition be (l : bytes) : Z := fold_left (fun v b => v * 256 + b) l 0.
Definition header_size (htype : Z) : option nat :=
  if htype =? TCP_PB_1 then Some 1%nat else if htype =? TCP_PB_2 then Some 2%nat
  else if htype =? TCP_PB_4 then Some 4%nat else None.
(** The first packet of a stream with headers of [h] bytes: its data, and what follows. *)
Definition split_packet (h : nat) (l : bytes) : option (bytes * bytes) :=
  let n := be (take h l) in
  if Z.of_nat (length l) <? Z.of_nat h + n then None
  else Some (slice h (Z.to_nat n) l, drop (h + Z.to_nat n) l).

Lemma be_nonneg_acc l v : all_bytes l -> 0 <= v -> 0 <= fold_left (fun v b => v * 256 + b) l v.
Proof.
  intros Hl. revert v. induction Hl as [|b l Hb Hl IH]; intros v Hv; [done|]. cbn. apply IH.
  destruct Hb. lia.
Qed.
Lemma be_nonneg l : all_bytes l -> 0 <= be l.
Proof. intros. by apply be_nonneg_acc. Qed.

Lemma header_case htype h hs ptr n nsz nfill : header_size htype = Some h -> all_bytes ptr ->
  (Z.to_nat n <= length ptr)%nat ->
  packet_case_of htype hs ptr n nsz nfill =
  if n <? Z.of_nat h then More else
  Remain (if (h =? 4)%nat then int32 (be (take h (take (Z.to_nat n) ptr))) else be (take h (take (Z.to_nat n) ptr))) (Z.of_nat h).
Proof.
  intros Hh Hb Hl. unfold header_size in Hh. unfold packet_case_of.
  destruct (Z.eqb_spec htype TCP_PB_1) as [->|H1].
  { injection Hh as <-. change (TCP_PB_1 =? TCP_PB_RAW) with false. cbv iota.
    change (Z.of_nat 1) with 1. destruct (Z.ltb_spec n 1); [done|]. rewrite take_take, Nat.min_l by lia.
    by destruct ptr as [|a ptr]; [cbn in *; lia|]. }
  destruct (Z.eqb_spec htype TCP_PB_2) as [->|H2].
  { injection Hh as <-. change (TCP_PB_2 =? TCP_PB_RAW) with false. cbv iota.
    change (Z.of_nat 2) with 2. destruct (Z.ltb_spec n 2); [done|]. rewrite take_take, Nat.min_l by lia.
    rewrite get_int16_value by done.
    by destruct ptr as [|a [|b ptr]]; try (cbn in *; lia). }
  destruct (Z.eqb_spec htype TCP_PB_4) as [->|H4]; [|done].
  injection Hh as <-. change (TCP_PB_4 =? TCP_PB_RAW) with false. cbv iota.
  change (Z.of_nat 4) with 4. destruct (Z.ltb_spec n 4); [done|]. rewrite take_take, Nat.min_l by lia.
  rewrite get_int32_value by done.
  destruct ptr as [|a [|b [|c [|d ptr]]]]; try (cbn in *; lia).
  unfold be, byte_at. rewrite !firstn_cons, take_0. cbn [Nat.eqb fold_left nth].
  match goal with |- Remain (int32 ?x) _ = Remain (int32 ?y) _ => replace x with y by lia end. done.
Qed.

(** C32: With memory, [loop_remain] finds the packets of the reference framing: for the packet types
    with a length header that fits the buffer, when the end of the packet that the header claims is below 2^31 from the start of the buffer, it reports a complete
    packet, header included, exactly when the bytes read start with one, and otherwise how much more to read. A header of four bytes can claim more: it is read
    as a signed number. *)
Theorem length_prefixed_framing {Q} `{PQ : !PortQueue Q} `{RT : !Runtime} `{E : !LoopEnv}
    `{MEM : !Memory} `{EL : !LoopEnvLaws E} (w : world Q) h :
  buf_ok (desc w) -> all_bytes (i_buf_bytes (desc w)) ->
  header_size (htype (inet (desc w))) = Some h -> Z.of_nat h <= i_bufsz (desc w) ->
  i_ptr_start (desc w) + Z.of_nat h + be (take h (unread (desc w))) < 2 ^ 31 ->
  let '(r, len) := fst (loop_remain w) in
  match split_packet h (unread (desc w)) with
  | Some (data, rest) => r = 0 /\ len = Z.of_nat (h + length data)
  | None => 0 < r
  end.
Proof.
  intros Hok Hb Hh Hsz Hfit. rewrite loop_remain_eq.
  pose proof (length_unread _ Hok) as Hl. pose proof Hok as [Hs Hz Hr Hp Hi].
  destruct (set_http_view w) as [Ev _]. pose proof (buf_view_ok _ _ (eq_sym Ev) Hok) as Hok'.
  injection Ev as E1 E2 E3 E4 E5.
  set (n := i_ptr (desc w) - i_ptr_start (desc w)) in *.
  assert (case_at (desc w) = if n <? Z.of_nat h then More else
    Remain (if (h =? 4)%nat then int32 (be (take h (unread (desc w)))) else be (take h (unread (desc w)))) (Z.of_nat h)) as Ec.
  { unfold case_at. rewrite (header_case _ h) by (done || (apply all_bytes_drop; done) ||
      (unfold orig_size in *; rewrite length_drop; lia)). done. }
  assert (all_bytes (unread (desc w))) as Hub by (unfold unread, slice; auto with cint).
  pose proof (be_nonneg (take h (unread (desc w))) ltac:(auto with cint)) as Hv.
  unfold split_packet. set (v := be (take h (unread (desc w)))) in *.
  rewrite Ec. destruct (Z.ltb_spec n (Z.of_nat h)) as [Hn|Hn].
  { rewrite (proj2 (Z.ltb_lt _ _)) by lia. cbv zeta.
    destruct (Z.eqb_spec (i_bufsz (desc w) - i_ptr (desc w)) 0).
    - destruct (Z.eqb_spec (i_ptr (desc w)) n); cbn; lia.
    - cbn. lia. }
  assert ((if (h =? 4)%nat then int32 v else v) = v) as -> by (destruct (h =? 4)%nat; [apply sint_small; lia|done]).
  cbv zeta. rewrite (sint_small 32 (v + Z.of_nat h)), sint_small by (rewrite ?sint_small; lia).
  destruct (Z.leb_spec (v + Z.of_nat h - n) 0).
  - cbn [fst mret M_ret]. rewrite (proj2 (Z.ltb_ge _ _)) by lia. split; [done|]. rewrite length_slice. lia.
  - rewrite (proj2 (Z.ltb_lt _ _)) by lia.
    destruct (loop_expand_buffer_spec (v + Z.of_nat h) (set_http w) Hok' ltac:(lia)) as
      (_ & _ & _ & _ & _ & _ & _ & _ & _ & H0 & _). specialize (H0 MEM).
    destruct (loop_expand_buffer (v + Z.of_nat h) (set_http w)) as [r2 w2] eqn:Ex. cbn [fst] in H0. subst r2.
    rewrite (bind_eq _ _ _ _ _ Ex). cbn. lia.
Qed.

(** * Examples *)

Definition sample_buffer (htype : Z) (b : binary) (start ptr : Z) : world (list bytes) :=
  World (w_i_bufsz (Z.of_nat (length b)) (w_i_buf (Some b) (w_i_ptr_start start (w_i_ptr ptr
    (w_inet (w_htype htype sample_inet) sample_desc))))) [] 0 [] [] [].
Lemma sample_buffer_ok htype b start ptr : 0 <= start <= ptr -> ptr <= Z.of_nat (length b) ->
  Z.of_nat (length b) < 2 ^ 31 -> buf_ok (desc (sample_buffer htype b start ptr)).
Proof. intros. split; cbn; unfold i_buf_bytes, orig_size; cbn; lia. Qed.

Lemma push_buffer_prepends_witness :
  let w := sample_buffer TCP_PB_RAW [1; 2; 3; 4] 1 3 in
  let w' := snd (loop_push_buffer (RT := rt_ok) (E := sample_env) [8; 9] (Z.of_nat (length [8; 9])) w) in
  buf_ok (desc w') /\ unread (desc w') = [8; 9] ++ unread (desc w) /\
  i_remain (desc w') = 0 /\ rest_view w' = rest_view w.
Proof.
  intros w. apply (push_buffer_prepends (RT := rt_ok) w [8; 9]).
  - apply sample_buffer_ok; cbn; lia.
  - vm_compute. reflexivity.
Defined.

Lemma octets_exact_witness :
  let s' := fold_left (fun s l => count_input 32 l s) [3]
              (fold_left (fun s l => count_output 32 l s) [2147483647; 2147483647; 2147483647]
                (stats sample_inet)) in
  counters_ok 32 s' /\ send_total 32 s' = 6442450941 /\ recv_total 32 s' = 3.
Proof.
  apply (octets_exact 32 [2147483647; 2147483647; 2147483647] [3] (stats sample_inet)).
  - lia.
  - split_and!; vm_compute; done.
  - repeat constructor; by_decision.
  - repeat constructor; by_decision.
  - reflexivity.
  - reflexivity.
Defined.

Lemma subscribers_notified_once_witness :
  let w' := snd ((save_all (RT := rt_ok) [5; 6; 7];;; send_empty_out_q_msgs (RT := rt_ok)) sample_world) in
  exists order, order ≡ₚ [5; 6; 7] /\
    calls w' = [] ++ map (fun p => SendTerm p (empty_out_q_spec 1)) order /\
    empty_out_q_subs (inet (desc w')) = [].
Proof. apply (subscribers_notified_once (RT := rt_ok) [5; 6; 7] sample_world). reflexivity. Defined.

Lemma length_prefixed_framing_witness :
  let w := sample_buffer TCP_PB_2 [7; 0; 2; 65; 66; 0; 9] 1 6 in
  let '(r, len) := fst (loop_remain (RT := rt_ok) (E := sample_env) w) in
  match split_packet 2 (unread (desc w)) with
  | Some (data, rest) => r = 0 /\ len = Z.of_nat (2 + length data)
  | None => 0 < r
  end.
Proof.
  intros w. apply (length_prefixed_framing (RT := rt_ok) w 2).
  - apply sample_buffer_ok; cbn; lia.
  - repeat constructor; by_decision.
  - reflexivity.
  - vm_compute. discriminate.
  - vm_compute. reflexivity.
Defined.
