(* ===== verification/LoopDrv.v ===== *)
(** Receiving and sending in the loop driver, [ssh/c_src/loop_drv.c]: [loop_reply_data]
    and [loop_reply_binary_data], [loop_deliver], [loop_recv], [loop_send], [loop_sendv] and the
    entry points [loop_drv_command], [loop_drv_commandv], [loop_drv_timeout] and [loop_drv_stop].

    What is sent is put on the port's own queue, and [loop_recv] moves it from there into the
    input buffer, from which [loop_deliver] takes packets. *)
From stdpp Require Import strings.
From S2P Require Import Prelude ErlTerm Erts LoopDesc LoopMsg LoopHttp LoopBuf.
#[local] Open Scope Z_scope.

Section Drv.
Context {Q : Type} `{PQ : !PortQueue Q} `{IV : !IOVec Q} `{RT : !Runtime} `{E : !LoopEnv}.
Context (ulong : Z).
Abbreviation W := (world Q).
Abbreviation Loop := (M W).

(** * Delivery of one packet *)

(** A negative [len] scans to the end of the memory. *)
Definition scanbit8 (buf : bytes) (len : Z) : Loop unit :=
  d ← get_inet;
  if negb (c_true (bit8f d)) || c_true (bit8 d) then skip else
  let c := fold_left Z.lor (if len <? 0 then buf else take (Z.to_nat len) buf) 0 in
  upd_inet (w_bit8 (c_bool (c_true (c & 0x80)%C))).

(** The data of a packet of [len] bytes at [offs]: offset and length. *)
Definition packet_data (htype : Z) (mem : bytes) (offs len : Z) : Z * Z :=
  if htype =? TCP_PB_1 then (offs + 1, len - 1)
  else if htype =? TCP_PB_2 then (offs + 2, len - 2)
  else if htype =? TCP_PB_4 then (offs + 4, len - 4)
  else if htype =? TCP_PB_FCGI then (offs, len - byte_at (drop (Z.to_nat offs) mem) 6)
  else (offs, len).

Definition is_http (d : inet_descriptor) : bool := (htype d =? TCP_PB_HTTP) || (htype d =? TCP_PB_HTTPH).

(** [http_message] on the buffer from [offs] on, which it may rewrite. *)
Definition reply_http (offs len : Z) : Loop Z :=
  d ← get_desc;
  r ← http_message ulong (drop (Z.to_nat offs) (i_buf_bytes d)) len;
  let '(code, buf) := r in
  upd (w_i_buf (Some (store (i_buf_bytes d) offs buf)));;;
  (when code <? 0 do (http_error_message buf len;;; skip));;;
  mret 0.

Definition once (code : Z) : Loop Z :=
  if code <? 0 then mret code else
  d ← get_inet;
  (when active d =? INET_ONCE do upd_inet (w_active INET_PASSIVE));;;
  mret code.

Definition loop_reply_data (buf len : Z) : Loop Z :=
  d ← get_desc;
  let mem := i_buf_bytes d in
  handed (slice (Z.to_nat buf) (Z.to_nat len) mem);;;
  let '(buf, len) := packet_data (htype (inet d)) mem buf len in
  let ptr := drop (Z.to_nat buf) mem in
  scanbit8 ptr len;;;
  if deliver (inet d) =? INET_DELIVER_PORT then code ← inet_port_data ptr len; once code
  else if is_http (inet d) then code ← reply_http buf len; once code
  else if active (inet d) =? INET_PASSIVE then inet_async_data ptr len
  else code ← loop_message ptr len; once code.

(** [bin] is always [i_buf]. *)
Definition loop_reply_binary_data (offs len : Z) : Loop Z :=
  d ← get_desc;
  let mem := i_buf_bytes d in
  handed (slice (Z.to_nat offs) (Z.to_nat len) mem);;;
  let '(offs, len) := packet_data (htype (inet d)) mem offs len in
  scanbit8 (drop (Z.to_nat offs) mem) len;;;
  if deliver (inet d) =? INET_DELIVER_PORT then code ← inet_port_binary_data mem offs len; once code
  else if is_http (inet d) then code ← reply_http offs len; once code
  else if active (inet d) =? INET_PASSIVE then inet_async_binary_data 0 mem offs len
  else code ← loop_binary_message mem offs len; once code.

(** * Delivery of all packets *)

(** The packet of [len] bytes at [i_ptr_start] is replied and removed from the buffer.  As in
    [loop_push_buffer], the result of [alloc_buffer] is not tested in the source. *)
Definition deliver_packet (len : Z) : Loop Z :=
  d ← get_desc;
  inet_input_count ulong len;;;
  if int32 (len * 4) >=? orig_size (i_buf_bytes d) * 3 then
    if i_ptr_start d + len =? i_ptr d then
      code ← loop_reply_binary_data (i_ptr_start d) len;
      loop_clear_input;;;
      mret code
    else
      let ptr_end := i_ptr_start d + len in
      let sz := i_ptr d - ptr_end in
      bin ← alloc_buffer (i_bufsz d);
      let trail := slice (Z.to_nat ptr_end) (Z.to_nat sz) (i_buf_bytes d) in
      code ← loop_reply_binary_data (i_ptr_start d) len;
      d' ← get_desc;
      free_buffer (i_buf_bytes d');;;
      upd (fun d => w_i_remain 0 (w_i_ptr sz (w_i_ptr_start 0
        (w_i_buf ((fun bin => store bin 0 trail) <$> bin) d))));;;
      mret code
  else
    code ← loop_reply_data (i_ptr_start d) len;
    upd (fun d => w_i_ptr_start (i_ptr_start d + len) d);;;
    d ← get_desc;
    (if i_ptr_start d =? i_ptr d then loop_clear_input else upd (w_i_remain 0));;;
    mret code.

(** The [while] loop.  Every turn takes at least one byte off the buffer: [fuel] is their
    number. *)
Fixpoint deliver_packets (fuel : nat) (len count : Z) : Loop Z :=
  if len <=? 0 then mret count else
  match fuel with
  | O => mret count
  | S fuel =>
      code ← deliver_packet len;
      if code <? 0 then mret code else
      let count := count + 1 in
      d ← get_desc;
      if active (inet d) =? 0 then
        act CancelTimer;;;
        (match i_buf d with Some _ => loop_restart_input | None => skip end);;;
        mret count
      else
        match i_buf d with
        | None => mret count
        | Some _ =>
            r ← loop_remain;
            let '(n, len) := r in
            if n =? 0 then deliver_packets fuel len count
            else if n <? 0 then mret n
            else
              loop_restart_input;;;
              (when 0 <? len do upd (w_i_remain len));;;
              mret count
        end
  end.
Definition deliver_from (len : Z) : Loop Z :=
  d ← get_desc;
  deliver_packets (Z.to_nat (i_ptr d - i_ptr_start d)) len 0.

Definition loop_deliver (len : Z) : Loop Z :=
  if len =? 0 then
    d ← get_desc;
    match i_buf d with
    | None => mret 0
    | Some _ =>
        if 0 <? i_remain d then mret 0 else
        r ← loop_remain;
        let '(n, len) := r in
        if n =? 0 then deliver_from len
        else if n <? 0 then mret n
        else (when 0 <? len do upd (w_i_remain len));;; mret 0
    end
  else deliver_from len.

(** * Errors *)

Definition loop_unblock : Loop unit :=
  loop_clear_output;;;
  act CancelTimer;;;
  upd (w_busy_on_send 0);;;
  upd_inet (fun d => w_state (state d & ~. INET_F_BUSY)%C d);;;
  act (SetBusy 0);;;
  inet_reply_error_am "closed"%string;;;
  skip.

Definition loop_recv_closed : Loop Z :=
  d ← get_inet;
  if active d =? 0 then
    act CancelTimer;;;
    loop_clear_input;;;
    async_error_am_all "closed"%string;;;
    mret (-1)
  else
    (when IS_BUSY d do loop_unblock);;;
    loop_clear_input;;;
    loop_closed_message;;;
    (when c_true (exitf d) do act (DriverExit 0));;;
    mret (-1).

Definition loop_recv_error (err : Z) : Loop Z :=
  d ← get_inet;
  if active d =? 0 then
    act CancelTimer;;;
    loop_clear_input;;;
    async_error err;;;
    mret (-1)
  else
    (when IS_BUSY d do loop_unblock);;;
    loop_clear_input;;;
    loop_error_message err;;;
    loop_closed_message;;;
    (when c_true (exitf d) do act (DriverExit err));;;
    mret (-1).

(** * Receiving *)

(** What [loop_remain] found: an answer ([inl]), or [nread] ([inr]). *)
Definition poll_remain : Loop (Z + Z) :=
  r ← loop_remain;
  let '(nread, len) := r in
  if nread <? 0 then e ← loop_recv_error EMSGSIZE; mret (inl e)
  else if nread =? 0 then r ← loop_deliver len; mret (inl r)
  else (when 0 <? len do upd (w_i_remain len));;; mret (inr nread).

(** How many bytes to read, up to the [DEBUGF]. *)
Definition recv_prepare (request_len : Z) : Loop (Z + Z) :=
  d ← get_desc;
  match i_buf d with
  | None =>
      let sz := if 0 <? request_len then request_len else bufsz (inet d) in
      bin ← alloc_buffer sz;
      match bin with
      | None => mret (inl (-1))
      | Some b =>
          upd (fun d => w_i_remain (if 0 <? request_len then request_len else 0)
            (w_i_ptr 0 (w_i_ptr_start 0 (w_i_bufsz sz (w_i_buf (Some b) d)))));;;
          mret (inr sz)
      end
  | Some _ =>
      if 0 <? request_len then
        let n := i_ptr d - i_ptr_start d in
        if n >=? request_len then r ← loop_deliver request_len; mret (inl r)
        else
          r ← loop_expand_buffer request_len;
          if r <? 0 then e ← loop_recv_error ENOMEM; mret (inl e)
          else
            upd (w_i_remain (request_len - n));;;
            mret (inr (request_len - n))
      else if i_remain d =? 0 then poll_remain
      else mret (inr (i_remain d))
  end.

(** Read at most [nread] bytes from the queue to [i_ptr]. *)
Definition recv_read (nread : Z) : Loop Z :=
  w ← get;
  let ev := driver_peekq (queue w) in
  if (length (concat ev) =? 0)%nat then mret 0 else
  let data := driver_vec_to_buf ev nread in
  let n := Z.of_nat (length data) in
  set_queue (driver_deq (queue w) n);;;
  upd (fun d => w_i_ptr (i_ptr d + n) (w_i_buf (Some (store (i_buf_bytes d) (i_ptr d) data)) d));;;
  d ← get_desc;
  if 0 <? i_remain d then
    upd (w_i_remain (i_remain d - n));;;
    if i_remain d - n =? 0 then loop_deliver (i_ptr d - i_ptr_start d) else mret 0
  else
    r ← poll_remain;
    match r with inl r => mret r | inr _ => mret 0 end.

Definition loop_recv (request_len : Z) : Loop Z :=
  r ← recv_prepare request_len;
  match r with
  | inl r => mret r
  | inr nread => recv_read nread
  end.

(** * Sending *)

(** The packet header: [None] where nothing is sent. *)
Definition packet_header (htype len : Z) : option bytes :=
  if htype =? TCP_PB_1 then Some (put_int8 len)
  else if htype =? TCP_PB_2 then Some (put_int16 len)
  else if htype =? TCP_PB_4 then Some (put_int32 len)
  else if len =? 0 then None else Some [].

(** [ev] are the segments of the vector, the first is left to the driver. *)
Definition loop_sendv (ev : list bytes) (size : Z) : Loop Z :=
  d ← get_inet;
  match packet_header (htype d) size with
  | None => mret 0
  | Some buf =>
      let h_len := Z.of_nat (length buf) in
      inet_output_count ulong (size + h_len);;;
      let ev := if 0 <? h_len then <[0%nat := buf]> ev else ev in
      w ← get;
      set_queue (driver_enqv (queue w) ev 0);;;
      loop_recv 0;;;
      mret 0
  end.

Definition loop_send (ptr : bytes) (len : Z) : Loop Z :=
  d ← get_inet;
  match packet_header (htype d) len with
  | None => mret 0
  | Some buf =>
      inet_output_count ulong (len + Z.of_nat (length buf));;;
      w ← get;
      set_queue (driver_enq (driver_enq (queue w) buf) ptr);;;
      loop_recv 0;;;
      mret 0
  end.

(** * Entry points *)

Definition set_caller : Loop unit :=
  w ← get; upd_inet (w_caller (driver_caller (calls w))).

Definition loop_drv_command (buf : bytes) (len : Z) : Loop unit :=
  set_caller;;;
  d ← get_inet;
  if negb (IS_CONNECTED d) then inet_reply_error ENOTCONN;;; skip
  else
    r ← loop_send buf len;
    when r =? 0 do (inet_reply_ok;;; skip).

Definition loop_drv_commandv (ev : list bytes) (size : Z) : Loop unit :=
  set_caller;;;
  d ← get_inet;
  if negb (IS_CONNECTED d) then inet_reply_error ENOTCONN;;; skip
  else
    r ← loop_sendv ev size;
    when r =? 0 do (inet_reply_ok;;; skip).

Definition loop_drv_timeout : Loop unit :=
  d ← get_desc;
  if IS_CONNECTED (inet d) then
    if c_true (busy_on_send d) then
      upd (w_busy_on_send 0);;;
      inet_reply_error_am "timeout"%string;;; skip
    else
      upd (w_i_remain 0);;;
      async_error_am "timeout"%string;;; skip
  else skip.

Definition erl_inet_close : Loop Z :=
  free_subscribers;;;
  upd_inet (w_state INET_STATE_CLOSED);;;
  mret 0.
Definition inet_stop : Loop unit := erl_inet_close;;; skip.

Definition loop_close_check : Loop unit :=
  d ← get_inet;
  when state d =? INET_STATE_CONNECTED do (async_error_am_all "closed"%string;;; skip).

Definition loop_drv_stop : Loop unit :=
  loop_close_check;;;
  d ← get_desc;
  (match i_buf d with Some b => release_buffer b | None => skip end);;;
  upd (w_i_buf None);;;
  inet_stop.
End Drv.
