(* ===== verification/LoopDeliver.v ===== *)
(** The delivery loop of the loop driver: what a reply leaves alone, what the delivery of one
    packet and of all packets in the buffer guarantees, and that the loop ends. *)
From stdpp Require Import strings.
From S2P Require Import Prelude ErlTerm Erts LoopDesc LoopMsg LoopHttp LoopBuf LoopDrv.
#[local] Open Scope Z_scope.

(** * What a reply leaves alone *)

(** The configuration: everything in the descriptor of inet_drv that replies do not touch. *)
Definition conf (d : inet_descriptor) : inet_descriptor :=
  w_stats (Stats 0 0 0 0 d_zero d_zero 0 0 0 0 d_zero)
    (w_bit8 0 (w_active 0 (w_caller 0 (w_ops (AQ None None []) d)))).

(** Two states with the same configuration, queue, stack and packets, the same positions, and
    the same bytes from [k] on in the buffer. *)
Record keeps {Q} (k : nat) (w w' : world Q) : Prop := Keeps {
  k_conf : conf (inet (desc w')) = conf (inet (desc w));
  k_queue : queue w' = queue w;
  k_ref : async_ref w' = async_ref w;
  k_stack : buffer_stack w' = buffer_stack w;
  k_packets : packets w' = packets w;
  k_bufsz : i_bufsz (desc w') = i_bufsz (desc w);
  k_ptr : i_ptr (desc w') = i_ptr (desc w);
  k_start : i_ptr_start (desc w') = i_ptr_start (desc w);
  k_remain : i_remain (desc w') = i_remain (desc w);
  k_size : length (i_buf_bytes (desc w')) = length (i_buf_bytes (desc w));
  k_bytes : drop k (i_buf_bytes (desc w')) = drop k (i_buf_bytes (desc w));
  k_buf : i_buf (desc w') = None <-> i_buf (desc w) = None;
  k_active : active (inet (desc w)) = INET_ACTIVE -> active (inet (desc w')) = INET_ACTIVE;
}.
#[export] Instance keeps_preorder {Q} k : PreOrder (@keeps Q k).
Proof.
  split.
  - intros w. by split.
  - intros a b c [] []. split; try congruence; tauto.
Qed.

Section Keeps.
Context {Q : Type} `{PQ : !PortQueue Q} `{IV : !IOVec Q} `{RT : !Runtime} `{E : !LoopEnv}.
Context (ulong : Z) (k : nat).
Abbreviation Ens := (ensures (@keeps Q k)).

Lemma ensures_get_desc : Ens get_desc.
Proof. apply ensures_gets; apply _. Qed.
Lemma ensures_get_inet : Ens get_inet.
Proof. apply ensures_gets; apply _. Qed.
Lemma ensures_call c : Ens (do_call c).
Proof. intros w. by split. Qed.
Lemma ensures_alloc n : Ens (driver_alloc_ok n).
Proof. intros w. by split. Qed.
Lemma ensures_upd_inet f : (forall d, conf (f d) = conf d) -> (forall d, active (f d) = active d) ->
  Ens (upd_inet f).
Proof. intros Hf Ha w. split; try done; [apply Hf|]. by rewrite <-Ha. Qed.
Lemma ensures_http_state v : Ens (upd (w_http_state v)).
Proof. intros w. by split. Qed.
Lemma ensures_incr : Ens incr_http_state.
Proof. intros w. by split. Qed.
Create HintDb keeps.
#[local] Hint Resolve ensures_get_desc ensures_get_inet ensures_call ensures_alloc ensures_http_state
  ensures_incr : keeps.
Local Ltac ens := walk ltac:(first [solve [eauto 2 with keeps]
  | apply ensures_upd_inet; intros ?; reflexivity]).

Lemma ensures_deq_async : Ens deq_async.
Proof. unfold deq_async. ens. Qed.
#[local] Hint Resolve ensures_deq_async : keeps.
Lemma ensures_send_term to sp : Ens (driver_send_term to sp).
Proof. apply ensures_call. Qed.
Lemma ensures_output_term sp : Ens (driver_output_term sp).
Proof. apply ensures_call. Qed.
#[local] Hint Resolve ensures_send_term ensures_output_term : keeps.
Lemma ensures_http_send async sync : Ens (http_send async sync).
Proof. unfold http_send. ens. Qed.
#[local] Hint Resolve ensures_http_send : keeps.
Lemma ensures_async_error err : Ens (async_error err).
Proof. unfold async_error, async_error_am, send_async_error. ens. Qed.
#[local] Hint Resolve ensures_async_error : keeps.
Lemma ensures_scanbit8 buf len : Ens (scanbit8 buf len).
Proof. unfold scanbit8. ens. Qed.
Lemma ensures_once code : Ens (once code).
Proof.
  intros w. unfold once. destruct (code <? 0); [done|]. rewrite (bind_eq get_inet _ _ _ _ eq_refl).
  destruct (Z.eqb_spec (active (inet (desc w))) INET_ONCE) as [E1|]; [|done].
  split; try done. by rewrite E1.
Qed.
Lemma ensures_port_data buf len : Ens (inet_port_data buf len).
Proof. unfold inet_port_data. ens. Qed.
Lemma ensures_port_binary_data b o len : Ens (inet_port_binary_data b o len).
Proof. unfold inet_port_binary_data. ens. Qed.
Lemma ensures_async_data buf len : Ens (inet_async_data buf len).
Proof. unfold inet_async_data. ens. Qed.
Lemma ensures_async_binary_data p b o len : Ens (inet_async_binary_data p b o len).
Proof. unfold inet_async_binary_data. ens. Qed.
Lemma ensures_loop_message buf len : Ens (loop_message buf len).
Proof. unfold loop_message. ens. Qed.
Lemma ensures_loop_binary_message b o len : Ens (loop_binary_message b o len).
Proof. unfold loop_binary_message. ens. Qed.
#[local] Hint Resolve ensures_scanbit8 ensures_once ensures_port_data ensures_port_binary_data
  ensures_async_data ensures_async_binary_data ensures_loop_message ensures_loop_binary_message : keeps.

(** ** HTTP lines are rewritten in place *)

Lemma scan_name_buf up hv p n : 0 <= n ->
  let '(_, nm, p', _) := scan_name ulong up hv p n in
  length (nm ++ p') = length p /\ drop (Z.to_nat n) (nm ++ p') = drop (Z.to_nat n) p.
Proof.
  revert up hv n. induction p as [|c p IH]; intros up hv n Hn; [done|]. cbn [scan_name].
  destruct (Z.eqb_spec n 0) as [->|Hn0]; cbn [negb andb]; [done|].
  destruct (negb (is_tspecial c)); [|done].
  destruct (recase up c) as [c' up'].
  specialize (IH up' (hash_update ulong hv c') (n - 1) ltac:(lia)).
  destruct (scan_name _ _ _ _ _) as [[[hv' nm] p'] n']. destruct IH as [Hl Hd].
  replace (Z.to_nat n) with (S (Z.to_nat (n - 1))) by lia. cbn [app length drop skipn].
  split; [by f_equal|exact Hd].
Qed.
Lemma http_trim_le buf len : 0 <= len -> 0 <= http_trim buf len <= len.
Proof. intros. unfold http_trim. bool_cases; lia. Qed.
Lemma http_message_ensures buf len : Ens (http_message ulong buf len).
Proof.
  unfold http_message, http_start_line, http_status_line, http_request_line, http_header_line,
    http_response_message, http_request_message, http_header_message, http_eoh_message. ens.
Qed.
Lemma http_message_buf buf len (w : world Q) : 0 <= len ->
  let buf' := snd (fst (http_message ulong buf len w)) in
  length buf' = length buf /\ drop (Z.to_nat len) buf' = drop (Z.to_nat len) buf.
Proof.
  intros Hlen. unfold http_message. rewrite (bind_eq get_desc _ _ _ _ eq_refl).
  pose proof (http_trim_le buf len Hlen). set (n := http_trim buf len) in *. clearbody n.
  destruct (_ =? 0).
  { unfold mbind, M_bind. by destruct (http_start_line _ _ _ _). }
  unfold http_header_line. destruct (n =? 0).
  { cbv [mbind M_bind upd modify mret M_ret]. by destruct (http_eoh_message _). }
  pose proof (scan_name_buf true 0 buf n ltac:(lia)) as Hs.
  destruct (scan_name ulong true 0 buf n) as [[[hv nm] p] n']. destruct Hs as [Hl Hd].
  assert (drop (Z.to_nat len) (nm ++ p) = drop (Z.to_nat len) buf) as Hd'.
  { replace (Z.to_nat len) with (Z.to_nat n + (Z.to_nat len - Z.to_nat n))%nat by lia.
    by rewrite <-!drop_drop, Hd. }
  destruct (negb _); [done|]. destruct (skip_sp _ _) as [p2 n2].
  unfold mbind, M_bind. by destruct (http_header_message _ _ _ _ _ _).
Qed.
Lemma ensures_http_error buf len : Ens (http_error_message buf len).
Proof. unfold http_error_message. ens. Qed.
#[local] Hint Resolve ensures_http_error : keeps.

(** The rest of the buffer is not changed by a store of what has the same rest. *)
Lemma drop_store b off src n : (off + length src = length b)%nat -> (off <= n)%nat ->
  drop (n - off) src = drop n b -> drop n (store b (Z.of_nat off) src) = drop n b.
Proof.
  intros Hl Hn Hd. rewrite store_fits by (unfold orig_size; lia). unfold memcpy_at. rewrite Nat2Z.id.
  rewrite (drop_ge b (off + length src)), app_nil_r by lia.
  rewrite drop_app_ge, length_take_le by (rewrite ?length_take_le; lia). done.
Qed.
Lemma reply_http_ensures offs len (w : world Q) : 0 <= offs -> 0 <= len ->
  offs + len <= orig_size (i_buf_bytes (desc w)) -> i_buf (desc w) <> None ->
  (Z.to_nat (offs + len) <= k)%nat -> keeps k w (snd (reply_http ulong offs len w)).
Proof.
  intros Ho Hl Hsz Hb Hk. unfold reply_http. rewrite (bind_eq get_desc _ _ _ _ eq_refl).
  pose proof (http_message_ensures (drop (Z.to_nat offs) (i_buf_bytes (desc w))) len w) as Hm.
  pose proof (http_message_buf (drop (Z.to_nat offs) (i_buf_bytes (desc w))) len w Hl) as [Hlen Hdrop].
  destruct (http_message _ _ _ w) as [[code buf] w1] eqn:Em. cbn [fst snd] in *.
  rewrite (bind_eq _ _ _ _ _ Em).
  assert (keeps k w (snd (upd (w_i_buf (Some (store (i_buf_bytes (desc w)) offs buf))) w1))) as H1.
  { unfold orig_size in *. rewrite length_drop in Hlen.
    destruct Hm. split; cbn; try done.
    - by rewrite length_store.
    - rewrite <-(Z2Nat.id offs) by done. apply drop_store; [lia|lia|].
      replace (k - Z.to_nat offs)%nat with (Z.to_nat len + (k - Z.to_nat (offs + len)))%nat by lia.
      rewrite <-drop_drop, Hdrop, !drop_drop. f_equal. lia. }
  rewrite (bind_eq (upd _) _ _ tt (snd (upd (w_i_buf (Some (store (i_buf_bytes (desc w)) offs buf))) w1)) eq_refl).
  etransitivity; [exact H1|].
  generalize (snd (upd (w_i_buf (Some (store (i_buf_bytes (desc w)) offs buf))) w1)).
  change (Ens ((when code <? 0 do (http_error_message buf len;;; skip));;; mret 0)). ens.
Qed.

(** A reply records the packet and keeps the rest. *)
Lemma packet_data_range htype mem offs len : 0 <= offs -> all_bytes mem ->
  let '(o, l) := packet_data htype mem offs len in offs <= o /\ o + l <= offs + len.
Proof.
  intros Ho Hb. unfold packet_data.
  pose proof (byte_at_is_byte (drop (Z.to_nat offs) mem) 6 ltac:(auto with cint)) as [? _].
  repeat case_match; simplify_eq; lia.
Qed.
Lemma packet_data_http d mem offs len : is_http d = true -> packet_data (htype d) mem offs len = (offs, len).
Proof.
  unfold is_http, packet_data. intros H.
  destruct (Z.eqb_spec (htype d) TCP_PB_HTTP) as [->|]; [done|].
  destruct (Z.eqb_spec (htype d) TCP_PB_HTTPH) as [->|]; done.
Qed.
Lemma ensures_then_once (m : M (world Q) Z) (w : world Q) :
  keeps k w (snd (m w)) -> keeps k w (snd ((code ← m; once code) w)).
Proof.
  intros Hm. destruct (m w) as [code w1] eqn:Em. rewrite (bind_eq _ _ _ _ _ Em).
  etransitivity; [exact Hm|]. apply ensures_once.
Qed.
(** The two reply functions after the packet is recorded. *)
Lemma reply_keeps d start len o l (scan : M (world Q) unit) (port async msg : M (world Q) Z) (w : world Q) :
  0 <= start -> 0 <= len -> start + len <= orig_size (i_buf_bytes (desc w)) -> i_buf (desc w) <> None ->
  (Z.to_nat (start + len) <= k)%nat -> (is_http d = true -> (o, l) = (start, len)) ->
  Ens scan -> Ens port -> Ens async -> Ens msg ->
  keeps k w (snd ((scan;;;
    if deliver d =? INET_DELIVER_PORT then code ← port; once code
    else if is_http d then code ← reply_http ulong o l; once code
    else if active d =? INET_PASSIVE then async
    else code ← msg; once code) w)).
Proof.
  intros Ho Hl Hsz Hb Hk Hh Hs Hport Hasync Hmsg. specialize (Hs w).
  destruct (scan w) as [[] w2] eqn:Es. cbn [snd] in Hs. rewrite (bind_eq _ _ _ _ _ Es).
  etransitivity; [exact Hs|]. destruct Hs as [? ? ? ? ? ? ? ? ? Hs1 ? Hs2].
  destruct (deliver _ =? _); [apply ensures_then_once, Hport|].
  destruct (is_http _); [specialize (Hh eq_refl); injection Hh as -> ->|].
  { apply ensures_then_once, reply_http_ensures; try done; [|tauto].
    unfold orig_size in *. by rewrite Hs1. }
  destruct (active _ =? _); [apply Hasync|]. by apply ensures_then_once, Hmsg.
Qed.
Definition recorded (start len : Z) (w : world Q) : world Q :=
  snd (handed (slice (Z.to_nat start) (Z.to_nat len) (i_buf_bytes (desc w))) w).
Lemma loop_reply_data_keeps start len (w : world Q) : 0 <= start -> 0 <= len ->
  start + len <= orig_size (i_buf_bytes (desc w)) -> i_buf (desc w) <> None ->
  (Z.to_nat (start + len) <= k)%nat -> keeps k (recorded start len w) (snd (loop_reply_data ulong start len w)).
Proof.
  intros Ho Hl Hsz Hb Hk. unfold loop_reply_data. rewrite (bind_eq get_desc _ _ _ _ eq_refl).
  cbv zeta. rewrite (bind_eq (handed _) _ _ tt (recorded start len w) eq_refl).
  pose proof (packet_data_http (inet (desc w)) (i_buf_bytes (desc w)) start len) as Hh.
  destruct (packet_data _ _ start len) as [o l].
  apply (reply_keeps _ start len); auto using ensures_scanbit8, ensures_port_data, ensures_async_data,
    ensures_loop_message.
Qed.
Lemma loop_reply_binary_data_keeps start len (w : world Q) : 0 <= start -> 0 <= len ->
  start + len <= orig_size (i_buf_bytes (desc w)) -> i_buf (desc w) <> None ->
  (Z.to_nat (start + len) <= k)%nat -> keeps k (recorded start len w) (snd (loop_reply_binary_data ulong start len w)).
Proof.
  intros Ho Hl Hsz Hb Hk. unfold loop_reply_binary_data. rewrite (bind_eq get_desc _ _ _ _ eq_refl).
  cbv zeta. rewrite (bind_eq (handed _) _ _ tt (recorded start len w) eq_refl).
  pose proof (packet_data_http (inet (desc w)) (i_buf_bytes (desc w)) start len) as Hh.
  destruct (packet_data _ _ start len) as [o l].
  apply (reply_keeps _ start len); auto using ensures_scanbit8, ensures_port_binary_data,
    ensures_async_binary_data, ensures_loop_binary_message.
Qed.
End Keeps.

(** * Delivery and the stream *)

(** What passed through the port: packets handed over, bytes read and not yet delivered, and the
    queue. *)
Definition stream {Q} `{PL : PortQueueLaws Q} (w : world Q) : bytes :=
  concat (packets w) ++ unread (desc w) ++ q_bytes (queue w).

Section Deliver.
Context {Q : Type} `{PL : PortQueueLaws Q} `{IV : !IOVec Q} `{RT : !Runtime} `{E : !LoopEnv}.
Context `{IL : !IOVecLaws Q} `{MEM : !Memory} `{EL : !LoopEnvLaws E} (ulong : Z).
Implicit Types (w : world Q).

(** What one delivery does. *)
Record delivered (len : Z) w w' : Prop := Delivered {
  dl_ok : buf_ok (desc w');
  dl_unread : unread (desc w') = drop (Z.to_nat len) (unread (desc w));
  dl_packets : packets w' = packets w ++ [take (Z.to_nat len) (unread (desc w))];
  dl_queue : queue w' = queue w;
  dl_ref : async_ref w' = async_ref w;
  dl_conf : conf (inet (desc w')) = conf (inet (desc w));
  dl_remain : i_remain (desc w') = 0;
  dl_bufsz : i_bufsz (desc w') = match i_buf (desc w') with Some _ => i_bufsz (desc w) | None => 0 end;
  dl_all : len = i_ptr (desc w) - i_ptr_start (desc w) -> i_buf (desc w') = None;
  dl_none : i_buf (desc w') = None -> i_ptr_start (desc w') = 0;
  dl_active : active (inet (desc w)) = INET_ACTIVE -> active (inet (desc w')) = INET_ACTIVE;
}.
Lemma loop_clear_input_spec w : let w' := snd (loop_clear_input w) in
  rest_view w' = rest_view w /\ i_buf (desc w') = None /\ buf_view (desc w') = (0, None, 0, 0, 0).
Proof.
  unfold loop_clear_input. rewrite (bind_eq get_desc _ _ _ _ eq_refl).
  destruct (i_buf (desc w)) as [b|]; [|done].
  destruct (free_buffer_view b w) as [Ed Er]. destruct (free_buffer b w) as [[] w1] eqn:Ef.
  cbn [snd] in *. rewrite (bind_eq _ _ _ _ _ Ef). done.
Qed.
Lemma cleared_ok d : buf_view d = (0, None, 0, 0, 0) -> buf_ok d /\ unread d = [].
Proof.
  intros [= E1 E2 E3 E4 E5]. split.
  - split; unfold i_buf_bytes, orig_size; rewrite ?E1, ?E2, ?E3, ?E4, ?E5; cbn; lia.
  - unfold unread, i_buf_bytes. by rewrite E2, E3, E4.
Qed.

(** Moving the trail of the buffer to a new one. *)
Lemma unread_drop d len : buf_ok d -> 0 <= len <= i_ptr d - i_ptr_start d ->
  slice (Z.to_nat (i_ptr_start d + len)) (Z.to_nat (i_ptr d - (i_ptr_start d + len))) (i_buf_bytes d) =
  drop (Z.to_nat len) (unread d).
Proof.
  intros Hok Hl. destruct Hok. unfold unread, slice. rewrite skipn_firstn_comm, drop_drop.
  f_equal; [lia|]. f_equal. lia.
Qed.
Lemma unread_take d len : buf_ok d -> 0 <= len <= i_ptr d - i_ptr_start d ->
  slice (Z.to_nat (i_ptr_start d)) (Z.to_nat len) (i_buf_bytes d) = take (Z.to_nat len) (unread d).
Proof.
  intros Hok Hl. destruct Hok. unfold unread, slice. rewrite take_take. f_equal. lia.
Qed.
Lemma recorded_view start len w : desc (recorded start len w) = desc w /\
  queue (recorded start len w) = queue w /\ async_ref (recorded start len w) = async_ref w.
Proof. done. Qed.
Lemma slice_drop_eq o n (a b : bytes) : drop o a = drop o b -> slice o n a = slice o n b.
Proof. unfold slice. by intros ->. Qed.

Lemma deliver_packet_spec len w : buf_ok (desc w) -> i_buf (desc w) <> None ->
  0 < len <= i_ptr (desc w) - i_ptr_start (desc w) ->
  delivered len w (snd (deliver_packet ulong len w)).
Proof.
  intros Hok Hb Hlen. pose proof Hok as [Hs Hz Hr Hp Hi].
  unfold deliver_packet. rewrite (bind_eq get_desc _ _ _ _ eq_refl).
  set (wc := snd (inet_input_count ulong len w)).
  rewrite (bind_eq (inet_input_count ulong len) _ _ tt wc eq_refl).
  assert (queue wc = queue w /\ async_ref wc = async_ref w /\ conf (inet (desc wc)) = conf (inet (desc w)))
    as (Hwq & Hwr & Hwf) by done.
  assert (i_bufsz (desc wc) = i_bufsz (desc w)) as Hwb by done.
  set (start := i_ptr_start (desc w)) in *.
  set (k := Z.to_nat (start + len)).
  assert (orig_size (i_buf_bytes (desc wc)) = orig_size (i_buf_bytes (desc w))) as Eoc by done.
  assert (packets (recorded start len wc) = packets w ++ [take (Z.to_nat len) (unread (desc w))]) as Epk.
  { rewrite <-(unread_take _ _ Hok) by lia. done. }
  destruct (int32 (len * 4) >=? orig_size (i_buf_bytes (desc w)) * 3).
  - destruct (Z.eqb_spec (start + len) (i_ptr (desc w))) as [Eend|Eend].
    + pose proof (loop_reply_binary_data_keeps ulong k start len wc ltac:(lia) ltac:(lia) ltac:(lia) Hb ltac:(lia)) as Hk.
      destruct (loop_reply_binary_data ulong start len wc) as [code w1] eqn:E1. cbn [snd] in Hk.
      rewrite (bind_eq _ _ _ _ _ E1). destruct (recorded_view start len wc) as (V6 & V7 & V8).
      destruct (loop_clear_input_spec w1) as (Hrest & Hnone & Hview).
      destruct (loop_clear_input w1) as [[] w2] eqn:E2. cbn [snd] in *. rewrite (bind_eq _ _ _ _ _ E2).
      destruct (cleared_ok _ Hview) as [Hok2 Hu2]. injection Hrest as R1 R2 R3 R4 R5.
      injection Hview as V1 V2 V3 V4 V5. destruct Hk.
      split; cbn [snd mret M_ret]; try done; try congruence; try lia.
      * rewrite Hu2, drop_ge; [done|]. pose proof (length_unread _ Hok). lia.
      * by rewrite V1, V2.
      * rewrite R1. exact k_active0.
    + destruct (alloc_buffer_spec (i_bufsz (desc w)) wc ltac:(lia)) as (Ed & Er & Hbsz & Hbn).
      destruct (alloc_buffer (i_bufsz (desc w)) wc) as [[bin|] w0] eqn:Ea; cbn [fst snd] in *;
        [|by destruct (Hbn memory)].
      specialize (Hbsz bin eq_refl). rewrite (bind_eq _ _ _ _ _ Ea). cbv zeta.
      pose proof (unread_drop (desc w) len Hok ltac:(lia)) as Htrail. fold start k in Htrail. rewrite Htrail.
      pose proof (loop_reply_binary_data_keeps ulong k start len w0 ltac:(lia) ltac:(lia)
        ltac:(rewrite Ed; lia) ltac:(by rewrite Ed) ltac:(lia)) as Hk.
      destruct (loop_reply_binary_data ulong start len w0) as [code w1] eqn:E1. cbn [snd] in Hk.
      rewrite (bind_eq _ _ _ _ _ E1), (bind_eq get_desc _ _ _ _ eq_refl).
      destruct (recorded_view start len w0) as (V6 & V7 & V8).
      destruct (free_buffer_view (i_buf_bytes (desc w1)) w1) as [Ed2 Er2].
      destruct (free_buffer (i_buf_bytes (desc w1)) w1) as [[] w2] eqn:E2. cbn [snd] in *.
      rewrite (bind_eq _ _ _ _ _ E2).
      pose proof (length_unread _ Hok) as Hlu.
      assert (0 + Z.of_nat (length (drop (Z.to_nat len) (unread (desc w)))) <= orig_size bin) as Htsz
        by (rewrite length_drop; lia).
      cbv [mbind M_bind upd modify mret M_ret]. cbn [fmap option_fmap option_map snd].
      injection Er2 as R1 R2 R3 R4 R5. injection Er as S1 S2 S3 S4 S5. destruct Hk.
      assert (packets (recorded start len w0) = packets (recorded start len wc)) as Ep.
      { unfold recorded. cbn. by rewrite S5, Ed. }
      split; cbn [desc packets queue async_ref inet i_bufsz i_buf i_ptr i_ptr_start i_remain w_i_remain
        w_i_ptr w_i_ptr_start w_i_buf]; try done; try congruence.
      * rewrite Ed2. cbn in k_bufsz0. split; cbn; rewrite ?orig_size_store, ?Ed2, ?k_bufsz0, ?Ed; lia.
      * change (slice (Z.to_nat 0) (Z.to_nat (i_ptr (desc w) - (start + len) - 0))
          (store bin 0 (drop (Z.to_nat len) (unread (desc w)))) = drop (Z.to_nat len) (unread (desc w))).
        rewrite Z.sub_0_r. replace (i_ptr (desc w) - (start + len))
          with (Z.of_nat (length (drop (Z.to_nat len) (unread (desc w))))) by (rewrite length_drop; lia).
        rewrite Nat2Z.id. by apply (slice_store bin 0).
      * intros Hall. exfalso. apply Eend. fold start in Hall. lia.
      * intros Ha. rewrite Ed2. apply k_active0. cbn. by rewrite Ed.
  - pose proof (loop_reply_data_keeps ulong k start len wc ltac:(lia) ltac:(lia) ltac:(lia) Hb ltac:(lia)) as Hk.
    destruct (loop_reply_data ulong start len wc) as [code w1] eqn:E1. cbn [snd] in Hk.
    rewrite (bind_eq _ _ _ _ _ E1).
    set (w2 := snd (upd (fun d => w_i_ptr_start (i_ptr_start d + len) d) w1)).
    rewrite (bind_eq (upd _) _ _ tt w2 eq_refl), (bind_eq get_desc _ _ _ _ eq_refl).
    destruct Hk. pose proof (length_unread _ Hok) as Hlu.
    destruct (recorded_view start len wc) as (V6 & V7 & V8).
    assert (queue w2 = queue w1 /\ async_ref w2 = async_ref w1 /\ packets w2 = packets w1 /\
      inet (desc w2) = inet (desc w1)) as (U1 & U2 & U3 & U4) by done.
    assert (i_ptr_start (desc w2) = start + len) as Es2 by (cbn; rewrite k_start0; done).
    assert (i_ptr (desc w2) = i_ptr (desc w)) as Ep2 by (cbn; rewrite k_ptr0; done).
    assert (i_bufsz (desc w2) = i_bufsz (desc w)) as Eb2 by (cbn; rewrite k_bufsz0; done).
    assert (orig_size (i_buf_bytes (desc w2)) = orig_size (i_buf_bytes (desc w))) as Eo2
      by (unfold orig_size; change (i_buf_bytes (desc w2)) with (i_buf_bytes (desc w1)); by rewrite k_size0).
    rewrite Es2, Ep2. destruct (Z.eqb_spec (start + len) (i_ptr (desc w))) as [Eend|Eend].
    + destruct (loop_clear_input_spec w2) as (Hrest & Hnone & Hview).
      destruct (loop_clear_input w2) as [[] w3] eqn:E3. cbn [snd] in *. rewrite (bind_eq _ _ _ _ _ E3).
      destruct (cleared_ok _ Hview) as [Hok3 Hu3]. injection Hrest as R1 R2 R3 R4 R5.
      injection Hview as V1 V2 V3 V4 V5.
      split; cbn [snd mret M_ret]; try done; try congruence; try lia.
      * rewrite Hu3, drop_ge; [done|]. lia.
      * by rewrite V1, V2.
      * rewrite R1. exact k_active0.
    + rewrite (bind_eq (upd _) _ _ tt (snd (upd (w_i_remain 0) w2)) eq_refl). cbn [snd mret M_ret].
      split; try done.
      * split; change (i_ptr_start (desc (snd (upd (w_i_remain 0) w2)))) with (i_ptr_start (desc w2));
          change (i_ptr (desc (snd (upd (w_i_remain 0) w2)))) with (i_ptr (desc w2));
          change (i_bufsz (desc (snd (upd (w_i_remain 0) w2)))) with (i_bufsz (desc w2));
          change (i_buf_bytes (desc (snd (upd (w_i_remain 0) w2)))) with (i_buf_bytes (desc w2));
          change (i_remain (desc (snd (upd (w_i_remain 0) w2)))) with 0; lia.
      * rewrite <-unread_drop by (done || lia). fold start. rewrite <-Es2, <-Ep2.
        apply slice_drop_eq. change (i_buf_bytes (desc (snd (upd (w_i_remain 0) w2)))) with (i_buf_bytes (desc w1)).
        rewrite Es2. exact k_bytes0.
      * cbn. rewrite k_packets0. done.
      * change (i_bufsz (desc w2) = match i_buf (desc w1) with Some _ => i_bufsz (desc w) | None => 0 end).
        destruct (i_buf (desc w1)) eqn:Eb1; [done|]. exfalso. apply Hb. by apply k_buf0.
      * intros Hall. exfalso. apply Eend. fold start in Hall. lia.
      * intros Hn. exfalso. apply Hb. by apply k_buf0.
Qed.
Lemma dl_bufsz_le len w w' : buf_ok (desc w) -> delivered len w w' -> i_bufsz (desc w') <= i_bufsz (desc w).
Proof. intros [] []. rewrite dl_bufsz0. destruct (i_buf (desc w')); lia. Qed.

(** ** Packet types whose headers claim less than 2^17 bytes *)

Definition small_type (htype : Z) : bool :=
  bool_decide (htype ∈ [TCP_PB_RAW; TCP_PB_1; TCP_PB_2; TCP_PB_FCGI; TCP_PB_LINE_LF; TCP_PB_TPKT;
    TCP_PB_HTTP; TCP_PB_HTTPH]).
Lemma byte_at_take l n i : all_bytes (take n l) -> (i < n)%nat -> is_byte (byte_at l i).
Proof.
  intros Hb Hi. pose proof (byte_at_is_byte (take n l) i Hb) as H0. unfold byte_at in *.
  rewrite !nth_lookup in *. by rewrite lookup_take_lt in H0.
Qed.
Lemma byte_at_drop l k i : byte_at (drop k l) i = byte_at l (k + i).
Proof. unfold byte_at. by rewrite !nth_lookup, lookup_drop. Qed.
Lemma get_int16_range l : is_byte (byte_at l 0) -> is_byte (byte_at l 1) -> 0 <= get_int16 l < 2 ^ 16.
Proof. intros [? ?] [? ?]. unfold get_int16. rewrite lor_digit by lia. lia. Qed.
Lemma http_case_remain hs ptr n nsz nfill plen hlen : http_case hs ptr n nsz nfill <> Remain plen hlen.
Proof.
  unfold http_case. destruct (_ || _); [done|].
  generalize (S (length ptr)). intros fuel.
  assert (forall off len, http_lines fuel hs ptr off len n nsz nfill <> Remain plen hlen) as Hl; [|apply Hl].
  induction fuel as [|fuel IH]; intros off len; [done|]. cbn [http_lines].
  destruct (memchr_int _ _ _); [|by destruct (_ && _)].
  destruct (hs =? 0); [done|]. destruct (_ <? n); [|done]. destruct (SP _); [apply IH|done].
Qed.
Lemma small_case htype hs ptr n nsz nfill plen hlen : small_type htype = true ->
  all_bytes (take (Z.to_nat n) ptr) -> packet_case_of htype hs ptr n nsz nfill = Remain plen hlen ->
  0 <= plen < 2 ^ 17 /\ 1 <= hlen <= 8.
Proof.
  intros Hs Hb. apply bool_decide_eq_true in Hs.
  assert (forall i, (Z.of_nat i < n) -> is_byte (byte_at ptr i)) as Hby
    by (intros i Hi; apply (byte_at_take _ (Z.to_nat n)); [done|lia]).
  repeat (apply elem_of_cons in Hs as [->|Hs]); [..|by apply elem_of_nil in Hs].
  - unfold packet_case_of. cbn. by destruct (n =? 0).
  - unfold packet_case_of. cbn. destruct (Z.ltb_spec n 1); [done|]. intros [= <- <-].
    destruct (Hby 0%nat); [lia|]. unfold get_int8. lia.
  - unfold packet_case_of. cbn. destruct (Z.ltb_spec n 2); [done|]. intros [= <- <-].
    pose proof (get_int16_range ptr (Hby 0%nat ltac:(lia)) (Hby 1%nat ltac:(lia))). lia.
  - change (packet_case_of TCP_PB_FCGI hs ptr n nsz nfill) with
      (if n <? fcgi_head_size then More
       else if negb (byte_at ptr 0 =? FCGI_VERSION_1) then PacketError
       else Remain ((byte_at ptr 4 << 8 |. byte_at ptr 5)%C + byte_at ptr 6) fcgi_head_size).
    unfold fcgi_head_size. destruct (Z.ltb_spec n 8); [done|]. destruct (negb _); [done|].
    intros [= <- <-]. destruct (Hby 4%nat ltac:(lia)), (Hby 5%nat ltac:(lia)), (Hby 6%nat ltac:(lia)).
    rewrite lor_digit by lia. lia.
  - unfold packet_case_of. cbn. destruct (memchr_int _ _ _); [done|]. by destruct (_ && _).
  - change (packet_case_of TCP_PB_TPKT hs ptr n nsz nfill) with
      (if n <? tpkt_head_size then More
       else if byte_at ptr 0 =? TPKT_VRSN then
         let plen := get_int16 (drop 2 ptr) - tpkt_head_size in
         if plen <? 0 then PacketError else Remain plen tpkt_head_size
       else PacketError).
    unfold tpkt_head_size. destruct (Z.ltb_spec n 4); [done|]. destruct (_ =? _); [|done]. cbv zeta.
    destruct (Z.ltb_spec (get_int16 (drop 2 ptr) - 4) 0); [done|]. intros [= <- <-].
    pose proof (get_int16_range (drop 2 ptr)) as Hr. rewrite !byte_at_drop in Hr.
    specialize (Hr (Hby 2%nat ltac:(lia)) (Hby 3%nat ltac:(lia))). lia.
  - intros Hc. by apply http_case_remain in Hc.
  - intros Hc. by apply http_case_remain in Hc.
Qed.
(** A packet of no bytes is found only in an empty buffer. *)
Lemma done_zero htype hs ptr n nsz nfill : 0 <= n ->
  packet_case_of htype hs ptr n nsz nfill = Done 0 -> nfill = n.
Proof.
  intros Hn. unfold packet_case_of.
  destruct (htype =? TCP_PB_RAW). { destruct (Z.eqb_spec n 0); [done|]. intros [= ->]. lia. }
  destruct (htype =? TCP_PB_1). { by case_match. } destruct (htype =? TCP_PB_2). { by case_match. }
  destruct (htype =? TCP_PB_4). { by case_match. } destruct (htype =? TCP_PB_RM). { by case_match. }
  destruct (htype =? TCP_PB_LINE_LF).
  { destruct (memchr_int ptr LF n) as [i|] eqn:Em.
    - intros [= E0]. apply memchr_int_lt in Em; lia.
    - destruct (_ && _) eqn:Ec; [|done]. intros _. apply andb_true_iff in Ec as [_ Ec]. by apply Z.eqb_eq. }
  destruct (htype =? TCP_PB_ASN1).
  { unfold asn1_case. destruct (n <? 2); [done|]. destruct (_ =? 0x1f).
    - destruct (asn1_tag _ _) as [tptr nn]. destruct (nn <? 2); [done|]. intros Hd. by apply asn1_length_done in Hd.
    - intros Hd. by apply asn1_length_done in Hd. }
  destruct (htype =? TCP_PB_CDR). { repeat case_match; done. }
  destruct (htype =? TCP_PB_FCGI). { repeat case_match; done. }
  assert (forall hs, http_case hs ptr n nsz nfill = Done 0 -> nfill = n) as Hhttp.
  { intros hs'. unfold http_case.
    destruct (((n =? 1) && _) || _) eqn:E1.
    { intros [= E0]. rewrite E0 in E1. cbn in E1. discriminate. }
    generalize (S (length ptr)). intros fuel.
    assert (forall off len, 0 <= off -> http_lines fuel hs' ptr off len n nsz nfill = Done 0 -> nfill = n) as Hl;
      [|by apply Hl].
    induction fuel as [|fuel IH]; intros off len Ho; [done|]. cbn [http_lines].
    destruct (memchr_int _ _ _) as [i|] eqn:Em.
    - apply memchr_int_nonneg in Em. destruct (hs' =? 0); [intros [=]; lia|].
      destruct (_ <? n); [|done]. destruct (SP _); [apply IH; lia|intros [=]; lia].
    - destruct ((nsz =? 0) && (nfill =? n)) eqn:Ec; [|discriminate]. intros _. apply andb_true_iff in Ec as [_ Ec]. by apply Z.eqb_eq. }
  destruct (htype =? TCP_PB_HTTPH); [apply Hhttp|]. destruct (htype =? TCP_PB_HTTP); [apply Hhttp|].
  repeat case_match; done.
Qed.

(** ** The delivery loop *)

(** The buffer is in order, holds bytes, is of moderate size, and the packet type is small. *)
Record good (w : world Q) : Prop := Good {
  g_ok : buf_ok (desc w);
  g_small : small_type (htype (inet (desc w))) = true;
  g_bytes : all_bytes (unread (desc w));
  g_bufsz : i_bufsz (desc w) < 2 ^ 30 + 2 ^ 18;
}.
Lemma conf_htype d d' : conf d = conf d' -> htype d = htype d'.
Proof. intros Hc. change (htype (conf d) = htype (conf d')). by rewrite Hc. Qed.
Lemma good_fits w : good w -> size_fits (desc w).
Proof.
  intros [Hok Hs Hb Hz]. pose proof Hok as [? ? ? ? ?]. unfold size_fits, case_at.
  destruct (packet_case_of _ _ _ _ _ _) as [|plen hlen| |] eqn:Ec; try done.
  apply small_case in Ec; [|done|exact Hb]. rewrite sint_small by lia. lia.
Qed.
Lemma remain_progress w : good w -> let r := loop_remain w in
  fst (fst r) = 0 -> 0 < snd (fst r) \/ i_ptr_start (desc w) = 0.
Proof.
  intros Hg r. subst r. pose proof (good_fits _ Hg) as Hfit. destruct Hg as [Hok Hs Hb Hz].
  pose proof Hok as [? ? ? ? ?]. rewrite loop_remain_eq. unfold size_fits in Hfit.
  destruct (case_at (desc w)) as [plen|plen hlen| |] eqn:Ec; cbv zeta.
  - cbn [fst snd mret M_ret]. intros _. destruct (decide (plen = 0)) as [->|Hn].
    + apply done_zero in Ec; [right; lia|lia].
    + apply packet_case_done in Ec; [left; lia|lia].
  - apply small_case in Ec; [|done|exact Hb]. rewrite (sint_small 32 (plen + hlen)) in * by lia.
    match goal with |- context [Z.leb ?a 0] => destruct (Z.leb_spec a 0) end; [cbn [fst snd mret M_ret]; lia|].
    destruct (loop_expand_buffer (plen + hlen) (set_http w)) as [r2 w2] eqn:Ex. rewrite (bind_eq _ _ _ _ _ Ex).
    destruct (r2 <? 0); cbn [fst snd mret M_ret]; lia.
  - destruct (Z.eqb_spec (i_bufsz (desc w) - i_ptr (desc w)) 0); [|cbn; lia].
    destruct (Z.eqb_spec (i_ptr (desc w)) (i_ptr (desc w) - i_ptr_start (desc w))); cbn [fst snd mret M_ret]; [lia|].
    intros. right. lia.
  - cbn [fst snd mret M_ret]. lia.
Qed.

(** Messages are accepted in active mode, and packets of a type that has no invalid ones fit. *)
Definition safe_type (htype : Z) : bool :=
  bool_decide (htype ∈ [TCP_PB_RAW; TCP_PB_1; TCP_PB_2; TCP_PB_LINE_LF]).
Record quiet w : Prop := Quiet {
  q_accepted : forall l c, 0 <= send_rc l c;
  q_type : safe_type (htype (inet (desc w))) = true;
  q_active : active (inet (desc w)) = INET_ACTIVE;
  q_room : i_buf (desc w) <> None -> 2 <= i_bufsz (desc w);
}.

(** *** Results of replies *)

Definition nonneg (m : M (world Q) Z) : Prop := forall w, 0 <= fst (m w).
Lemma nonneg_bind {A} (m : M (world Q) A) f : (forall a, nonneg (f a)) -> nonneg (mbind f m).
Proof. intros Hf w. unfold mbind, M_bind. destruct (m w) as [a w1]. apply Hf. Qed.
Lemma nonneg_then_once (m : M (world Q) Z) : nonneg m -> nonneg (code ← m; once code).
Proof.
  intros Hm w. specialize (Hm w). destruct (m w) as [code w1] eqn:E1. rewrite (bind_eq _ _ _ _ _ E1).
  cbn [fst] in Hm. unfold once. rewrite (proj2 (Z.ltb_ge _ _)) by done.
  rewrite (bind_eq get_inet _ _ _ _ eq_refl). by destruct (_ =? INET_ONCE).
Qed.
Lemma fst_then {A} (m : M (world Q) Z) (k : Z -> M (world Q) A) w :
  fst ((code ← m; k code;;; mret code) w) = fst (m w).
Proof. unfold mbind, M_bind. destruct (m w) as [code w1]. by destruct (k code w1). Qed.

Section Accepted.
Context (accepted : forall l c, 0 <= send_rc l c).
Lemma nonneg_call c : nonneg (do_call c).
Proof. intros w. apply accepted. Qed.
Lemma nonneg_port_data buf len : nonneg (inet_port_data buf len).
Proof. unfold inet_port_data. apply nonneg_bind. intros d. repeat case_match; apply nonneg_call. Qed.
Lemma nonneg_port_binary_data b o len : nonneg (inet_port_binary_data b o len).
Proof. unfold inet_port_binary_data. apply nonneg_bind. intros d. case_match; apply nonneg_call. Qed.
Lemma nonneg_loop_message buf len : nonneg (loop_message buf len).
Proof.
  unfold loop_message. apply nonneg_bind. intros d. case_match; [apply nonneg_call|].
  intros w. rewrite (bind_eq (driver_alloc_ok _) _ _ true w) by (unfold driver_alloc_ok; by rewrite memory).
  apply nonneg_call.
Qed.
Lemma nonneg_loop_binary_message b o len : nonneg (loop_binary_message b o len).
Proof. unfold loop_binary_message. apply nonneg_bind. intros d. apply nonneg_call. Qed.
Lemma nonneg_reply_http o len : nonneg (reply_http ulong o len).
Proof.
  unfold reply_http. apply nonneg_bind. intros d. apply nonneg_bind. intros [code buf].
  apply nonneg_bind. intros _. apply nonneg_bind. intros _. by intros w.
Qed.
Lemma reply_codes start len w : active (inet (desc w)) = INET_ACTIVE ->
  0 <= fst (loop_reply_data ulong start len w) /\ 0 <= fst (loop_reply_binary_data ulong start len w).
Proof.
  intros Ha. unfold loop_reply_data, loop_reply_binary_data. rewrite !(bind_eq get_desc _ _ _ _ eq_refl), Ha.
  cbv zeta. destruct (packet_data _ _ start len) as [o l]. change (INET_ACTIVE =? INET_PASSIVE) with false.
  split; apply nonneg_bind; intros _; apply nonneg_bind; intros _; repeat case_match;
    apply nonneg_then_once; auto using nonneg_port_data, nonneg_port_binary_data, nonneg_loop_message,
      nonneg_loop_binary_message, nonneg_reply_http.
Qed.
Lemma deliver_packet_code len w : 0 <= i_bufsz (desc w) -> active (inet (desc w)) = INET_ACTIVE ->
  0 <= fst (deliver_packet ulong len w).
Proof.
  intros Hz Ha. unfold deliver_packet. rewrite (bind_eq get_desc _ _ _ _ eq_refl).
  set (wc := snd (inet_input_count ulong len w)).
  rewrite (bind_eq (inet_input_count ulong len) _ _ tt wc eq_refl).
  assert (active (inet (desc wc)) = INET_ACTIVE) as Hac by done.
  repeat case_match.
  - rewrite fst_then. by apply reply_codes.
  - destruct (alloc_buffer_spec (i_bufsz (desc w)) wc ltac:(lia)) as (Ed & _).
    destruct (alloc_buffer (i_bufsz (desc w)) wc) as [bin w0] eqn:Ea. cbn [snd] in Ed.
    rewrite (bind_eq _ _ _ _ _ Ea). cbv zeta.
    pose proof (reply_codes (i_ptr_start (desc w)) len w0 ltac:(by rewrite Ed)) as [_ Hc].
    destruct (loop_reply_binary_data ulong (i_ptr_start (desc w)) len w0) as [code w1] eqn:E1.
    rewrite (bind_eq _ _ _ _ _ E1), (bind_eq get_desc _ _ _ _ eq_refl). cbv [mbind M_bind].
    destruct (free_buffer _ w1) as [[] w2]. exact Hc.
  - pose proof (reply_codes (i_ptr_start (desc w)) len wc Hac) as [Hc _].
    destruct (loop_reply_data ulong (i_ptr_start (desc w)) len wc) as [code w1] eqn:E1.
    rewrite (bind_eq _ _ _ _ _ E1). cbv [mbind M_bind upd modify get_desc gets].
    match goal with |- 0 <= fst (let '(_, s') := ?x in _) => destruct x end. exact Hc.
Qed.
End Accepted.

(** *** Packets of the safe types *)

Lemma safe_case htype hs ptr n nsz nfill : safe_type htype = true -> 0 <= n -> 2 <= nsz + nfill ->
  match packet_case_of htype hs ptr n nsz nfill with
  | PacketError => False
  | More => nsz = 0 -> nfill <> n
  | _ => True
  end.
Proof.
  intros Hs Hn Hz. apply bool_decide_eq_true in Hs.
  repeat (apply elem_of_cons in Hs as [->|Hs]); [..|by apply elem_of_nil in Hs]; unfold packet_case_of; cbn.
  - destruct (Z.eqb_spec n 0); [lia|done].
  - destruct (Z.ltb_spec n 1); [lia|done].
  - destruct (Z.ltb_spec n 2); [lia|done].
  - destruct (memchr_int _ _ _); [done|].
    destruct (Z.eqb_spec nsz 0), (Z.eqb_spec nfill n); cbn [andb]; done || lia.
Qed.
Lemma safe_small htype : safe_type htype = true -> small_type htype = true.
Proof.
  intros Hs. apply bool_decide_eq_true in Hs. apply bool_decide_eq_true.
  rewrite !elem_of_cons in *. tauto.
Qed.
Lemma remain_no_error w : good w -> safe_type (htype (inet (desc w))) = true -> 2 <= i_bufsz (desc w) ->
  0 <= fst (fst (loop_remain w)).
Proof.
  intros Hg Hs H2. pose proof (good_fits _ Hg) as Hfit. destruct Hg as [Hok Hsm Hb Hz].
  pose proof Hok as [? ? ? ? ?]. rewrite loop_remain_eq. unfold size_fits in Hfit.
  pose proof (safe_case _ (http_state (desc w)) (drop (Z.to_nat (i_ptr_start (desc w))) (i_buf_bytes (desc w)))
    (i_ptr (desc w) - i_ptr_start (desc w)) (i_bufsz (desc w) - i_ptr (desc w)) (i_ptr (desc w)) Hs
    ltac:(lia) ltac:(lia)) as Hc. fold (case_at (desc w)) in Hc.
  destruct (case_at (desc w)) as [plen|plen hlen| |] eqn:Ec; cbv zeta; [done| | |done].
  - set (total := int32 (plen + hlen)) in *.
    match goal with |- context [Z.leb ?a 0] => destruct (Z.leb_spec a 0) as [|Hgt] end; [done|].
    pose proof (buf_view_ok _ _ (eq_sym (proj1 (set_http_view w))) Hok) as Hok'.
    destruct (set_http_view w) as [Ev _]. injection Ev as E1 E2 E3 E4 E5.
    apply small_case in Ec; [|by apply safe_small|exact Hb].
    assert (total = plen + hlen) as Et by (apply sint_small; lia).
    rewrite sint_small in Hgt by lia.
    destruct (loop_expand_buffer_spec total (set_http w) Hok' ltac:(lia)) as (_ & _ & _ & _ & _ & _ & _ & _ & _ & Hr0 & _).
    specialize (Hr0 memory).
    destruct (loop_expand_buffer total (set_http w)) as [r2 w2] eqn:Ex. cbn [fst] in Hr0. subst r2.
    rewrite (bind_eq _ _ _ _ _ Ex). cbn [fst mret M_ret Z.ltb Z.compare].
    rewrite sint_small by lia. lia.
  - destruct (Z.eqb_spec (i_bufsz (desc w) - i_ptr (desc w)) 0) as [E0|]; [|cbn; lia].
    specialize (Hc E0). rewrite (proj2 (Z.eqb_neq _ _)) by done. cbn. lia.
Qed.

(** What the delivery of packets guarantees: [r] is its result. *)
Record progress w (r : Z) w' : Prop := Progress {
  p_ok : buf_ok (desc w');
  p_stream : concat (packets w') ++ unread (desc w') = concat (packets w) ++ unread (desc w);
  p_queue : queue w' = queue w;
  p_conf : conf (inet (desc w')) = conf (inet (desc w));
  p_rest : 0 <= r -> i_ptr_start (desc w') = 0;
  p_active : active (inet (desc w)) = INET_ACTIVE -> active (inet (desc w')) = INET_ACTIVE;
  p_none : i_buf (desc w) = None -> i_buf (desc w') = None;
  p_bufsz : i_buf (desc w') <> None -> i_bufsz (desc w) <= i_bufsz (desc w');
}.
Lemma progress_trans w r w1 r' w2 : progress w r w1 -> progress w1 r' w2 -> progress w r' w2.
Proof.
  intros [] []. split; try congruence; try tauto.
  intros Hb. etransitivity; [apply p_bufsz0|auto]. intros H1. auto.
Qed.

Lemma delivered_progress len r w w' : i_buf (desc w) <> None -> delivered len w w' ->
  r < 0 \/ i_ptr_start (desc w') = 0 -> progress w r w'.
Proof.
  intros Hb [] Hr. split; try done; try lia.
  - rewrite dl_packets0, dl_unread0, concat_app. cbn. rewrite app_nil_r, <-app_assoc. by rewrite take_drop.
  - rewrite dl_bufsz0. by destruct (i_buf (desc w')).
Qed.
Lemma remain_progresses r r' len w w' : i_buf (desc w) <> None -> remain_spec w r' len w' ->
  r < 0 \/ i_ptr_start (desc w) = 0 -> progress w r w'.
Proof.
  intros Hb [] Hr. injection rs_rest as V1 V2 V3 V4 V5. split; try congruence; done || lia.
Qed.
Lemma quiet_progress r w w' : quiet w -> progress w r w' -> quiet w'.
Proof.
  intros [] []. split; auto.
  - by rewrite (conf_htype _ _ p_conf0).
  - intros Hb. etransitivity; [apply q_room0|by apply p_bufsz0]. auto.
Qed.
Lemma delivered_good len w w' : good w -> delivered len w w' -> good w'.
Proof.
  intros [Hok Hs Hb Hz] Hd. pose proof (dl_bufsz_le _ _ _ Hok Hd). destruct Hd. split; [done| | |lia].
  - by rewrite (conf_htype _ _ dl_conf0).
  - rewrite dl_unread0. auto with cint.
Qed.
Lemma remain_good w r len w' : good w -> remain_spec w r len w' -> r = 0 -> loop_remain w = ((r, len), w') -> good w'.
Proof.
  intros Hg Hr -> Heq. destruct Hg as [Hok Hs Hb Hz].
  split; [apply Hr| |by rewrite (rs_unread _ _ _ _ Hr)|].
  - pose proof (rs_rest _ _ _ _ Hr) as Hv. injection Hv as -> _ _ _ _. done.
  - revert Heq. rewrite loop_remain_eq. destruct (set_http_view w) as [Ev _]. injection Ev as E1 _ _ _ _.
    destruct (case_at (desc w)) as [plen|plen hlen| |]; cbv zeta.
    + intros [= _ <-]. by rewrite E1.
    + destruct (_ <=? 0) eqn:El; [intros [= _ <-]; by rewrite E1|].
      destruct (loop_expand_buffer (int32 (plen + hlen)) (set_http w)) as [r2 w2] eqn:Ex.
      rewrite (bind_eq _ _ _ _ _ Ex). apply Z.leb_gt in El. destruct (r2 <? 0); intros [=]. lia.
    + destruct (Z.eqb_spec (i_bufsz (desc w) - i_ptr (desc w)) 0).
      * destruct (_ =? _); intros [=]. subst. by rewrite E1.
      * intros [=]. lia.
    + intros [=].
Qed.
(** The end of the poll for the next packet. *)
Lemma set_remain_ok w len : buf_ok (desc w) -> 0 <= len -> i_ptr (desc w) + len <= i_bufsz (desc w) ->
  buf_ok (desc (snd (upd (w_i_remain len) w))).
Proof. intros [] ? ?. split; cbn; unfold i_buf_bytes in *; cbn; lia. Qed.
Lemma poll_end w r len w' : i_buf (desc w) <> None -> remain_spec w r len w' -> 0 < r ->
  let w2 := snd ((loop_restart_input;;; (when 0 <? len do upd (w_i_remain len))) w') in
  progress w r w2.
Proof.
  intros Hb [] Hr w2. pose proof (loop_restart_input_spec w' rs_ok) as Hrest. unfold w2.
  destruct (loop_restart_input w') as [[] w1] eqn:E1. cbn [snd] in Hrest.
  destruct Hrest as (Hok1 & Hu1 & Hv1 & Hs1 & Hr1 & _ & Hp1 & Hb1). rewrite (bind_eq _ _ _ _ _ E1).
  injection Hv1 as V1 V2 V3 V4 V5. injection rs_rest as V6 V7 V8 V9 V10.
  assert (progress w r w1) as Hp by (split; try congruence; done || lia).
  destruct (Z.ltb_spec 0 len) as [Hlen|Hlen]; [|done].
  destruct (rs_exact Hr Hlen) as [-> Hb2]. destruct Hp. split; try done.
  apply set_remain_ok; [done|lia|lia].
Qed.

(** The buffer is of moderate size, or a packet is being read for which it was expanded. *)
Definition settled w : Prop := good w /\ (0 < i_remain (desc w) \/ i_bufsz (desc w) < 2 ^ 30).
(** Nothing is left after [len], or the buffer is of moderate size. *)
Definition roomy (len : Z) w : Prop :=
  i_bufsz (desc w) < 2 ^ 30 \/ 0 < len /\ len = i_ptr (desc w) - i_ptr_start (desc w).
Lemma good_after w w' : good w -> buf_ok (desc w') -> htype (inet (desc w')) = htype (inet (desc w)) ->
  unread (desc w') = unread (desc w) -> i_bufsz (desc w') < 2 ^ 30 + 2 ^ 18 -> good w'.
Proof. intros [] ? Hh Hu ?. split; rewrite ?Hh, ?Hu; done. Qed.
Lemma remain_bufsz w : good w -> let r := loop_remain w in
  i_bufsz (desc (snd r)) <= i_bufsz (desc w) + 2 ^ 18 /\
  (fst (fst r) <= 0 \/ snd (fst r) = 0 -> i_bufsz (desc (snd r)) = i_bufsz (desc w)).
Proof.
  intros [Hok Hs Hb Hz] r. subst r. pose proof Hok as [? ? ? ? ?]. rewrite loop_remain_eq.
  destruct (set_http_view w) as [Ev _].
  pose proof (buf_view_ok _ _ (eq_sym Ev) Hok) as Hok'. injection Ev as E1 E2 E3 E4 E5.
  destruct (case_at (desc w)) as [plen|plen hlen| |] eqn:Ec; cbv zeta.
  - cbn [fst snd mret M_ret]. rewrite E1. lia.
  - apply small_case in Ec; [|done|exact Hb]. rewrite (sint_small 32 (plen + hlen)) by lia.
    destruct (Z.leb_spec (int32 (plen + hlen - (i_ptr (desc w) - i_ptr_start (desc w)))) 0);
      [cbn [fst snd mret M_ret]; rewrite E1; lia|].
    destruct (loop_expand_buffer_spec (plen + hlen) (set_http w) Hok' ltac:(lia)) as
      (_ & _ & _ & _ & _ & _ & _ & _ & _ & Hr0 & Hmax). specialize (Hr0 memory).
    destruct (loop_expand_buffer (plen + hlen) (set_http w)) as [r2 w2] eqn:Ex. cbn [fst snd] in *. subst r2.
    rewrite (bind_eq _ _ _ _ _ Ex). cbn [fst snd mret M_ret Z.ltb Z.compare]. lia.
  - repeat case_match; cbn [fst snd mret M_ret]; rewrite E1; lia.
  - cbn [fst snd mret M_ret]. rewrite E1. lia.
Qed.
Lemma restart_settled w : settled w -> settled (snd (loop_restart_input w)).
Proof.
  intros [Hg Ht]. pose proof (loop_restart_input_spec w (g_ok w Hg)) as (Hok & Hu & Hv & _ & Hr & _ & _ & Hz).
  injection Hv as V1 V2 V3 V4 V5. split; [|by rewrite Hr, Hz].
  apply (good_after w); try done; [by rewrite V1|]. rewrite Hz. apply Hg.
Qed.
(** The poll that ends the loop, after the buffer was found small. *)
Lemma poll_settled w r len w' : good w -> i_bufsz (desc w) < 2 ^ 30 -> loop_remain w = ((r, len), w') ->
  remain_spec w r len w' -> good w' /\ (len <= 0 -> settled w') /\
  (0 < r -> settled (snd ((loop_restart_input;;; (when 0 <? len do upd (w_i_remain len))) w')) /\
            (0 < len -> settled (snd (upd (w_i_remain len) w')))).
Proof.
  intros Hg Hz E1 Hr. pose proof (remain_bufsz w Hg) as [Hz1 Hz2]. rewrite E1 in Hz1, Hz2. cbn [fst snd] in *.
  pose proof Hr as []. injection rs_rest as V1 V2 V3 V4 V5.
  assert (good w') as Hg' by (apply (good_after w); try done; [by rewrite V1|lia]).
  assert (len <= 0 -> settled w') as Hs.
  { intros Hl. split; [done|]. right. destruct (Z.eq_dec r 0) as [->|]; [rewrite Hz2; lia|].
    specialize (rs_len ltac:(done)). rewrite Hz2; lia. }
  split_and!; [done..|]. intros Hr0.
  assert (forall w1, good w1 -> unread (desc w1) = unread (desc w') -> i_ptr (desc w1) <= i_ptr (desc w') ->
    i_bufsz (desc w1) = i_bufsz (desc w') -> 0 < len -> settled (snd (upd (w_i_remain len) w1))) as Hset.
  { intros w1 Hg1 Hu1 Hp1 Hb1 Hl. destruct (rs_exact Hr0 Hl) as [-> Hb2]. split; [|by left].
    apply (good_after w1); try done; [|apply Hg1]. apply set_remain_ok; [apply Hg1|lia|lia]. }
  split; [|intros Hl; apply Hset; done || lia].
  pose proof (loop_restart_input_spec w' rs_ok) as (Hok1 & Hu1 & Hv1 & Hs1 & Hr1 & _ & Hp1 & Hb1).
  destruct (loop_restart_input w') as [[] w1] eqn:E2. cbn [snd] in *. rewrite (bind_eq _ _ _ _ _ E2).
  injection Hv1 as U1 U2 U3 U4 U5.
  assert (good w1) as Hg1 by (apply (good_after w'); try done; [by rewrite U1|lia]).
  destruct (Z.ltb_spec 0 len); [by apply Hset|]. cbn [snd skip].
  destruct (Hs ltac:(lia)) as [_ Ht]. split; [done|]. by rewrite Hr1, Hb1.
Qed.
Lemma deliver_packets_spec fuel len count w : good w ->
  (0 < len -> i_buf (desc w) <> None /\ len <= i_ptr (desc w) - i_ptr_start (desc w)) ->
  (len <= 0 -> i_ptr_start (desc w) = 0) ->
  i_ptr (desc w) - i_ptr_start (desc w) <= Z.of_nat fuel ->
  let r := deliver_packets ulong fuel len count w in
  progress w (fst r) (snd r) /\ (quiet w -> 0 <= count -> 0 <= fst r) /\
  (roomy len w -> settled (snd r)).
Proof.
  revert len count w. induction fuel as [|fuel IH]; intros len count w Hg Hlen H0 Hfuel; cbn [deliver_packets].
  { destruct (Z.leb_spec len 0); [|pose proof (proj2 (Hlen ltac:(lia))); lia].
    pose proof Hg as []. split; [by split; auto|split; [done|]]. intros [|[? ?]]; [|lia]. by split; [|right]. }
  destruct (Z.leb_spec len 0) as [Hl0|Hl0]. 
  { pose proof Hg as []. split; [by split; auto|split; [done|]]. intros [|[? ?]]; [|lia]. by split; [|right]. }
  destruct (Hlen Hl0) as [Hb Hle]. pose proof (deliver_packet_spec len w (g_ok w Hg) Hb ltac:(lia)) as Hd.
  assert (quiet w -> 0 <= fst (deliver_packet ulong len w)) as Hcode.
  { intros []. apply deliver_packet_code; [done| |done]. destruct (g_ok w Hg). lia. }
  destruct (deliver_packet ulong len w) as [code w1] eqn:E1. cbn [fst snd] in Hd, Hcode. rewrite (bind_eq _ _ _ _ _ E1).
  pose proof (delivered_good _ _ _ Hg Hd) as Hg1.
  pose proof (fun r => delivered_progress len r _ _ Hb Hd) as Hp1. pose proof Hd as [].
  assert (roomy len w -> i_bufsz (desc w1) < 2 ^ 30) as Hz1.
  { intros Hz. rewrite dl_bufsz0. destruct (i_buf (desc w1)) eqn:E0; [|lia].
    destruct Hz as [|[_ Hz]]; [done|]. by specialize (dl_all0 Hz). }
  destruct (Z.ltb_spec code 0).
  { split_and!; [by apply Hp1; left|intros Hq; specialize (Hcode Hq); lia|]. intros Hz. split; auto. }
  rewrite (bind_eq get_desc _ _ _ _ eq_refl).
  destruct (Z.eqb_spec (active (inet (desc w1))) 0) as [Ea|Ea].
  -     set (w2 := snd (act CancelTimer w1)). rewrite (bind_eq (act CancelTimer) _ _ tt w2 eq_refl).
    set (m := match i_buf (desc w1) with Some _ => loop_restart_input | None => skip end).
    assert (progress w 0 (snd (m w2))) as Hp2.
    { unfold m. destruct (i_buf (desc w1)) eqn:Eb1; [|destruct (Hp1 0 ltac:(auto)); by split].
      pose proof (loop_restart_input_spec w2 dl_ok0) as (Hok2 & Hu2 & Hv2 & Hs2 & _ & _ & _ & Hz2).
      injection Hv2 as V1 V2 V3 V4 V5. destruct (Hp1 (-1) ltac:(left; lia)).
      split; try done; rewrite ?Hu2, ?V1, ?V3, ?V5, ?Hz2; try done.
      intros _. apply p_bufsz0. by rewrite Eb1. }
    assert (settled w2 -> settled (snd (m w2))) as Hs2
      by (unfold m; destruct (i_buf (desc w1)); [apply restart_settled|done]).
    destruct (m w2) as [[] w3] eqn:E3. rewrite (bind_eq m _ _ _ _ E3). split_and!.
    + destruct Hp2. split; try done. intros _. by apply p_rest0.
    + intros Hq. by rewrite (dl_active0 (q_active _ Hq)) in Ea.
    + intros Hz. apply Hs2. split; [by destruct Hg1|right; exact (Hz1 Hz)].
  - destruct (i_buf (desc w1)) as [b1|] eqn:Eb1; 
      [|split_and!; [by apply Hp1; right; apply dl_none0|cbn; lia|intros Hz; split; auto]].
    assert (i_buf (desc w1) <> None) as Hb1 by (by rewrite Eb1).
    pose proof (loop_remain_spec w1 dl_ok0 (good_fits _ Hg1)) as Hr.
    pose proof (remain_progress w1 Hg1) as Hpr.
    assert (quiet w1 -> 0 <= fst (fst (loop_remain w1))) as Hre.
    { intros []. apply remain_no_error; auto. }
    destruct (loop_remain w1) as [[n len2] w2] eqn:E2. cbn [fst snd] in Hr, Hpr, Hre. rewrite (bind_eq _ _ _ _ _ E2).
    pose proof (Hp1 (-1) ltac:(left; lia)) as Hw1.
    pose proof (fun r => remain_progresses r n len2 _ _ Hb1 Hr) as Hp2.
    pose proof (fun Hz => poll_settled w1 n len2 w2 Hg1 (Hz1 Hz) E2 Hr) as Hps.
    destruct (Z.eqb_spec n 0) as [->|Hn].
    + assert (good w2) as Hg2 by (by apply (remain_good w1 0 len2)).
      pose proof (length_unread _ dl_ok0) as Hl1. pose proof (length_unread _ (g_ok w Hg)) as Hl.
      rewrite dl_unread0, length_drop in Hl1.
      pose proof (Hp2 (-1) ltac:(left; lia)) as Hw2. pose proof Hr as [].
      destruct (IH len2 (count + 1) w2) as (Hpi & Hci & Hsi); [done| | | |].
      * intros _. split; [intros Hn; by apply rs_buf in Hn|]. rewrite rs_ptr, rs_start. by apply rs_done.
      * intros Hle2. rewrite rs_start. destruct (Hpr eq_refl); [lia|done].
      * rewrite rs_ptr, rs_start. lia.
      * split; [exact (progress_trans _ _ _ _ _ Hw1 (progress_trans _ _ _ _ _ Hw2 Hpi))|].
        split; [intros Hq Hc; apply Hci; [|lia]; eapply quiet_progress; [|exact Hw2]; by eapply quiet_progress|].
        intros Hz. apply Hsi. left. pose proof (remain_bufsz w1 Hg1) as [_ Hzr]. rewrite E2 in Hzr. cbn [fst snd] in Hzr.
        rewrite Hzr by lia. exact (Hz1 Hz).
    + destruct (Z.ltb_spec n 0).
      { split_and!; [eapply progress_trans; [exact Hw1|by apply Hp2; left]| |].
        - intros Hq. specialize (Hre (quiet_progress _ _ _ Hq Hw1)). lia.
        - intros Hz. destruct (Hps Hz) as (Hg2 & _). split; [done|]. right.
          pose proof (remain_bufsz w1 Hg1) as [_ Hzr]. rewrite E2 in Hzr. cbn [fst snd] in Hzr.
          cbn [snd mret M_ret]. rewrite Hzr by lia. exact (Hz1 Hz). }
      pose proof (poll_end w1 n len2 w2 Hb1 Hr ltac:(lia)) as Hpe.
      destruct ((loop_restart_input;;; (when 0 <? len2 do upd (w_i_remain len2))) w2) as [[] w3] eqn:E3.
      cbn [snd] in Hpe, Hps.
      assert (((loop_restart_input;;; (when 0 <? len2 do upd (w_i_remain len2));;; mret (count + 1)) : M (world Q) Z) w2
        = (count + 1, w3)) as ->.
      { revert E3. cbv [mbind M_bind mret M_ret]. destruct (loop_restart_input w2) as [[] wr].
        destruct ((when 0 <? len2 do upd (w_i_remain len2)) wr) as [[] wr2]. by intros [= <-]. }
      split_and!; [|cbn; lia|intros Hz; by apply Hps; [|lia]].
      eapply progress_trans; [exact Hw1|]. destruct Hpe. split; try done. intros _. apply p_rest0. lia.
Qed.

(** ** Termination *)

(** A packet found is in the buffer, whatever its header claims: a claim beyond [int] is taken for
    a packet that is not complete. *)
Lemma remain_found w : buf_ok (desc w) -> let r := loop_remain w in
  fst (fst r) = 0 -> snd r = set_http w /\ snd (fst r) <= i_ptr (desc w) - i_ptr_start (desc w).
Proof.
  intros Hok r. subst r. pose proof Hok as [Hs Hz Hr Hp Hi]. rewrite loop_remain_eq.
  destruct (case_at (desc w)) as [plen|plen hlen| |] eqn:Ec; cbv zeta.
  - cbn [fst snd mret M_ret]. intros _. split; [done|]. apply packet_case_done in Ec; lia.
  - pose proof (sint_range 32 (plen + hlen) ltac:(lia)) as Hrange. change (2 ^ (32 - 1)) with (2 ^ 31) in Hrange.
    set (total := int32 (plen + hlen)) in *. set (n := i_ptr (desc w) - i_ptr_start (desc w)) in *.
    destruct (Z.leb_spec (int32 (total - n)) 0) as [Hle|Hgt].
    + cbn [fst snd mret M_ret]. intros _. split; [done|].
      destruct (Z.lt_ge_cases (total - n) (- 2 ^ 31)); [|rewrite sint_small in Hle; lia].
      exfalso. unfold sint, wrap in Hle. change (2 ^ (32 - 1)) with (2 ^ 31) in Hle.
      rewrite <-(Z.mod_add _ 1), Z.mod_small in Hle by lia. lia.
    + destruct (loop_expand_buffer total (set_http w)) as [r2 w2] eqn:Ex. rewrite (bind_eq _ _ _ _ _ Ex).
      destruct (r2 <? 0); cbn [fst snd mret M_ret]; lia.
  - destruct (Z.eqb_spec (i_bufsz (desc w) - i_ptr (desc w)) 0); [|cbn; lia].
    destruct (Z.eqb_spec (i_ptr (desc w)) (i_ptr (desc w) - i_ptr_start (desc w))); cbn [fst snd mret M_ret]; lia.
  - cbn [fst snd mret M_ret]. lia.
Qed.

(** Enough turns are enough. *)
Lemma deliver_packets_fuel fuel fuel' len count w : buf_ok (desc w) ->
  (0 < len -> i_buf (desc w) <> None /\ len <= i_ptr (desc w) - i_ptr_start (desc w)) ->
  i_ptr (desc w) - i_ptr_start (desc w) <= Z.of_nat fuel ->
  i_ptr (desc w) - i_ptr_start (desc w) <= Z.of_nat fuel' ->
  deliver_packets ulong fuel len count w = deliver_packets ulong fuel' len count w.
Proof.
  revert fuel' len count w. induction fuel as [|fuel IH]; intros fuel' len count w Hok Hlen Hf Hf'.
  all: destruct (Z.leb_spec len 0) as [Hl0|Hl0];
    [destruct fuel'; cbn [deliver_packets]; by rewrite (proj2 (Z.leb_le _ _) Hl0)|].
  all: destruct (Hlen Hl0) as [Hb Hle].
  1: lia.
  destruct fuel' as [|fuel']; [lia|]. cbn [deliver_packets]. rewrite (proj2 (Z.leb_gt _ _) Hl0).
  pose proof (deliver_packet_spec len w Hok Hb ltac:(lia)) as Hd.
  destruct (deliver_packet ulong len w) as [code w1] eqn:E1. cbn [snd] in Hd. rewrite !(bind_eq _ _ _ _ _ E1).
  destruct (code <? 0); [done|]. rewrite !(bind_eq get_desc _ _ _ _ eq_refl).
  destruct (active (inet (desc w1)) =? 0); [done|]. destruct (i_buf (desc w1)) as [b1|] eqn:Eb1; [|done].
  pose proof (remain_found w1 (dl_ok _ _ _ Hd)) as Hr.
  destruct (loop_remain w1) as [[n len2] w2] eqn:E2. cbn [fst snd] in Hr. rewrite !(bind_eq _ _ _ _ _ E2).
  destruct (Z.eqb_spec n 0) as [->|]; [|done]. destruct (Hr eq_refl) as [-> Hlen2].
  destruct (set_http_view w1) as [Ev _]. pose proof Hd as [].
  pose proof (length_unread _ dl_ok0) as Hl1. pose proof (length_unread _ Hok) as Hl.
  rewrite dl_unread0, length_drop in Hl1. injection Ev as V1 V2 V3 V4 V5.
  apply IH.
  - apply (buf_view_ok (desc w1)); [|done]. symmetry. apply set_http_view.
  - intros _. rewrite V2, V3, V4, Eb1. done.
  - lia.
  - lia.
Qed.
End Deliver.

(** C14: The loop that delivers packets terminates: with memory, whatever the packet type and the
    bytes, at most as many turns as there are unread bytes are made, so the result does not depend on
    the number of turns allowed beyond that. *)
Theorem loop_deliver_terminates {Q} `{PL : PortQueueLaws Q} `{IV : !IOVec Q} `{RT : !Runtime} `{E : !LoopEnv}
    `{IL : !IOVecLaws Q} `{MEM : !Memory} `{EL : !LoopEnvLaws E} ulong (w : world Q) len count turns :
  buf_ok (desc w) -> i_buf (desc w) <> None ->
  len <= i_ptr (desc w) - i_ptr_start (desc w) ->
  Z.of_nat turns >= Z.of_nat (length (unread (desc w))) ->
  deliver_packets ulong turns len count w =
  deliver_packets ulong (length (unread (desc w))) len count w.
Proof.
  intros Hok Hb Hlen Ht. pose proof (length_unread _ Hok).
  apply deliver_packets_fuel; try done; lia.
Qed.
Lemma loop_deliver_terminates_witness :
  let w := sample_buffer TCP_PB_LINE_LF [1; 10; 2; 3; 10; 4; 0; 0] 0 6 in
  deliver_packets (RT := rt_ok) (E := sample_env) 32 100 2 0 w =
  deliver_packets (RT := rt_ok) (E := sample_env) 32 (length (unread (desc w))) 2 0 w.
Proof.
  intros w. apply (loop_deliver_terminates (RT := rt_ok) 32 w 2 0 100).
  - apply sample_buffer_ok; cbn; lia.
  - vm_compute. discriminate.
  - vm_compute. discriminate.
  - vm_compute. discriminate.
Defined.
