(* ===== verification/LoopFlow.v ===== *)
(** What passes through the loop driver: receives keep the stream, and sequences of sends of an
    active port deliver what was sent. *)
From stdpp Require Import strings.
From S2P Require Import Prelude ErlTerm Erts LoopDesc LoopMsg LoopHttp LoopBuf LoopDrv LoopDeliver.
#[local] Open Scope Z_scope.

Section Receive.
Context {Q : Type} `{PL : PortQueueLaws Q} `{IV : !IOVec Q} `{RT : !Runtime} `{E : !LoopEnv}.
Context `{IL : !IOVecLaws Q} `{MEM : !Memory} `{EL : !LoopEnvLaws E} (ulong : Z).
Implicit Types (w : world Q).

(** * Receiving *)

(** A port between two calls. *)
Record rested w : Prop := Rested {
  r_good : good w;
  r_start : i_ptr_start (desc w) = 0;
  r_idle : IS_BUSY (inet (desc w)) = false;
  r_bytes : all_bytes (q_bytes (queue w));
  r_bufsz : 2 <= bufsz (inet (desc w)) < 2 ^ 30;
}.
Lemma loop_deliver_spec len w : good w -> i_ptr_start (desc w) = 0 ->
  (0 < len -> i_buf (desc w) <> None /\ len <= i_ptr (desc w)) ->
  let r := loop_deliver ulong len w in progress w (fst r) (snd r) /\ (quiet w -> 0 <= fst r) /\ (roomy len w -> settled (snd r)).
Proof.
  intros Hg Hst Hlen.
  assert (forall len w, good w -> i_ptr_start (desc w) = 0 ->
    (0 < len -> i_buf (desc w) <> None /\ len <= i_ptr (desc w) - i_ptr_start (desc w)) ->
    let r := deliver_from ulong len w in progress w (fst r) (snd r) /\ (quiet w -> 0 <= fst r) /\ (roomy len w -> settled (snd r))) as Hfrom.
  { clear Hg Hst Hlen len w. intros len w Hg Hst Hlen. unfold deliver_from. rewrite (bind_eq get_desc _ _ _ _ eq_refl).
    destruct (deliver_packets_spec ulong (Z.to_nat (i_ptr (desc w) - i_ptr_start (desc w))) len 0 w) as (Hp & Hq & Hs);
      try done; [destruct (g_ok w Hg); lia|]. split_and!; [done| |done]. intros Hqq. by apply Hq. }
  unfold loop_deliver. destruct (Z.eqb_spec len 0) as [->|]; [|apply Hfrom; [done..|rewrite Hst, Z.sub_0_r; done]].
  rewrite (bind_eq get_desc _ _ _ _ eq_refl).
  assert (forall r, progress w r w) as Hsame by (intros; split; by destruct Hg).
  assert (roomy 0 w -> settled w) as Hset by (intros [|[? ?]]; [|lia]; by split; [|right]).
  destruct (i_buf (desc w)) as [b|] eqn:Eb; [|by split_and!]. destruct (0 <? i_remain (desc w)); [by split_and!|].
  assert (i_buf (desc w) <> None) as Hb by (by rewrite Eb).
  pose proof (loop_remain_spec w (g_ok w Hg) (good_fits _ Hg)) as Hr.
  assert (quiet w -> 0 <= fst (fst (loop_remain w))) as Hre.
  { intros []. apply remain_no_error; auto. }
  destruct (loop_remain w) as [[n len2] w2] eqn:E2. cbn [fst snd] in *. rewrite (bind_eq _ _ _ _ _ E2).
  pose proof (fun r => remain_progresses r n len2 _ _ Hb Hr ltac:(auto)) as Hp2.
  assert (roomy 0 w -> i_bufsz (desc w) < 2 ^ 30) as Hroom by (intros [|[? ?]]; [done|lia]).
  pose proof (fun Hz => poll_settled w n len2 w2 Hg (Hroom Hz) E2 Hr) as Hps.
  pose proof (remain_bufsz w Hg) as [_ Hzr]. rewrite E2 in Hzr. cbn [fst snd] in Hzr.
  destruct (Z.eqb_spec n 0) as [->|].
  - pose proof (remain_good w 0 len2 w2 Hg Hr eq_refl E2) as Hg2. pose proof Hr as [].
    destruct (Hfrom len2 w2) as (Hp & Hq & Hsi); [done|congruence| |].
    + intros _. split; [intros Hn; by apply rs_buf in Hn|]. rewrite rs_ptr, rs_start. by apply rs_done.
    + split_and!; [eapply progress_trans; [apply (Hp2 0)|exact Hp]| |].
      * intros Hqw. apply Hq. eapply quiet_progress; [exact Hqw|apply (Hp2 0)].
      * intros Hz. apply Hsi. left. rewrite Hzr by lia. by apply Hroom.
  - destruct (Z.ltb_spec n 0).
    { split_and!; [apply Hp2|auto|]. intros Hz. destruct (Hps Hz) as [? _]. split; [done|right].
      cbn [snd mret M_ret]. rewrite Hzr by lia. by apply Hroom. }
    destruct (Z.ltb_spec 0 len2) as [Hl2|];
      (split_and!; [|by cbn|intros Hz; destruct (Hps Hz) as (_ & Hs0 & Hs1)]);
      [|by apply Hs1; lia|apply Hp2|by apply Hs0].
    destruct (rs_exact _ _ _ _ Hr) as [-> Hz2]; [lia|done|]. destruct (Hp2 0). pose proof Hr as []. split; try done.
    apply (set_remain_ok w2 n); [done|lia|lia].
Qed.

(** What an error leaves: the buffer is dropped, and -1 is returned. *)
Record dropped w (r : Z) w' : Prop := Dropped {
  dr_result : r = -1;
  dr_view : buf_view (desc w') = (0, None, 0, 0, 0);
  dr_queue : queue w' = queue w;
  dr_packets : packets w' = packets w;
  dr_conf : conf (inet (desc w')) = conf (inet (desc w));
  dr_active : active (inet (desc w)) = INET_ACTIVE -> active (inet (desc w')) = INET_ACTIVE;
}.
Lemma dropped_after w w0 w1 (m : M (world Q) Z) : loop_clear_input w0 = (tt, w1) ->
  desc w0 = desc w -> queue w0 = queue w -> packets w0 = packets w ->
  ensures (keeps 0) m -> (forall w, fst (m w) = -1) -> dropped w (fst (m w1)) (snd (m w1)).
Proof.
  intros E1 D1 D2 D3 Hm Hf. destruct (loop_clear_input_spec w0) as (Hr & _ & Hv). rewrite E1 in *. cbn [snd] in *.
  injection Hr as R1 R2 R3 R4 R5. injection Hv as V1 V2 V3 V4 V5.
  destruct (Hm w1). split; try congruence; [|by rewrite <-D1, <-R1].
  unfold buf_view. destruct k_buf as [_ Hn]. rewrite (Hn V2), k_bufsz, k_ptr, k_start, k_remain. congruence.
Qed.
Lemma loop_recv_error_spec err w : IS_BUSY (inet (desc w)) = false ->
  dropped w (fst (loop_recv_error err w)) (snd (loop_recv_error err w)).
Proof.
  intros Hi. unfold loop_recv_error. rewrite (bind_eq get_inet _ _ _ _ eq_refl).
  destruct (active (inet (desc w)) =? 0).
  - set (w0 := snd (act CancelTimer w)). rewrite (bind_eq (act CancelTimer) _ _ tt w0 eq_refl).
    destruct (loop_clear_input w0) as [[] w1] eqn:E1. rewrite (bind_eq _ _ _ _ _ E1).
    apply (dropped_after w w0 w1); try done; [|by intros w2; cbv [mbind M_bind]; case_match].
    walk ltac:(apply ensures_async_error).
  - rewrite Hi. rewrite (bind_eq skip _ _ tt w eq_refl).
    destruct (loop_clear_input w) as [[] w1] eqn:E1. rewrite (bind_eq _ _ _ _ _ E1).
    apply (dropped_after w w w1); try done.
    + unfold loop_error_message, loop_closed_message, act.
      walk ltac:(first [apply ensures_get_inet|apply ensures_output_term|apply ensures_call]).
    + intros w2. unfold loop_error_message, loop_closed_message, act. run. by case_match.
Qed.

(** Ready to read [nread] bytes. *)
Record prepared w (nread : Z) w' : Prop := Prepared {
  pr_good : good w';
  pr_start : i_ptr_start (desc w') = 0;
  pr_room : 0 < nread /\ i_ptr (desc w') + nread <= i_bufsz (desc w');
  pr_remain : 0 < i_remain (desc w') -> i_remain (desc w') = nread;
  pr_buf : i_buf (desc w') <> None;
  pr_unread : unread (desc w') = unread (desc w);
  pr_queue : queue w' = queue w;
  pr_packets : packets w' = packets w;
  pr_inet : inet (desc w') = inet (desc w);
  pr_bufsz : Z.min 2 (i_bufsz (desc w)) <= i_bufsz (desc w');
}.
(** What [recv_prepare] and the poll of [recv_read] come to: something to read, a delivery or an
    error. *)
Definition outcome w (request_len : Z) (r : Z + Z) w' : Prop :=
  match r with
  | inr nread => prepared w nread w' /\ (request_len = 0 -> quiet w -> quiet w') /\
                 (request_len = 0 -> settled w -> settled w')
  | inl r => (progress w r w' \/ dropped w r w') /\
             (quiet w -> request_len = 0 -> progress w r w' /\ 0 <= r) /\
             (request_len = 0 -> settled w -> settled w')
  end.
Lemma dropped_settled w r w' : good w -> dropped w r w' -> settled w'.
Proof.
  intros [Hok Hs Hb Hz] []. destruct (cleared_ok _ dr_view0) as [Hok' Hu]. injection dr_view0 as V1 V2 V3 V4 V5.
  split; [|right; lia]. split; [done|by rewrite (conf_htype _ _ dr_conf0)|rewrite Hu; apply List.Forall_nil|lia].
Qed.
Lemma remain_good0 w r len w' : good w -> i_ptr_start (desc w) = 0 -> remain_spec w r len w' ->
  loop_remain w = ((r, len), w') -> good w'.
Proof.
  intros [Hok Hs Hb Hz] H0 Hr Heq.
  split; [apply Hr| |by rewrite (rs_unread _ _ _ _ Hr)|].
  - pose proof (rs_rest _ _ _ _ Hr) as Hv. injection Hv as -> _ _ _ _. done.
  - revert Heq. rewrite loop_remain_eq. destruct (set_http_view w) as [Ev _].
    pose proof (buf_view_ok _ _ (eq_sym Ev) Hok) as Hok'. injection Ev as E1 E2 E3 E4 E5.
    destruct (case_at (desc w)) as [plen|plen hlen| |] eqn:Ec; cbv zeta.
    + intros [= _ _ <-]. by rewrite E1.
    + apply small_case in Ec; [|done|exact Hb]. rewrite (sint_small 32 (plen + hlen)) by lia.
      destruct (_ <=? 0); [intros [= _ _ <-]; by rewrite E1|].
      destruct (loop_expand_buffer_spec (plen + hlen) (set_http w) Hok' ltac:(lia)) as
        (_ & _ & _ & _ & _ & _ & _ & _ & _ & _ & Hmax).
      destruct (loop_expand_buffer (plen + hlen) (set_http w)) as [r2 w2] eqn:Ex. cbn [snd] in Hmax.
      rewrite (bind_eq _ _ _ _ _ Ex). destruct (r2 <? 0); intros [= _ _ <-]; lia.
    + repeat case_match; intros [= _ _ <-]; by rewrite E1.
    + intros [= _ _ <-]. by rewrite E1.
Qed.

Local Ltac oc := cbn [fst snd mret M_ret outcome].
Lemma poll_remain_spec w : good w -> i_ptr_start (desc w) = 0 -> i_buf (desc w) <> None -> i_remain (desc w) = 0 ->
  IS_BUSY (inet (desc w)) = false -> outcome w 0 (fst (poll_remain ulong w)) (snd (poll_remain ulong w)).
Proof.
  intros Hg Hst Hb H0 Hi. unfold poll_remain.
  pose proof (loop_remain_spec w (g_ok w Hg) (good_fits _ Hg)) as Hr.
  assert (quiet w -> 0 <= fst (fst (loop_remain w))) as Hre.
  { intros []. apply remain_no_error; auto. }
  destruct (loop_remain w) as [[n len] w1] eqn:E1. cbn [fst snd] in Hr, Hre. rewrite (bind_eq _ _ _ _ _ E1).
  pose proof (remain_progresses 0 n len w w1 Hb Hr ltac:(auto)) as Hp1.
  pose proof (remain_good0 _ _ _ _ Hg Hst Hr E1) as Hg1.
  assert (settled w -> i_bufsz (desc w) < 2 ^ 30) as Hroom by (intros [_ [|]]; [lia|done]).
  pose proof (fun Hz => poll_settled w n len w1 Hg (Hroom Hz) E1 Hr) as Hps.
  pose proof (remain_bufsz w Hg) as [_ Hzr]. rewrite E1 in Hzr. cbn [fst snd] in Hzr. pose proof Hr as [].
  injection rs_rest as V1 V2 V3 V4 V5.
  assert (IS_BUSY (inet (desc w1)) = false) as Hi1 by (by rewrite V1).
  destruct (Z.ltb_spec n 0).
  - pose proof (loop_recv_error_spec EMSGSIZE w1 Hi1) as Hd.
    destruct (loop_recv_error EMSGSIZE w1) as [e w2] eqn:E2. cbn [fst snd] in Hd. rewrite (bind_eq _ _ _ _ _ E2).
    oc. split_and!; [right; destruct Hd; split; try congruence; by rewrite <-V1| |].
    + intros Hq. specialize (Hre Hq). lia.
    + intros _ _. exact (dropped_settled _ _ _ Hg1 Hd).
  - destruct (Z.eqb_spec n 0) as [->|].
    + destruct (loop_deliver_spec len w1 Hg1 ltac:(congruence)) as (Hp & Hq & Hs).
      { intros _. split; [auto|]. specialize (rs_done eq_refl). lia. }
      destruct (loop_deliver ulong len w1) as [r w2] eqn:E2. cbn [fst snd] in Hp, Hq, Hs. rewrite (bind_eq _ _ _ _ _ E2).
      pose proof (progress_trans _ _ _ _ _ Hp1 Hp) as Hp2.
      oc. split_and!; [by left| |].
      * intros Hqw _. split; [done|]. apply Hq. by eapply quiet_progress.
      * intros _ Hz. apply Hs. left. rewrite Hzr by lia. by apply Hroom.
    + assert (prepared w n w1 /\ (quiet w -> quiet w1)) as [Hpr Hqu].
      { split; [|intros Hq; by eapply quiet_progress]. split; try done; try congruence; try lia.
        auto. }
      destruct (Z.ltb_spec 0 len) as [Hl|Hl]; 
        [|oc; split_and!; [done|done|]; intros _ Hz; by apply (Hps Hz)].
      destruct (rs_exact ltac:(lia) Hl) as [-> Hz]. oc. split.
      * destruct Hpr, pr_good0. split; try done. split; try done.
        apply (set_remain_ok w1 n); [done|lia|lia].
      * split; [intros _ Hq; destruct (Hqu Hq); by split|]. intros _ Hzw.
        apply (proj2 (proj2 (Hps Hzw)) ltac:(lia)), Hl.
Qed.

Lemma recv_prepare_spec request_len w : rested w -> 0 <= request_len < 2 ^ 30 ->
  outcome w request_len (fst (recv_prepare ulong request_len w)) (snd (recv_prepare ulong request_len w)).
Proof.
  intros [Hg Hst Hi Hqb Hz] Hreq. pose proof Hg as [Hok Hs Hb Hbz]. pose proof Hok as [? ? ? ? ?].
  unfold recv_prepare. rewrite (bind_eq get_desc _ _ _ _ eq_refl).
  destruct (i_buf (desc w)) as [b|] eqn:Eb.
  - assert (i_buf (desc w) <> None) as Hbn by (by rewrite Eb).
    destruct (Z.ltb_spec 0 request_len) as [Hr|Hr].
    + rewrite Hst, Z.sub_0_r, Z.geb_leb. destruct (Z.leb_spec request_len (i_ptr (desc w))).
      * destruct (loop_deliver_spec request_len w Hg Hst ltac:(auto)) as (Hp & Hq & _).
        destruct (loop_deliver ulong request_len w) as [r w1] eqn:E1. rewrite (bind_eq _ _ _ _ _ E1).
        oc. split_and!; [by left| |lia]. intros Hqw _. split; [done|by apply Hq].
      * destruct (loop_expand_buffer_spec request_len w Hok ltac:(lia)) as
          (Hok1 & Hu1 & Hv1 & Hs1 & Hp1 & Hr1 & _ & Hn1 & Hz1 & Hr0 & Hmax).
        specialize (Hr0 memory). destruct (loop_expand_buffer request_len w) as [r w1] eqn:E1.
        cbn [fst snd] in *. subst r. rewrite (bind_eq _ _ _ _ _ E1). specialize (Hz1 ltac:(lia)).
        injection Hv1 as V1 V2 V3 V4 V5. oc. split; [|lia].
        split; try done; lrun; try congruence; try lia; [|by auto].
        split; cbn; [|by rewrite V1|by change (all_bytes (unread (desc w1))); rewrite Hu1|lia].
        apply (set_remain_ok w1); [done|lia|lia].
    + destruct (Z.eqb_spec (i_remain (desc w)) 0) as [E0|E0].
      * replace request_len with 0 by lia. by apply poll_remain_spec.
      * oc. split; [|done]. split; try done; lia.
  - assert (unread (desc w) = []) as Hu.
    { pose proof (length_unread _ Hok). unfold i_buf_bytes, orig_size in *. rewrite Eb in *. cbn in *.
      apply nil_length_inv. lia. }
    set (sz := if 0 <? request_len then request_len else bufsz (inet (desc w))).
    assert (0 < sz < 2 ^ 30) as Hsz by (unfold sz; destruct (Z.ltb_spec 0 request_len); lia).
    assert (request_len = 0 -> 2 <= sz) as Hsz2 by (intros ->; unfold sz; cbn; lia).
    destruct (alloc_buffer_spec sz w ltac:(lia)) as (Ed & Er & Hbsz & Hbn).
    destruct (alloc_buffer sz w) as [[bin|] w1] eqn:E1; cbn [fst snd] in *; [|by destruct (Hbn memory)].
    specialize (Hbsz bin eq_refl). rewrite (bind_eq _ _ _ _ _ E1). injection Er as V1 V2 V3 V4 V5.
    match goal with |- context [upd ?f] => set (w2 := snd (upd f w1)); rewrite (bind_eq (upd f) _ _ tt w2 eq_refl) end.
    oc. assert (prepared w sz w2) as Hpr.
    { set (rem := if 0 <? request_len then request_len else 0).
      assert (rem = 0 \/ rem = sz) as Hrem by (unfold rem, sz; destruct (0 <? request_len); auto).
      split; lrun; try congruence; try lia; [|by rewrite Hu|
        unfold i_buf_bytes, orig_size in *; rewrite Eb in *; cbn in *; lia].
      split; cbn; [split; cbn; unfold i_buf_bytes; cbn; lia|by rewrite V1|apply List.Forall_nil|lia]. }
    split_and!; [done| |intros _ _; split; [apply Hpr|right; lrun; lia]].
    intros Hr0 [Q1 Q2 Q3 Q4]. split; lrun; rewrite ?V1; auto.
Qed.

(** What a receive guarantees.  [lost] is what a packet error discards. *)
Record received w (r : Z) w' : Prop := Received {
  rc_ok : buf_ok (desc w');
  rc_stream : exists lost,
    stream w = concat (packets w') ++ lost ++ unread (desc w') ++ q_bytes (queue w') /\
    (lost = [] \/ r = -1 /\ i_buf (desc w') = None);
  rc_bytes : all_bytes (q_bytes (queue w'));
  rc_conf : conf (inet (desc w')) = conf (inet (desc w));
  rc_active : active (inet (desc w)) = INET_ACTIVE -> active (inet (desc w')) = INET_ACTIVE;
  rc_rest : 0 <= r -> i_ptr_start (desc w') = 0;
}.
Lemma progress_received w r w' : all_bytes (q_bytes (queue w)) -> progress w r w' -> received w r w'.
Proof.
  intros Hq []. split; try done; [|by rewrite p_queue].
  exists []. split; [|by left]. unfold stream. cbn [app]. by rewrite p_queue, !app_assoc, p_stream.
Qed.
Lemma dropped_received w r w' : all_bytes (q_bytes (queue w)) -> dropped w r w' -> received w r w'.
Proof.
  intros Hq []. destruct (cleared_ok _ dr_view0) as [Hok Hu]. injection dr_view0 as V1 V2 V3 V4 V5.
  split; try done; [|by rewrite dr_queue0]. exists (unread (desc w)).
  split; [|by right]. unfold stream. by rewrite dr_queue0, dr_packets0, Hu.
Qed.
(** The same stream before. *)
Lemma received_from w0 w r w' : stream w0 = stream w -> conf (inet (desc w)) = conf (inet (desc w0)) ->
  (active (inet (desc w0)) = INET_ACTIVE -> active (inet (desc w)) = INET_ACTIVE) ->
  received w r w' -> received w0 r w'.
Proof. intros Hs Hc Ha []. split; try done; [by rewrite Hs|congruence|auto]. Qed.

(** Bytes moved from the queue into the buffer. *)
Lemma took_good w w2 data : good w -> i_ptr_start (desc w) = 0 -> all_bytes data ->
  i_buf_bytes (desc w2) = store (i_buf_bytes (desc w)) (i_ptr (desc w)) data ->
  i_bufsz (desc w2) = i_bufsz (desc w) -> i_ptr (desc w2) = i_ptr (desc w) + Z.of_nat (length data) ->
  i_ptr_start (desc w2) = 0 -> inet (desc w2) = inet (desc w) -> 0 <= i_remain (desc w2) ->
  i_ptr (desc w) + Z.of_nat (length data) + i_remain (desc w2) <= i_bufsz (desc w) ->
  good w2 /\ unread (desc w2) = unread (desc w) ++ data.
Proof.
  intros [[] Hs Hb Hz] Hst Hdb Eb Ez Ep Est Ei Hr Hsz.
  assert (unread (desc w2) = unread (desc w) ++ data) as Hu.
  { unfold unread. rewrite Est, Ep, Eb, Hst, Z.sub_0_r.
    pose proof (slice_store_append (i_buf_bytes (desc w)) 0 (i_ptr (desc w)) data ltac:(lia) ltac:(lia)) as Ha.
    by rewrite !Z.sub_0_r in *. }
  split; [|done]. split; [|by rewrite Ei|rewrite Hu; by apply all_bytes_app|lia].
  split; rewrite ?Eb, ?orig_size_store; lia.
Qed.
Lemma recv_read_spec nread w : good w -> i_ptr_start (desc w) = 0 -> 0 < nread ->
  i_ptr (desc w) + nread <= i_bufsz (desc w) -> (0 < i_remain (desc w) -> i_remain (desc w) = nread) ->
  i_buf (desc w) <> None -> IS_BUSY (inet (desc w)) = false -> all_bytes (q_bytes (queue w)) ->
  let r := recv_read ulong nread w in
  received w (fst r) (snd r) /\ (quiet w -> 0 <= fst r /\ quiet (snd r)) /\
  (settled w -> settled (snd r)).
Proof.
  intros Hg Hst Hn Hroom Hrem Hb Hi Hqb r. subst r. pose proof (g_ok w Hg) as [? ? ? ? ?].
  unfold recv_read. rewrite (bind_eq get _ _ _ _ eq_refl). cbv zeta.
  rewrite q_peekq_bytes, (vec_to_buf_bytes _ nread), q_peekq_bytes by lia.
  destruct (Nat.eqb_spec (length (q_bytes (queue w))) 0) as [E0|E0].
  { split_and!; [|by split|done]. apply progress_received; [done|]. by split; destruct Hg. }
  set (data := take (Z.to_nat nread) (q_bytes (queue w))). set (n := Z.of_nat (length data)).
  assert (0 < n <= nread /\ n <= Z.of_nat (length (q_bytes (queue w)))) as [Hn1 Hn2]
    by (unfold n, data; rewrite length_take; lia).
  assert (all_bytes data) as Hdb by (unfold data; auto with cint).
  assert (q_bytes (queue w) = data ++ q_bytes (driver_deq (queue w) n)) as Hdq.
  { rewrite q_deq_bytes by lia. unfold n, data. rewrite Nat2Z.id, length_take.
    rewrite <-(take_drop (Z.to_nat nread) (q_bytes (queue w))) at 1. f_equal.
    destruct (Nat.le_gt_cases (Z.to_nat nread) (length (q_bytes (queue w)))).
    - by rewrite Nat.min_l by lia.
    - rewrite !drop_ge; done || lia. }
  set (w1 := snd (set_queue (driver_deq (queue w) n) w)). rewrite (bind_eq (set_queue _) _ _ tt w1 eq_refl).
  set (w2 := snd (upd (fun d => w_i_ptr (i_ptr d + n) (w_i_buf (Some (store (i_buf_bytes d) (i_ptr d) data)) d)) w1)).
  rewrite (bind_eq (upd _) _ _ tt w2 eq_refl), (bind_eq get_desc _ _ _ _ eq_refl).
  assert (all_bytes (q_bytes (queue w2))) as Hqb2.
  { rewrite Hdq in Hqb. apply all_bytes_app in Hqb. apply Hqb. }
  assert (forall w3, packets w3 = packets w -> queue w3 = queue w2 -> unread (desc w3) = unread (desc w) ++ data ->
    stream w = stream w3) as Hstream.
  { intros w3 Ep Eq Eu. unfold stream. rewrite Ep, Eq, Eu, Hdq, <-!app_assoc. done. }
  change (i_remain (desc w2)) with (i_remain (desc w)).
  destruct (Z.ltb_spec 0 (i_remain (desc w))) as [Hr|Hr].
  - set (w3 := snd (upd (w_i_remain (i_remain (desc w) - n)) w2)). rewrite (bind_eq (upd _) _ _ tt w3 eq_refl).
    destruct (took_good w w3 data) as [Hg3 Hu3]; try done; [cbn; lia..|].
    assert (quiet w -> quiet w3) as Hq3 by (intros [Q1 Q2 Q3 Q4]; split; auto).
    assert (forall r w', received w3 r w' -> received w r w') as Hfrom
      by (intros r w'; apply received_from; auto).
    destruct (Z.eqb_spec (i_remain (desc w) - n) 0).
    + destruct (loop_deliver_spec (i_ptr (desc w2) - i_ptr_start (desc w2)) w3 Hg3 Hst) as (Hp & Hq & Hs).
      { intros _. split; [done|]. change (i_ptr_start (desc w2)) with (i_ptr_start (desc w)).
        change (i_ptr (desc w3)) with (i_ptr (desc w2)). lia. }
      split_and!; [by apply Hfrom, progress_received| |].
      * intros Hqw. specialize (Hq3 Hqw). split; [by apply Hq|exact (quiet_progress _ _ _ Hq3 Hp)].
      * intros _. apply Hs. right. split; [|done]. change (0 < i_ptr (desc w) + n - i_ptr_start (desc w)). lia.
    + oc. split_and!; [|intros Hqw; split; [lia|exact (Hq3 Hqw)]|
        intros _; split; [done|left; change (0 < i_remain (desc w) - n); lia]]. apply Hfrom, progress_received; [done|]. by split; destruct Hg3.
  - destruct (took_good w w2 data) as [Hg2 Hu2]; try done;
      [change (i_remain (desc w2)) with (i_remain (desc w)); lia..|].
    assert (quiet w -> quiet w2) as Hq2 by (intros [Q1 Q2 Q3 Q4]; split; auto).
    assert (forall r w', received w2 r w' -> received w r w') as Hfrom
      by (intros r w'; apply received_from; auto).
    assert (settled w -> settled w2) as Hset.
    { intros [_ Hz]. split; [done|right]. destruct Hz; [lia|done]. }
    pose proof (poll_remain_spec w2 Hg2 Hst ltac:(done) ltac:(change (i_remain (desc w) = 0); lia) Hi) as Ho.
    destruct (poll_remain ulong w2) as [[r|r] w3] eqn:E3; rewrite (bind_eq _ _ _ _ _ E3); cbn [fst snd outcome mret M_ret] in *.
    + destruct Ho as (Hpd & Hq & Hs). split_and!; [apply Hfrom; destruct Hpd as [Hp|Hd]| |by auto].
      * by apply progress_received.
      * by apply dropped_received.
      * intros Hqw. destruct (Hq (Hq2 Hqw) eq_refl) as [Hp' ?]. split; [done|].
        eapply quiet_progress; [|exact Hp']; auto.
    + destruct Ho as ([] & Hq & Hs). split_and!; [|by intros Hqw; split; [|apply Hq; auto]|by auto].
      apply Hfrom. split; try congruence; [apply pr_good0|].
      exists []. split; [|by left]. unfold stream. by rewrite pr_queue0, pr_packets0, pr_unread0.
Qed.

Lemma loop_recv_spec request_len w : rested w -> 0 <= request_len < 2 ^ 30 ->
  let r := loop_recv ulong request_len w in
  received w (fst r) (snd r) /\ (quiet w -> request_len = 0 -> 0 <= fst r /\ quiet (snd r)) /\
  (request_len = 0 -> settled w -> settled (snd r)).
Proof.
  intros Hrw Hreq. unfold loop_recv. pose proof (recv_prepare_spec request_len w Hrw Hreq) as Ho.
  destruct Hrw as [Hg Hst Hi Hqb Hz].
  destruct (recv_prepare ulong request_len w) as [[r|nread] w1] eqn:E1; rewrite (bind_eq _ _ _ _ _ E1);
    cbn [fst snd outcome mret M_ret] in *.
  - destruct Ho as (Hpd & Hq & Hs). split_and!; [| |done].
    + destruct Hpd; [by apply progress_received|by apply dropped_received].
    + intros Hqw H0. destruct (Hq Hqw H0). split; [done|by eapply quiet_progress].
  - destruct Ho as ([] & Hq & Hs).
    destruct (recv_read_spec nread w1) as (Hr & Hqr & Hsr); try congruence; try tauto; try lia.
    split_and!; [|intros Hqw H0; apply Hqr; auto|by auto]. eapply received_from; [..|exact Hr]; try congruence.
    unfold stream. by rewrite pr_queue0, pr_packets0, pr_unread0.
Qed.
End Receive.


(** * Sending in active mode *)

(** What [port_command] gives the driver: one block, or a vector. *)
Inductive send := Command (data : bytes) | Commandv (segs : list bytes).
Definition sent (s : send) : bytes := match s with Command data => data | Commandv segs => concat segs end.
(** What is put on the queue. *)
Definition frame (htype : Z) (data : bytes) : bytes :=
  default [] ((fun h => h ++ data) <$> packet_header htype (Z.of_nat (length data))).

Section Send.
Context {Q : Type} `{PL : PortQueueLaws Q} `{IV : !IOVec Q} `{RT : !Runtime} `{E : !LoopEnv}.
Context `{IL : !IOVecLaws Q} `{MEM : !Memory} `{EL : !LoopEnvLaws E} (ulong : Z).
Implicit Types (w : world Q).

(** The first segment of a vector is left for the driver. *)
Definition exec (s : send) : M (world Q) unit :=
  match s with
  | Command data => loop_drv_command ulong data (Z.of_nat (length data))
  | Commandv segs => loop_drv_commandv ulong ([] :: segs) (Z.of_nat (length (concat segs)))
  end.
Fixpoint execs (l : list send) : M (world Q) unit :=
  match l with [] => skip | s :: l => exec s;;; execs l end.

(** An active port that accepts all packets. *)
Record streaming w : Prop := Streaming {
  st_rested : rested w;
  st_settled : settled w;
  st_quiet : quiet w;
  st_connected : IS_CONNECTED (inet (desc w)) = true;
}.
Lemma conf_fields d d' : conf d = conf d' ->
  state d = state d' /\ bufsz d = bufsz d' /\ htype d = htype d'.
Proof. intros Hc. injection Hc. done. Qed.
Lemma IS_state d d' : state d = state d' -> IS_BUSY d = IS_BUSY d' /\ IS_CONNECTED d = IS_CONNECTED d'.
Proof. unfold IS_BUSY, IS_CONNECTED. by intros ->. Qed.

(** A state that differs in what sending changes: counters, the caller, the calls, and the queue. *)
Lemma streaming_with w w' : streaming w -> conf (inet (desc w')) = conf (inet (desc w)) ->
  active (inet (desc w')) = active (inet (desc w)) ->
  buf_view (desc w') = buf_view (desc w) -> all_bytes (q_bytes (queue w')) -> streaming w'.
Proof.
  intros [[[] ? ? ? ?] [_ Hz] [] ?] Hc Ha Hv Hq. destruct (conf_fields _ _ Hc) as (Es & Eb & Eh).
  destruct (IS_state _ _ Es) as [Ei Ec]. pose proof (buf_view_ok _ _ (eq_sym Hv) g_ok) as Hok.
  pose proof (buf_view_unread _ _ Hv) as Hu. injection Hv as V1 V2 V3 V4 V5.
  assert (good w') by (split; rewrite ?Eh, ?Hu, ?V1; done).
  split; [split|split|split|]; rewrite ?V1, ?V2, ?V4, ?V5, ?Eb, ?Eh, ?Ei, ?Ec, ?Ha; done.
Qed.
Lemma streaming_received w r w' : streaming w -> 0 <= r -> received w r w' -> quiet w' -> settled w' -> streaming w'.
Proof.
  intros [[] _ _ ?] Hr [] Hq Hs. destruct (conf_fields _ _ rc_conf0) as (Es & Eb & _).
  destruct (IS_state _ _ Es) as [Ei Ec]. split; [split| | |]; rewrite ?Eb, ?Ei, ?Ec; auto. apply Hs.
Qed.
(** A step from a port in order to one, through which [sent] bytes were put in. *)
Definition passes (data : bytes) w w' : Prop := streaming w' /\ conf (inet (desc w')) = conf (inet (desc w)) /\
  stream w' = stream w ++ data.
Lemma passes_trans a b w w1 w2 : passes a w w1 -> passes b w1 w2 -> passes (a ++ b) w w2.
Proof. intros (Hs & Hh & Ht) (Hs' & Hh' & Ht'). split_and!; [done|congruence|by rewrite Ht', Ht, app_assoc]. Qed.
Lemma passes_with w w' : streaming w -> conf (inet (desc w')) = conf (inet (desc w)) ->
  active (inet (desc w')) = active (inet (desc w)) ->
  buf_view (desc w') = buf_view (desc w) -> queue w' = queue w -> packets w' = packets w -> passes [] w w'.
Proof.
  intros Hs Hc Ha Hv Hq Hp. split_and!; [|done|].
  - apply (streaming_with w); try done. rewrite Hq. apply Hs.
  - unfold stream. by rewrite Hq, Hp, (buf_view_unread _ _ Hv), app_nil_r.
Qed.
Lemma recv_passes w : streaming w -> passes [] w (snd (loop_recv ulong 0 w)).
Proof.
  intros Hs. destruct (loop_recv_spec ulong 0 w (st_rested _ Hs) ltac:(lia)) as (Hr & Hq & Hst).
  destruct (Hq (st_quiet _ Hs) eq_refl) as [Hr0 Hq']. specialize (Hst eq_refl (st_settled _ Hs)).
  pose proof (streaming_received _ _ _ Hs Hr0 Hr Hq' Hst) as Hs'. pose proof Hr as [].
  split_and!; [done|done|].
  destruct rc_stream0 as (lost & -> & [->|[? _]]); [|lia]. by rewrite app_nil_r.
Qed.
Lemma enqueue_passes q fr w : streaming w -> q_bytes q = q_bytes (queue w) ++ fr -> all_bytes fr ->
  passes fr w (snd (set_queue q w)).
Proof.
  intros Hs Hq Hf. split_and!; [|done|].
  - apply (streaming_with w); try done. cbn. rewrite Hq. apply all_bytes_app. split; [apply Hs|done].
  - unfold stream. cbn. by rewrite Hq, !app_assoc.
Qed.
Lemma put_int8_bytes i : all_bytes (put_int8 i).
Proof. unfold put_int8. rewrite land_0xff. repeat constructor; apply is_byte_u8. Qed.
Lemma header_bytes htype len h : packet_header htype len = Some h -> all_bytes h.
Proof.
  unfold packet_header. repeat case_match; intros [= <-]; auto using put_int8_bytes with cint. constructor.
Qed.
(** The part of the two send functions after the header. *)
Lemma queued_passes w n (f : Q -> Q) fr : streaming w -> q_bytes (f (queue w)) = q_bytes (queue w) ++ fr -> all_bytes fr ->
  let r := (inet_output_count ulong n;;; w ← get; set_queue (f (queue w));;; loop_recv ulong 0;;; mret 0) w in
  fst r = 0 /\ passes fr w (snd r).
Proof.
  intros Hs Hq Hf. set (w1 := snd (inet_output_count ulong n w)).
  assert (passes [] w w1) as H1 by (by apply passes_with).
  rewrite (bind_eq (inet_output_count ulong n) _ _ tt w1 eq_refl), (bind_eq get _ _ _ _ eq_refl).
  change (queue w1) with (queue w). set (w2 := snd (set_queue (f (queue w)) w1)).
  rewrite (bind_eq (set_queue _) _ _ tt w2 eq_refl).
  assert (passes fr w1 w2) as H2 by (apply enqueue_passes; [apply H1|done|done]).
  pose proof (recv_passes _ (proj1 H2)) as H3.
  destruct (loop_recv ulong 0 w2) as [r w3] eqn:E3. rewrite (bind_eq _ _ _ _ _ E3). split; [done|].
  rewrite <-(app_nil_r fr). exact (passes_trans _ _ _ _ _ H1 (passes_trans _ _ _ _ _ H2 H3)).
Qed.
Lemma loop_send_passes data w : streaming w -> all_bytes data ->
  let r := loop_send ulong data (Z.of_nat (length data)) w in
  fst r = 0 /\ passes (frame (htype (inet (desc w))) data) w (snd r).
Proof.
  intros Hs Hb. unfold loop_send, frame. rewrite (bind_eq get_inet _ _ _ _ eq_refl).
  destruct (packet_header _ _) as [h|] eqn:Eh; [|by split; [|apply passes_with]].
  change (default [] _) with (h ++ data).
  apply (queued_passes w _ (fun q => driver_enq (driver_enq q h) data)); [done| |].
  - by rewrite !q_enq_bytes, app_assoc.
  - apply all_bytes_app. split; [by eapply header_bytes|done].
Qed.
Lemma loop_sendv_passes segs w : streaming w -> all_bytes (concat segs) ->
  let r := loop_sendv ulong ([] :: segs) (Z.of_nat (length (concat segs))) w in
  fst r = 0 /\ passes (frame (htype (inet (desc w))) (concat segs)) w (snd r).
Proof.
  intros Hs Hb. unfold loop_sendv, frame. rewrite (bind_eq get_inet _ _ _ _ eq_refl).
  destruct (packet_header _ _) as [h|] eqn:Eh; [|by split; [|apply passes_with]].
  set (ev := if 0 <? Z.of_nat (length h) then <[0%nat:=h]> ([] :: segs) else [] :: segs).
  assert (concat ev = h ++ concat segs) as Hev.
  { unfold ev. destruct (Z.ltb_spec 0 (Z.of_nat (length h))); [done|]. destruct h; [done|]. cbn in *. lia. }
  change (default [] _) with (h ++ concat segs).
  apply (queued_passes w _ (fun q => driver_enqv q ev 0)); [done| |].
  - by rewrite q_enqv_bytes, Hev by lia.
  - apply all_bytes_app. split; [by eapply header_bytes|done].
Qed.
Lemma exec_passes s w : streaming w -> all_bytes (sent s) ->
  passes (frame (htype (inet (desc w))) (sent s)) w (snd (exec s w)).
Proof.
  intros Hs Hb. set (w1 := snd (set_caller w)).
  assert (set_caller w = (tt, w1)) as Ew1 by done.
  assert (passes [] w w1) as H1 by (by apply passes_with).
  assert (forall m : M (world Q) Z, (fst (m w1) = 0 /\ passes (frame (htype (inet (desc w1))) (sent s)) w1 (snd (m w1))) ->
    passes (frame (htype (inet (desc w))) (sent s)) w
      (snd ((set_caller;;; (d ← get_inet;
        if negb (IS_CONNECTED d) then inet_reply_error ENOTCONN;;; skip
        else r ← m; when r =? 0 do (inet_reply_ok;;; skip))) w))) as Hm.
  { intros m [Hr Hp]. rewrite (bind_eq _ _ _ _ _ Ew1), (bind_eq get_inet _ _ _ _ eq_refl), (st_connected _ (proj1 H1)).
    cbn [negb]. destruct (m w1) as [r w2]eqn:E2. cbn [fst snd] in *. subst r. rewrite (bind_eq _ _ _ _ _ E2).
    assert (passes [] w2 (snd ((inet_reply_ok;;; skip) w2))) as H3 by (apply passes_with; [apply Hp|done..]).
    rewrite <-(app_nil_r (frame _ _)). exact (passes_trans _ _ _ _ _ H1 (passes_trans _ _ _ _ _ Hp H3)). }
  destruct s as [data|segs]; apply Hm; [apply loop_send_passes|apply loop_sendv_passes]; try done; apply H1.
Qed.
Lemma execs_passes l w : streaming w -> Forall (fun s => all_bytes (sent s)) l ->
  passes (concat (map (fun s => frame (htype (inet (desc w))) (sent s)) l)) w (snd (execs l w)).
Proof.
  intros Hs Hl. revert w Hs. induction Hl as [|s l Hb Hl IH]; intros w Hs; [by apply passes_with|].
  cbn [execs map concat]. pose proof (exec_passes s w Hs Hb) as H1.
  destruct (exec s w) as [[] w1] eqn:E1. cbn [snd] in H1. rewrite (bind_eq _ _ _ _ _ E1).
  specialize (IH w1 (proj1 H1)). replace (htype (inet (desc w1))) with (htype (inet (desc w))) in IH
    by (symmetry; apply conf_htype, H1). exact (passes_trans _ _ _ _ _ H1 IH).
Qed.
End Send.

(** C4: Stream integrity of an active port: with memory, on a connected port, not busy, in packet mode raw, 1, 2 or line, with an owner that accepts messages, a buffer of 2 to 2^30
    bytes and the bytes not yet delivered, if any, at its front - as when the port was made active before it got data, and as the sends keep it -, for any
    sequence of sends, as blocks or vectors, the packets handed over, then the bytes in the input buffer, then the queue are at all times exactly the
    frames sent, in order; no error is raised and the port stays so. Unread bytes elsewhere in the buffer, as a passive port leaves them, are
    the case of [full_buffer_overrun]. *)
Theorem active_stream_integrity {Q} `{PL : PortQueueLaws Q} `{IV : !IOVec Q} `{RT : !Runtime} `{E : !LoopEnv}
    `{IL : !IOVecLaws Q} `{MEM : !Memory} `{EL : !LoopEnvLaws E} ulong (w : world Q) (l : list send) :
  streaming w -> Forall (fun s => all_bytes (sent s)) l ->
  let w' := snd (execs ulong l w) in
  streaming w' /\
  concat (packets w') ++ unread (desc w') ++ q_bytes (queue w') =
  stream w ++ concat (map (fun s => frame (htype (inet (desc w))) (sent s)) l).
Proof.
  intros Hs Hl w'. destruct (execs_passes ulong l w Hs Hl) as (? & _ & Ht). by split.
Qed.

(** * Round trip *)

(** Calls added by a step that leaves the answers' fields alone. *)
Definition silent {Q} (w w' : world Q) : Prop :=
  calls w' = calls w /\ caller (inet (desc w')) = caller (inet (desc w)) /\
  conf (inet (desc w')) = conf (inet (desc w)).
Lemma silent_refl {Q} (w : world Q) : silent w w.
Proof. done. Qed.
Lemma tcp_term_conf d d' data : conf d = conf d' -> tcp_term d data = tcp_term d' data.
Proof.
  intros Hc. injection Hc. intros _ Eh _ _ _ _ _ _ _ _ _ _ _ Em _ Ed. unfold tcp_term, data_term.
  by rewrite Eh, Em, Ed.
Qed.
Lemma emits_silent {Q} to t (w w1 w2 : world Q) : calls w1 = calls w -> emits to t w1 w2 -> emits to t w w2.
Proof. intros Hc (sp & Hd & He). exists sp. by rewrite He, Hc. Qed.
Lemma emits_then {Q} to t (w w1 w2 : world Q) : emits to t w w1 -> calls w2 = calls w1 -> emits to t w w2.
Proof. intros (sp & Hd & He) Hc. exists sp. by rewrite Hc, He. Qed.

(** The data in a frame. *)
Definition header_len (htype : Z) : Z :=
  if htype =? TCP_PB_1 then 1 else if htype =? TCP_PB_2 then 2 else 0.
Definition payload (htype : Z) (fr : bytes) : bytes := drop (Z.to_nat (header_len htype)) fr.
Lemma header_len_range htype : 0 <= header_len htype <= 2.
Proof. unfold header_len. repeat case_match; lia. Qed.

Section Trip.
Context {Q : Type} `{PL : PortQueueLaws Q} `{IV : !IOVec Q} `{RT : !Runtime} `{E : !LoopEnv}.
Context `{IL : !IOVecLaws Q} `{MEM : !Memory} `{EL : !LoopEnvLaws E} (ulong : Z).
Implicit Types (w : world Q).

(** An active port delivers to its owner. *)
Record to_owner w : Prop := ToOwner {
  to_active : active (inet (desc w)) = INET_ACTIVE;
  to_term : deliver (inet (desc w)) = INET_DELIVER_TERM;
  to_safe : safe_type (htype (inet (desc w))) = true;
  to_hsz : 0 <= hsz (inet (desc w)) < 2 ^ 32;
}.
Lemma scanbit8_silent buf len w : silent w (snd (scanbit8 buf len w)).
Proof.
  unfold scanbit8. rewrite (bind_eq get_inet _ _ _ _ eq_refl). by destruct (_ || _).
Qed.
Lemma once_silent code w : silent w (snd (once code w)).
Proof.
  unfold once. destruct (code <? 0); [done|]. rewrite (bind_eq get_inet _ _ _ _ eq_refl).
  by destruct (_ =? INET_ONCE).
Qed.

(** A message after the bookkeeping of a reply. *)
Lemma reply_emits (d : inet_descriptor) t (scan : M (world Q) unit) (port async msg : M (world Q) Z) (http : M (world Q) Z) w0 w :
  silent w0 w -> deliver d = INET_DELIVER_TERM -> is_http d = false -> active d = INET_ACTIVE ->
  silent w (snd (scan w)) ->
  (forall w1, silent w w1 -> emits None t w1 (snd (msg w1)) /\ inet (desc (snd (msg w1))) = inet (desc w1)) ->
  let w' := snd ((scan;;;
    if deliver d =? INET_DELIVER_PORT then code ← port; once code
    else if is_http d then code ← http; once code
    else if active d =? INET_PASSIVE then async
    else code ← msg; once code) w) in
  emits None t w0 w' /\ caller (inet (desc w')) = caller (inet (desc w0)) /\ conf (inet (desc w')) = conf (inet (desc w0)).
Proof.
  intros (Hs4 & Hs5 & Hs6) Ht Hh Ha Hs Hm. destruct (scan w) as [[] w1] eqn:E1. cbn [snd] in Hs. rewrite (bind_eq _ _ _ _ _ E1).
  rewrite Ht, Hh, Ha. change (INET_DELIVER_TERM =? INET_DELIVER_PORT) with false.
  change (INET_ACTIVE =? INET_PASSIVE) with false. cbv iota. destruct (Hm w1 Hs) as [He Hi].
  destruct (msg w1) as [code w2] eqn:E2. cbn [snd] in *. rewrite (bind_eq _ _ _ _ _ E2).
  destruct (once_silent code w2) as (Hc & Hcl & Hcf). destruct Hs as (Hs1 & Hs2 & Hs3). split_and!.
  - eapply emits_then; [|exact Hc]. eapply emits_silent; [|exact He]. congruence.
  - congruence.
  - congruence.
Qed.
Lemma safe_packet_data htype mem offs len : safe_type htype = true ->
  packet_data htype mem offs len = (offs + header_len htype, len - header_len htype).
Proof.
  intros Hs. apply bool_decide_eq_true in Hs. unfold packet_data.
  repeat (apply elem_of_cons in Hs as [->|Hs]); [..|by apply elem_of_nil in Hs]; unfold header_len; cbn; f_equal; lia.
Qed.
Lemma slice_payload htype o l (mem : bytes) : 0 <= o -> header_len htype <= l ->
  slice (Z.to_nat (o + header_len htype)) (Z.to_nat (l - header_len htype)) mem =
  payload htype (slice (Z.to_nat o) (Z.to_nat l) mem).
Proof.
  intros Ho Hl. pose proof (header_len_range htype). unfold payload, slice.
  rewrite skipn_firstn_comm, drop_drop. f_equal; [lia|]. f_equal. lia.
Qed.
Lemma safe_not_http d : safe_type (htype d) = true -> is_http d = false.
Proof.
  intros Hs. apply bool_decide_eq_true in Hs. unfold is_http.
  by repeat (apply elem_of_cons in Hs as [->|Hs]); [..|by apply elem_of_nil in Hs].
Qed.
(** Both replies send the payload of the packet. *)
Lemma reply_data_emits start len w : to_owner w -> 0 <= start -> header_len (htype (inet (desc w))) <= len < 2 ^ 32 ->
  start + len <= orig_size (i_buf_bytes (desc w)) ->
  let fr := slice (Z.to_nat start) (Z.to_nat len) (i_buf_bytes (desc w)) in
  Forall (fun m => let w' := snd (m w) in
    emits None (tcp_term (inet (desc w)) (payload (htype (inet (desc w))) fr)) w w' /\
    caller (inet (desc w')) = caller (inet (desc w)) /\ conf (inet (desc w')) = conf (inet (desc w)))
  [loop_reply_data ulong start len; loop_reply_binary_data ulong start len].
Proof.
  intros [Ha Ht Hs Hh] Ho Hl Hsz fr. pose proof (header_len_range (htype (inet (desc w)))). unfold orig_size in Hsz.
  assert (forall w1, silent (recorded start len w) w1 ->
    hsz (inet (desc w1)) = hsz (inet (desc w)) /\ forall data, tcp_term (inet (desc w1)) data = tcp_term (inet (desc w)) data) as Hsil.
  { intros w1 (_ & _ & Hc). split; [|intros; by apply tcp_term_conf].
    change (hsz (conf (inet (desc w1))) = hsz (conf (inet (desc w)))). by rewrite Hc. }
  apply Forall_cons; split; [|apply Forall_singleton]; cbv zeta; unfold loop_reply_data, loop_reply_binary_data;
    rewrite (bind_eq get_desc _ _ _ _ eq_refl); cbv zeta; rewrite (bind_eq (handed _) _ _ tt (recorded start len w) eq_refl);
    rewrite safe_packet_data by done; unfold fr; rewrite <-slice_payload by lia;
    (apply (reply_emits (inet (desc w)) _ _ _ _ _ _ w); try done; [by apply safe_not_http|apply scanbit8_silent|]);
    intros w1 Hw1; destruct (Hsil w1 Hw1) as [Eh Et]; rewrite <-Et.
  - apply loop_message_answer; rewrite ?Eh; lia.
  - apply loop_binary_message_answer; rewrite ?Eh; lia.
Qed.

(** One packet that is all of the buffer. *)
Lemma clear_rest (m : M (world Q) Z) w code w1 : m w = (code, w1) ->
  calls (snd ((code ← m; loop_clear_input;;; mret code) w)) = calls w1 /\
  caller (inet (desc (snd ((code ← m; loop_clear_input;;; mret code) w)))) = caller (inet (desc w1)).
Proof.
  intros E1. rewrite (bind_eq _ _ _ _ _ E1). destruct (loop_clear_input_spec w1) as (Hr & _).
  destruct (loop_clear_input w1) as [[] w2] eqn:E2. rewrite (bind_eq _ _ _ _ _ E2).
  injection Hr as R1 R2 R3 R4 R5. cbn. by rewrite R1, R4.
Qed.
Lemma deliver_whole w : to_owner w -> buf_ok (desc w) ->
  let len := i_ptr (desc w) - i_ptr_start (desc w) in
  0 < len -> header_len (htype (inet (desc w))) <= len ->
  let w' := snd (deliver_packet ulong len w) in
  emits None (tcp_term (inet (desc w)) (payload (htype (inet (desc w))) (unread (desc w)))) w w' /\
  caller (inet (desc w')) = caller (inet (desc w)).
Proof.
  intros Ht Hok len Hl Hh. pose proof Hok as []. unfold deliver_packet. rewrite (bind_eq get_desc _ _ _ _ eq_refl).
  set (wc := snd (inet_input_count ulong len w)).
  rewrite (bind_eq (inet_input_count ulong len) _ _ tt wc eq_refl).
  assert (to_owner wc) as Htc by (by destruct Ht).
  pose proof (reply_data_emits (i_ptr_start (desc w)) len wc Htc ltac:(lia) ltac:(cbn; lia)
    ltac:(change (i_buf_bytes (desc wc)) with (i_buf_bytes (desc w)); lia)) as Hr. cbv zeta in Hr.
  rewrite (tcp_term_conf (inet (desc wc)) (inet (desc w))) in Hr by done.
  change (slice _ _ (i_buf_bytes (desc wc))) with (unread (desc w)) in Hr.
  apply Forall_cons in Hr as [Hr1 Hr2]. apply Forall_cons in Hr2 as [Hr2 _].
  assert (i_ptr_start (desc w) + len = i_ptr (desc w)) as Eend by lia.
  destruct (int32 (len * 4) >=? orig_size (i_buf_bytes (desc w)) * 3).
  - rewrite (proj2 (Z.eqb_eq _ _) Eend). destruct Hr2 as (He & Hc & _).
    destruct (loop_reply_binary_data ulong (i_ptr_start (desc w)) len wc) as [code w1] eqn:E1. cbn [snd] in *.
    destruct (clear_rest _ _ _ _ E1) as [Hk1 Hk2]. rewrite Hk2, Hc. split; [|done].
    eapply emits_then; [|exact Hk1]. by eapply emits_silent.
  - destruct Hr1 as (He & Hc & _).
    pose proof (loop_reply_data_keeps ulong (Z.to_nat (i_ptr (desc w))) (i_ptr_start (desc w)) len wc
      ltac:(lia) ltac:(lia) ltac:(change (i_buf_bytes (desc wc)) with (i_buf_bytes (desc w)); lia)) as Hk.
    destruct (loop_reply_data ulong (i_ptr_start (desc w)) len wc) as [code w1] eqn:E1. cbn [snd] in *.
    rewrite (bind_eq _ _ _ _ _ E1).
    set (w2 := snd (upd (fun d => w_i_ptr_start (i_ptr_start d + len) d) w1)).
    rewrite (bind_eq (upd _) _ _ tt w2 eq_refl), (bind_eq get_desc _ _ _ _ eq_refl).
    assert (calls w2 = calls w1 /\ caller (inet (desc w2)) = caller (inet (desc w1))) as [Hc1 Hc2] by done.
    set (m := if i_ptr_start (desc w2) =? i_ptr (desc w2) then loop_clear_input else upd (w_i_remain 0)).
    assert (calls (snd (m w2)) = calls w2 /\ caller (inet (desc (snd (m w2)))) = caller (inet (desc w2))) as [Hm1 Hm2].
    { unfold m. destruct (_ =? _); [|done]. destruct (loop_clear_input_spec w2) as (Hrv & _).
      injection Hrv as R1 R2 R3 R4 R5. by rewrite R1, R4. }
    destruct (m w2) as [[] w3] eqn:E3. rewrite (bind_eq _ _ _ _ _ E3). cbn [snd mret M_ret] in *.
    rewrite Hm2, Hc2, Hc. split; [|done].
    eapply emits_then; [|exact (eq_trans Hm1 Hc1)]. by eapply emits_silent.
Qed.
Lemma loop_deliver_whole w : quiet w -> to_owner w -> buf_ok (desc w) -> i_buf (desc w) <> None ->
  let len := i_ptr (desc w) - i_ptr_start (desc w) in
  0 < len -> header_len (htype (inet (desc w))) <= len ->
  let w' := snd (loop_deliver ulong len w) in
  emits None (tcp_term (inet (desc w)) (payload (htype (inet (desc w))) (unread (desc w)))) w w' /\
  caller (inet (desc w')) = caller (inet (desc w)) /\ i_buf (desc w') = None /\ queue w' = queue w.
Proof.
  intros Hq Ht Hok Hb len Hl Hh. unfold loop_deliver. rewrite (proj2 (Z.eqb_neq len 0)) by lia.
  unfold deliver_from. rewrite (bind_eq get_desc _ _ _ _ eq_refl). fold len.
  destruct (Z.to_nat len) as [|fuel] eqn:Ef; [lia|]. cbn [deliver_packets]. rewrite (proj2 (Z.leb_gt len 0)) by lia.
  pose proof (deliver_whole w Ht Hok Hl Hh) as Hw. fold len in Hw.
  pose proof (deliver_packet_spec ulong len w Hok Hb ltac:(lia)) as Hd.
  pose proof (deliver_packet_code ulong (q_accepted _ Hq) len w ltac:(destruct Hok; lia) (q_active _ Hq)) as Hc.
  destruct (deliver_packet ulong len w) as [code w1] eqn:E1. cbn [fst snd] in *. rewrite (bind_eq _ _ _ _ _ E1).
  rewrite (proj2 (Z.ltb_ge code 0)) by done. rewrite (bind_eq get_desc _ _ _ _ eq_refl). destruct Hd.
  rewrite (dl_active (to_active _ Ht)). change (INET_ACTIVE =? 0) with false. cbv iota.
  rewrite (dl_all eq_refl). cbn. split_and!; try apply Hw; auto.
Qed.

(** Nothing received and nothing queued. *)
Definition idle w : Prop := i_buf (desc w) = None /\ q_bytes (queue w) = [].
(** Exactly one packet. *)
Definition whole (htype : Z) (fr : bytes) : Prop := forall hs junk nsz,
  let n := Z.of_nat (length fr) in
  match packet_case_of htype hs (fr ++ junk) n nsz n with
  | Done plen => plen = n
  | Remain plen hlen => plen + hlen = n
  | _ => False
  end.
Lemma set_http_safe w : safe_type (htype (inet (desc w))) = true -> set_http w = w.
Proof.
  intros Hs. apply bool_decide_eq_true in Hs. unfold set_http.
  destruct (Z.eqb_spec (htype (inet (desc w))) TCP_PB_HTTPH) as [E1|]; [|done]. rewrite E1 in Hs.
  by repeat (apply elem_of_cons in Hs as [Hs|Hs]); [..|by apply elem_of_nil in Hs].
Qed.
Lemma remain_whole w fr junk : safe_type (htype (inet (desc w))) = true -> whole (htype (inet (desc w))) fr ->
  i_ptr_start (desc w) = 0 -> i_ptr (desc w) = Z.of_nat (length fr) -> i_buf_bytes (desc w) = fr ++ junk ->
  Z.of_nat (length fr) < 2 ^ 30 -> loop_remain w = ((0, Z.of_nat (length fr)), w).
Proof.
  intros Hs Hw E0 En Eb Hn. rewrite loop_remain_eq, set_http_safe by done. unfold case_at.
  rewrite E0, En, Eb. change (Z.to_nat 0) with 0%nat. rewrite drop_0, Z.sub_0_r.
  specialize (Hw (http_state (desc w)) junk (i_bufsz (desc w) - Z.of_nat (length fr))). cbv zeta in Hw.
  destruct (packet_case_of _ _ _ _ _ _) as [plen|plen hlen| |]; try done; [by subst plen|].
  cbv zeta. rewrite Hw, (sint_small 32 (Z.of_nat (length fr))), Z.sub_diag by lia. done.
Qed.
(** A buffer for the first receive. *)
Definition with_buffer (bin : binary) w : loop_descriptor :=
  w_i_remain 0 (w_i_ptr 0 (w_i_ptr_start 0 (w_i_bufsz (bufsz (inet (desc w))) (w_i_buf (Some bin) (desc w))))).
Lemma recv_prepare_idle w : i_buf (desc w) = None -> 0 <= bufsz (inet (desc w)) -> exists bin w1,
  recv_prepare ulong 0 w = (inr (bufsz (inet (desc w))), w1) /\ desc w1 = with_buffer bin w /\
  bufsz (inet (desc w)) <= orig_size bin /\ queue w1 = queue w /\ calls w1 = calls w.
Proof.
  intros Eb Hz. unfold recv_prepare. rewrite (bind_eq get_desc _ _ _ _ eq_refl), Eb.
  change (0 <? 0) with false. cbv iota zeta.
  destruct (alloc_buffer_spec (bufsz (inet (desc w))) w Hz) as (Ed & Er & Hbsz & Hbn).
  destruct (alloc_buffer (bufsz (inet (desc w))) w) as [[bin|] w1] eqn:E1; cbn [fst snd] in *; [|by destruct (Hbn MEM)].
  rewrite (bind_eq _ _ _ _ _ E1). injection Er as V1 V2 V3 V4 V5. exists bin. eexists. split; [done|].
  cbn. rewrite Ed. auto.
Qed.
Lemma recv_idle w : streaming w -> to_owner w -> i_buf (desc w) = None ->
  let fr := q_bytes (queue w) in
  0 < Z.of_nat (length fr) <= bufsz (inet (desc w)) -> header_len (htype (inet (desc w))) <= Z.of_nat (length fr) ->
  whole (htype (inet (desc w))) fr ->
  let w' := snd (loop_recv ulong 0 w) in
  emits None (tcp_term (inet (desc w)) (payload (htype (inet (desc w))) fr)) w w' /\
  caller (inet (desc w')) = caller (inet (desc w)) /\ idle w'.
Proof.
  intros Hs Hto Eb fr Hfit Hhl Hw. pose proof (r_bufsz _ (st_rested _ Hs)) as Hbz.
  pose proof (st_quiet _ Hs) as [Q1 Q2 Q3 Q4]. destruct (recv_prepare_idle w Eb ltac:(lia)) as (bin & w1 & E1 & Ed & Hbin & Eq & Ec).
  unfold loop_recv. rewrite (bind_eq _ _ _ _ _ E1). unfold recv_read.
  rewrite (bind_eq get _ _ _ _ eq_refl). cbv zeta.
  rewrite vec_to_buf_bytes, q_peekq_bytes, Eq by lia. fold fr.
  rewrite (take_ge fr), (proj2 (Nat.eqb_neq _ _)) by lia. set (n := Z.of_nat (length fr)) in *.
  set (w2 := snd (set_queue (driver_deq (queue w) n) w1)). rewrite (bind_eq (set_queue _) _ _ tt w2 eq_refl).
  set (w3 := snd (upd (fun d => w_i_ptr (i_ptr d + n) (w_i_buf (Some (store (i_buf_bytes d) (i_ptr d) fr)) d)) w2)).
  rewrite (bind_eq (upd _) _ _ tt w3 eq_refl), (bind_eq get_desc _ _ _ _ eq_refl).
  assert (desc w3 = w_i_ptr n (w_i_buf (Some (store bin 0 fr)) (with_buffer bin w))) as Ed3.
  { unfold w3. cbn [snd upd modify desc]. change (desc w2) with (desc w1). by rewrite Ed. }
  assert (i_buf_bytes (desc w3) = fr ++ drop (length fr) bin) as Eb3.
  { rewrite Ed3. cbn. rewrite store_fits by (unfold orig_size in *; lia). done. }
  assert (inet (desc w3) = inet (desc w)) as Ei3 by (by rewrite Ed3).
  assert (q_bytes (queue w3) = []) as Eq3.
  { cbn. unfold n, fr. rewrite q_deq_bytes by lia. by rewrite Nat2Z.id, drop_all. }
  assert (calls w3 = calls w) as Ec3 by done.
  rewrite Ed3. change (0 <? _) with false. cbv iota.
  assert (loop_remain w3 = ((0, n), w3)) as Er.
  { apply (remain_whole w3 fr (drop (length fr) bin)); rewrite ?Ei3; try done; try lia; by rewrite Ed3. }
  assert (buf_ok (desc w3)) as Hok3.
  { split; rewrite ?Eb3; rewrite ?Ed3; cbn; unfold orig_size in *; rewrite ?length_app, ?length_drop; lia. }
  assert (unread (desc w3) = fr) as Hu3.
  { unfold unread. rewrite Eb3, Ed3. change (take (Z.to_nat (n - 0)) (fr ++ drop (length fr) bin) = fr).
    rewrite Z.sub_0_r. unfold n. rewrite Nat2Z.id. apply take_app_length. }
  pose proof (loop_deliver_whole w3) as Hd. cbv zeta in Hd. rewrite Hu3, Ei3 in Hd.
  assert (i_ptr (desc w3) - i_ptr_start (desc w3) = n) as En by (rewrite Ed3; cbn; lia). rewrite En in Hd.
  destruct Hd as (He & Hc & Hn & Hqq); try done; try lia.
  - split; rewrite ?Ei3; auto. intros _. rewrite Ed3. cbn. lia.
  - destruct Hto. split; by rewrite ?Ei3.
  - destruct (loop_deliver ulong n w3) as [r w4] eqn:E4. cbn [fst snd] in *.
    assert (poll_remain ulong w3 = (inl r, w4)) as Ep.
    { unfold poll_remain. rewrite (bind_eq _ _ _ _ _ Er). cbv iota beta zeta. change (0 <? 0) with false.
      change (0 =? 0) with true. cbv iota. by rewrite (bind_eq _ _ _ _ _ E4). }
    rewrite (bind_eq _ _ _ _ _ Ep). cbn [snd mret M_ret].
    split_and!; [by eapply emits_silent|done|]. split; [done|]. by rewrite Hqq.
Qed.

(** What can be sent in one packet. *)
Definition sendable (htype : Z) (data : bytes) : Prop :=
  let n := Z.of_nat (length data) in
  (htype = TCP_PB_RAW /\ 0 < n) \/ (htype = TCP_PB_1 /\ n < 2 ^ 8) \/ (htype = TCP_PB_2 /\ n < 2 ^ 16) \/
  (htype = TCP_PB_LINE_LF /\ exists body, data = body ++ [LF] /\ LF ∉ body).
Lemma memchr_first body c rest n : c ∉ body -> (length body < n)%nat -> memchr (body ++ c :: rest) c n = Some (length body).
Proof.
  revert n. induction body as [|x body IH]; intros [|n] Hc Hn; cbn [length app memchr] in *; try lia.
  - by rewrite Z.eqb_refl.
  - apply not_elem_of_cons in Hc as [Hx Hc]. rewrite (proj2 (Z.eqb_neq x c)) by congruence.
    by rewrite IH by (done || lia).
Qed.
Lemma no_header htype n : (htype = TCP_PB_RAW \/ htype = TCP_PB_LINE_LF) -> 0 < n -> packet_header htype n = Some [].
Proof.
  intros Hh Hn. unfold packet_header. rewrite (proj2 (Z.eqb_neq n 0)) by lia. by destruct Hh as [->| ->].
Qed.
Lemma sendable_frame htype data : sendable htype data -> let fr := frame htype data in
  whole htype fr /\ payload htype fr = data /\ header_len htype <= Z.of_nat (length fr) /\ (0 < length fr)%nat /\
  exists h, packet_header htype (Z.of_nat (length data)) = Some h /\ fr = h ++ data.
Proof.
  intros [[-> Hn]|[[-> Hn]|[[-> Hn]|[-> (body & Ed & Hb)]]]] fr.
  - assert (fr = data) as ->.
    { unfold fr, frame. by rewrite no_header by (auto || lia). }
    split_and!; try done; [|cbn; lia|lia|].
    + intros hs junk nsz n. unfold packet_case_of. change (TCP_PB_RAW =? TCP_PB_RAW) with true. cbv iota.
      by rewrite (proj2 (Z.eqb_neq _ _)) by lia.
    + exists []. by rewrite no_header by (auto || lia).
  - change fr with (put_int8 (Z.of_nat (length data)) ++ data). split_and!; [|done| |cbn; lia|by eexists].
    2: { rewrite length_app. cbn. lia. }
    intros hs junk nsz n. unfold packet_case_of. change (TCP_PB_1 =? TCP_PB_RAW) with false.
    change (TCP_PB_1 =? TCP_PB_1) with true. cbv iota. unfold n. rewrite length_app. cbn [put_int8 length].
    rewrite (proj2 (Z.ltb_ge _ _)) by lia. rewrite <-app_assoc, get_put_int8, wrap_small by lia. lia.
  - change fr with (put_int16 (Z.of_nat (length data)) ++ data). split_and!; [|done| |cbn; lia|by eexists].
    2: { rewrite length_app. cbn. lia. }
    intros hs junk nsz n. unfold packet_case_of. change (TCP_PB_2 =? TCP_PB_RAW) with false.
    change (TCP_PB_2 =? TCP_PB_1) with false. change (TCP_PB_2 =? TCP_PB_2) with true. cbv iota.
    unfold n. rewrite length_app. cbn [put_int16 length].
    rewrite (proj2 (Z.ltb_ge _ _)) by lia. rewrite <-app_assoc, get_put_int16, wrap_small by lia. lia.
  - assert (Z.of_nat (length data) = Z.of_nat (length body) + 1) as Hl by (rewrite Ed, length_app; cbn; lia).
    assert (fr = data) as ->.
    { unfold fr, frame. by rewrite no_header by (auto || lia). }
    split_and!; try done; [|cbn; lia|lia|].
    + intros hs junk nsz n. change (packet_case_of TCP_PB_LINE_LF hs (data ++ junk) n nsz n) with
        (match memchr_int (data ++ junk) LF n with
         | None => if (nsz =? 0) && (n =? n) then Done n else More
         | Some i => Done (i + 1)
         end).
      unfold memchr_int. rewrite (proj2 (Z.ltb_ge n 0)) by lia. rewrite Ed, <-app_assoc. change ([LF] ++ junk) with (LF :: junk).
      rewrite memchr_first by (done || lia). cbn [fmap option_fmap option_map]. lia.
    + exists []. by rewrite no_header by (auto || lia).
Qed.
Lemma queued_trip w n (f : Q -> Q) fr : streaming w -> to_owner w -> idle w -> q_bytes (f (queue w)) = fr -> all_bytes fr ->
  (0 < length fr)%nat -> Z.of_nat (length fr) <= bufsz (inet (desc w)) ->
  header_len (htype (inet (desc w))) <= Z.of_nat (length fr) -> whole (htype (inet (desc w))) fr ->
  let w' := snd ((inet_output_count ulong n;;; w ← get; set_queue (f (queue w));;; loop_recv ulong 0;;; mret 0) w) in
  emits None (tcp_term (inet (desc w)) (payload (htype (inet (desc w))) fr)) w w' /\
  caller (inet (desc w')) = caller (inet (desc w)) /\ idle w'.
Proof.
  intros Hs Hto [Eb Eq0] Hq Hf Hfit Hz Hh Hw.
  set (w1 := snd (inet_output_count ulong n w)).
  rewrite (bind_eq (inet_output_count ulong n) _ _ tt w1 eq_refl), (bind_eq get _ _ _ _ eq_refl).
  change (queue w1) with (queue w). set (w2 := snd (set_queue (f (queue w)) w1)).
  rewrite (bind_eq (set_queue _) _ _ tt w2 eq_refl).
  assert (streaming w2) as Hs2.
  { apply (streaming_with w); try done. change (all_bytes (q_bytes (f (queue w)))). by rewrite Hq. }
  assert (to_owner w2) as Hto2 by (by destruct Hto). change fr with fr.
  pose proof (recv_idle w2 Hs2 Hto2 Eb) as Hr. cbv zeta in Hr.
  change (queue w2) with (f (queue w)) in Hr. rewrite Hq in Hr.
  destruct Hr as (He & Hc & Hi); [|done|done|].
  { change (bufsz (inet (desc w2))) with (bufsz (inet (desc w))). lia. }
  rewrite (tcp_term_conf (inet (desc w2)) (inet (desc w))) in He by done.
  destruct (loop_recv ulong 0 w2) as [r w3] eqn:E3. rewrite (bind_eq _ _ _ _ _ E3). cbn [snd mret M_ret] in *.
  split_and!; [by eapply emits_silent|done|done].
Qed.

(** The calls of a conversation on the log: for each send the message with the data to the owner,
    then [ok] to the sender. *)
Inductive conversation (d : inet_descriptor) : log -> list bytes -> log -> Prop :=
  | conv_nil c : conversation d c [] c
  | conv_cons c data l sp c' : denotes sp (tcp_term d data) ->
      conversation d (c ++ [OutputTerm sp; SendTerm (driver_caller c) (reply_ok_spec (dport d))]) l c' ->
      conversation d c (data :: l) c'.

Lemma conversation_conf d d' c l c' : conf d = conf d' -> conversation d c l c' -> conversation d' c l c'.
Proof.
  intros Hc. induction 1 as [c|c data l sp c' Hd _ IH]; [constructor|]. apply conv_cons with sp.
  - by rewrite <-(tcp_term_conf d d').
  - replace (dport d') with (dport d); [done|]. change (dport (conf d) = dport (conf d')). by rewrite Hc.
Qed.
Lemma exec_trip s w : streaming w -> to_owner w -> idle w -> all_bytes (sent s) ->
  sendable (htype (inet (desc w))) (sent s) ->
  Z.of_nat (length (frame (htype (inet (desc w))) (sent s))) <= bufsz (inet (desc w)) ->
  let w' := snd (exec ulong s w) in
  idle w' /\ exists sp, denotes sp (tcp_term (inet (desc w)) (sent s)) /\
    calls w' = calls w ++ [OutputTerm sp; SendTerm (driver_caller (calls w)) (reply_ok_spec (dport (inet (desc w))))].
Proof.
  intros Hs Hto Hi Hb Hsend Hfit. destruct (sendable_frame _ _ Hsend) as (Hw & Hp & Hh & Hpos & h & Eh & Efr).
  set (fr := frame (htype (inet (desc w))) (sent s)) in *.
  assert (all_bytes fr) as Hfb by (rewrite Efr; apply all_bytes_app; split; [by eapply header_bytes|done]).
  set (w1 := snd (set_caller w)). assert (set_caller w = (tt, w1)) as Ew1 by done.
  assert (streaming w1) as Hs1 by (apply (streaming_with w); try done; apply Hs).
  assert (to_owner w1) as Hto1 by (by destruct Hto).
  assert (forall m : M (world Q) Z,
    (fst (m w1) = 0 /\ passes fr w1 (snd (m w1))) ->
    (emits None (tcp_term (inet (desc w1)) (payload (htype (inet (desc w1))) fr)) w1 (snd (m w1)) /\
      caller (inet (desc (snd (m w1)))) = caller (inet (desc w1)) /\ idle (snd (m w1))) ->
    let w' := snd ((set_caller;;; (d ← get_inet;
        if negb (IS_CONNECTED d) then inet_reply_error ENOTCONN;;; skip
        else r ← m; when r =? 0 do (inet_reply_ok;;; skip))) w) in
    idle w' /\ exists sp, denotes sp (tcp_term (inet (desc w)) (sent s)) /\
      calls w' = calls w ++ [OutputTerm sp; SendTerm (driver_caller (calls w)) (reply_ok_spec (dport (inet (desc w))))])
    as Hm.
  { intros m [Hr Hps] (He & Hc & Hi2). rewrite (bind_eq _ _ _ _ _ Ew1), (bind_eq get_inet _ _ _ _ eq_refl), (st_connected _ Hs1).
    cbn [negb]. destruct (m w1) as [r w2] eqn:E2. cbn [fst snd] in *. subst r. rewrite (bind_eq _ _ _ _ _ E2).
    split; [exact Hi2|]. destruct He as (sp & Hd & Hcalls). exists sp.
    rewrite (tcp_term_conf (inet (desc w1)) (inet (desc w))) in Hd by done.
    change (htype (inet (desc w1))) with (htype (inet (desc w))) in Hd. rewrite Hp in Hd. split; [done|].
    change (snd ((when 0 =? 0 do (inet_reply_ok;;; skip)) w2)) with
      (set_log (calls w2 ++ [SendTerm (caller (inet (desc w2))) (reply_ok_spec (dport (inet (desc w2))))])
        (snd (upd_inet (w_caller 0) w2))). cbn [calls set_log world_log].
    rewrite Hcalls, Hc, <-app_assoc. destruct Hps as (_ & Hcf & _).
    assert (dport (inet (desc w2)) = dport (inet (desc w))) as ->.
    { change (dport (conf (inet (desc w2))) = dport (conf (inet (desc w1)))). by rewrite Hcf. }
    done. }
  assert (all_bytes (sent s) /\ idle w1) as [_ Hi1] by (by split).
  destruct s as [data|segs]; cbn [sent exec] in *.
  - refine (Hm (loop_send ulong data (Z.of_nat (length data))) (loop_send_passes ulong data w1 Hs1 Hb) _).
    unfold loop_send. rewrite (bind_eq get_inet _ _ _ _ eq_refl). change (htype (inet (desc w1))) with (htype (inet (desc w))).
    rewrite Eh. apply (queued_trip w1 _ (fun q => driver_enq (driver_enq q h) data)); try done.
    rewrite !q_enq_bytes, Efr. destruct Hi1 as [_ ->]. done.
  - refine (Hm (loop_sendv ulong ([] :: segs) (Z.of_nat (length (concat segs)))) (loop_sendv_passes ulong segs w1 Hs1 Hb) _).
    unfold loop_sendv. rewrite (bind_eq get_inet _ _ _ _ eq_refl). change (htype (inet (desc w1))) with (htype (inet (desc w))).
    rewrite Eh. apply (queued_trip w1 _ (fun q => driver_enqv q (if 0 <? Z.of_nat (length h) then <[0%nat:=h]> ([] :: segs) else [] :: segs) 0)); try done.
    rewrite q_enqv_bytes by lia. destruct Hi1 as [_ ->]. rewrite Efr.
    destruct (Z.ltb_spec 0 (Z.of_nat (length h))); [done|]. destruct h; [done|]. cbn in *. lia.
Qed.
Lemma execs_trip l w : streaming w -> to_owner w -> idle w ->
  Forall (fun s => all_bytes (sent s) /\ sendable (htype (inet (desc w))) (sent s) /\
    Z.of_nat (length (frame (htype (inet (desc w))) (sent s))) <= bufsz (inet (desc w))) l ->
  let w' := snd (execs ulong l w) in
  idle w' /\ conversation (inet (desc w)) (calls w) (map sent l) (calls w').
Proof.
  revert w. induction l as [|s l IH]; intros w Hs Hto Hi Hl; [by split; [|constructor]|].
  apply Forall_cons in Hl as [(Hb & Hsd & Hf) Hl]. cbn [execs map].
  pose proof (exec_passes ulong s w Hs Hb) as (Hs1 & Hc1 & _).
  destruct (exec_trip s w Hs Hto Hi Hb Hsd Hf) as (Hi1 & sp & Hd & Hcalls).
  destruct (exec ulong s w) as [[] w1] eqn:E1. cbn [snd] in *. rewrite (bind_eq _ _ _ _ _ E1).
  destruct (conf_fields _ _ Hc1) as (_ & Ebz & Eh).
  assert (to_owner w1) as Hto1.
  { destruct Hto. split; [apply Hs1| |by rewrite Eh|].
    - change (deliver (conf (inet (desc w1))) = INET_DELIVER_TERM). by rewrite Hc1.
    - change (0 <= hsz (conf (inet (desc w1))) < 2 ^ 32). by rewrite Hc1. }
  destruct (IH w1 Hs1 Hto1 Hi1) as [Hi2 Hconv]; [by rewrite Eh, Ebz|]. split; [done|].
  apply conv_cons with sp; [done|]. rewrite <-Hcalls. by apply (conversation_conf (inet (desc w1))).
Qed.
End Trip.

(** C2: Round trip. On a connected, active port, not busy, with a buffer of 2 to 2^30 bytes, that delivers terms, in packet mode raw, 1, 2 or line, idle and with nothing unread, with memory and with an
    owner and senders that accept messages, every send (as a block or a vector) of one packet of the mode - not empty in raw mode, shorter than 256 bytes in
    mode 1 and than 65536 in mode 2, one line with its only LF at its end in line mode - that fits the buffer with its header is answered before it
    returns with exactly one message [{tcp, S, Data}] that carries that data to the owner, then [ok] to the sender, in the order of the sends, and the
    port is idle again. A longer send in mode 1 or 2 is framed with its length cut ([frame]). *)
Theorem packets_round_trip {Q} `{PL : PortQueueLaws Q} `{IV : !IOVec Q} `{RT : !Runtime} `{E : !LoopEnv}
    `{IL : !IOVecLaws Q} `{MEM : !Memory} `{EL : !LoopEnvLaws E} ulong (w : world Q) (l : list send) :
  streaming w -> to_owner w -> idle w ->
  Forall (fun s => all_bytes (sent s) /\ sendable (htype (inet (desc w))) (sent s) /\
    Z.of_nat (length (frame (htype (inet (desc w))) (sent s))) <= bufsz (inet (desc w))) l ->
  let w' := snd (execs ulong l w) in
  conversation (inet (desc w)) (calls w) (map sent l) (calls w') /\ idle w'.
Proof. intros Hs Ht Hi Hl w'. by destruct (execs_trip ulong l w Hs Ht Hi Hl). Qed.

(** * Examples *)

(** A connected, active port with nothing received. *)
Definition open_port (htype : Z) : world (list bytes) :=
  World (w_inet (w_htype htype sample_inet) sample_desc) [] 0 [] [] [].
Lemma open_port_streaming htype : safe_type htype = true -> streaming (RT := rt_ok) (open_port htype).
Proof.
  intros Ht. assert (good (open_port htype)) as Hg.
  { split; cbn; [|by apply safe_small|apply List.Forall_nil|lia].
    split; cbn; unfold i_buf_bytes, orig_size; cbn; lia. }
  split; [split|split|split|]; try done; [cbn; apply List.Forall_nil|by right].
Qed.
Lemma active_stream_integrity_witness :
  let w := open_port TCP_PB_2 in
  let l := [Command [65; 66]; Commandv [[67]; [68; 69]]] in
  let w' := snd (execs (RT := rt_ok) (E := sample_env) 32 l w) in
  streaming (RT := rt_ok) w' /\
  concat (packets w') ++ unread (desc w') ++ q_bytes (queue w') =
  stream w ++ concat (map (fun s => frame (htype (inet (desc w))) (sent s)) l).
Proof.
  intros w l. apply (active_stream_integrity (RT := rt_ok) 32 w l).
  - apply open_port_streaming. reflexivity.
  - repeat constructor; by_decision.
Defined.
Lemma packets_round_trip_witness :
  let w := open_port TCP_PB_2 in
  let l := [Command [65; 66]; Commandv [[67]; [68; 69]]] in
  let w' := snd (execs (RT := rt_ok) (E := sample_env) 32 l w) in
  conversation (E := sample_env) (inet (desc w)) (calls w) (map sent l) (calls w') /\ idle w'.
Proof.
  intros w l. apply (packets_round_trip (RT := rt_ok) 32 w l).
  - apply open_port_streaming. reflexivity.
  - split; [reflexivity..|cbn; lia].
  - split; reflexivity.
  - repeat constructor; try by_decision; cbn; try lia; right; right; left; cbn; lia.
Defined.
