(* ===== verification/LoopInet.v ===== *)
(** Control of the loop driver, [ssh/c_src/loop_drv.c]: addresses, options, statistics,
    [inet_start], [inet_ctl], [loop_drv_start] and [loop_drv_ctl].

    The control buffer is the list of its bytes, its length is [len]. *)
From stdpp Require Import strings.
From S2P Require Import Prelude ErlTerm Erts LoopDesc LoopMsg LoopHttp LoopBuf LoopDrv.
#[local] Open Scope Z_scope.

(** * Addresses *)

(** [htons] and [ntohs] on a little-endian machine. *)
Definition htons (p : Z) : Z := ((p & 255) << 8 |. (p >> 8) & 255)%C.

(** [port] is a [short]. *)
Definition inet_set_address (family : Z) (src : bytes) : option inet_address :=
  if (family =? AF_INET) && (6 <=? Z.of_nat (length src)) then
    let port := int16 (get_int16 src) in
    Some (Addr family (htons (u16 port)) (slice 2 4 src))
  else None.

Definition inet_get_address (family : Z) (src : inet_address) : option bytes :=
  if family =? AF_INET then
    let port := int16 (htons (sin_port src)) in
    Some (INET_AF_INET :: put_int16 port ++ sin_addr src)
  else None.

(** [end - ptr] is [room]. *)
Definition sockaddr_to_buf (addr : inet_address) (room : Z) : option bytes :=
  if (sin_family addr =? AF_INET) || (sin_family addr =? 0) then
    if room <? 4 then None else Some (sin_addr addr)
  else None.
Definition buf_to_sockaddr (ptr : bytes) (addr : inet_address) : option inet_address :=
  if Z.of_nat (length ptr) <? 4 then None
  else Some (Addr AF_INET (sin_port addr) (take 4 ptr)).

(** * Options *)

Definition clamp (lo hi v : Z) : Z := if v <? lo then lo else if v >? hi then hi else v.
Definition set_bit8 (ival : Z) (d : inet_descriptor) : inet_descriptor :=
  if ival =? INET_BIT8_ON then w_bit8 0 (w_bit8f 1 d)
  else if ival =? INET_BIT8_OFF then w_bit8 0 (w_bit8f 0 d)
  else if ival =? INET_BIT8_CLEAR then w_bit8 0 (w_bit8f 1 d)
  else if ival =? INET_BIT8_SET then w_bit8 1 (w_bit8f 1 d)
  else d.
Definition on_inet (f : inet_descriptor -> inet_descriptor) (d : loop_descriptor) : loop_descriptor :=
  w_inet (f (inet d)) d.
Definition is_stream (d : loop_descriptor) : bool := stype (inet d) =? SOCK_STREAM.

(** One option without [INET_OPT_LINGER], [None] for an unknown one. *)
Definition set_opt (opt ival : Z) (d : loop_descriptor) : option loop_descriptor :=
  if opt =? INET_LOPT_HEADER then Some (on_inet (w_hsz (u32 ival)) d)
  else if opt =? INET_LOPT_MODE then Some (on_inet (w_mode ival) d)
  else if opt =? INET_LOPT_DELIVER then Some (on_inet (w_deliver ival) d)
  else if opt =? INET_LOPT_BUFFER then
    Some (on_inet (w_bufsz (clamp INET_MIN_BUFFER INET_MAX_BUFFER ival)) d)
  else if opt =? INET_LOPT_ACTIVE then Some (on_inet (w_active ival) d)
  else if opt =? INET_LOPT_PACKET then Some (on_inet (w_htype ival) d)
  else if opt =? INET_LOPT_EXITONCLOSE then Some (on_inet (w_exitf ival) d)
  else if opt =? INET_LOPT_BIT8 then Some (on_inet (set_bit8 ival) d)
  else if opt =? INET_LOPT_TCP_HIWTRMRK then
    Some (if is_stream d then
            let ival := clamp 0 (INET_MAX_BUFFER * 2) ival in
            let d := if low d >? ival then w_low ival d else d in
            w_high ival d
          else d)
  else if opt =? INET_LOPT_TCP_LOWTRMRK then
    Some (if is_stream d then
            let ival := clamp 0 INET_MAX_BUFFER ival in
            let d := if high d <? ival then w_high ival d else d in
            w_high ival d
          else d)
  else if opt =? INET_LOPT_TCP_SEND_TIMEOUT then
    Some (if is_stream d then w_send_timeout ival d else d)
  else if (opt =? INET_OPT_REUSEADDR) || (opt =? INET_OPT_KEEPALIVE) || (opt =? INET_OPT_DONTROUTE) ||
          (opt =? INET_OPT_BROADCAST) || (opt =? INET_OPT_OOBINLINE) || (opt =? INET_OPT_SNDBUF) ||
          (opt =? TCP_OPT_NODELAY) then Some d
  else if opt =? INET_OPT_RCVBUF then
    Some (if ival >? bufsz (inet d) then on_inet (w_bufsz ival) d else d)
  else None.

(** The loop: [false] on an error; the options before it stay set. *)
Fixpoint set_opts (ptr : bytes) (d : loop_descriptor) : bool * loop_descriptor :=
  match ptr with
  | opt :: b3 :: b2 :: b1 :: b0 :: ptr =>
      let ival := get_int32 [b3; b2; b1; b0] in
      if opt =? INET_OPT_LINGER then
        match ptr with
        | _ :: _ :: _ :: _ :: ptr => set_opts ptr d
        | _ => (false, d)
        end
      else
        match set_opt opt ival d with
        | None => (false, d)
        | Some d => set_opts ptr d
        end
  | _ => (true, d)
  end.
Definition inet_set_opts (ptr : bytes) (d : loop_descriptor) : Z * loop_descriptor :=
  let old_htype := htype (inet d) in
  let old_active := active (inet d) in
  let '(ok, d) := set_opts ptr d in
  if negb ok then (-1, d) else
  if is_stream d && IS_CONNECTED (inet d) && c_true (active (inet d)) then
    if negb (c_true old_active) then (1, d)
    else if negb (htype (inet d) =? old_htype) then (2, d)
    else (0, d)
  else (0, d).

(** The value and what [ival] holds after it: [ival] is not set before the options of
    the socket are written. *)
Inductive opt_reply := OptValue (v ival : Z) | OptSkip | OptBad.
Definition fill_opt (d : loop_descriptor) (opt ival : Z) : opt_reply :=
  let i := inet d in
  if opt =? INET_LOPT_BUFFER then OptValue (bufsz i) ival
  else if opt =? INET_LOPT_HEADER then OptValue (hsz i) ival
  else if opt =? INET_LOPT_MODE then OptValue (mode i) ival
  else if opt =? INET_LOPT_DELIVER then OptValue (deliver i) ival
  else if opt =? INET_LOPT_ACTIVE then OptValue (active i) ival
  else if opt =? INET_LOPT_PACKET then OptValue (htype i) ival
  else if opt =? INET_LOPT_EXITONCLOSE then OptValue (exitf i) ival
  else if opt =? INET_LOPT_BIT8 then
    OptValue (if c_true (bit8f i) then bit8 i else INET_BIT8_OFF) ival
  else if opt =? INET_LOPT_TCP_HIWTRMRK then
    if is_stream d then OptValue (high d) (high d) else OptSkip
  else if opt =? INET_LOPT_TCP_LOWTRMRK then
    if is_stream d then OptValue (low d) (low d) else OptSkip
  else if opt =? INET_LOPT_TCP_SEND_TIMEOUT then
    if is_stream d then OptValue (send_timeout d) (send_timeout d) else OptSkip
  else if (opt =? INET_OPT_REUSEADDR) || (opt =? INET_OPT_KEEPALIVE) || (opt =? INET_OPT_DONTROUTE) ||
          (opt =? INET_OPT_BROADCAST) || (opt =? INET_OPT_OOBINLINE) || (opt =? INET_OPT_SNDBUF) ||
          (opt =? INET_OPT_RCVBUF) || (opt =? TCP_OPT_NODELAY) then OptValue ival ival
  else OptBad.
Fixpoint fill_opts (d : loop_descriptor) (buf : bytes) (ival : Z) : option bytes :=
  match buf with
  | [] => Some []
  | opt :: buf =>
      match fill_opt d opt ival with
      | OptBad => None
      | OptSkip => fill_opts d buf ival
      | OptValue v ival => rest ← fill_opts d buf ival; Some (opt :: put_int32 v ++ rest)
      end
  end.
(** [ival] is what the uninitialised variable holds. *)
Definition inet_fill_opts (d : loop_descriptor) (buf : bytes) (ival : Z) : option bytes :=
  rest ← fill_opts d buf ival; Some (INET_REP_OK :: rest).

(** * Statistics *)

(** [(unsigned long) d], of a value in range. *)
Definition d_to_ulong (d : double) : Z :=
  match d with
  | S754_finite s m e =>
      let v := if 0 <=? e then Zpos m * 2 ^ e else Zpos m / 2 ^ (- e) in
      if s then - v else v
  | _ => 0
  end.

(** [sizeq] is [driver_sizeq(desc->port)]. *)
Definition stat_value (s : statistics) (sizeq op : Z) : option bytes :=
  if op =? INET_STAT_RECV_CNT then Some (put_int32 (recv_cnt s))
  else if op =? INET_STAT_RECV_MAX then Some (put_int32 (recv_max s))
  else if op =? INET_STAT_RECV_AVG then Some (put_int32 (d_to_ulong (recv_avg s)))
  else if op =? INET_STAT_RECV_DVI then Some (put_int32 (d_to_ulong (SFabs (recv_dvi s))))
  else if op =? INET_STAT_SEND_CNT then Some (put_int32 (send_cnt s))
  else if op =? INET_STAT_SEND_MAX then Some (put_int32 (send_max s))
  else if op =? INET_STAT_SEND_AVG then Some (put_int32 (d_to_ulong (send_avg s)))
  else if op =? INET_STAT_SEND_PND then Some (put_int32 sizeq)
  else if op =? INET_STAT_RECV_OCT then Some (put_int32 (recv_oct1 s) ++ put_int32 (recv_oct0 s))
  else if op =? INET_STAT_SEND_OCT then Some (put_int32 (send_oct1 s) ++ put_int32 (send_oct0 s))
  else None.
Fixpoint fill_stat (s : statistics) (sizeq : Z) (src : bytes) : option bytes :=
  match src with
  | [] => Some []
  | op :: src =>
      v ← stat_value s sizeq op;
      rest ← fill_stat s sizeq src;
      Some (op :: v ++ rest)
  end.
Definition inet_fill_stat (s : statistics) (sizeq : Z) (src : bytes) : option bytes :=
  rest ← fill_stat s sizeq src; Some (INET_REP_OK :: rest).

(** * Start *)

(** [blk] is the allocated block: it keeps the values of the fields that are not set. *)
Definition inet_start (dport : Z) (blk : inet_descriptor) : inet_descriptor :=
  Inet dport INET_STATE_CLOSED INET_MODE_LIST 1 0 INET_DELIVER_TERM (caller blk)
    (AQ None None (op_queue (ops blk))) INET_PASSIVE (-1) (-1) TCP_PB_RAW 0
    (peer_addr blk) (name_addr blk) false false INET_DEF_BUFFER 0
    (Stats 0 0 0 0 d_zero d_zero 0 0 0 0 d_zero) [].
Definition loop_drv_start (dport : Z) (blk : loop_descriptor) : loop_descriptor :=
  Loop (inet_start dport (inet blk)) INET_HIGH_WATERMARK INET_LOW_WATERMARK (int32 INET_INFINITY) 0
    0 None 0 0 0 0.

(** * Control *)

(** What a control operation leaves in [*rbuf]: nothing, bytes in the buffer given, bytes in
    an allocated one, or NULL. *)
Inductive reply := NoReply | InPlace (b : bytes) | Allocated (b : bytes) | NullReply.
Definition EXBADPORT := "exbadport"%string.
Definition EXBADSEQ := "exbadseq"%string.

Section Ctl.
Context {Q : Type} `{PQ : !PortQueue Q} `{IV : !IOVec Q} `{RT : !Runtime} `{E : !LoopEnv}.
Context (ulong : Z).
Abbreviation W := (world Q).
Abbreviation Loop := (M W).

Definition ctl_reply (rep : Z) (buf : bytes) (rsize : Z) : Loop (Z * reply) :=
  let len := Z.of_nat (length buf) in
  if len + 1 >? rsize then
    ok ← driver_alloc_ok (len + 1);
    mret (len + 1, if ok : bool then Allocated (rep :: buf) else NullReply)
  else mret (len + 1, InPlace (rep :: buf)).
Definition ctl_error (err rsize : Z) : Loop (Z * reply) :=
  ctl_reply INET_REP_ERROR (lit (error_atom err)) rsize.
Definition ctl_xerror (xerr : string) (rsize : Z) : Loop (Z * reply) :=
  ctl_reply INET_REP_ERROR (lit xerr) rsize.

Definition inet_ctl_open (domain type rsize : Z) : Loop (Z * reply) :=
  d ← get_inet;
  if negb (state d =? INET_STATE_CLOSED) then ctl_xerror EXBADSEQ rsize else
  upd_inet (fun d => w_sfamily domain (w_stype type (w_state INET_STATE_OPEN d)));;;
  ctl_reply INET_REP_OK [] rsize.

(** [dst] for a reply of [dstlen] bytes: [None] where 0 is returned, else how the reply is
    given. *)
Definition reply_area (dstlen rsize : Z) : Loop (option (bytes -> reply)) :=
  if dstlen >? INET_MAX_BUFFER then mret None
  else if dstlen >? rsize then
    ok ← driver_alloc_ok dstlen;
    mret (if ok : bool then Some Allocated else None)
  else mret (Some InPlace).

(** [-1] and [0], or the bytes written. *)
Fixpoint subscribe_loop (src : bytes) : Loop (Z + bytes) :=
  match src with
  | [] => mret (inr [])
  | op :: src =>
      if op =? INET_SUBS_EMPTY_OUT_Q then
        w ← get;
        let val := driver_sizeq (queue w) in
        saved ← (if 0 <? val then
                   save_subscriber (driver_caller (calls w))
                 else mret 1);
        if saved =? 0 then mret (inl 0) else
        r ← subscribe_loop src;
        mret match r with inl e => inl e | inr b => inr (op :: put_int32 val ++ b) end
      else mret (inl (-1))
  end.
Definition inet_subscribe (src : bytes) : Loop (Z + bytes) :=
  r ← subscribe_loop src;
  mret match r with inl e => inl e | inr b => inr (INET_REP_OK :: b) end.

Definition stat_reply_len (buf : bytes) : Z :=
  fold_left (fun n op => n + (if (op =? INET_STAT_SEND_OCT) || (op =? INET_STAT_RECV_OCT) then 9 else 5)) buf 1.

Definition inet_getstat (buf : bytes) (rsize : Z) : Loop (Z * reply) :=
  dst ← reply_area (int32 (stat_reply_len buf)) rsize;
  w ← get;
  mret match dst with
       | None => (0, NoReply)
       | Some area =>
           match inet_fill_stat (stats (inet (desc w))) (driver_sizeq (queue w)) buf with
           | None => (-1, NoReply)
           | Some b => (Z.of_nat (length b), area b)
           end
       end.

Definition inet_do_subscribe (buf : bytes) (rsize : Z) : Loop (Z * reply) :=
  dst ← reply_area (int32 (1 + Z.of_nat (length buf) * 5)) rsize;
  match dst with
  | None => mret (0, NoReply)
  | Some area =>
      r ← inet_subscribe buf;
      mret match r with
           | inl e => (e, NoReply)
           | inr b => (Z.of_nat (length b), area b)
           end
  end.

(** [ival] is the uninitialised variable of [inet_fill_opts]. *)
Definition inet_getopts (buf : bytes) (rsize ival : Z) : Loop (Z * reply) :=
  dst ← reply_area (int32 (Z.of_nat (length buf) * 9 + 1)) rsize;
  d ← get_desc;
  match dst with
  | None => mret (0, NoReply)
  | Some area =>
      match inet_fill_opts d buf ival with
      | None => ctl_error EINVAL rsize
      | Some b => mret (Z.of_nat (length b), area b)
      end
  end.

Definition inet_setopts (buf : bytes) (rsize : Z) : Loop (Z * reply) :=
  d ← get_desc;
  let '(r, d) := inet_set_opts buf d in
  upd (fun _ => d);;;
  if r =? -1 then ctl_error EINVAL rsize
  else if r =? 0 then ctl_reply INET_REP_OK [] rsize
  else
    loop_deliver ulong 0;;;
    ctl_reply INET_REP_OK [] rsize.

Definition inet_gettype (rsize : Z) : Loop (Z * reply) :=
  d ← get_inet;
  if negb (sfamily d =? AF_INET) then ctl_error EINVAL rsize
  else if stype d =? SOCK_STREAM then
    ctl_reply INET_REP_OK (put_int32 INET_AF_INET ++ put_int32 INET_TYPE_STREAM) rsize
  else if stype d =? SOCK_DGRAM then
    ctl_reply INET_REP_OK (put_int32 INET_AF_INET ++ put_int32 INET_TYPE_DGRAM) rsize
  else ctl_error EINVAL rsize.

Definition inet_peer (rsize : Z) : Loop (Z * reply) :=
  d ← get_inet;
  if (state d & INET_F_ACTIVE)%C =? 0 then ctl_error ENOTCONN rsize
  else if negb (peer_ptr d) then ctl_error EINVAL rsize
  else
    match inet_get_address (sfamily d) (peer_addr d) with
    | None => ctl_error EINVAL rsize
    | Some tbuf => ctl_reply INET_REP_OK tbuf rsize
    end.
Definition inet_setpeer (buf : bytes) (rsize : Z) : Loop (Z * reply) :=
  d ← get_inet;
  let len := Z.of_nat (length buf) in
  if len =? 0 then
    upd_inet (w_peer_ptr false);;;
    ctl_reply INET_REP_OK [] rsize
  else if len <? 2 then ctl_error EINVAL rsize
  else
    match inet_set_address (sfamily d) buf with
    | None => ctl_error EINVAL rsize
    | Some a =>
        upd_inet (fun d => w_peer_ptr true (w_peer_addr a d));;;
        ctl_reply INET_REP_OK [] rsize
    end.
Definition inet_name (rsize : Z) : Loop (Z * reply) :=
  d ← get_inet;
  if negb (IS_BOUND d) then ctl_error EINVAL rsize
  else if negb (name_ptr d) then ctl_error EINVAL rsize
  else
    match inet_get_address (sfamily d) (name_addr d) with
    | None => ctl_error EINVAL rsize
    | Some tbuf => ctl_reply INET_REP_OK tbuf rsize
    end.
Definition inet_setname (buf : bytes) (rsize : Z) : Loop (Z * reply) :=
  d ← get_inet;
  let len := Z.of_nat (length buf) in
  if len =? 0 then
    upd_inet (w_name_ptr false);;;
    ctl_reply INET_REP_OK [] rsize
  else if len <? 2 then ctl_error EINVAL rsize
  else
    match inet_set_address (sfamily d) buf with
    | None => ctl_error EINVAL rsize
    | Some a =>
        upd_inet (fun d => w_name_ptr true (w_name_addr a d));;;
        ctl_reply INET_REP_OK [] rsize
    end.

Definition inet_bind (buf : bytes) (rsize : Z) : Loop (Z * reply) :=
  d ← get_inet;
  if Z.of_nat (length buf) <? 2 then ctl_error EINVAL rsize
  else if negb (state d =? INET_STATE_OPEN) then ctl_xerror EXBADPORT rsize
  else
    match inet_set_address (sfamily d) buf with
    | None => ctl_error EINVAL rsize
    | Some local =>
        upd_inet (w_state INET_STATE_BOUND);;;
        let port := int16 (htons (u16 (int16 (sin_port local)))) in
        ctl_reply INET_REP_OK (put_int16 port) rsize
    end.

Definition inet_ctl (cmd : Z) (buf : bytes) (rsize ival : Z) : Loop (Z * reply) :=
  d ← get_inet;
  if cmd =? INET_REQ_GETSTAT then inet_getstat buf rsize
  else if cmd =? INET_REQ_SUBSCRIBE then inet_do_subscribe buf rsize
  else if cmd =? INET_REQ_GETOPTS then inet_getopts buf rsize ival
  else if (cmd =? INET_REQ_GETIFLIST) || (cmd =? INET_REQ_IFGET) || (cmd =? INET_REQ_IFSET) then
    ctl_error EINVAL rsize
  else if cmd =? INET_REQ_SETOPTS then inet_setopts buf rsize
  else if cmd =? INET_REQ_GETIX then ctl_reply INET_REP_OK (put_int32 0) rsize
  else if cmd =? INET_REQ_GETSTATUS then ctl_reply INET_REP_OK (put_int32 (state d)) rsize
  else if cmd =? INET_REQ_GETTYPE then inet_gettype rsize
  else if cmd =? INET_REQ_GETFD then
    if negb (IS_OPEN d) then ctl_error EINVAL rsize
    else ctl_reply INET_REP_OK (put_int32 0) rsize
  else if cmd =? INET_REQ_GETHOSTNAME then ctl_error EINVAL rsize
  else if cmd =? INET_REQ_PEER then inet_peer rsize
  else if cmd =? INET_REQ_SETPEER then inet_setpeer buf rsize
  else if cmd =? INET_REQ_NAME then inet_name rsize
  else if cmd =? INET_REQ_SETNAME then inet_setname buf rsize
  else if cmd =? INET_REQ_BIND then inet_bind buf rsize
  else if (cmd =? INET_REQ_GETSERVBYNAME) || (cmd =? INET_REQ_GETSERVBYPORT) then ctl_error EINVAL rsize
  else ctl_xerror EXBADPORT rsize.

(** [tbuf] keeps what the stack held when no id is written to it. *)
Definition loop_ctl_connect (buf : bytes) (rsize : Z) : Loop (Z * reply) :=
  d ← get_inet;
  if negb (IS_OPEN d) then ctl_xerror EXBADPORT rsize
  else if IS_CONNECTED d then ctl_error EISCONN rsize
  else if negb (IS_BOUND d) then ctl_xerror EXBADSEQ rsize
  else if Z.of_nat (length buf) <? 6 then ctl_error EINVAL rsize
  else
    match inet_set_address (sfamily d) (drop 4 buf) with
    | None => ctl_error EINVAL rsize
    | Some a =>
        w ← get;
        upd_inet (fun d => w_state TCP_STATE_CONNECTED (w_peer_addr a d));;;
        aid ← enq_async INET_REQ_CONNECT;
        async_ok;;;
        ctl_reply INET_REP_OK
          (match aid with Some i => put_int16 i | None => fresh (calls w) 2 end) rsize
    end.

Definition loop_ctl_recv (buf : bytes) (rsize : Z) : Loop (Z * reply) :=
  d ← get_inet;
  if negb (IS_CONNECTED d) then ctl_error ENOTCONN rsize
  else if c_true (active d) || negb (Z.of_nat (length buf) =? 8) then ctl_error EINVAL rsize
  else
    let timeout := u32 (get_int32 buf) in
    let n := get_int32 (drop 4 buf) in
    if negb (htype d =? TCP_PB_RAW) && negb (n =? 0) then ctl_error EINVAL rsize
    else if n >? TCP_MAX_PACKET_SIZE then ctl_error ENOMEM rsize
    else
      aid ← enq_async TCP_REQ_RECV;
      match aid with
      | None => ctl_error EALREADY rsize
      | Some i =>
          r ← loop_recv ulong n;
          (when r =? 0 do
            if timeout =? 0 then async_error_am "timeout"%string;;; skip
            else when negb (timeout =? INET_INFINITY) do act (SetTimer timeout));;;
          ctl_reply INET_REP_OK (put_int16 i) rsize
      end.

Definition loop_ctl_unrecv (buf : bytes) (rsize : Z) : Loop (Z * reply) :=
  d ← get_inet;
  if negb (IS_CONNECTED d) then ctl_error ENOTCONN rsize
  else
    loop_push_buffer buf (Z.of_nat (length buf));;;
    d ← get_inet;
    (when c_true (active d) do (loop_deliver ulong 0;;; skip));;;
    ctl_reply INET_REP_OK [] rsize.

Definition loop_drv_ctl (cmd : Z) (buf : bytes) (rsize ival : Z) : Loop (Z * reply) :=
  d ← get_inet;
  if cmd =? INET_REQ_OPEN then
    if (Z.of_nat (length buf) =? 1) && (byte_at buf 0 =? INET_AF_INET)
    then inet_ctl_open AF_INET SOCK_STREAM rsize
    else ctl_error EINVAL rsize
  else if cmd =? TCP_REQ_LISTEN then ctl_error EINVAL rsize
  else if cmd =? INET_REQ_CONNECT then loop_ctl_connect buf rsize
  else if cmd =? TCP_REQ_ACCEPT then ctl_error EINVAL rsize
  else if cmd =? INET_REQ_CLOSE then
    loop_close_check;;;
    erl_inet_close;;;
    ctl_reply INET_REP_OK [] rsize
  else if cmd =? TCP_REQ_RECV then loop_ctl_recv buf rsize
  else if cmd =? TCP_REQ_UNRECV then loop_ctl_unrecv buf rsize
  else if cmd =? TCP_REQ_SHUTDOWN then
    if negb (IS_CONNECTED d) then ctl_error ENOTCONN rsize
    else if negb (Z.of_nat (length buf) =? 1) then ctl_error EINVAL rsize
    else ctl_reply INET_REP_OK [] rsize
  else inet_ctl cmd buf rsize ival.
End Ctl.

(** * Options are read back *)

(** The options the driver keeps itself, with the values it takes unchanged. *)
Definition local_opts : list Z := [INET_LOPT_BUFFER; INET_LOPT_HEADER; INET_LOPT_MODE; INET_LOPT_DELIVER;
  INET_LOPT_ACTIVE; INET_LOPT_PACKET; INET_LOPT_EXITONCLOSE; INET_LOPT_TCP_SEND_TIMEOUT].
Definition local_value (o : Z * Z) : Prop :=
  fst o ∈ local_opts /\ - (2 ^ 31) <= snd o < 2 ^ 31 /\
  (fst o = INET_LOPT_BUFFER -> INET_MIN_BUFFER <= snd o <= INET_MAX_BUFFER).
Definition opt_bytes (o : Z * Z) : bytes := fst o :: put_int32 (snd o).

(** The option reads as the value, whatever the uninitialised variable holds. *)
Definition shows (d : loop_descriptor) (o : Z * Z) : Prop := forall ival, exists v i,
  fill_opt d (fst o) ival = OptValue v i /\ put_int32 v = put_int32 (snd o).
Lemma put_int32_wrap v : put_int32 (u32 v) = put_int32 v.
Proof.
  unfold put_int32. rewrite !land_0xff, !Z.shiftr_div_pow2 by lia. unfold wrap. f_equal; [|f_equal; [|f_equal; [|f_equal]]];
    to_lin; divmod.
Qed.
Ltac in_local H :=
  unfold local_opts in H; repeat (apply elem_of_cons in H as [->|H]); [..|by apply elem_of_nil in H].
(** The fields behind the local options. *)
Definition opt_field (o : Z) (d : loop_descriptor) : Z :=
  let i := inet d in
  if o =? INET_LOPT_BUFFER then bufsz i else if o =? INET_LOPT_HEADER then hsz i
  else if o =? INET_LOPT_MODE then mode i else if o =? INET_LOPT_DELIVER then deliver i
  else if o =? INET_LOPT_ACTIVE then active i else if o =? INET_LOPT_PACKET then htype i
  else if o =? INET_LOPT_EXITONCLOSE then exitf i else send_timeout d.
Lemma shows_field d o v : o ∈ local_opts -> is_stream d = true ->
  put_int32 (opt_field o d) = put_int32 v -> shows d (o, v).
Proof.
  intros Ho Hs Hv ival. cbn [fst snd].
  in_local Ho; try by eexists _, _.
  cbn [fill_opt]. change (fill_opt d INET_LOPT_TCP_SEND_TIMEOUT ival) with
    (if is_stream d then OptValue (send_timeout d) (send_timeout d) else OptSkip). rewrite Hs. by eexists _, _.
Qed.
Lemma set_local_opt o v d : local_value (o, v) -> is_stream d = true -> exists d',
  set_opt o v d = Some d' /\ is_stream d' = true /\ put_int32 (opt_field o d') = put_int32 v /\
  forall o', o' ∈ local_opts -> o' <> o -> opt_field o' d' = opt_field o' d.
Proof.
  intros (Ho & Hv & Hb) Hs. cbn [fst snd] in *.
  in_local Ho; (eexists; split; [cbn; try rewrite Hs; reflexivity|]; split; [done|]; split;
    [|intros o' Ho' Hn; in_local Ho'; first [by destruct Hn|reflexivity]]); try done.
  - specialize (Hb eq_refl). cbn -[clamp]. unfold clamp, INET_MIN_BUFFER, INET_MAX_BUFFER in *.
    by rewrite Z.gtb_ltb, !(proj2 (Z.ltb_ge _ _)) by lia.
  - apply put_int32_wrap.
Qed.
Lemma set_opts_cons o rest d : local_value o -> set_opts (opt_bytes o ++ rest) d =
  match set_opt (fst o) (snd o) d with None => (false, d) | Some d => set_opts rest d end.
Proof.
  intros (Ho & Hv & _). destruct o as [o v]. cbn [fst snd] in *.
  assert ((o =? INET_OPT_LINGER) = false) as Hl by (in_local Ho; done).
  unfold opt_bytes. cbn [fst snd put_int32 app set_opts]. rewrite Hl. fold (put_int32 v).
  rewrite <-(app_nil_r (put_int32 v)), get_put_int32, sint_small by lia. done.
Qed.
Lemma set_opts_fields l d : Forall local_value l -> NoDup (map fst l) -> is_stream d = true -> exists d',
  set_opts (flat_map opt_bytes l) d = (true, d') /\ is_stream d' = true /\
  Forall (fun o => put_int32 (opt_field (fst o) d') = put_int32 (snd o)) l /\
  forall o', o' ∈ local_opts -> o' ∉ map fst l -> opt_field o' d' = opt_field o' d.
Proof.
  intros Hl. revert d. induction Hl as [|o l Ho Hl IH]; intros d Hn Hs; [by exists d|].
  cbn [map flat_map] in *. apply NoDup_cons in Hn as [Hn1 Hn2]. rewrite set_opts_cons by done.
  destruct (set_local_opt (fst o) (snd o) d) as (d1 & -> & Hs1 & Hf1 & Hk1); [by destruct o|done|].
  destruct (IH d1 Hn2 Hs1) as (d' & -> & Hs' & Hf' & Hk'). exists d'. split_and!; [done|done| |].
  - constructor; [|done]. rewrite Hk' by (done || apply Ho). done.
  - intros o' Ho' Hno. apply not_elem_of_cons in Hno as [? ?]. rewrite Hk' by done. by apply Hk1.
Qed.
Lemma fill_opts_shows l d ival : Forall (shows d) l -> fill_opts d (map fst l) ival = Some (flat_map opt_bytes l).
Proof.
  intros Hl. revert ival. induction Hl as [|o l Ho Hl IH]; intros ival; [done|]. cbn [map flat_map fill_opts].
  destruct (Ho ival) as (v & i & -> & Hv). rewrite IH, Hv. done.
Qed.

(** Options are read back: after a SETOPTS of any distinct options that the driver keeps itself
    (buffer, header, mode, deliver, active, packet, exit_on_close and send_timeout, with buffer
    sizes in the range allowed), a GETOPTS of them answers the values set, in the order asked,
    whatever the uninitialised variable of the reply holds. *)
Theorem options_round_trip (d : loop_descriptor) (l : list (Z * Z)) ival :
  Forall local_value l -> NoDup (map fst l) -> is_stream d = true ->
  let '(r, d') := inet_set_opts (flat_map opt_bytes l) d in
  0 <= r /\ inet_fill_opts d' (map fst l) ival = Some (INET_REP_OK :: flat_map opt_bytes l).
Proof.
  intros Hl Hn Hs. destruct (set_opts_fields l d Hl Hn Hs) as (d' & Hd & Hs' & Hf & _).
  unfold inet_set_opts. rewrite Hd. cbn [negb].
  assert (inet_fill_opts d' (map fst l) ival = Some (INET_REP_OK :: flat_map opt_bytes l)) as Hfill.
  { unfold inet_fill_opts. rewrite fill_opts_shows; [done|].
    rewrite Forall_forall in *. intros [o v] Ho. apply shows_field; [|done|].
    - apply (Hl (o, v) Ho).
    - apply (Hf (o, v) Ho). }
  by repeat case_match; simplify_eq.
Qed.
Lemma options_round_trip_witness :
  let d := w_inet (w_state INET_STATE_OPEN sample_inet) sample_desc in
  let l := [(INET_LOPT_PACKET, TCP_PB_2); (INET_LOPT_BUFFER, 100); (INET_LOPT_TCP_SEND_TIMEOUT, -1)] in
  let '(r, d') := inet_set_opts (flat_map opt_bytes l) d in
  0 <= r /\ inet_fill_opts d' (map fst l) 77 = Some (INET_REP_OK :: flat_map opt_bytes l).
Proof.
  intros d l. apply (options_round_trip d l 77).
  - unfold local_value. by_decision.
  - by_decision.
  - reflexivity.
Defined.

(** A low watermark cannot be set: SETOPTS of [INET_LOPT_TCP_LOWTRMRK] leaves the low watermark
    as it was and sets the high one instead, below the low one if it is smaller. *)
Theorem low_watermark_sets_high (d : loop_descriptor) v :
  - (2 ^ 31) <= v < 2 ^ 31 -> is_stream d = true ->
  let '(r, d') := inet_set_opts (opt_bytes (INET_LOPT_TCP_LOWTRMRK, v)) d in
  0 <= r /\ low d' = low d /\ high d' = clamp 0 INET_MAX_BUFFER v.
Proof.
  intros Hv Hs. unfold inet_set_opts.
  assert (set_opts (opt_bytes (INET_LOPT_TCP_LOWTRMRK, v)) d =
    (true, w_high (clamp 0 INET_MAX_BUFFER v)
      (if high d <? clamp 0 INET_MAX_BUFFER v then w_high (clamp 0 INET_MAX_BUFFER v) d else d))) as ->.
  { unfold opt_bytes. cbn [fst snd put_int32 app set_opts]. fold (put_int32 v).
    rewrite <-(app_nil_r (put_int32 v)), get_put_int32, sint_small by lia.
    change (INET_LOPT_TCP_LOWTRMRK =? INET_OPT_LINGER) with false. cbv iota.
    change (set_opt INET_LOPT_TCP_LOWTRMRK v d) with (Some (if is_stream d then
      w_high (clamp 0 INET_MAX_BUFFER v)
        (if high d <? clamp 0 INET_MAX_BUFFER v then w_high (clamp 0 INET_MAX_BUFFER v) d else d) else d)).
    by rewrite Hs. }
  cbn [negb]. repeat case_match; simplify_eq; (split; [lia|]); done.
Qed.
Lemma low_watermark_sets_high_witness :
  let d := sample_desc in
  let '(r, d') := inet_set_opts (opt_bytes (INET_LOPT_TCP_LOWTRMRK, 100)) d in
  0 <= r /\ low d' = low d /\ high d' = clamp 0 INET_MAX_BUFFER 100.
Proof. apply (low_watermark_sets_high sample_desc 100); [lia|reflexivity]. Defined.

(** * Replies fit *)

(** The count returned is the length of the reply, and one in place is within the buffer given. *)
Definition reply_fits (rsize : Z) (r : Z * reply) : Prop :=
  match snd r with
  | NoReply => fst r = 0 \/ fst r = -1
  | InPlace b => fst r = Z.of_nat (length b) /\ fst r <= rsize
  | Allocated b => fst r = Z.of_nat (length b) /\ 0 < fst r
  | NullReply => True
  end.
Section Fits.
Context {Q : Type} `{PQ : !PortQueue Q} `{IV : !IOVec Q} `{RT : !Runtime} `{E : !LoopEnv} (ulong rsize : Z).
Definition replies (m : M (world Q) (Z * reply)) : Prop := forall w, reply_fits rsize (fst (m w)).

Lemma replies_bind {A} (m : M (world Q) A) f : (forall a, replies (f a)) -> replies (mbind f m).
Proof. intros Hf w. unfold mbind, M_bind. destruct (m w) as [a w1]. apply Hf. Qed.
Lemma replies_ctl rep buf : replies (ctl_reply rep buf rsize).
Proof.
  intros w. unfold ctl_reply. rewrite Z.gtb_ltb. destruct (Z.ltb_spec rsize (Z.of_nat (length buf) + 1)).
  - unfold driver_alloc_ok. run. destruct (alloc_ok _ _); cbn; lia.
  - cbn. lia.
Qed.
Lemma replies_error err : replies (ctl_error err rsize).
Proof. apply replies_ctl. Qed.
Lemma replies_xerror x : replies (ctl_xerror x rsize).
Proof. apply replies_ctl. Qed.
(** The area for a reply of [dstlen] bytes. *)
Lemma replies_area dstlen (f : option (bytes -> reply) -> M (world Q) (Z * reply)) :
  replies (f None) ->
  (forall area, (area = Allocated \/ area = InPlace /\ dstlen <= rsize) -> replies (f (Some area))) ->
  replies (dst ← reply_area dstlen rsize; f dst).
Proof.
  intros H0 H1 w. assert (exists r, reply_area dstlen rsize w = (r, w) /\
    match r with None => True | Some area => area = Allocated \/ area = InPlace /\ dstlen <= rsize end) as (r & Er & Ha).
  { unfold reply_area. rewrite (Z.gtb_ltb dstlen rsize). destruct (dstlen >? INET_MAX_BUFFER); [by exists None|].
    destruct (Z.ltb_spec rsize dstlen); [|exists (Some InPlace); split; [done|by right]].
    unfold driver_alloc_ok. run. destruct (alloc_ok _ _); [exists (Some Allocated)|exists None]; (split; [done|]); [by left|done]. }
  rewrite (bind_eq _ _ _ _ _ Er). destruct r as [area|]; [by apply H1|apply H0].
Qed.
Lemma area_fits area b dstlen : (area = Allocated \/ area = InPlace /\ dstlen <= rsize) ->
  0 < Z.of_nat (length b) <= dstlen -> reply_fits rsize (Z.of_nat (length b), area b).
Proof. intros [->|[-> ?]] ?; cbn; lia. Qed.

(** The lengths of the three replies that are filled by loops. *)
Lemma stat_reply_len_acc buf n : fold_left (fun n op => n +
  (if (op =? INET_STAT_SEND_OCT) || (op =? INET_STAT_RECV_OCT) then 9 else 5)) buf n = n + stat_reply_len buf - 1.
Proof.
  unfold stat_reply_len. revert n. induction buf as [|op buf IH]; intros n; cbn [fold_left]; [lia|].
  rewrite IH, (IH (1 + _)). lia.
Qed.
Lemma fill_stat_length s sizeq buf b : fill_stat s sizeq buf = Some b ->
  Z.of_nat (length b) + 1 = stat_reply_len buf.
Proof.
  revert b. induction buf as [|op buf IH]; intros b; [by intros [= <-]|]. cbn [fill_stat]. unfold stat_reply_len.
  cbn [fold_left]. rewrite stat_reply_len_acc.
  destruct (stat_value s sizeq op) as [v|] eqn:Ev; [|done].
  destruct (fill_stat s sizeq buf) as [rest|]; [|done]. specialize (IH rest eq_refl). intros [= <-].
  assert (Z.of_nat (length v) = if (op =? INET_STAT_SEND_OCT) || (op =? INET_STAT_RECV_OCT) then 8 else 4) as Hv.
  { unfold stat_value in Ev.
    repeat match type of Ev with (if op =? ?k then _ else _) = _ =>
      destruct (Z.eqb_spec op k) as [->|]; [by injection Ev as <-|] end. done. }
  cbn [length app]. rewrite length_app. cbn [length]. destruct (_ || _); lia.
Qed.
Lemma fill_opts_length d buf ival b : fill_opts d buf ival = Some b -> (length b <= length buf * 5)%nat.
Proof.
  revert ival b. induction buf as [|op buf IH]; intros ival b; [by intros [= <-]|]. cbn [fill_opts].
  destruct (fill_opt d op ival) as [v i| |]; [| |done].
  - destruct (fill_opts d buf i) as [rest|] eqn:Er; [|done]. intros [= <-]. apply IH in Er.
    cbn [length app put_int32]. lia.
  - intros Hb. apply IH in Hb. cbn. lia.
Qed.
Lemma subscribe_length buf (w : world Q) b : fst (inet_subscribe buf w) = inr b -> length b = S (length buf * 5).
Proof.
  unfold inet_subscribe. destruct (subscribe_loop buf w) as [r w1] eqn:E1. rewrite (bind_eq _ _ _ _ _ E1).
  destruct r as [e|b']; [done|]. intros [= <-]. cbn [length]. f_equal.
  revert w b' w1 E1. induction buf as [|op buf IH]; intros w b' w1 E1; [by injection E1 as <-|].
  cbn [subscribe_loop] in E1. destruct (op =? INET_SUBS_EMPTY_OUT_Q); [|done].
  rewrite (bind_eq get _ _ _ _ eq_refl) in E1. cbv zeta in E1.
  set (m := if 0 <? driver_sizeq (queue w) then _ else _) in E1.
  destruct (m w) as [saved w2] eqn:E2. rewrite (bind_eq _ _ _ _ _ E2) in E1.
  destruct (saved =? 0); [done|]. destruct (subscribe_loop buf w2) as [r w3] eqn:E3.
  rewrite (bind_eq _ _ _ _ _ E3) in E1. destruct r as [e|b2]; [done|]. injection E1 as <- <-.
  specialize (IH _ _ _ E3). cbn. lia.
Qed.

#[local] Hint Resolve replies_ctl replies_error replies_xerror : core.
Lemma replies_pure r : r = 0 \/ r = -1 -> replies (mret (r, NoReply)).
Proof. intros ? w. done. Qed.
Lemma replies_getstat buf : stat_reply_len buf < 2 ^ 31 -> replies (inet_getstat buf rsize).
Proof.
  intros Hl. pose proof (stat_reply_len_acc buf 0). apply replies_area.
  - apply replies_bind. intros w w'. cbn. by left.
  - intros area Ha. apply replies_bind. intros w w'. cbn [fst mret M_ret].
    unfold inet_fill_stat. destruct (fill_stat _ _ buf) as [b|] eqn:Eb; [|by right]. cbn [mbind option_bind].
    pose proof (fill_stat_length _ _ _ _ Eb). eapply area_fits; [exact Ha|].
    rewrite sint_small by lia. cbn [length]. lia.
Qed.
Lemma replies_subscribe buf : Z.of_nat (length buf) * 5 + 1 < 2 ^ 31 -> replies (inet_do_subscribe buf rsize).
Proof.
  intros Hl. apply replies_area; [by apply replies_pure; left|].
  intros area Ha w. pose proof (subscribe_length buf w) as Hs.
  destruct (inet_subscribe buf w) as [r w1] eqn:E1. rewrite (bind_eq _ _ _ _ _ E1). cbn [fst mret M_ret] in *.
  destruct r as [e|b].
  - unfold reply_fits. cbn [fst snd]. revert E1. clear. unfold inet_subscribe.
    destruct (subscribe_loop buf w) as [r w2] eqn:E2. rewrite (bind_eq _ _ _ _ _ E2). destruct r; [|done]. intros [= <- _].
    revert w E2. induction buf as [|op buf IH]; intros w E2; [done|]. cbn [subscribe_loop] in E2.
    destruct (op =? INET_SUBS_EMPTY_OUT_Q); [|injection E2; auto].
    rewrite (bind_eq get _ _ _ _ eq_refl) in E2. cbv zeta in E2.
    set (m := if 0 <? driver_sizeq (queue w) then _ else _) in E2.
    destruct (m w) as [saved w3] eqn:E3. rewrite (bind_eq _ _ _ _ _ E3) in E2.
    destruct (saved =? 0); [injection E2; auto|]. destruct (subscribe_loop buf w3) as [r w4] eqn:E4.
    rewrite (bind_eq _ _ _ _ _ E4) in E2. destruct r as [e|b2]; [|done]. injection E2 as <- <-. by eapply IH.
  - specialize (Hs _ eq_refl). eapply area_fits; [exact Ha|]. rewrite sint_small by lia. rewrite Hs. lia.
Qed.
Lemma replies_getopts buf ival : Z.of_nat (length buf) * 9 + 1 < 2 ^ 31 -> replies (inet_getopts buf rsize ival).
Proof.
  intros Hl. apply replies_area; [apply replies_bind; intros d; by apply replies_pure; left|].
  intros area Ha. apply replies_bind. intros d. unfold inet_fill_opts.
  destruct (fill_opts d buf ival) as [b|] eqn:Eb; [|apply replies_error]. intros w. cbn [fst mret M_ret mbind option_bind].
  apply fill_opts_length in Eb. eapply area_fits; [exact Ha|]. rewrite sint_small by lia. cbn [length]. lia.
Qed.
Lemma replies_control cmd buf ival : Z.of_nat (length buf) * 9 + 1 < 2 ^ 31 -> replies (loop_drv_ctl ulong cmd buf rsize ival).
Proof.
  intros Hl. assert (stat_reply_len buf <= Z.of_nat (length buf) * 9 + 1) as Hs.
  { clear Hl. induction buf as [|op buf IH]; [done|]. unfold stat_reply_len in *. cbn [fold_left].
    rewrite stat_reply_len_acc. unfold stat_reply_len. cbn [length]. destruct (_ || _); lia. }
  unfold loop_drv_ctl, inet_ctl, inet_ctl_open, loop_ctl_connect, loop_ctl_recv, loop_ctl_unrecv, inet_setopts,
    inet_gettype, inet_peer, inet_setpeer, inet_name, inet_setname, inet_bind.
  repeat first [ progress cbv zeta | solve [auto]
    | solve [apply replies_getstat; lia] | solve [apply replies_subscribe; lia] | solve [apply replies_getopts; lia]
    | apply replies_bind; intros ? | match goal with |- replies (match ?x with _ => _ end) => destruct x end ].
Qed.
End Fits.

(** Every reply to a control operation fits: the count returned is the length of the reply, a
    reply in place is within the buffer of the emulator, whatever its size, and the loops that fill
    the replies of GETSTAT, GETOPTS and SUBSCRIBE stay within the area computed for them. *)
Theorem control_replies_fit {Q} `{PQ : !PortQueue Q} `{IV : !IOVec Q} `{RT : !Runtime} `{E : !LoopEnv}
    ulong (w : world Q) cmd buf rsize ival :
  Z.of_nat (length buf) * 9 + 1 < 2 ^ 31 ->
  reply_fits rsize (fst (loop_drv_ctl ulong cmd buf rsize ival w)) /\
  (forall s sizeq b, inet_fill_stat s sizeq buf = Some b -> Z.of_nat (length b) = stat_reply_len buf) /\
  (forall d b, inet_fill_opts d buf ival = Some b -> Z.of_nat (length b) <= Z.of_nat (length buf) * 9 + 1).
Proof.
  intros Hl. split_and!; [by apply replies_control| |].
  - unfold inet_fill_stat. intros s sizeq b Hb. destruct (fill_stat s sizeq buf) as [b'|] eqn:Eb; [|done].
    injection Hb as <-. apply fill_stat_length in Eb. cbn [length]. lia.
  - unfold inet_fill_opts. intros d b Hb. destruct (fill_opts d buf ival) as [b'|] eqn:Eb; [|done].
    injection Hb as <-. apply fill_opts_length in Eb. cbn [length]. lia.
Qed.
Lemma control_replies_fit_witness :
  let buf := [INET_LOPT_ACTIVE; INET_LOPT_PACKET] in
  reply_fits 4 (fst (loop_drv_ctl (RT := rt_ok) (E := sample_env) 32 INET_REQ_GETOPTS buf 4 9 sample_world)) /\
  (forall s sizeq b, inet_fill_stat s sizeq buf = Some b -> Z.of_nat (length b) = stat_reply_len buf) /\
  (forall d b, inet_fill_opts d buf 9 = Some b -> Z.of_nat (length b) <= Z.of_nat (length buf) * 9 + 1).
Proof.
  intros buf. apply (control_replies_fit (RT := rt_ok) (E := sample_env) 32 sample_world INET_REQ_GETOPTS buf 4 9).
  cbn. lia.
Defined.

(** * Addresses *)

Lemma htons_u16 p : 0 <= p < 2 ^ 16 -> htons p = (p `mod` 256) * 256 + p / 256.
Proof.
  intros Hp. unfold htons. rewrite !land_0xff, Z.shiftr_div_pow2 by lia.
  rewrite lor_digit by (divmod || lia). change (2 ^ 8) with 256. rewrite (Z.mod_small (p / 256)) by divmod. done.
Qed.
Lemma htons_htons p : 0 <= p < 2 ^ 16 -> htons (htons p) = p.
Proof. intros Hp. rewrite (htons_u16 p) by done. rewrite htons_u16 by divmod. divmod. Qed.
Lemma put_int16_sint v : put_int16 (int16 v) = put_int16 v.
Proof.
  assert (forall a, put_int16 (u16 a) = put_int16 a) as Hw.
  { intros a. unfold put_int16. rewrite !land_0xff, !Z.shiftr_div_pow2 by lia. f_equal; [|f_equal]; to_lin; divmod. }
  rewrite <-(Hw (int16 v)), <-(Hw v). f_equal. unfold sint, wrap. to_lin. divmod.
Qed.
(** The six bytes of an address and port come back as they were set. *)
Lemma address_round_trip p1 p0 ip rest a : all_bytes [p1; p0] -> length ip = 4%nat ->
  inet_set_address AF_INET ([p1; p0] ++ ip ++ rest) = Some a ->
  inet_get_address AF_INET a = Some (INET_AF_INET :: [p1; p0] ++ ip).
Proof.
  intros Hb Hip. unfold inet_set_address. rewrite Z.eqb_refl. cbn [andb].
  destruct (6 <=? _); [|done]. cbv zeta. intros Ha. injection Ha as <-. unfold inet_get_address.
  set (A := get_int16 _). set (B := slice _ _ _). rewrite Z.eqb_refl. cbn [sin_port sin_addr].
  apply Forall_cons in Hb as [[? ?] Hb]. apply Forall_cons in Hb as [[? ?] _].
  assert (B = ip) as ->.
  { change B with (take 4 (ip ++ rest)). rewrite <-Hip. apply take_app_length. }
  assert (A = p1 * 256 + p0) as ->.
  { unfold A, get_int16, byte_at. cbn [nth app]. by rewrite lor_digit by lia. }
  assert (u16 (int16 (p1 * 256 + p0)) = p1 * 256 + p0) as ->.
  { unfold sint, wrap. to_lin. divmod. }
  rewrite htons_htons by lia. rewrite put_int16_sint. unfold put_int16.
  rewrite !land_0xff, Z.shiftr_div_pow2 by lia. change (2 ^ 8) with 256.
  do 2 f_equal. cbn [app]. f_equal; [divmod|f_equal]. divmod.
Qed.

Section Addresses.
Context {Q : Type} `{PQ : !PortQueue Q} `{IV : !IOVec Q} `{RT : !Runtime} `{E : !LoopEnv} (ulong : Z).
Implicit Types (w : world Q).

(** Control operations that only read the descriptor before they reply. *)
Lemma ctl_in_place w rep buf rsize : Z.of_nat (length buf) < rsize ->
  ctl_reply rep buf rsize w = ((Z.of_nat (length buf) + 1, InPlace (rep :: buf)), w).
Proof. intros. unfold ctl_reply. by rewrite Z.gtb_ltb, (proj2 (Z.ltb_ge _ _)) by lia. Qed.
Lemma setpeer_eq w src a rsize : (2 <= length src)%nat -> 1 <= rsize ->
  inet_set_address (sfamily (inet (desc w))) src = Some a ->
  inet_setpeer src rsize w =
    ((1, InPlace [INET_REP_OK]), snd (upd_inet (fun d => w_peer_ptr true (w_peer_addr a d)) w)).
Proof.
  intros Hl Hr Ha. unfold inet_setpeer. rewrite (bind_eq get_inet _ _ _ _ eq_refl). cbv zeta.
  rewrite (proj2 (Z.eqb_neq _ _)), (proj2 (Z.ltb_ge _ _)), Ha by lia.
  rewrite (bind_eq (upd_inet _) _ _ _ _ eq_refl). apply (ctl_in_place _ _ []). cbn. lia.
Qed.
Lemma setname_eq w src a rsize : (2 <= length src)%nat -> 1 <= rsize ->
  inet_set_address (sfamily (inet (desc w))) src = Some a ->
  inet_setname src rsize w =
    ((1, InPlace [INET_REP_OK]), snd (upd_inet (fun d => w_name_ptr true (w_name_addr a d)) w)).
Proof.
  intros Hl Hr Ha. unfold inet_setname. rewrite (bind_eq get_inet _ _ _ _ eq_refl). cbv zeta.
  rewrite (proj2 (Z.eqb_neq _ _)), (proj2 (Z.ltb_ge _ _)), Ha by lia.
  rewrite (bind_eq (upd_inet _) _ _ _ _ eq_refl). apply (ctl_in_place _ _ []). cbn. lia.
Qed.
Lemma peer_eq w b rsize : state (inet (desc w)) = INET_STATE_CONNECTED -> peer_ptr (inet (desc w)) = true ->
  inet_get_address (sfamily (inet (desc w))) (peer_addr (inet (desc w))) = Some b ->
  Z.of_nat (length b) < rsize ->
  inet_peer rsize w = ((Z.of_nat (length b) + 1, InPlace (INET_REP_OK :: b)), w).
Proof.
  intros Hs Hp Hb Hr. unfold inet_peer. rewrite (bind_eq get_inet _ _ _ _ eq_refl), Hs, Hp, Hb.
  by apply ctl_in_place.
Qed.
Lemma name_eq w b rsize : state (inet (desc w)) = INET_STATE_CONNECTED -> name_ptr (inet (desc w)) = true ->
  inet_get_address (sfamily (inet (desc w))) (name_addr (inet (desc w))) = Some b ->
  Z.of_nat (length b) < rsize ->
  inet_name rsize w = ((Z.of_nat (length b) + 1, InPlace (INET_REP_OK :: b)), w).
Proof.
  intros Hs Hp Hb Hr. unfold inet_name. rewrite (bind_eq get_inet _ _ _ _ eq_refl). unfold IS_BOUND.
  rewrite Hs, Hp, Hb. by apply ctl_in_place.
Qed.
Lemma set_address_some p1 p0 ip rest : length ip = 4%nat ->
  exists a, inet_set_address AF_INET ([p1; p0] ++ ip ++ rest) = Some a.
Proof.
  intros Hl. unfold inet_set_address. rewrite Z.eqb_refl. cbn [andb].
  rewrite (proj2 (Z.leb_le _ _)) by (cbn [app length]; rewrite length_app; lia). by eexists.
Qed.

Lemma enq_async_eq w rq q : let ref := (async_ref w & 0xffff)%C in
  aq_enq (Z.to_nat INET_MAX_ASYNC) (Op ref (driver_caller (calls w)) rq) (ops (inet (desc w))) = Some q ->
  exists w1, enq_async rq w = (Some ref, w1) /\ calls w1 = calls w /\ inet (desc w1) = w_ops q (inet (desc w)).
Proof.
  intros ref Eq. unfold enq_async. rewrite (bind_eq get _ _ _ _ eq_refl), (bind_eq (modify _) _ _ _ _ eq_refl).
  fold ref. rewrite Eq. eexists. split; [reflexivity|]. by split.
Qed.
Lemma async_ok_eq w op q : aq_deq (Z.to_nat INET_MAX_ASYNC) (ops (inet (desc w))) = Some (op, q) ->
  exists w1 r, async_ok w = (r, w1) /\ inet (desc w1) = w_ops q (inet (desc w)) /\
    emits (Some (op_caller op))
      (TTuple [TAtom "inet_async"; TPort (dport (inet (desc w))); TInt (id op); TAtom "ok"]) w w1.
Proof.
  intros Eq. unfold async_ok. rewrite (bind_eq _ _ _ _ _ (deq_async_eq _ _ _ Eq)).
  eexists _, _. split; [reflexivity|]. split; [done|]. eexists. split; [|reflexivity].
  unfold async_ok_spec. solve_spec.
Qed.
End Addresses.

(** The address set is the address read: on a connected port, a SETPEER or SETNAME of at least six bytes
    is accepted, and the PEER or NAME that follows answers the family and the first six of those
    bytes, the port back in the order it was given in. *)
Theorem address_set_read {Q} `{PQ : !PortQueue Q} `{IV : !IOVec Q} `{RT : !Runtime} `{E : !LoopEnv}
    ulong (w : world Q) p1 p0 ip rest rsize ival :
  state (inet (desc w)) = INET_STATE_CONNECTED -> sfamily (inet (desc w)) = AF_INET ->
  all_bytes [p1; p0] -> length ip = 4%nat -> 8 <= rsize ->
  Forall (fun '(set, read) =>
    let '(r, w1) := loop_drv_ctl ulong set ([p1; p0] ++ ip ++ rest) rsize ival w in
    r = (1, InPlace [INET_REP_OK]) /\
    loop_drv_ctl ulong read [] rsize ival w1 =
      ((8, InPlace ([INET_REP_OK; INET_AF_INET; p1; p0] ++ ip)), w1))
    [(INET_REQ_SETPEER, INET_REQ_PEER); (INET_REQ_SETNAME, INET_REQ_NAME)].
Proof.
  intros Hs Hf Hb Hip Hr. destruct (set_address_some p1 p0 ip rest Hip) as [a Ha].
  pose proof (address_round_trip p1 p0 ip rest a Hb Hip Ha) as Hg. rewrite <-Hf in Ha, Hg.
  assert (2 <= length ([p1; p0] ++ ip ++ rest))%nat by (cbn; lia).
  constructor; [|constructor; [|done]].
  - change (loop_drv_ctl ulong INET_REQ_SETPEER ?b rsize ival w) with (inet_setpeer b rsize w).
    rewrite (setpeer_eq w _ a) by (done || lia). split; [done|].
    etransitivity; [apply (peer_eq _ (INET_AF_INET :: [p1; p0] ++ ip)); cbn; rewrite ?Hip; done || lia|].
    cbn [length app]. by rewrite Hip.
  - change (loop_drv_ctl ulong INET_REQ_SETNAME ?b rsize ival w) with (inet_setname b rsize w).
    rewrite (setname_eq w _ a) by (done || lia). split; [done|].
    etransitivity; [apply (name_eq _ (INET_AF_INET :: [p1; p0] ++ ip)); cbn; rewrite ?Hip; done || lia|].
    cbn [length app]. by rewrite Hip.
Qed.
Lemma address_set_read_witness :
  Forall (fun '(set, read) =>
    let '(r, w1) := loop_drv_ctl (RT := rt_ok) (E := sample_env) 32 set ([31; 144] ++ [127; 0; 0; 1] ++ []) 64 0 sample_world in
    r = (1, InPlace [INET_REP_OK]) /\
    loop_drv_ctl (RT := rt_ok) (E := sample_env) 32 read [] 64 0 w1 =
      ((8, InPlace ([INET_REP_OK; INET_AF_INET; 31; 144] ++ [127; 0; 0; 1])), w1))
    [(INET_REQ_SETPEER, INET_REQ_PEER); (INET_REQ_SETNAME, INET_REQ_NAME)].
Proof.
  apply (address_set_read (RT := rt_ok) (E := sample_env) 32 sample_world 31 144 [127; 0; 0; 1] [] 64 0);
    [reflexivity|reflexivity| |reflexivity|lia].
  repeat constructor; lia.
Defined.

(** A CONNECT on a bound port with no operation pending is accepted and answered at once with the
    reference of the operation, and the port is connected; but unlike SETPEER it does not point
    [peer_ptr] at the address it stores, so that PEER still answers EINVAL. *)
Theorem connect_sets_no_peer {Q} `{PQ : !PortQueue Q} `{IV : !IOVec Q} `{RT : !Runtime} `{E : !LoopEnv}
    ulong (w : world Q) p1 p0 ip timeout rsize ival :
  state (inet (desc w)) = INET_STATE_BOUND -> sfamily (inet (desc w)) = AF_INET ->
  peer_ptr (inet (desc w)) = false -> aq_rep (Z.to_nat INET_MAX_ASYNC) (ops (inet (desc w))) [] ->
  length ip = 4%nat -> 3 <= rsize ->
  let ref := (async_ref w & 0xffff)%C in
  let '(r, w1) := loop_drv_ctl ulong INET_REQ_CONNECT (put_int32 timeout ++ [p1; p0] ++ ip) rsize ival w in
  r = (3, InPlace (INET_REP_OK :: put_int16 ref)) /\
  emits (Some (driver_caller (calls w)))
    (TTuple [TAtom "inet_async"; TPort (dport (inet (desc w))); TInt ref; TAtom "ok"]) w w1 /\
  state (inet (desc w1)) = INET_STATE_CONNECTED /\
  aq_rep (Z.to_nat INET_MAX_ASYNC) (ops (inet (desc w1))) [] /\
  loop_drv_ctl ulong INET_REQ_PEER [] rsize ival w1 = ctl_error EINVAL rsize w1.
Proof.
  intros Hs Hf Hp Hq Hip Hr ref. destruct (set_address_some p1 p0 ip [] Hip) as [a Ha].
  rewrite app_nil_r in Ha.
  change (loop_drv_ctl ulong INET_REQ_CONNECT ?b rsize ival w) with (loop_ctl_connect b rsize w).
  unfold loop_ctl_connect. rewrite (bind_eq get_inet _ _ _ _ eq_refl). unfold IS_OPEN, IS_CONNECTED, IS_BOUND.
  rewrite Hs, Hf. change (drop 4 (put_int32 timeout ++ [p1; p0] ++ ip)) with ([p1; p0] ++ ip).
  change (negb ((INET_STATE_BOUND & INET_F_OPEN)%C =? INET_F_OPEN)) with false.
  change ((INET_STATE_BOUND & INET_STATE_CONNECTED)%C =? INET_STATE_CONNECTED) with false.
  change (negb ((INET_STATE_BOUND & INET_F_BOUND)%C =? INET_F_BOUND)) with false.
  rewrite (proj2 (Z.ltb_ge _ _)), Ha by (cbn; lia). cbv iota.
  rewrite (bind_eq get _ _ _ _ eq_refl).
  match goal with |- context [mbind _ (upd_inet ?f)] => set (w0 := snd (upd_inet f w)) end.
  rewrite (bind_eq (upd_inet _) _ w tt w0 eq_refl).
  destruct (aq_enq_room _ Nat.lt_0_1 (Op ref (driver_caller (calls w)) INET_REQ_CONNECT) _ _ Hq Nat.lt_0_1) as (q1 & Eq1 & Hq1).
  destruct (aq_deq_cons _ Nat.lt_0_1 _ _ _ Hq1) as (q2 & Eq2 & Hq2).
  destruct (enq_async_eq w0 _ _ Eq1) as (w1 & Ew & Hc & Hi). rewrite (bind_eq _ _ _ _ _ Ew).
  destruct (async_ok_eq w1 _ q2 ltac:(rewrite Hi; exact Eq2)) as (w2 & r & Ew2 & Hi2 & sp & Hd & Hc2).
  rewrite (bind_eq _ _ _ _ _ Ew2), ctl_in_place by (cbn; lia). rewrite Hi in Hi2.
  split_and!; [done| | | |].
  - exists sp. rewrite Hc2, Hc. split; [|done]. by rewrite Hi in Hd.
  - by rewrite Hi2.
  - by rewrite Hi2.
  - change (inet_peer rsize w2 = ctl_error EINVAL rsize w2). unfold inet_peer.
    rewrite (bind_eq get_inet _ _ _ _ eq_refl), Hi2. cbn. by rewrite Hp.
Qed.
Lemma connect_sets_no_peer_witness :
  let w : world (list bytes) := World (w_inet (w_state INET_STATE_BOUND sample_inet) sample_desc) [] 5 [] [] [] in
  let ref := (async_ref w & 0xffff)%C in
  let '(r, w1) := loop_drv_ctl (RT := rt_ok) (E := sample_env) 32 INET_REQ_CONNECT
    (put_int32 1000 ++ [31; 144] ++ [127; 0; 0; 1]) 64 0 w in
  r = (3, InPlace (INET_REP_OK :: put_int16 ref)) /\
  emits (Some (driver_caller (LoopEnv := sample_env) (calls w)))
    (TTuple [TAtom "inet_async"; TPort (dport (inet (desc w))); TInt ref; TAtom "ok"]) w w1 /\
  state (inet (desc w1)) = INET_STATE_CONNECTED /\
  aq_rep (Z.to_nat INET_MAX_ASYNC) (ops (inet (desc w1))) [] /\
  loop_drv_ctl (RT := rt_ok) (E := sample_env) 32 INET_REQ_PEER [] 64 0 w1 = ctl_error (RT := rt_ok) (E := sample_env) EINVAL 64 w1.
Proof.
  intros w. apply (connect_sets_no_peer (RT := rt_ok) (E := sample_env) 32 w 31 144 [127; 0; 0; 1] 1000 64 0);
    [reflexivity..| |reflexivity|lia].
  by split.
Defined.
