(* ===== verification/LoopPort.v ===== *)
(** The life of a port of the loop driver: the calls the emulator makes of it in any order, what
    holds between them, and the account of the replies. *)
From stdpp Require Import strings.
From S2P Require Import Prelude ErlTerm Erts LoopDesc LoopMsg LoopHttp LoopBuf LoopDrv LoopInet.
#[local] Open Scope Z_scope.

(** * Replies in the log of calls *)

(** [{inet_async,S,Ref,...}] sent to a process. *)
Definition answer (c : call) : option (Z * Z) :=
  match c with
  | SendTerm to (Tag ERL_DRV_ATOM :: Atm am :: Tag ERL_DRV_PORT :: Val _ :: Tag ERL_DRV_INT :: Val ref :: _) =>
      if (am =? "inet_async")%string then Some (to, ref) else None
  | _ => None
  end.
(** [{inet_reply,S,...}] sent to a process. *)
Definition sync_reply (c : call) : option (Z * spec) :=
  match c with
  | SendTerm to (Tag ERL_DRV_ATOM :: Atm am :: s) =>
      if (am =? "inet_reply")%string then Some (to, s) else None
  | _ => None
  end.
Definition busy_call (c : call) : option Z := match c with SetBusy on => Some on | _ => None end.
Definition answers (l : log) : list (Z * Z) := omap answer l.
Definition sync_replies (l : log) : list (Z * spec) := omap sync_reply l.
Definition busy_calls (l : log) : list Z := omap busy_call l.

(** The operations in the ring. *)
Definition pending (q : async_queue) : list (Z * Z) :=
  match opt q with
  | None => []
  | Some t => let op := nth t (op_queue q) (Op 0 0 0) in [(op_caller op, id op)]
  end.

(** ** What is appended to an array keeps its head *)

Definition extends (v v' : spec) : Prop := exists s, v' = v ++ s.
Lemma extends_refl v : extends v v.
Proof. exists []. by rewrite app_nil_r. Qed.
Lemma extends_app v v' s : extends v v' -> extends v (v' ++ s).
Proof. intros [s' ->]. exists (s' ++ s). by rewrite app_assoc. Qed.
Lemma extends_if v (b : bool) v1 v2 : extends v v1 -> extends v v2 -> extends v (if b then v1 else v2).
Proof. by destruct b. Qed.
Create HintDb extends.
#[export] Hint Resolve extends_refl extends_app extends_if : extends.
Ltac extends :=
  repeat first [ apply extends_refl | apply extends_app
    | match goal with |- extends _ (match ?x with _ => _ end) => destruct x end ].
Lemma extends_uri v v' p n : extends v v' -> extends v (http_load_uri v' p n).
Proof. intros [s ->]. unfold http_load_uri, http_load_absoluteURI. extends; exists s; done. Qed.

(** * The invariant of a port *)

Record port_ok (d : loop_descriptor) : Prop := PortOk {
  po_state : state (inet d) ∈ [INET_STATE_CLOSED; INET_STATE_OPEN; INET_STATE_BOUND; INET_STATE_CONNECTED];
  po_type : state (inet d) <> INET_STATE_CLOSED -> stype (inet d) = SOCK_STREAM /\ sfamily (inet d) = AF_INET;
  po_bufsz : 1 <= bufsz (inet d) < 2 ^ 31;
  po_hsz : 0 <= hsz (inet d) < 2 ^ 32;
  po_marks : 0 <= low d <= INET_MAX_BUFFER * 2 /\ 0 <= high d <= INET_MAX_BUFFER * 2;
  po_bit8 : (bit8 (inet d) = 0 \/ bit8 (inet d) = 1) /\ (bit8f (inet d) = 0 \/ bit8f (inet d) = 1);
  po_busy : busy_on_send d = 0;
  po_ring : exists l, aq_rep (Z.to_nat INET_MAX_ASYNC) (ops (inet d)) l;
  po_idle : state (inet d) <> INET_STATE_CONNECTED -> opt (ops (inet d)) = None;
}.
Lemma port_ok_idle d : port_ok d -> IS_BUSY (inet d) = false.
Proof.
  intros [Hs _ _ _ _ _ _ _ _]. unfold IS_BUSY. rewrite !elem_of_cons, elem_of_nil in Hs.
  by destruct Hs as [->|[->|[->|[->|[]]]]].
Qed.
(** A change outside the fields of the invariant. *)
Definition view (d : loop_descriptor) :=
  (state (inet d), stype (inet d), sfamily (inet d), bufsz (inet d), hsz (inet d),
   (low d, high d, bit8 (inet d), bit8f (inet d), busy_on_send d), ops (inet d), dport (inet d)).
Lemma port_ok_view d d' : view d' = view d -> port_ok d -> port_ok d'.
Proof. unfold view. intros Hv []. injection Hv as V1 V2 V3 V4 V5 V6 V7 V8 V9 V10 V11 V12.
  split; rewrite ?V1, ?V2, ?V3, ?V4, ?V5, ?V6, ?V7, ?V8, ?V9, ?V10, ?V11, ?V12; assumption.
Qed.

Lemma view_fields d d' : view d' = view d -> state (inet d') = state (inet d) /\
  ops (inet d') = ops (inet d) /\ dport (inet d') = dport (inet d).
Proof. unfold view. intros Hv. by injection Hv. Qed.

Lemma ring_empty q : aq_rep (Z.to_nat INET_MAX_ASYNC) q [] -> opt q = None.
Proof.
  intros [_ Hq]. destruct (opt q), (oph q); try done. destruct Hq as (_ & [Hq _] & _). cbn in Hq. lia.
Qed.

(** The ring has one place. *)
Lemma pending_rep q l : aq_rep (Z.to_nat INET_MAX_ASYNC) q l -> pending q = map (fun op => (op_caller op, id op)) l.
Proof.
  intros [Hl Hq]. unfold pending. destruct (opt q) as [t|], (oph q) as [h|]; try done; [|by subst].
  destruct Hq as (Ht & [Hl1 Hl2] & _ & Hi). change (Z.to_nat INET_MAX_ASYNC) with 1%nat in *.
  destruct l as [|op [|]]; cbn [length] in *; try lia. specialize (Hi 0%nat ltac:(lia)).
  rewrite Nat.add_0_r, Nat.mod_small in Hi by lia. apply nth_lookup_Some with (d := Op 0 0 0) in Hi. by rewrite Hi.
Qed.
Lemma pending_none q : opt q = None -> pending q = [].
Proof. unfold pending. by intros ->. Qed.

(** * What the driver's functions do to a port *)

Section Port.
Context {Q : Type} `{PQ : !PortQueue Q} `{IV : !IOVec Q} `{RT : !Runtime} `{E : !LoopEnv} (ulong : Z).
Implicit Types (w : world Q).

(** The operations accepted and not yet accounted for: those answered and the one that waits. *)
Definition ledger w : list (Z * Z) := answers (calls w) ++ pending (ops (inet (desc w))).

(** The invariant is kept, the synchronous replies are left to the entry points, and with memory
    the operations answered are those of the ring and of [pre], which was taken off it. *)
Record kept (pre : list (Z * Z)) w w' : Prop := Kept {
  kp_ok : port_ok (desc w');
  kp_dport : dport (inet (desc w')) = dport (inet (desc w));
  kp_state : state (inet (desc w')) = state (inet (desc w));
  kp_busy : busy_calls (calls w') = busy_calls (calls w);
  kp_sync : sync_replies (calls w') = sync_replies (calls w);
  kp_caller : caller (inet (desc w')) = caller (inet (desc w)) \/ caller (inet (desc w')) = 0;
  kp_ledger : Memory -> ledger w' = answers (calls w) ++ pre ++ pending (ops (inet (desc w)));
}.
Definition keeping (pre : list (Z * Z)) w w' : Prop :=
  port_ok (desc w) -> (pre = [] \/ pending (ops (inet (desc w))) = []) -> kept pre w w'.
Abbreviation keep := (keeping []).
#[export] Instance keep_preorder : PreOrder keep.
Proof.
  split.
  - intros w Hw _. split; auto.
  - intros a b c H1 H2 Ha _. destruct (H1 Ha (or_introl eq_refl)).
    destruct (H2 kp_ok0 (or_introl eq_refl)). split; try congruence.
    + destruct kp_caller0, kp_caller1; first [left; congruence|right; congruence].
    + intros Hm. specialize (kp_ledger1 Hm). specialize (kp_ledger0 Hm). unfold ledger in *. cbn [app] in *. congruence.
Qed.
Abbreviation Ens := (ensures keep).
(** [m] answers the operation that was taken off the ring. *)
Definition pays {A} (op : inet_async_op) (m : M (world Q) A) : Prop :=
  forall w, keeping [(op_caller op, id op)] w (snd (m w)).

(** ** Steps *)

Lemma keep_upd f : (forall d, view (f d) = view d) -> (forall d, caller (inet (f d)) = caller (inet d)) -> Ens (upd f).
Proof.
  intros Hf Hc w Hw _. pose proof (Hf (desc w)) as Hv. destruct (view_fields _ _ Hv) as (Hs & Ho & Hd).
  split; cbn [snd upd modify desc calls]; auto; [by eapply port_ok_view|].
  intros _. unfold ledger. cbn. by rewrite Ho.
Qed.
Lemma keep_upd_inet f : (forall d, view (w_inet (f (inet d)) d) = view d) -> (forall d, caller (f d) = caller d \/ caller (f d) = 0) ->
  Ens (upd_inet f).
Proof.
  intros Hf Hc w Hw _. pose proof (Hf (desc w)) as Hv. destruct (view_fields _ _ Hv) as (Hs & Ho & Hd).
  split; cbn [snd upd_inet upd modify desc calls]; auto; [by eapply port_ok_view|apply Hc|].
  intros _. unfold ledger. cbn in *. by rewrite Ho.
Qed.
Lemma keep_call c : answer c = None -> sync_reply c = None -> busy_call c = None -> Ens (do_call c).
Proof.
  intros Ha Hs Hb w Hw _.
  assert (forall {B} (f : call -> option B), f c = None -> omap f (calls w ++ [c]) = omap f (calls w)) as Ho.
  { intros B f Hf. rewrite omap_app. cbn. rewrite Hf. apply app_nil_r. }
  split; cbn; auto. intros _. unfold ledger, answers. cbn. by rewrite Ho.
Qed.
Lemma keep_act c : answer c = None -> sync_reply c = None -> busy_call c = None -> Ens (act c).
Proof. intros. unfold act. apply ensures_bind; [exact _|by apply keep_call|intros _; apply ensures_skip; exact _]. Qed.
Lemma keep_alloc n : Ens (driver_alloc_ok n).
Proof. intros w. cbn. reflexivity. Qed.
Lemma keep_get_desc : Ens get_desc.
Proof. apply ensures_gets; exact _. Qed.
Lemma keep_get_inet : Ens get_inet.
Proof. apply ensures_gets; exact _. Qed.
Lemma keep_get : Ens get.
Proof. apply ensures_get; exact _. Qed.
(** A change outside the descriptor and the log. *)
Lemma keep_modify f : (forall w, desc (f w) = desc w /\ calls (f w) = calls w) -> Ens (modify f).
Proof.
  intros Hf w Hw _. destruct (Hf w) as [Hd Hc]. unfold modify. cbn [snd].
  split; rewrite ?Hd, ?Hc; auto. intros _. unfold ledger. by rewrite Hd, Hc.
Qed.
Lemma keep_queue q : Ens (set_queue q).
Proof. by apply keep_modify. Qed.
Lemma keep_stack st : Ens (set_stack st).
Proof. by apply keep_modify. Qed.
Lemma keep_handed p : Ens (handed p).
Proof. by apply keep_modify. Qed.

(** ** Taking an operation off the ring and answering it *)

Lemma keep_deq {A} (f : option inet_async_op -> M (world Q) A) :
  Ens (f None) -> (forall op, pays op (f (Some op))) -> Ens (mbind f deq_async).
Proof.
  intros Hn Hs w Hw Hp. pose proof Hw as []. destruct po_ring0 as [l Hl].
  destruct l as [|op l].
  { rewrite (bind_eq _ _ _ _ _ (deq_async_none w (aq_deq_empty (Z.to_nat INET_MAX_ASYNC) Nat.lt_0_1 _ Hl))). by apply Hn. }
  destruct (aq_deq_cons (Z.to_nat INET_MAX_ASYNC) Nat.lt_0_1 _ _ _ Hl) as (q & Eq & Hq).
  rewrite (bind_eq _ _ _ _ _ (deq_async_eq _ _ _ Eq)).
  assert (l = []) as ->.
  { destruct Hl as [_ Hl]. destruct (opt _), (oph _); try done. destruct Hl as (_ & [_ Hl] & _).
    change (Z.to_nat INET_MAX_ASYNC) with 1%nat in Hl. destruct l; [done|]. cbn in Hl. lia. }
  set (w1 := snd (upd_inet (w_ops q) w)).
  assert (port_ok (desc w1)) as Hok1.
  { split; try done; [by exists []|]. intros Hst. specialize (po_idle0 Hst). cbn.
    unfold aq_deq in Eq. by rewrite po_idle0 in Eq. }
  assert (pending (ops (inet (desc w1))) = []) as Hp1 by apply (pending_rep q [] Hq).
  destruct (Hs op w1 Hok1 (or_intror Hp1)). split; try done.
  intros Hm. rewrite (kp_ledger0 Hm), Hp1, (pending_rep _ _ Hl). done.
Qed.
Lemma keep_enq rq w :
  port_ok (desc w) -> state (inet (desc w)) = INET_STATE_CONNECTED ->
  match enq_async rq w with
  | (Some i, w1) => opt (ops (inet (desc w))) = None /\ port_ok (desc w1) /\ calls w1 = calls w /\
      ledger w1 = ledger w ++ [(driver_caller (calls w), i)] /\ i = (async_ref w & 0xffff)%C /\
      inet (desc w1) = w_ops (ops (inet (desc w1))) (inet (desc w))
  | (None, w1) => opt (ops (inet (desc w))) <> None /\ desc w1 = desc w /\ calls w1 = calls w
  end.
Proof.
  intros Hw Hst. pose proof Hw as []. destruct po_ring0 as [l Hl].
  unfold enq_async. rewrite (bind_eq get _ _ _ _ eq_refl).
  match goal with |- context [modify ?f] => set (w0 := f w); rewrite (bind_eq (modify f) _ w tt w0 eq_refl) end.
  set (op := Op _ _ _). destruct (Nat.ltb_spec (length l) 1) as [Hlen|Hlen].
  - destruct l; [|cbn in Hlen; lia].
    destruct (aq_enq_room (Z.to_nat INET_MAX_ASYNC) Nat.lt_0_1 op _ _ Hl Hlen) as (q & Eq & Hq). rewrite Eq.
    match goal with |- context [upd_inet ?f] => set (w1 := snd (upd_inet f w0)); rewrite (bind_eq (upd_inet f) _ w0 tt w1 eq_refl) end.
    cbn [mret M_ret]. split_and!; try done.
    + exact (ring_empty _ Hl).
    + split; try done. by exists [op].
    + unfold ledger. cbn. rewrite (pending_rep _ _ Hq), (pending_rep _ _ Hl). cbn. by rewrite app_nil_r.
  - rewrite (aq_enq_full (Z.to_nat INET_MAX_ASYNC) Nat.lt_0_1 op _ l Hl).
    + cbn [mret M_ret]. split_and!; try done. destruct Hl as [_ Hl]. destruct (opt _), (oph _); try done. subst. cbn in Hlen. lia.
    + destruct Hl as [_ Hl]. destruct (opt _), (oph _); try done; [|subst; cbn in Hlen; lia].
      destruct Hl as (_ & [? ?] & _). change (Z.to_nat INET_MAX_ASYNC) with 1%nat in *. lia.
Qed.
Lemma pays_bind {A B} op (m : M (world Q) A) (f : A -> M (world Q) B) :
  pays op m -> (forall a, Ens (f a)) -> pays op (mbind f m).
Proof.
  intros Hm Hf w Hw Hp. destruct (Hm w Hw Hp). unfold mbind, M_bind. destruct (m w) as [a w1]. cbn [snd] in *.
  destruct (Hf a w1 kp_ok0 (or_introl eq_refl)). split; try congruence.
  - destruct kp_caller0, kp_caller1; first [left; congruence|right; congruence].
  - intros Hm'. rewrite (kp_ledger1 Hm'). exact (kp_ledger0 Hm').
Qed.
Lemma pays_get {B} op (f : inet_descriptor -> M (world Q) B) : (forall d, pays op (f d)) -> pays op (mbind f get_inet).
Proof. intros Hf w. apply Hf. Qed.
Lemma pays_caller {B} op (m : M (world Q) B) : pays op m -> pays op (upd_inet (w_caller 0);;; m).
Proof.
  intros Hm w Hw Hp. set (w1 := snd (upd_inet (w_caller 0) w)). rewrite (bind_eq (upd_inet _) _ w tt w1 eq_refl).
  assert (port_ok (desc w1)) as Hok by (by destruct Hw).
  destruct (Hm w1 Hok Hp). split; try done. right. by destruct kp_caller0.
Qed.
Lemma pays_send op port s : extends [Tag ERL_DRV_ATOM; Atm "inet_async"; Tag ERL_DRV_PORT; Val port; Tag ERL_DRV_INT; Val (id op)] s ->
  pays op (driver_send_term (op_caller op) s).
Proof.
  intros [s' ->] w Hw Hp. unfold driver_send_term, do_call. cbn [snd].
  split; try (cbn; auto; fail).
  - cbn. unfold busy_calls. rewrite omap_app. apply app_nil_r.
  - cbn. unfold sync_replies. rewrite omap_app. apply app_nil_r.
  - intros _. destruct Hp as [|Hp]; [done|]. unfold ledger, answers. cbn. rewrite omap_app, Hp, app_nil_r. done.
Qed.
Lemma pays_if {A} op (b : bool) (m1 m2 : M (world Q) A) : pays op m1 -> pays op m2 -> pays op (if b then m1 else m2).
Proof. by destruct b. Qed.
Lemma pays_alloc {A} op n (m1 m2 : M (world Q) A) : Ens m1 -> pays op m2 ->
  pays op (ok ← driver_alloc_ok n; if negb ok : bool then m1 else m2).
Proof.
  intros H1 H2 w Hw Hp. assert (driver_alloc_ok n w = (alloc_ok (calls w) n, w)) as Ea by done.
  rewrite (bind_eq _ _ _ _ _ Ea). destruct (alloc_ok (calls w) n) eqn:Ha; cbn [negb]; [by apply H2|].
  destruct (H1 w Hw (or_introl eq_refl)). split; try done.
  intros Hm. by rewrite (Hm (calls w) n) in Ha.
Qed.

(** ** Every function of the driver *)

Create HintDb port.
#[local] Hint Resolve keep_get_desc keep_get_inet keep_get keep_alloc keep_queue keep_stack keep_handed : port.
Local Ltac kp_leaf :=
  first [ solve [auto 2 with port] | apply keep_call; reflexivity | apply keep_act; reflexivity
    | apply keep_upd; intros ?; reflexivity
    | apply keep_upd_inet; intros ?; [reflexivity|first [by left|by right]] ].
Local Ltac kp :=
  repeat (cbv beta zeta; lazymatch goal with
    | |- ensures _ (mbind _ deq_async) => apply keep_deq; [|intros ?]
    | |- pays _ (mbind _ get_inet) => apply pays_get; intros ?
    | |- pays _ (mbind _ (upd_inet (w_caller 0))) => apply pays_caller
    | |- pays _ (mbind _ (driver_alloc_ok _)) => apply pays_alloc
    | |- pays _ (driver_send_term _ _) => eapply pays_send; solve [extends]
    | |- pays _ (mbind _ _) => apply pays_bind; [|intros ?]
    | |- pays _ (match ?x with _ => _ end) => destruct x
    | |- ensures _ skip => apply ensures_skip; exact _
    | |- ensures _ (mret _) => apply ensures_ret; exact _
    | |- ensures _ (mbind _ _) => apply ensures_bind; [exact _| |intros ?]
    | |- ensures _ (match ?x with _ => _ end) => destruct x
    | |- ensures _ _ => kp_leaf
    end).

Lemma keep_output_term s : Ens (driver_output_term s).
Proof. unfold driver_output_term. kp. Qed.
#[local] Hint Resolve keep_output_term : port.
Lemma keep_async_ok : Ens async_ok.
Proof. unfold async_ok, send_async_ok, async_ok_spec. kp. Qed.
Lemma keep_async_error_am reason : Ens (async_error_am reason).
Proof. unfold async_error_am, send_async_error, async_error_spec. kp. Qed.
Lemma keep_async_error err : Ens (async_error err).
Proof. apply keep_async_error_am. Qed.
#[local] Hint Resolve keep_async_ok keep_async_error_am keep_async_error : port.
Lemma keep_async_error_all fuel reason : Ens (async_error_all fuel reason).
Proof.
  induction fuel as [|fuel IH]; cbn [async_error_all]; unfold send_async_error, async_error_spec; kp.
Qed.
#[local] Hint Resolve keep_async_error_all : port.
Lemma keep_async_error_am_all reason : Ens (async_error_am_all reason).
Proof. unfold async_error_am_all. kp. Qed.
#[local] Hint Resolve keep_async_error_am_all : port.
Lemma keep_port_data buf len : Ens (inet_port_data buf len).
Proof. unfold inet_port_data. kp. Qed.
Lemma keep_port_binary_data bin offs len : Ens (inet_port_binary_data bin offs len).
Proof. unfold inet_port_binary_data. kp. Qed.
Lemma keep_async_data buf len : Ens (inet_async_data buf len).
Proof. unfold inet_async_data, load_binary, load_string. kp. Qed.
Lemma keep_async_binary_data p bin offs len : Ens (inet_async_binary_data p bin offs len).
Proof. unfold inet_async_binary_data, load_binary, load_string. kp. Qed.
Lemma keep_loop_message buf len : Ens (loop_message buf len).
Proof. unfold loop_message. kp. Qed.
Lemma keep_loop_binary_message bin offs len : Ens (loop_binary_message bin offs len).
Proof. unfold loop_binary_message. kp. Qed.
Lemma keep_closed_message : Ens loop_closed_message.
Proof. unfold loop_closed_message. kp. Qed.
Lemma keep_error_message err : Ens (loop_error_message err).
Proof. unfold loop_error_message. kp. Qed.
#[local] Hint Resolve keep_port_data keep_port_binary_data keep_async_data keep_async_binary_data keep_loop_message
  keep_loop_binary_message keep_closed_message keep_error_message : port.

(** HTTP. *)
Lemma keep_http_send async sync : (forall port ref, extends
    [Tag ERL_DRV_ATOM; Atm "inet_async"; Tag ERL_DRV_PORT; Val port; Tag ERL_DRV_INT; Val ref] (async port ref)) ->
  Ens (http_send async sync).
Proof. intros Ha. unfold http_send. kp. eapply pays_send, Ha. Qed.
Local Ltac http := first [solve [auto 2 with port] |
  apply keep_http_send; intros ? ?;
  unfold response_async_spec, request_async_spec, header_async_spec, eoh_async_spec, http_error_async_spec,
    load_version, load_meth, load_name; extends; try apply extends_uri; extends].
Lemma keep_response_message a b c p n : Ens (http_response_message a b c p n).
Proof. http. Qed.
Lemma keep_request_message m p n u un a b : Ens (http_request_message m p n u un a b).
Proof. http. Qed.
Lemma keep_header_message m p n v vn : Ens (http_header_message m p n v vn).
Proof. http. Qed.
Lemma keep_eoh_message : Ens http_eoh_message.
Proof. http. Qed.
Lemma keep_http_error_message buf len : Ens (http_error_message buf len).
Proof. http. Qed.
#[local] Hint Resolve keep_response_message keep_request_message keep_header_message keep_eoh_message
  keep_http_error_message : port.
Lemma keep_http_message buf len : Ens (http_message ulong buf len).
Proof.
  unfold http_message, http_start_line, http_status_line, http_request_line, http_header_line, incr_http_state. kp.
Qed.
#[local] Hint Resolve keep_http_message : port.

(** Buffers and subscriptions. *)
Lemma keep_alloc_buffer n : Ens (alloc_buffer n).
Proof. unfold alloc_buffer, driver_realloc_binary, driver_alloc_binary. kp. Qed.
Lemma keep_release_buffer b : Ens (release_buffer b).
Proof. unfold release_buffer. kp. Qed.
#[local] Hint Resolve keep_alloc_buffer keep_release_buffer : port.
Lemma keep_free_buffer b : Ens (free_buffer b).
Proof. unfold free_buffer. kp. Qed.
#[local] Hint Resolve keep_free_buffer : port.
Lemma keep_expand_buffer n : Ens (loop_expand_buffer n).
Proof. unfold loop_expand_buffer, driver_realloc_binary. kp. Qed.
Lemma keep_push_buffer buf len : Ens (loop_push_buffer buf len).
Proof. unfold loop_push_buffer. kp. Qed.
Lemma keep_clear_input : Ens loop_clear_input.
Proof. unfold loop_clear_input. kp. Qed.
Lemma keep_restart_input : Ens loop_restart_input.
Proof. unfold loop_restart_input. kp. Qed.
Lemma keep_save_subscriber pid : Ens (save_subscriber pid).
Proof. unfold save_subscriber. kp. Qed.
Lemma keep_free_subscribers : Ens free_subscribers.
Proof. unfold free_subscribers. kp. Qed.
Lemma keep_output_count n : Ens (inet_output_count ulong n).
Proof. unfold inet_output_count. kp. Qed.
Lemma keep_input_count n : Ens (inet_input_count ulong n).
Proof. unfold inet_input_count. kp. Qed.
#[local] Hint Resolve keep_expand_buffer keep_push_buffer keep_clear_input keep_restart_input keep_save_subscriber
  keep_free_subscribers keep_output_count keep_input_count : port.
Lemma keep_remain : Ens loop_remain.
Proof. unfold loop_remain. kp. Qed.
#[local] Hint Resolve keep_remain : port.

(** Delivery. *)
Lemma keep_bit8 v : v = 0 \/ v = 1 -> Ens (upd_inet (w_bit8 v)).
Proof. intros Hv w [] _. split; auto. split; auto. split; [done|apply po_bit9]. Qed.
Lemma keep_scanbit8 buf len : Ens (scanbit8 buf len).
Proof. unfold scanbit8. kp. apply keep_bit8. destruct (c_true _); auto. Qed.
Lemma keep_once code : Ens (once code).
Proof. unfold once. kp. Qed.
Lemma keep_reply_http offs len : Ens (reply_http ulong offs len).
Proof. unfold reply_http. kp. Qed.
#[local] Hint Resolve keep_scanbit8 keep_once keep_reply_http : port.
Lemma keep_reply_data offs len : Ens (loop_reply_data ulong offs len).
Proof. unfold loop_reply_data. kp. Qed.
Lemma keep_reply_binary_data offs len : Ens (loop_reply_binary_data ulong offs len).
Proof. unfold loop_reply_binary_data. kp. Qed.
#[local] Hint Resolve keep_reply_data keep_reply_binary_data : port.
Lemma keep_deliver_packet len : Ens (deliver_packet ulong len).
Proof. unfold deliver_packet. kp. Qed.
#[local] Hint Resolve keep_deliver_packet : port.
Lemma keep_deliver_packets fuel len count : Ens (deliver_packets ulong fuel len count).
Proof. revert len count. induction fuel as [|fuel IH]; intros len count; cbn [deliver_packets]; kp. Qed.
#[local] Hint Resolve keep_deliver_packets : port.
Lemma keep_deliver len : Ens (loop_deliver ulong len).
Proof. unfold loop_deliver, deliver_from. kp. Qed.
#[local] Hint Resolve keep_deliver : port.

(** Errors: the port is never busy. *)
Lemma keep_idle {A} (m : inet_descriptor -> M (world Q) A) :
  (forall d, IS_BUSY d = false -> Ens (m d)) -> Ens (mbind m get_inet).
Proof. intros Hm w Hw Hp. rewrite (bind_eq get_inet _ _ _ _ eq_refl). apply Hm; [by apply port_ok_idle|done|done]. Qed.
Lemma keep_recv_error err : Ens (loop_recv_error err).
Proof. unfold loop_recv_error. apply keep_idle. intros d ->. kp. Qed.
Lemma keep_recv_closed : Ens loop_recv_closed.
Proof. unfold loop_recv_closed. apply keep_idle. intros d ->. kp. Qed.
#[local] Hint Resolve keep_recv_error keep_recv_closed : port.

(** Receiving and sending. *)
Lemma keep_recv request_len : Ens (loop_recv ulong request_len).
Proof. unfold loop_recv, recv_prepare, recv_read, poll_remain. kp. Qed.
#[local] Hint Resolve keep_recv : port.
Lemma keep_sendv ev size : Ens (loop_sendv ulong ev size).
Proof. unfold loop_sendv. kp. Qed.
Lemma keep_send ptr len : Ens (loop_send ulong ptr len).
Proof. unfold loop_send. kp. Qed.
#[local] Hint Resolve keep_sendv keep_send : port.

(** ** Options *)

Definition same_port (d d' : loop_descriptor) : Prop :=
  dport (inet d') = dport (inet d) /\ state (inet d') = state (inet d) /\
  ops (inet d') = ops (inet d) /\ caller (inet d') = caller (inet d).
#[export] Instance same_port_preorder : PreOrder same_port.
Proof. split; [intros ?; by repeat split|]. intros a b c (? & ? & ? & ?) (? & ? & ? & ?). split_and!; congruence. Qed.
Lemma clamp_range lo hi v : lo <= hi -> lo <= clamp lo hi v <= hi.
Proof. intros. unfold clamp. rewrite Z.gtb_ltb. destruct (Z.ltb_spec v lo), (Z.ltb_spec hi v); lia. Qed.
Local Ltac fields :=
  split; [split; cbn -[clamp]; auto; unfold INET_MAX_BUFFER; try lia|by repeat split].
Lemma set_opt_ok o v d d' : port_ok d -> - (2 ^ 31) <= v < 2 ^ 31 -> set_opt o v d = Some d' ->
  port_ok d' /\ same_port d d'.
Proof.
  intros Hd Hv. pose proof Hd as [P1 P2 P3 P4 [P5 P6] [P7 P8] P9 P10 P11]. unfold set_opt.
  pose proof (clamp_range INET_MIN_BUFFER INET_MAX_BUFFER v ltac:(done)) as Hc.
  pose proof (clamp_range 0 (INET_MAX_BUFFER * 2) v ltac:(done)).
  pose proof (clamp_range 0 INET_MAX_BUFFER v ltac:(done)).
  assert (0 <= u32 v < 2 ^ 32) by (apply wrap_range; lia).
  unfold INET_MIN_BUFFER, INET_MAX_BUFFER in *. cbv zeta.
  repeat match goal with |- (if ?b then Some _ else _) = Some _ -> _ => destruct b; [intros [= <-]|] end; [..|done].
  1-7: fields.
  - unfold set_bit8, on_inet. repeat match goal with |- context [if ?b then _ else _] => destruct b end; fields.
  - destruct (is_stream d); [|by split]. destruct (low d >? _) eqn:El; fields.
  - destruct (is_stream d); [|by split]. destruct (high d <? _) eqn:El; fields.
  - destruct (is_stream d); [fields|by split].
  - by split.
  - destruct (v >? bufsz (inet d)) eqn:Eb; [fields|by split].
Qed.
Lemma set_opts_ok ptr d : port_ok d -> port_ok (snd (set_opts ptr d)) /\ same_port d (snd (set_opts ptr d)).
Proof.
  remember (length ptr) as n eqn:En. assert (length ptr <= n)%nat as Hn by lia. clear En.
  revert ptr d Hn. induction n as [|n IH]; intros ptr d Hn Hd.
  { destruct ptr; [|cbn in Hn; lia]. by split. }
  destruct ptr as [|o [|b3 [|b2 [|b1 [|b0 ptr]]]]]; try by split. cbn [set_opts].
  destruct (o =? INET_OPT_LINGER).
  { destruct ptr as [|? [|? [|? [|? ptr]]]]; try by split. apply IH; [cbn in Hn; lia|done]. }
  destruct (set_opt o (get_int32 [b3; b2; b1; b0]) d) as [d'|] eqn:Es; [|by split].
  destruct (set_opt_ok _ _ _ _ Hd (sint_range 32 _ ltac:(lia)) Es) as [Hd' Hs].
  destruct (IH ptr d') as [? Hs']; [cbn in Hn; lia|done|]. split; [done|]. by transitivity d'.
Qed.
Lemma inet_set_opts_ok ptr d : port_ok d ->
  port_ok (snd (inet_set_opts ptr d)) /\ same_port d (snd (inet_set_opts ptr d)).
Proof.
  intros Hd. pose proof (set_opts_ok ptr d Hd) as Hs. unfold inet_set_opts.
  destruct (set_opts ptr d) as [ok d']. cbn [snd] in Hs. by repeat case_match.
Qed.

(** ** Control operations *)

Lemma keep_ctl_reply rep buf rsize : Ens (ctl_reply rep buf rsize).
Proof. unfold ctl_reply. kp. Qed.
Lemma keep_ctl_error err rsize : Ens (ctl_error err rsize).
Proof. apply keep_ctl_reply. Qed.
Lemma keep_ctl_xerror x rsize : Ens (ctl_xerror x rsize).
Proof. apply keep_ctl_reply. Qed.
#[local] Hint Resolve keep_ctl_reply keep_ctl_error keep_ctl_xerror : port.
Lemma keep_subscribe_loop buf : Ens (subscribe_loop buf).
Proof. induction buf; cbn [subscribe_loop]; kp. Qed.
#[local] Hint Resolve keep_subscribe_loop : port.
Lemma keep_setopts buf rsize : Ens (inet_setopts ulong buf rsize).
Proof.
  intros w Hw Hp. unfold inet_setopts. rewrite (bind_eq get_desc _ _ _ _ eq_refl).
  pose proof (inet_set_opts_ok buf (desc w) Hw) as [Hd (E1 & E2 & E3 & E4)].
  destruct (inet_set_opts buf (desc w)) as [r d]. cbn [snd] in *.
  set (w1 := snd (upd (fun _ => d) w)). rewrite (bind_eq (upd _) _ w tt w1 eq_refl).
  assert (keep w w1) as H1.
  { intros _ _. split; auto. intros _. unfold ledger. cbn. by rewrite E3. }
  revert Hw Hp. change (keep w (snd ((if r =? -1 then ctl_error EINVAL rsize else if r =? 0 then ctl_reply INET_REP_OK [] rsize
    else loop_deliver ulong 0;;; ctl_reply INET_REP_OK [] rsize) w1))).
  transitivity w1; [done|].
  match goal with |- keep w1 (snd (?m w1)) => assert (Ens m) as Hm; [|apply Hm] end. kp.
Qed.
#[local] Hint Resolve keep_setopts : port.
Lemma keep_inet_ctl cmd buf rsize ival : cmd <> INET_REQ_BIND -> Ens (inet_ctl ulong cmd buf rsize ival).
Proof.
  intros Hb. unfold inet_ctl. apply ensures_bind; [exact _|auto with port|]. intros d.
  rewrite (proj2 (Z.eqb_neq cmd INET_REQ_BIND)) by done.
  unfold inet_getstat, inet_do_subscribe, inet_subscribe, inet_getopts, inet_gettype, inet_peer, inet_setpeer, inet_name,
    inet_setname, reply_area. kp.
Qed.
Lemma keep_unrecv buf rsize : Ens (loop_ctl_unrecv ulong buf rsize).
Proof. unfold loop_ctl_unrecv. kp. Qed.
Lemma keep_timeout : Ens loop_drv_timeout.
Proof.
  intros w Hw Hp. unfold loop_drv_timeout. rewrite (bind_eq get_desc _ _ _ _ eq_refl).
  destruct (IS_CONNECTED _); [|by apply (ensures_skip keep)]. rewrite (po_busy _ Hw). cbn [c_true negb Z.eqb].
  revert w Hw Hp. match goal with |- forall w, port_ok _ -> _ -> kept _ w (snd (?m w)) => change (Ens m) end. kp.
Qed.

(** * The calls of the emulator *)

Inductive event :=
  | Ctl (cmd : Z) (buf : bytes) (rsize ival : Z)   (* loop_drv_ctl *)
  | Command (buf : bytes) (len : Z)                (* loop_drv_command *)
  | Commandv (ev : list bytes) (size : Z)          (* loop_drv_commandv *)
  | Timeout.                                       (* loop_drv_timeout *)
Definition step (ev : event) w : world Q :=
  match ev with
  | Ctl cmd buf rsize ival => snd (loop_drv_ctl ulong cmd buf rsize ival w)
  | Command buf len => snd (loop_drv_command ulong buf len w)
  | Commandv ev size => snd (loop_drv_commandv ulong ev size w)
  | Timeout => snd (loop_drv_timeout w)
  end.
Definition steps (evs : list event) w : world Q := fold_left (fun w ev => step ev w) evs w.

(** The reference in an accepting reply to CONNECT and RECV. *)
Definition reply_ref (r : reply) : option Z :=
  match r with
  | InPlace [rep; hi; lo] | Allocated [rep; hi; lo] =>
      if rep =? INET_REP_OK then Some (get_int16 [hi; lo]) else None
  | _ => None
  end.
(** The operation an event starts: the process that asked, and the reference it was given. *)
Definition accepted (ev : event) w : list (Z * Z) :=
  match ev with
  | Ctl cmd buf rsize ival =>
      if (cmd =? INET_REQ_CONNECT) || (cmd =? TCP_REQ_RECV) then
        match reply_ref (snd (fst (loop_drv_ctl ulong cmd buf rsize ival w))) with
        | Some ref => [(driver_caller (calls w), ref)]
        | None => []
        end
      else []
  | _ => []
  end.
Fixpoint all_accepted (evs : list event) w : list (Z * Z) :=
  match evs with
  | [] => []
  | ev :: evs => accepted ev w ++ all_accepted evs (step ev w)
  end.
(** What a send is answered with, without the head of the term: [ok] or [{error,enotconn}]. *)
Definition send_result w : spec :=
  drop 2 (if IS_CONNECTED (inet (desc w)) then reply_ok_spec (dport (inet (desc w)))
          else reply_error_spec (dport (inet (desc w))) (error_atom ENOTCONN)).
Definition is_send (ev : event) : bool := match ev with Command _ _ | Commandv _ _ => true | _ => false end.

(** The replies an event makes. *)
Record stepped (ev : event) w w' : Prop := Stepped {
  st_ok : port_ok (desc w');
  st_dport : dport (inet (desc w')) = dport (inet (desc w));
  st_busy : busy_calls (calls w') = busy_calls (calls w);
  st_sync : if is_send ev
    then exists to, (to = driver_caller (calls w) \/ to = 0) /\
      sync_replies (calls w') = sync_replies (calls w) ++ [(to, send_result w)]
    else sync_replies (calls w') = sync_replies (calls w);
  st_ledger : Memory -> ledger w' = ledger w ++ accepted ev w;
}.
Lemma kept_stepped ev w w' : is_send ev = false -> accepted ev w = [] -> kept [] w w' -> stepped ev w w'.
Proof.
  intros Hs Ha []. split; [done..|by rewrite Hs|]. intros Hm. rewrite (kp_ledger0 Hm), Ha. symmetry. apply app_nil_r.
Qed.
Lemma connected_state w : port_ok (desc w) ->
  IS_CONNECTED (inet (desc w)) = (state (inet (desc w)) =? INET_STATE_CONNECTED).
Proof.
  intros [Hs _ _ _ _ _ _ _ _]. unfold IS_CONNECTED. rewrite !elem_of_cons, elem_of_nil in Hs.
  by destruct Hs as [->|[->|[->|[->|[]]]]].
Qed.

(** ** Sends *)

Lemma replied ev w w2 w3 sp : is_send ev = true -> accepted ev w = [] ->
  kept [] (snd (set_caller w)) w2 -> desc w3 = w_inet (w_caller 0 (inet (desc w2))) (desc w2) ->
  calls w3 = calls w2 ++ [SendTerm (caller (inet (desc w2))) sp] -> answer (SendTerm 0 sp) = None ->
  sync_reply (SendTerm (caller (inet (desc w2))) sp) = Some (caller (inet (desc w2)), send_result w) ->
  stepped ev w w3.
Proof.
  intros Hs Ha [] Hd Hc Hna Hsp.
  assert (answer (SendTerm (caller (inet (desc w2))) sp) = None) as Hna'.
  { revert Hna. cbn. by repeat case_match. }
  split; rewrite ?Hd, ?Hc; [by destruct kp_ok0|done| | |].
  - unfold busy_calls in *. rewrite omap_app, kp_busy0. apply app_nil_r.
  - rewrite Hs. exists (caller (inet (desc w2))). split; [destruct kp_caller0 as [->|]; auto|].
    unfold sync_replies in *. rewrite omap_app, kp_sync0. cbn [omap list_omap]. by rewrite Hsp.
  - intros Hmem. rewrite Ha, app_nil_r. transitivity (ledger w2); [|exact (kp_ledger0 Hmem)].
    unfold ledger, answers. rewrite Hd, Hc, omap_app. cbn [omap list_omap]. rewrite Hna'. by rewrite app_nil_r.
Qed.
Lemma send_stepped ev (m : M (world Q) Z) w : is_send ev = true -> accepted ev w = [] ->
  port_ok (desc w) -> Ens m -> (forall w, fst (m w) = 0) ->
  stepped ev w (snd ((set_caller;;;
    d ← get_inet;
    if negb (IS_CONNECTED d) then inet_reply_error ENOTCONN;;; skip
    else r ← m; when r =? 0 do (inet_reply_ok;;; skip)) w)).
Proof.
  intros Hs Ha Hw Hm Hr.
  set (w1 := snd (set_caller w)). rewrite (bind_eq set_caller _ w tt w1 eq_refl), (bind_eq get_inet _ _ _ _ eq_refl).
  assert (port_ok (desc w1)) as Hw1 by (by destruct Hw).
  change (IS_CONNECTED (inet (desc w1))) with (IS_CONNECTED (inet (desc w))).
  destruct (IS_CONNECTED (inet (desc w))) eqn:Ec; cbn [negb].
  - destruct (m w1) as [r w2] eqn:Em. pose proof (Hr w1) as Hr1. pose proof (Hm w1 Hw1 (or_introl eq_refl)) as Hk.
    rewrite Em in *. cbn [fst snd] in *. subst r. rewrite (bind_eq _ _ _ _ _ Em). cbn [Z.eqb].
    apply (replied ev w w2 _ (reply_ok_spec (dport (inet (desc w2))))); try done.
    unfold send_result. rewrite Ec. by rewrite (kp_dport _ _ _ Hk).
  - apply (replied ev w w1 _ (reply_error_spec (dport (inet (desc w1))) (error_atom ENOTCONN))); try done.
    + by apply keep_preorder; [|left].
    + unfold send_result. by rewrite Ec.
Qed.
Lemma sends_return_0 w ev size buf len : fst (loop_sendv ulong ev size w) = 0 /\ fst (loop_send ulong buf len w) = 0.
Proof.
  unfold loop_sendv, loop_send, mbind, M_bind. cbn [get_inet gets].
  split; (destruct (packet_header _ _); [|done]); repeat case_match; by simplify_eq.
Qed.

(** ** Control operations that change the state or start an operation *)

Lemma keep_stepped ev w w' : is_send ev = false -> accepted ev w = [] -> port_ok (desc w) -> keep w w' -> stepped ev w w'.
Proof. intros ? ? Hw Hk. apply kept_stepped; auto. Qed.
(** A change of the descriptor alone. *)
Lemma upd_stepped ev w f : is_send ev = false -> accepted ev w = [] ->
  port_ok (f (desc w)) -> dport (inet (f (desc w))) = dport (inet (desc w)) -> ops (inet (f (desc w))) = ops (inet (desc w)) ->
  stepped ev w (snd (upd f w)).
Proof.
  intros Hs Ha Hok Hd Ho. split; [done..|by rewrite Hs|]. intros _. rewrite Ha, app_nil_r.
  unfold ledger. cbn. by rewrite Ho.
Qed.
Lemma stepped_then ev w w1 w2 : is_send ev = false -> stepped ev w w1 -> keep w1 w2 -> stepped ev w w2.
Proof.
  intros Hs [] Hk. destruct (Hk st_ok0 (or_introl eq_refl)). rewrite Hs in *.
  split; [done|congruence..|rewrite Hs; congruence|]. intros Hm. rewrite <-(st_ledger0 Hm). exact (kp_ledger0 Hm).
Qed.

(** Replies to control operations: refused with the state as it was. *)
Definition refuses (m : M (world Q) (Z * reply)) : Prop := forall w, reply_ref (snd (fst (m w))) = None /\ snd (m w) = w.
Lemma refuse_error s rsize : refuses (ctl_reply INET_REP_ERROR s rsize).
Proof.
  intros w. unfold ctl_reply.
  assert (forall b : bytes, reply_ref (InPlace (INET_REP_ERROR :: b)) = None /\ reply_ref (Allocated (INET_REP_ERROR :: b)) = None) as Hb.
  { intros b. split; by destruct b as [|? [|? []]]. }
  destruct (_ >? _); [|by split; [apply Hb|]].
  unfold driver_alloc_ok, mbind, M_bind. destruct (alloc_ok _ _); by split; [apply Hb || done|].
Qed.
Lemma refused_stepped cmd buf rsize ival m w : port_ok (desc w) -> refuses m ->
  loop_drv_ctl ulong cmd buf rsize ival w = m w ->
  stepped (Ctl cmd buf rsize ival) w (snd (loop_drv_ctl ulong cmd buf rsize ival w)).
Proof.
  intros Hw Hm Heq. destruct (Hm w) as [Hr Hs]. apply keep_stepped; [done| |done|].
  - cbn [accepted]. rewrite Heq, Hr. by destruct (_ || _).
  - rewrite Heq, Hs. reflexivity.
Qed.

(** Accepted with a reference. *)
Lemma ref_reply i rsize w : Memory -> reply_ref (snd (fst (ctl_reply INET_REP_OK (put_int16 i) rsize w))) = Some (u16 i).
Proof.
  intros Hm. rewrite <-(get_put_int16 i []). unfold ctl_reply. destruct (_ >? _); [|done].
  unfold driver_alloc_ok, mbind, M_bind. by rewrite Hm.
Qed.
Lemma started_stepped cmd buf rsize ival i (m : M (world Q) Z) f w w1 :
  (cmd =? INET_REQ_CONNECT) || (cmd =? TCP_REQ_RECV) = true ->
  loop_drv_ctl ulong cmd buf rsize ival w = mbind f m w1 ->
  port_ok (desc w1) -> dport (inet (desc w1)) = dport (inet (desc w)) -> calls w1 = calls w ->
  ledger w1 = ledger w ++ [(driver_caller (calls w), u16 i)] ->
  Ens (mbind f m) -> (forall w, Memory -> reply_ref (snd (fst (mbind f m w))) = Some (u16 i)) ->
  stepped (Ctl cmd buf rsize ival) w (snd (loop_drv_ctl ulong cmd buf rsize ival w)).
Proof.
  intros Hc Heq Hw1 Hd Hcalls Hl Hens Hr. destruct (Hens w1 Hw1 (or_introl eq_refl)).
  split; rewrite ?Heq; [done|congruence..|cbn [is_send]; congruence|].
  intros Hm. rewrite (kp_ledger0 Hm). cbn [app accepted]. rewrite Hc, Heq, Hr by done.
  rewrite <-Hl. done.
Qed.

Lemma async_ref_u16 w : u16 (async_ref w & 0xffff)%C = (async_ref w & 0xffff)%C.
Proof. rewrite land_0xffff. apply (wrap_wrap 16). Qed.
Lemma recv_stepped buf rsize ival w : port_ok (desc w) ->
  stepped (Ctl TCP_REQ_RECV buf rsize ival) w (snd (loop_drv_ctl ulong TCP_REQ_RECV buf rsize ival w)).
Proof.
  intros Hw. pose proof (connected_state w Hw) as Hst.
  assert (forall m, refuses m -> loop_ctl_recv ulong buf rsize w = m w ->
    stepped (Ctl TCP_REQ_RECV buf rsize ival) w (snd (loop_drv_ctl ulong TCP_REQ_RECV buf rsize ival w))) as Href.
  { intros m Hm Heq. by apply (refused_stepped _ _ _ _ m). }
  assert (loop_drv_ctl ulong TCP_REQ_RECV buf rsize ival w = loop_ctl_recv ulong buf rsize w) as Heq by done.
  revert Href Heq. unfold loop_ctl_recv. rewrite (bind_eq get_inet _ _ _ _ eq_refl). cbv zeta.
  destruct (IS_CONNECTED (inet (desc w))) eqn:Ec; cbn [negb];
    [|intros Href _; eapply Href; [apply refuse_error|reflexivity]].
  destruct (_ || _); [intros Href _; eapply Href; [apply refuse_error|reflexivity]|].
  destruct (_ && _); [intros Href _; eapply Href; [apply refuse_error|reflexivity]|].
  destruct (_ >? _); [intros Href _; eapply Href; [apply refuse_error|reflexivity]|].
  pose proof (keep_enq TCP_REQ_RECV w Hw ltac:(symmetry in Hst; by apply Z.eqb_eq in Hst)) as He.
  destruct (enq_async TCP_REQ_RECV w) as [[i|] w1] eqn:Ee; rewrite (bind_eq _ _ _ _ _ Ee).
  - intros _ Heq. destruct He as (_ & Hw1 & Hc & Hl & Hi & Hd).
    eapply (started_stepped _ _ _ _ i); [done|exact Heq|done|by rewrite Hd|done|by rewrite Hi, async_ref_u16, <-Hi| |].
    + kp.
    + intros w2 Hm. match goal with |- context [mbind _ ?m w2] => destruct (m w2) as [r w3] eqn:Er end. rewrite (bind_eq _ _ _ _ _ Er).
      match goal with |- context [mbind _ ?m w3] => destruct (m w3) as [[] w4] eqn:E4 end.
      rewrite (bind_eq _ _ _ _ _ E4). by apply ref_reply.
  - intros _ Heq. destruct He as (_ & Hd & Hc). destruct (refuse_error (lit (error_atom EALREADY)) rsize w1) as [Hr Hs].
    split; rewrite ?Heq.
    + unfold ctl_error. by rewrite Hs, Hd.
    + unfold ctl_error. by rewrite Hs, Hd.
    + unfold ctl_error. by rewrite Hs, Hc.
    + unfold ctl_error. cbn [is_send]. by rewrite Hs, Hc.
    + intros _. cbn [accepted]. rewrite Heq. unfold ctl_error. rewrite Hr, Hs. cbn. unfold ledger. by rewrite Hd, Hc, app_nil_r.
Qed.
Lemma connect_stepped buf rsize ival w : port_ok (desc w) ->
  stepped (Ctl INET_REQ_CONNECT buf rsize ival) w (snd (loop_drv_ctl ulong INET_REQ_CONNECT buf rsize ival w)).
Proof.
  intros Hw. pose proof (connected_state w Hw) as Hst.
  assert (forall m, refuses m -> loop_ctl_connect buf rsize w = m w ->
    stepped (Ctl INET_REQ_CONNECT buf rsize ival) w (snd (loop_drv_ctl ulong INET_REQ_CONNECT buf rsize ival w))) as Href.
  { intros m Hm Heq. by apply (refused_stepped _ _ _ _ m). }
  assert (loop_drv_ctl ulong INET_REQ_CONNECT buf rsize ival w = loop_ctl_connect buf rsize w) as Heq by done.
  revert Href Heq. unfold loop_ctl_connect. rewrite (bind_eq get_inet _ _ _ _ eq_refl).
  destruct (IS_OPEN (inet (desc w))) eqn:Eo; cbn [negb];
    [|intros Href _; eapply Href; [apply refuse_error|reflexivity]].
  destruct (IS_CONNECTED (inet (desc w))); [intros Href _; eapply Href; [apply refuse_error|reflexivity]|].
  destruct (negb _); [intros Href _; eapply Href; [apply refuse_error|reflexivity]|].
  destruct (_ <? _); [intros Href _; eapply Href; [apply refuse_error|reflexivity]|].
  destruct (inet_set_address _ _) as [a|]; [|intros Href _; eapply Href; [apply refuse_error|reflexivity]].
  intros _. rewrite (bind_eq get _ _ _ _ eq_refl).
  match goal with |- context [mbind _ (upd_inet ?f)] => set (w0 := snd (upd_inet f w)) end.
  rewrite (bind_eq (upd_inet _) _ w tt w0 eq_refl).
  symmetry in Hst. apply Z.eqb_neq in Hst. pose proof Hw as [].
  assert (state (inet (desc w)) <> INET_STATE_CLOSED) as Hnc by (intros Hz; unfold IS_OPEN in Eo; by rewrite Hz in Eo).
  assert (port_ok (desc w0)) as Hw0.
  { split; try done; [by_decision|auto]. }
  pose proof (keep_enq INET_REQ_CONNECT w0 Hw0 eq_refl) as He.
  destruct (enq_async INET_REQ_CONNECT w0) as [[i|] w1] eqn:Ee; rewrite (bind_eq _ _ _ _ _ Ee).
  - intros Heq. destruct He as (_ & Hw1 & Hc & Hl & Hi & Hd).
    eapply (started_stepped _ _ _ _ i); [done|exact Heq|done|by rewrite Hd|done|by rewrite Hi, async_ref_u16, <-Hi| |].
    + kp.
    + intros w2 Hm. destruct (async_ok w2) as [r w3] eqn:Er. rewrite (bind_eq _ _ _ _ _ Er). by apply ref_reply.
  - destruct He as [He _]. destruct He. cbn. auto.
Qed.

(** CLOSE answers the operation that waits. *)
Lemma drained reason w : port_ok (desc w) -> opt (ops (inet (desc (snd (async_error_am_all reason w))))) = None.
Proof.
  intros [_ _ _ _ _ _ _ [l Hl] _]. unfold async_error_am_all. unfold mbind at 1, M_bind at 1.
  change (S (Z.to_nat INET_MAX_ASYNC)) with 2%nat.
  destruct (async_error_all 2 reason w) as [[] w1] eqn:E1. cbn [snd mret M_ret].
  revert E1. cbn [async_error_all].
  destruct l as [|op l].
  { rewrite (bind_eq _ _ _ _ _ (deq_async_none w (aq_deq_empty (Z.to_nat INET_MAX_ASYNC) Nat.lt_0_1 _ Hl))).
    intros [= <-]. by apply ring_empty. }
  destruct (aq_deq_cons (Z.to_nat INET_MAX_ASYNC) Nat.lt_0_1 _ _ _ Hl) as (q & Eq & Hq).
  assert (l = []) as ->.
  { destruct Hl as [_ Hl]. destruct (opt _), (oph _); try done. destruct Hl as (_ & [_ Hl] & _).
    change (Z.to_nat INET_MAX_ASYNC) with 1%nat in Hl. destruct l; [done|]. cbn in Hl. lia. }
  rewrite (bind_eq _ _ _ _ _ (deq_async_eq _ _ _ Eq)), (bind_eq get_inet _ _ _ _ eq_refl).
  unfold send_async_error, driver_send_term, do_call. unfold mbind at 1, M_bind at 1.
  match goal with |- context [set_log ?l ?w] => set (w2 := set_log l w) end.
  rewrite (bind_eq _ _ _ _ _ (deq_async_none w2 (aq_deq_empty (Z.to_nat INET_MAX_ASYNC) Nat.lt_0_1 _ Hq))).
  intros [= <-]. by apply ring_empty.
Qed.
Lemma close_check w : port_ok (desc w) ->
  keep w (snd (loop_close_check w)) /\ opt (ops (inet (desc (snd (loop_close_check w))))) = None.
Proof.
  intros Hw. unfold loop_close_check. rewrite (bind_eq get_inet _ _ _ _ eq_refl).
  destruct (Z.eqb_spec (state (inet (desc w))) INET_STATE_CONNECTED).
  - pose proof (keep_async_error_am_all "closed" w) as Hk. pose proof (drained "closed" w Hw).
    unfold mbind, M_bind. by destruct (async_error_am_all "closed" w).
  - split; [reflexivity|]. by apply po_idle.
Qed.
Lemma close_stepped buf rsize ival w : port_ok (desc w) ->
  stepped (Ctl INET_REQ_CLOSE buf rsize ival) w (snd (loop_drv_ctl ulong INET_REQ_CLOSE buf rsize ival w)).
Proof.
  intros Hw. change (loop_drv_ctl ulong INET_REQ_CLOSE buf rsize ival w) with
    ((loop_close_check;;; erl_inet_close;;; ctl_reply INET_REP_OK [] rsize) w).
  destruct (close_check w Hw) as [Hk Ho]. destruct (loop_close_check w) as [[] w1] eqn:E1. cbn [snd] in *.
  rewrite (bind_eq _ _ _ _ _ E1). destruct (Hk Hw (or_introl eq_refl)).
  set (w2 := snd (erl_inet_close w1)). rewrite (bind_eq erl_inet_close _ w1 0 w2 eq_refl).
  apply (stepped_then _ _ w2); [done| |apply keep_ctl_reply].
  split; [|done..|].
  - pose proof kp_ok0 as []. split; try done. by_decision.
  - intros Hm. cbn [accepted]. change (_ || _) with false. cbv iota. rewrite app_nil_r. exact (kp_ledger0 Hm).
Qed.
Lemma not_accepted cmd buf rsize ival w : cmd <> INET_REQ_CONNECT -> cmd <> TCP_REQ_RECV ->
  accepted (Ctl cmd buf rsize ival) w = [].
Proof. intros H1 H2. cbn [accepted]. by rewrite !(proj2 (Z.eqb_neq _ _)) by done. Qed.
Lemma open_stepped buf rsize ival w : port_ok (desc w) ->
  stepped (Ctl INET_REQ_OPEN buf rsize ival) w (snd (loop_drv_ctl ulong INET_REQ_OPEN buf rsize ival w)).
Proof.
  intros Hw. change (loop_drv_ctl ulong INET_REQ_OPEN buf rsize ival w) with
    ((if (Z.of_nat (length buf) =? 1) && (byte_at buf 0 =? INET_AF_INET)
      then inet_ctl_open AF_INET SOCK_STREAM rsize else ctl_error EINVAL rsize) w).
  destruct (_ && _); [|apply keep_stepped; [done|done|done|apply keep_ctl_error]].
  unfold inet_ctl_open. rewrite (bind_eq get_inet _ _ _ _ eq_refl).
  destruct (Z.eqb_spec (state (inet (desc w))) INET_STATE_CLOSED) as [Hs|]; cbn [negb];
    [|apply keep_stepped; [done|done|done|apply keep_ctl_xerror]].
  eapply stepped_then; [done| |apply keep_ctl_reply]. apply upd_stepped; [done..| |done|done].
  pose proof Hw as []. split; try done; [by_decision|]. intros _. cbn. apply po_idle0. by rewrite Hs.
Qed.
Lemma bind_stepped buf rsize ival w : port_ok (desc w) ->
  stepped (Ctl INET_REQ_BIND buf rsize ival) w (snd (loop_drv_ctl ulong INET_REQ_BIND buf rsize ival w)).
Proof.
  intros Hw. change (loop_drv_ctl ulong INET_REQ_BIND buf rsize ival w) with (inet_bind buf rsize w).
  unfold inet_bind. rewrite (bind_eq get_inet _ _ _ _ eq_refl).
  destruct (_ <? _); [apply keep_stepped; [done|done|done|apply keep_ctl_error]|].
  destruct (Z.eqb_spec (state (inet (desc w))) INET_STATE_OPEN) as [Hs|]; cbn [negb];
    [|apply keep_stepped; [done|done|done|apply keep_ctl_xerror]].
  destruct (inet_set_address _ _); [|apply keep_stepped; [done|done|done|apply keep_ctl_error]].
  eapply stepped_then; [done| |apply keep_ctl_reply]. apply upd_stepped; [done..| |done|done].
  pose proof Hw as []. split; try done; [by_decision| |]; intros _; cbn; [apply po_type0|apply po_idle0]; by rewrite Hs.
Qed.
Lemma ctl_stepped cmd buf rsize ival w : port_ok (desc w) ->
  stepped (Ctl cmd buf rsize ival) w (snd (loop_drv_ctl ulong cmd buf rsize ival w)).
Proof.
  intros Hw.
  destruct (Z.eq_dec cmd INET_REQ_OPEN) as [->|H1]; [by apply open_stepped|].
  destruct (Z.eq_dec cmd INET_REQ_CONNECT) as [->|H2]; [by apply connect_stepped|].
  destruct (Z.eq_dec cmd INET_REQ_CLOSE) as [->|H3]; [by apply close_stepped|].
  destruct (Z.eq_dec cmd TCP_REQ_RECV) as [->|H4]; [by apply recv_stepped|].
  destruct (Z.eq_dec cmd INET_REQ_BIND) as [->|H5]; [by apply bind_stepped|].
  apply keep_stepped; [done|by apply not_accepted|done|].
  assert (Ens (loop_drv_ctl ulong cmd buf rsize ival)) as He; [|apply He].
  unfold loop_drv_ctl. rewrite !(proj2 (Z.eqb_neq cmd _) H1), !(proj2 (Z.eqb_neq cmd _) H2),
    !(proj2 (Z.eqb_neq cmd _) H3), !(proj2 (Z.eqb_neq cmd _) H4).
  pose proof (keep_inet_ctl cmd buf rsize ival H5). pose proof (keep_unrecv buf rsize). kp.
Qed.
Lemma step_stepped ev w : port_ok (desc w) -> stepped ev w (step ev w).
Proof.
  intros Hw. destruct ev as [cmd buf rsize ival|buf len|ev size|].
  - by apply ctl_stepped.
  - apply send_stepped; [done..|apply keep_send|]. intros w1. by apply (sends_return_0 w1 [] 0).
  - apply send_stepped; [done..|apply keep_sendv|]. intros w1. by apply (sends_return_0 w1 ev size [] 0).
  - apply keep_stepped; [done..|apply keep_timeout].
Qed.
Lemma steps_stepped evs w : port_ok (desc w) ->
  port_ok (desc (steps evs w)) /\ busy_calls (calls (steps evs w)) = busy_calls (calls w) /\
  (Memory -> ledger (steps evs w) = ledger w ++ all_accepted evs w).
Proof.
  revert w. induction evs as [|ev evs IH]; intros w Hw.
  - split_and!; [done..|]. intros _. cbn. by rewrite app_nil_r.
  - destruct (step_stepped ev w Hw). destruct (IH _ st_ok0) as (Hok & Hb & Hl). cbn [steps fold_left all_accepted].
    split_and!; [done|exact (eq_trans Hb st_busy0)|]. intros Hm. rewrite app_assoc, <-(st_ledger0 Hm). by apply Hl.
Qed.
End Port.

(** * A port from its start *)

(** The block allocated for the descriptor has room for the operations. *)
Definition started {Q} (dport : Z) (blk : loop_descriptor) (stack : list binary) (ref : Z) (q : Q) : world Q :=
  World (loop_drv_start dport blk) stack ref q [] [].
Lemma start_ok dport blk : length (op_queue (ops (inet blk))) = Z.to_nat INET_MAX_ASYNC -> port_ok (loop_drv_start dport blk).
Proof.
  intros Hl. split; cbn; try done; try lia; auto.
  - by left.
  - by exists [].
Qed.

(** C11: The invariant of a port: whatever calls the emulator makes after the start, in any order, the
    port is closed, open, bound or connected, a stream of the internet family unless closed, its buffer
    size, header size, watermarks and flags are in their ranges, an operation waits only on a connected
    port, and the port never becomes busy: [set_busy_port] is never called, so that the watermarks and the
    send timeout have no effect. *)
Theorem port_invariant {Q} `{PQ : !PortQueue Q} `{IV : !IOVec Q} `{RT : !Runtime} `{E : !LoopEnv}
    ulong dport blk stack ref (q : Q) (evs : list event) :
  length (op_queue (ops (inet blk))) = Z.to_nat INET_MAX_ASYNC ->
  let w := steps ulong evs (started dport blk stack ref q) in
  port_ok (desc w) /\ busy_calls (calls w) = [] /\ IS_BUSY (inet (desc w)) = false.
Proof.
  intros Hl w. destruct (steps_stepped ulong evs (started dport blk stack ref q) (start_ok dport blk Hl)) as (Hok & Hb & _).
  split_and!; [done|done|]. by apply port_ok_idle.
Qed.

(** C3: Every asynchronous operation is answered exactly once: with memory, after any calls in any order,
    the [inet_async] messages sent are those of the operations accepted, each to the process that
    asked and with the reference it was given, in the order of acceptance, but for the one that still
    waits; when the port is not connected any more, none waits. *)
Theorem async_answered_once {Q} `{PQ : !PortQueue Q} `{IV : !IOVec Q} `{RT : !Runtime} `{E : !LoopEnv} `{MEM : !Memory}
    ulong dport blk stack ref (q : Q) (evs : list event) :
  length (op_queue (ops (inet blk))) = Z.to_nat INET_MAX_ASYNC ->
  let w := steps ulong evs (started dport blk stack ref q) in
  let taken := all_accepted ulong evs (started dport blk stack ref q) in
  answers (calls w) ++ pending (ops (inet (desc w))) = taken /\
  (length (pending (ops (inet (desc w)))) <= 1)%nat /\
  (state (inet (desc w)) <> INET_STATE_CONNECTED -> answers (calls w) = taken).
Proof.
  intros Hl w taken. destruct (steps_stepped ulong evs (started dport blk stack ref q) (start_ok dport blk Hl)) as (Hok & _ & Hs).
  specialize (Hs MEM). split_and!; [exact Hs|unfold pending; by destruct (opt _); cbn; lia|].
  intros Hst. transitivity (ledger w); [|exact Hs]. unfold ledger.
  rewrite (pending_none (ops (inet (desc w))) (po_idle _ Hok Hst)). symmetry. apply app_nil_r.
Qed.

(** C15: Every send is answered once, whatever happens to the data: the command or the vector adds exactly
    one [inet_reply] to the messages sent, [ok] on a connected port and [{error,enotconn}] on any other;
    it goes to the process that sent, or to process 0 when the send answered a receive. *)
Theorem send_replied_once {Q} `{PQ : !PortQueue Q} `{IV : !IOVec Q} `{RT : !Runtime} `{E : !LoopEnv}
    ulong dport blk stack ref (q : Q) (evs : list event) ev :
  length (op_queue (ops (inet blk))) = Z.to_nat INET_MAX_ASYNC ->
  let w := steps ulong evs (started dport blk stack ref q) in
  let w' := step ulong ev w in
  if is_send ev then
    exists to, (to = driver_caller (calls w) \/ to = 0) /\
      sync_replies (calls w') = sync_replies (calls w) ++ [(to, send_result w)]
  else sync_replies (calls w') = sync_replies (calls w).
Proof.
  intros Hl w w'. destruct (steps_stepped ulong evs (started dport blk stack ref q) (start_ok dport blk Hl)) as (Hok & _).
  exact (st_sync _ _ _ _ (step_stepped ulong ev w Hok)).
Qed.

(** ** Examples *)

Section Examples.
(** The process [p] makes all calls. *)
Definition env_of (p : Z) : LoopEnv :=
  {| driver_caller _ := p; erl_errno_id _ := "EINVAL"%string; fresh _ n := replicate (Z.to_nat n) 0; refc _ := 2 |}.
Definition connect_events : list event :=
  [Ctl INET_REQ_OPEN [INET_AF_INET] 64 0; Ctl INET_REQ_BIND [0; 0; 127; 0; 0; 1] 64 0;
   Ctl INET_REQ_CONNECT (put_int32 0 ++ [31; 144; 127; 0; 0; 1]) 64 0].
Definition receive_event : event := Ctl TCP_REQ_RECV (put_int32 INET_INFINITY ++ put_int32 0) 64 0.
Definition sample_start : world (list bytes) := started 1 sample_desc [] 0 [].
End Examples.

(** A send to a port whose process waits in a receive is never answered to the sender: the data
    completes the receive, which clears the caller noted for the reply of the send, and the reply
    is sent to process 0. *)
Theorem send_reply_lost p a b c : p <> 0 ->
  let w := steps (RT := rt_ok) (E := env_of p) 64 (connect_events ++ [receive_event; Command [a; b; c] 3]) sample_start in
  answers (calls w) = [(p, 0); (p, 1)] /\
  sync_replies (calls w) = [(0, drop 2 (reply_ok_spec 1))] /\
  p ∉ map fst (sync_replies (calls w)).
Proof.
  intros Hp w. assert (sync_replies (calls w) = [(0, drop 2 (reply_ok_spec 1))]) as Hs by (vm_compute; reflexivity).
  split_and!; [vm_compute; reflexivity|done|]. rewrite Hs. cbn [map fst]. by rewrite list_elem_of_singleton.
Qed.
Lemma send_reply_lost_witness :
  let w := steps (RT := rt_ok) (E := env_of 7) 64 (connect_events ++ [receive_event; Command [1; 2; 3] 3]) sample_start in
  answers (calls w) = [(7, 0); (7, 1)] /\
  sync_replies (calls w) = [(0, drop 2 (reply_ok_spec 1))] /\
  7 ∉ map fst (sync_replies (calls w)).
Proof. apply (send_reply_lost 7 1 2 3). lia. Defined.
Lemma port_invariant_witness :
  let w := steps (RT := rt_ok) (E := env_of 7) 64 connect_events sample_start in
  port_ok (desc w) /\ busy_calls (calls w) = [] /\ IS_BUSY (inet (desc w)) = false.
Proof. apply (port_invariant (RT := rt_ok) (E := env_of 7) 64 1 sample_desc [] 0 [] connect_events). reflexivity. Defined.
Lemma async_answered_once_witness :
  let evs := connect_events ++ [receive_event] in
  let w := steps (RT := rt_ok) (E := env_of 7) 64 evs sample_start in
  let taken := all_accepted (RT := rt_ok) (E := env_of 7) 64 evs sample_start in
  answers (calls w) ++ pending (ops (inet (desc w))) = taken /\
  (length (pending (ops (inet (desc w)))) <= 1)%nat /\
  (state (inet (desc w)) <> INET_STATE_CONNECTED -> answers (calls w) = taken).
Proof.
  intros evs. apply (async_answered_once (RT := rt_ok) (E := env_of 7) 64 1 sample_desc [] 0 [] evs). reflexivity.
Defined.
Lemma send_replied_once_witness :
  let w := steps (RT := rt_ok) (E := env_of 7) 64 connect_events sample_start in
  let w' := step (RT := rt_ok) (E := env_of 7) 64 (Command [1] 1) w in
  if is_send (Command [1] 1) then
    exists to, (to = driver_caller (LoopEnv := env_of 7) (calls w) \/ to = 0) /\
      sync_replies (calls w') = sync_replies (calls w) ++ [(to, send_result (E := env_of 7) w)]
  else sync_replies (calls w') = sync_replies (calls w).
Proof.
  apply (send_replied_once (RT := rt_ok) (E := env_of 7) 64 1 sample_desc [] 0 [] connect_events (Command [1] 1)). reflexivity.
Defined.

(** ** What a passive port loses *)

Lemma memchr_none p c n : c ∉ p -> memchr p c n = None.
Proof.
  revert n. induction p as [|x p IH]; intros [|n] Hc; try done. apply not_elem_of_cons in Hc as [Hx Hp].
  cbn [memchr]. rewrite (proj2 (Z.eqb_neq x c)) by done. by rewrite IH.
Qed.

(** A line that fills the buffer behind lines already delivered makes a receive write past its
    end: [loop_remain] asks for as many bytes as were delivered, which [loop_recv] reads to the end
    of the full buffer, without the restart at its beginning that this number is meant for. *)
Theorem full_buffer_overrun {Q} `{PQ : !PortQueue Q} `{IV : !IOVec Q} `{RT : !Runtime} `{E : !LoopEnv}
    ulong (w : world Q) b :
  i_buf (desc w) = Some b -> i_remain (desc w) = 0 -> htype (inet (desc w)) = TCP_PB_LINE_LF ->
  i_bufsz (desc w) = orig_size b -> i_ptr (desc w) = orig_size b ->
  0 < i_ptr_start (desc w) < i_ptr (desc w) -> LF ∉ drop (Z.to_nat (i_ptr_start (desc w))) b ->
  recv_prepare ulong 0 w = (inr (i_ptr_start (desc w)), w) /\
  i_ptr (desc w) + i_ptr_start (desc w) > orig_size b.
Proof.
  intros Eb Er Eh Ez Ep Hs Hlf. split; [|lia].
  unfold recv_prepare. rewrite (bind_eq get_desc _ _ _ _ eq_refl), Eb, Er. cbn [Z.ltb Z.compare Z.eqb].
  assert (loop_remain w = ((i_ptr_start (desc w), 0), w)) as Hr.
  { unfold loop_remain. rewrite (bind_eq get_desc _ _ _ _ eq_refl). cbv zeta. rewrite Eh.
    change (TCP_PB_LINE_LF =? TCP_PB_HTTPH) with false. rewrite (bind_eq skip _ w tt w eq_refl).
    change (packet_case_of TCP_PB_LINE_LF ?h ?p ?n ?z ?f) with
      (match memchr_int p LF n with None => if (z =? 0) && (f =? n) then Done n else More | Some i => Done (i + 1) end).
    unfold memchr_int, i_buf_bytes. rewrite Eb. cbn [default from_option id]. rewrite memchr_none by done. cbn [fmap option_fmap option_map].
    rewrite (proj2 (Z.eqb_neq (i_ptr (desc w)) (_ - _))) by lia. rewrite andb_false_r.
    rewrite (proj2 (Z.eqb_eq (_ - _) 0)) by lia. do 2 f_equal. f_equal. lia. }
  unfold poll_remain. rewrite (bind_eq _ _ _ _ _ Hr).
  rewrite (proj2 (Z.ltb_ge _ _)), (proj2 (Z.eqb_neq _ _)) by lia. done.
Qed.
(** A line is delivered to nobody on a passive port and the start of the next fills the buffer. *)
Definition setopts_event (l : list (Z * Z)) : event := Ctl INET_REQ_SETOPTS (flat_map opt_bytes l) 64 0.
Definition full_buffer : world (list bytes) :=
  steps (RT := rt_ok) (E := env_of 7) 64
    (connect_events ++ [setopts_event [(INET_LOPT_PACKET, TCP_PB_LINE_LF); (INET_LOPT_BUFFER, 8)];
                        Command [97; 10; 98; 98; 98; 98; 98; 98] 8]) sample_start.
Lemma full_buffer_overrun_witness :
  recv_prepare (RT := rt_ok) (E := env_of 7) 64 0 full_buffer = (inr (i_ptr_start (desc full_buffer)), full_buffer) /\
  i_ptr (desc full_buffer) + i_ptr_start (desc full_buffer) > orig_size [97; 10; 98; 98; 98; 98; 98; 98].
Proof.
  apply (full_buffer_overrun (RT := rt_ok) (E := env_of 7) 64 full_buffer [97; 10; 98; 98; 98; 98; 98; 98]);
    [vm_compute; reflexivity..|vm_compute; split; reflexivity|by_decision].
Defined.

(** What is sent to a passive port while no process waits is answered [ok] and lost: a receive
    afterwards waits. *)
Lemma passive_send_lost p a b c :
  let w := steps (RT := rt_ok) (E := env_of p) 64 (connect_events ++ [Command [a; b; c] 3; receive_event]) sample_start in
  sync_replies (calls w) = [(p, drop 2 (reply_ok_spec 1))] /\ answers (calls w) = [(p, 0)] /\
  pending (ops (inet (desc w))) = [(p, 1)] /\ queue w = [] /\ i_ptr (desc w) = 0.
Proof. split_and!; vm_compute; reflexivity. Qed.
(** What is sent beyond the size of the buffer waits in the queue, also on an active port. *)
Lemma long_send_stalls p a b c :
  let w := steps (RT := rt_ok) (E := env_of p) 64
    (connect_events ++ [setopts_event [(INET_LOPT_ACTIVE, INET_ACTIVE); (INET_LOPT_BUFFER, 2)]; Command [a; b; c] 3]) sample_start in
  sync_replies (calls w) = [(p, drop 2 (reply_ok_spec 1))] /\ packets w = [[a; b]] /\ concat (queue w) = [c].
Proof. split_and!; vm_compute; reflexivity. Qed.
