(* ===== verification/ZlibDrv.v ===== *)
(** The zlib driver: [zlib/c_src/zlib_drv.c].  A port holds one z_stream; data sent to it is
    queued, and a control command runs the library over the queue and sends what it produces.

    The zlib library is a parameter: each of its functions takes the library's part of the
    z_stream, the input at [next_in] and the room at [next_out], and says what it consumed and
    wrote. *)
From stdpp Require Import strings.
From S2P Require Import Prelude ErlTerm Erts.
#[local] Open Scope Z_scope.

(** * Constants *)

Definition DEFLATE_INIT := 1.
Definition DEFLATE_INIT2 := 2.
Definition DEFLATE_SETDICT := 3.
Definition DEFLATE_RESET := 4.
Definition DEFLATE_END := 5.
Definition DEFLATE_PARAMS := 6.
Definition DEFLATE := 7.
Definition INFLATE_INIT := 8.
Definition INFLATE_INIT2 := 9.
Definition INFLATE_SETDICT := 10.
Definition INFLATE_SYNC := 11.
Definition INFLATE_RESET := 12.
Definition INFLATE_END := 13.
Definition INFLATE := 14.
Definition CRC32_0 := 15.
Definition CRC32_1 := 16.
Definition CRC32_2 := 17.
Definition SET_BUFSZ := 18.
Definition GET_BUFSZ := 19.
Definition GET_QSIZE := 20.
Definition DEFAULT_BUFSZ := 4000.
(** [zlib.h] and [errno.h]. *)
Definition Z_NO_FLUSH := 0.
Definition Z_FINISH := 4.
Definition Z_OK := 0.
Definition Z_STREAM_END := 1.
Definition Z_NEED_DICT := 2.
Definition Z_ERRNO := -1.
Definition Z_STREAM_ERROR := -2.
Definition Z_DATA_ERROR := -3.
Definition Z_MEM_ERROR := -4.
Definition Z_BUF_ERROR := -5.
Definition Z_VERSION_ERROR := -6.
Definition ENOMEM := 12.
Definition EINVAL := 22.

(** * The library *)

Record zresult (Z_int : Type) := ZResult { z_code : Z; z_consumed : nat; z_written : bytes; z_next : Z_int }.
Arguments ZResult {Z_int}. Arguments z_code {Z_int}. Arguments z_consumed {Z_int}.
Arguments z_written {Z_int}. Arguments z_next {Z_int}.
Class ZLib := {
  z_int : Type;      (* the library's part of a z_stream *)
  z_zero : z_int;    (* all zero *)
  deflateInit : Z -> z_int -> bytes -> Z -> zresult z_int;
  deflateInit2 : Z -> Z -> Z -> Z -> Z -> z_int -> bytes -> Z -> zresult z_int;
  deflateSetDictionary : bytes -> z_int -> bytes -> Z -> zresult z_int;
  deflateReset : z_int -> bytes -> Z -> zresult z_int;
  deflateEnd : z_int -> bytes -> Z -> zresult z_int;
  deflateParams : Z -> Z -> z_int -> bytes -> Z -> zresult z_int;
  deflate : Z -> z_int -> bytes -> Z -> zresult z_int;
  inflateInit : z_int -> bytes -> Z -> zresult z_int;
  inflateInit2 : Z -> z_int -> bytes -> Z -> zresult z_int;
  inflateSetDictionary : bytes -> z_int -> bytes -> Z -> zresult z_int;
  inflateSync : z_int -> bytes -> Z -> zresult z_int;
  inflateReset : z_int -> bytes -> Z -> zresult z_int;
  inflateEnd : z_int -> bytes -> Z -> zresult z_int;
  inflate : Z -> z_int -> bytes -> Z -> zresult z_int;
  crc32 : Z -> bytes -> Z;
  crc32_init : Z;    (* crc32(0L, Z_NULL, 0) *)
}.

(** * The port *)

Inductive ZLibState := ST_NONE | ST_DEFLATE | ST_INFLATE.
#[export] Instance ZLibState_eq_dec : EqDecision ZLibState.
Proof. solve_decision. Defined.

(** [ZLibData] with the fields of its z_stream that the driver uses, [errno], the port's queue and
    the calls made.  [avail_in] is the length of [next_in]; [bin] is the part of the output binary
    in front of [next_out]. *)
Record world `{ZL : ZLib} (Q : Type) := World {
  zs : z_int;
  next_in : bytes;
  avail_out : Z;
  state : ZLibState;
  bin : option bytes;
  binsz : Z;
  binsz_need : Z;
  crc : Z;
  want_crc : bool;
  errno : Z;
  queue : Q;
  calls : log;
}.
Arguments World {ZL Q}. Arguments zs {ZL Q}. Arguments next_in {ZL Q}. Arguments avail_out {ZL Q}.
Arguments state {ZL Q}. Arguments bin {ZL Q}. Arguments binsz {ZL Q}. Arguments binsz_need {ZL Q}.
Arguments crc {ZL Q}. Arguments want_crc {ZL Q}. Arguments errno {ZL Q}. Arguments queue {ZL Q}. Arguments calls {ZL Q}.

Section Set_fields.
Context `{ZL : ZLib} {Q : Type}.
Implicit Types (w : world Q).
Definition set_stream (s : z_int) (i : bytes) (n : Z) (b : option bytes) w : world Q :=
  World s i n (state w) b (binsz w) (binsz_need w) (crc w) (want_crc w) (errno w) (queue w) (calls w).
Definition set_in (i : bytes) w : world Q :=
  World (zs w) i (avail_out w) (state w) (bin w) (binsz w) (binsz_need w) (crc w) (want_crc w) (errno w) (queue w) (calls w).
Definition set_out (b : option bytes) (sz n : Z) w : world Q :=
  World (zs w) (next_in w) n (state w) b sz (binsz_need w) (crc w) (want_crc w) (errno w) (queue w) (calls w).
Definition set_state (st : ZLibState) w : world Q :=
  World (zs w) (next_in w) (avail_out w) st (bin w) (binsz w) (binsz_need w) (crc w) (want_crc w) (errno w) (queue w) (calls w).
Definition set_need (n : Z) w : world Q :=
  World (zs w) (next_in w) (avail_out w) (state w) (bin w) (binsz w) n (crc w) (want_crc w) (errno w) (queue w) (calls w).
Definition set_crc (c : Z) w : world Q :=
  World (zs w) (next_in w) (avail_out w) (state w) (bin w) (binsz w) (binsz_need w) c (want_crc w) (errno w) (queue w) (calls w).
Definition set_want (b : bool) w : world Q :=
  World (zs w) (next_in w) (avail_out w) (state w) (bin w) (binsz w) (binsz_need w) (crc w) b (errno w) (queue w) (calls w).
Definition set_errno (e : Z) w : world Q :=
  World (zs w) (next_in w) (avail_out w) (state w) (bin w) (binsz w) (binsz_need w) (crc w) (want_crc w) e (queue w) (calls w).
Definition set_queue (q : Q) w : world Q :=
  World (zs w) (next_in w) (avail_out w) (state w) (bin w) (binsz w) (binsz_need w) (crc w) (want_crc w) (errno w) q (calls w).
#[export] Instance world_log : HasLog (world Q) := {|
  log_of := calls;
  set_log l w := World (zs w) (next_in w) (avail_out w) (state w) (bin w) (binsz w) (binsz_need w) (crc w) (want_crc w) (errno w) (queue w) l |}.
End Set_fields.

(** [i32]: the same as [get_int32]. *)
Definition i32 (buf : bytes) : Z := get_int32 buf.

Section Driver.
Context `{ZL : ZLib} {Q : Type} `{PQ : !PortQueue Q} `{IV : !IOVec Q} `{RT : !Runtime}.
Context (erl_errno_id : Z -> string).
Implicit Types (w : world Q).
Abbreviation Zm := (M (world Q)).

(** ** Replies *)

(** The reason and [*err]. *)
Definition zlib_reason (code errno : Z) : string * Z :=
  if code =? Z_OK then ("ok"%string, 0)
  else if code =? Z_STREAM_END then ("stream_end"%string, 0)
  else if code =? Z_ERRNO then (erl_errno_id errno, 1)
  else if code =? Z_STREAM_ERROR then ("stream"%string, 1)
  else if code =? Z_DATA_ERROR then ("data"%string, 1)
  else if code =? Z_MEM_ERROR then ("mem"%string, 1)
  else if code =? Z_BUF_ERROR then ("buf"%string, 1)
  else if code =? Z_VERSION_ERROR then ("version"%string, 1)
  else ("unknown"%string, 1).

(** The number returned and the bytes written to [*rbuf]; the first byte is written whatever
    [rlen]. *)
Definition zlib_return (code rlen : Z) : Zm (Z * bytes) :=
  w ← get;
  let '(src, msg_code) := zlib_reason code (errno w) in
  let out := msg_code :: take (Z.to_nat (rlen - 1)) (lit src) in
  mret (Z.of_nat (length out), out).

Definition zlib_value (value rlen : Z) : Zm (Z * bytes) :=
  if rlen <? 5 then mret (-1, []) else mret (5, 2 :: put_int32 value).

(** ** Output *)

Definition zlib_output_init : Zm Z :=
  w ← get;
  ok ← driver_alloc_ok (binsz_need w);
  if ok : bool then
    modify (set_out (Some []) (binsz_need w) (binsz_need w));;; mret 0
  else
    modify (set_out None (binsz w) (avail_out w));;; mret (-1).

Definition zlib_output : Zm Z :=
  w ← get;
  match bin w with
  | Some b =>
      let len := int32 (binsz w - avail_out w) in
      r ← (if 0 <? len then do_call (OutputBinary [] 0 b 0 len) else mret 0);
      if r <? 0 then mret (-1) else
      modify (fun w => set_out None 0 (avail_out w) w);;;
      zlib_output_init
  | None => zlib_output_init
  end.

(** ** The library on the port's z_stream *)

(** What is written where no binary is is lost. *)
Definition zcall (f : z_int -> bytes -> Z -> zresult z_int) : Zm Z :=
  w ← get;
  let r := f (zs w) (next_in w) (avail_out w) in
  modify (set_stream (z_next r) (drop (z_consumed r) (next_in w))
    (avail_out w - Z.of_nat (length (z_written r))) ((fun b => b ++ z_written r) <$> bin w));;;
  mret (z_code r).

Definition crc_output : Zm unit :=
  w ← get;
  if want_crc w then
    modify (set_crc (crc32 (crc w) (take (Z.to_nat (int32 (binsz w - avail_out w))) (default [] (bin w)))))
  else skip.
Definition crc_input (data : bytes) : Zm unit :=
  w ← get;
  if want_crc w then modify (set_crc (crc32 (crc w) data)) else skip.

(** The loops that [zlib_inflate] and [zlib_deflate] share: [f] is the library's function,
    [before] is run before each output and [after] on the input taken from a segment.  The
    result is [inl code] for [return code], [inr res] for the end of the loop; [None] when the
    fuel, the number of turns of each loop, does not suffice. *)
Section Pump.
Context (f : Z -> z_int -> bytes -> Z -> zresult z_int) (before : Zm unit) (after : bytes -> Zm unit).

(** [while ((d->s.avail_in > 0) && (res != Z_STREAM_END))] *)
Fixpoint feed (fuel : nat) (res : Z) : Zm (option (Z + Z)) :=
  w ← get;
  if negb (bool_decide (next_in w = [])) && negb (res =? Z_STREAM_END) then
    match fuel with
    | O => mret None
    | S fuel =>
        res ← zcall (f Z_NO_FLUSH);
        if res <? 0 then mret (Some (inl res)) else
        w ← get;
        (when avail_out w =? 0 do (before;;; zlib_output;;; skip));;;
        feed fuel res
    end
  else mret (Some (inr res)).

(** [while ((driver_sizeq(d->port) > 0) && (res != Z_STREAM_END))] *)
Fixpoint pump (fuel n : nat) (res : Z) : Zm (option (Z + Z)) :=
  w ← get;
  if (0 <? driver_sizeq (queue w)) && negb (res =? Z_STREAM_END) then
    match n with
    | O => mret None
    | S n =>
        let iov := hd [] (driver_peekq (queue w)) in
        modify (set_in iov);;;
        r ← feed fuel res;
        match r with
        | Some (inr res) =>
            w ← get;
            let len := (length iov - length (next_in w))%nat in
            after (take len iov);;;
            w ← get;
            modify (set_queue (driver_deq (queue w) (Z.of_nat len)));;;
            pump fuel n res
        | r => mret r
        end
    end
  else mret (Some (inr res)).

(** [while (d->s.avail_out < d->binsz)] *)
Fixpoint drain (fuel : nat) (flush res : Z) : Zm (option (Z + Z)) :=
  w ← get;
  if avail_out w <? binsz w then
    match fuel with
    | O => mret None
    | S fuel =>
        before;;;
        zlib_output;;;
        if res =? Z_STREAM_END then mret (Some (inr res)) else
        res ← zcall (f flush);
        if res <? 0 then mret (Some (inl res)) else drain fuel flush res
    end
  else mret (Some (inr res)).

Definition code_of (r : option (Z + Z)) : option Z := match r with Some (inl c) | Some (inr c) => Some c | None => None end.
Definition zlib_run (fuel : nat) (flush : Z) : Zm (option Z) :=
  w ← get;
  i ← (if bin w is None then zlib_output_init else mret 0);
  if i <? 0 then modify (set_errno ENOMEM);;; mret (Some Z_ERRNO) else
  r ← pump fuel fuel Z_OK;
  match r with
  | Some (inr res) =>
      if flush =? Z_NO_FLUSH then mret (Some res) else
      res ← zcall (f flush);
      if res <? 0 then mret (Some res) else
      r ← drain fuel flush res;
      mret (code_of r)
  | r => mret (code_of r)
  end.
End Pump.

Definition zlib_inflate (fuel : nat) (flush : Z) : Zm (option Z) := zlib_run inflate crc_output (fun _ => skip) fuel flush.
Definition zlib_deflate (fuel : nat) (flush : Z) : Zm (option Z) := zlib_run deflate skip crc_input fuel flush.

(** ** Start, stop and control *)

(** The block allocated is [dsz] bytes; [None] where the start fails. *)
Definition zlib_start (dsz : Z) (q : Q) : option (world Q) :=
  if alloc_ok [] dsz then
    Some (World z_zero [] 0 ST_NONE None 0 DEFAULT_BUFSZ crc32_init false 0 q [])
  else None.

Definition zlib_stop : Zm unit :=
  w ← get;
  match state w with
  | ST_DEFLATE => zcall deflateEnd;;; skip
  | ST_INFLATE => zcall inflateEnd;;; skip
  | ST_NONE => skip
  end.

Definition badarg (rlen : Z) : Zm (Z * bytes) :=
  modify (set_errno EINVAL);;; zlib_return Z_ERRNO rlen.
Definition flush_queue : Zm unit :=
  w ← get;
  modify (set_queue (driver_deq (queue w) (int32 (driver_sizeq (queue w))))).

(** [deflateInit] and its like: the state changes when they succeed. *)
Definition zlib_open (f : z_int -> bytes -> Z -> zresult z_int) (st : ZLibState) (want : bool) (rlen : Z) : Zm (Z * bytes) :=
  w ← get;
  if negb (bool_decide (state w = ST_NONE)) then badarg rlen else
  res ← zcall f;
  (when res =? Z_OK do
    modify (fun w => set_crc crc32_init (set_want want (set_state st w))));;;
  zlib_return res rlen.
(** An operation on an open stream; [st] is the state it needs. *)
Definition zlib_op (f : z_int -> bytes -> Z -> zresult z_int) (st : ZLibState) (rlen : Z) : Zm (Z * bytes) :=
  w ← get;
  if negb (bool_decide (state w = st)) then badarg rlen else
  res ← zcall f;
  zlib_return res rlen.
Definition zlib_reset (f : z_int -> bytes -> Z -> zresult z_int) (st : ZLibState) (rlen : Z) : Zm (Z * bytes) :=
  w ← get;
  if negb (bool_decide (state w = st)) then badarg rlen else
  flush_queue;;;
  res ← zcall f;
  zlib_return res rlen.
Definition zlib_end (f : z_int -> bytes -> Z -> zresult z_int) (st : ZLibState) (rlen : Z) : Zm (Z * bytes) :=
  w ← get;
  if negb (bool_decide (state w = st)) then badarg rlen else
  flush_queue;;;
  res ← zcall f;
  modify (set_state ST_NONE);;;
  zlib_return res rlen.
Definition zlib_process (run : nat -> Z -> Zm (option Z)) (st : ZLibState) (fuel : nat) (buf : bytes) (rlen : Z)
    : Zm (option (Z * bytes)) :=
  w ← get;
  if negb (bool_decide (state w = st)) || negb (length buf =? 4)%nat then r ← badarg rlen; mret (Some r) else
  res ← run fuel (i32 buf);
  match res with
  | None => mret None
  | Some res => r ← zlib_return res rlen; mret (Some r)
  end.

Definition zlib_set_bufsz (buf : bytes) (rlen : Z) : Zm (Z * bytes) :=
  if negb (length buf =? 4)%nat then badarg rlen else
  let need := i32 buf in
  if (need <? 16) || (need >? 0x00ffffff) then badarg rlen else
  w ← get;
  (when negb (binsz_need w =? need) do
    modify (set_need need);;;
    match bin w with
    | Some _ =>
        if avail_out w =? binsz w then modify (fun w => set_out None 0 (avail_out w) w)
        else zlib_output;;; skip
    | None => skip
    end);;;
  zlib_return Z_OK rlen.

Definition some_of {A} (m : Zm A) : Zm (option A) := r ← m; mret (Some r).
(** [uLong] has [ulong] bits; [None] where the fuel of DEFLATE or INFLATE does not suffice. *)
Definition zlib_ctl (ulong : Z) (fuel : nat) (command : Z) (buf : bytes) (rlen : Z) : Zm (option (Z * bytes)) :=
  let len := length buf in
  let arg (i : Z) := i32 (drop (Z.to_nat i) buf) in
  if command =? DEFLATE_INIT then
    some_of (if negb (len =? 4)%nat then badarg rlen else zlib_open (deflateInit (arg 0)) ST_DEFLATE false rlen)
  else if command =? DEFLATE_INIT2 then
    some_of (if negb (len =? 20)%nat then badarg rlen
          else zlib_open (deflateInit2 (arg 0) (arg 4) (arg 8) (arg 12) (arg 16)) ST_DEFLATE (arg 8 <? 0) rlen)
  else if command =? DEFLATE_SETDICT then some_of (zlib_op (deflateSetDictionary buf) ST_DEFLATE rlen)
  else if command =? DEFLATE_RESET then
    some_of (if negb (len =? 0)%nat then badarg rlen else zlib_reset deflateReset ST_DEFLATE rlen)
  else if command =? DEFLATE_END then
    some_of (if negb (len =? 0)%nat then badarg rlen else zlib_end deflateEnd ST_DEFLATE rlen)
  else if command =? DEFLATE_PARAMS then
    some_of (if negb (len =? 8)%nat then badarg rlen else zlib_op (deflateParams (arg 0) (arg 4)) ST_DEFLATE rlen)
  else if command =? DEFLATE then zlib_process zlib_deflate ST_DEFLATE fuel buf rlen
  else if command =? INFLATE_INIT then
    some_of (if negb (len =? 0)%nat then badarg rlen else zlib_open inflateInit ST_INFLATE false rlen)
  else if command =? INFLATE_INIT2 then
    some_of (if negb (len =? 4)%nat then badarg rlen
          else zlib_open (inflateInit2 (arg 0)) ST_INFLATE (arg 0 <? 0) rlen)
  else if command =? INFLATE_SETDICT then some_of (zlib_op (inflateSetDictionary buf) ST_INFLATE rlen)
  else if command =? INFLATE_SYNC then
    some_of (if negb (len =? 0)%nat then badarg rlen else zlib_op inflateSync ST_INFLATE rlen)
  else if command =? INFLATE_RESET then
    some_of (if negb (len =? 0)%nat then badarg rlen else zlib_reset inflateReset ST_INFLATE rlen)
  else if command =? INFLATE_END then
    some_of (if negb (len =? 0)%nat then badarg rlen else zlib_end inflateEnd ST_INFLATE rlen)
  else if command =? INFLATE then zlib_process zlib_inflate ST_INFLATE fuel buf rlen
  else if command =? GET_QSIZE then some_of (w ← get; zlib_value (int32 (driver_sizeq (queue w))) rlen)
  else if command =? GET_BUFSZ then some_of (w ← get; zlib_value (binsz_need w) rlen)
  else if command =? SET_BUFSZ then some_of (zlib_set_bufsz buf rlen)
  else if command =? CRC32_0 then some_of (w ← get; zlib_value (int32 (crc w)) rlen)
  else if command =? CRC32_1 then some_of (zlib_value (int32 (crc32 crc32_init buf)) rlen)
  else if command =? CRC32_2 then
    some_of (if (len <? 4)%nat then badarg rlen
          else zlib_value (int32 (crc32 (wrap ulong (i32 buf)) (drop 4 buf))) rlen)
  else some_of (badarg rlen).

Definition zlib_outputv (ev : list bytes) : Zm unit :=
  w ← get;
  modify (set_queue (driver_enqv (queue w) ev 0)).
End Driver.

(** * The port as a pipe to the library *)

(** Calls of the library in a row that do not fail: the input consumed and the output written. *)
Inductive lib_runs `{ZL : ZLib} (f : Z -> z_int -> bytes -> Z -> zresult z_int) : z_int -> bytes -> bytes -> z_int -> Prop :=
  | lib_none s : lib_runs f s [] [] s
  | lib_call s fl i n ins outs s' : 0 < n -> 0 <= z_code (f fl s i n) ->
      lib_runs f (z_next (f fl s i n)) ins outs s' ->
      lib_runs f s (take (z_consumed (f fl s i n)) i ++ ins) (z_written (f fl s i n) ++ outs) s'.

(** What [zlib.h] promises of [deflate] and [inflate]: they consume no more than there is and write no
    more than there is room for; [z_ended] are the streams whose end was reported, where nothing more is consumed. *)
Class ZStream `{ZL : ZLib} (f : Z -> z_int -> bytes -> Z -> zresult z_int) := {
  z_ended : z_int -> Prop;
  zl_consumed fl s i n : (z_consumed (f fl s i n) <= length i)%nat;
  zl_written fl s i n : 0 <= n -> Z.of_nat (length (z_written (f fl s i n))) <= n;
  zl_end fl s i n : z_code (f fl s i n) = Z_STREAM_END -> z_ended (z_next (f fl s i n));
  zl_ended fl s i n : z_ended s -> z_consumed (f fl s i n) = 0%nat /\ z_ended (z_next (f fl s i n));
}.
(** Checksums can be computed piecewise. *)
Class Checksum `{ZL : ZLib} : Prop := {
  crc32_nil c : crc32 c [] = c;
  crc32_app c a b : crc32 c (a ++ b) = crc32 (crc32 c a) b;
}.
(** Messages to the owner are accepted. *)
Class Sends `{RT : Runtime} : Prop := sends l c : 0 <= send_rc l c.

Definition output_of (c : call) : option bytes :=
  match c with OutputBinary _ _ b o n => Some (slice (Z.to_nat o) (Z.to_nat n) b) | _ => None end.
Definition outputs (l : log) : list bytes := omap output_of l.

Lemma lib_runs_app `{ZL : ZLib} f s i o s1 i' o' s2 :
  lib_runs f s i o s1 -> lib_runs f s1 i' o' s2 -> lib_runs f s (i ++ i') (o ++ o') s2.
Proof. induction 1 as [|s fl i n ins outs s' Hn Hc Hr IH]; [done|]. intros H2. rewrite <-!app_assoc. constructor; auto. Qed.

Section Pipe.
Context `{ZL : ZLib} {Q : Type} `{PL : PortQueueLaws Q} `{IV : !IOVec Q} `{RT : !Runtime}.
Context `{MEM : !Memory} `{SND : !Sends} `{CRC : !Checksum} `{SEG : !Segments Q}.
Context (f : Z -> z_int -> bytes -> Z -> zresult z_int) `{ZS : !ZStream f}.
(** [inflating]: the checksum is that of the output. *)
Context (inflating : bool).
Implicit Types (w : world Q).
Let before : M (world Q) unit := if inflating then crc_output else skip.
Let after (data : bytes) : M (world Q) unit := if inflating then skip else crc_input data.

(** An output binary with room. *)
Record out_ok w : Prop := OutOk {
  oo_bin : bin w <> None;
  oo_size : avail_out w = binsz w - Z.of_nat (length (default [] (bin w)));
  oo_room : 0 < avail_out w;
  oo_max : binsz w < 2 ^ 31;
  oo_need : 0 < binsz_need w < 2 ^ 31;
}.
(** From [w] to [w'] the library consumed [i] and wrote [o], and [new] was sent. *)
Record piped w (i o : bytes) (new : list bytes) w' : Prop := Piped {
  pp_lib : lib_runs f (zs w) i o (zs w');
  pp_sent : outputs (calls w') = outputs (calls w) ++ new;
  pp_bytes : concat new ++ default [] (bin w') = default [] (bin w) ++ o;
  pp_want : want_crc w' = want_crc w;
  pp_state : state w' = state w;
  pp_need : binsz_need w' = binsz_need w;
}.
Lemma piped_trans a b c i o n i' o' n' : piped a i o n b -> piped b i' o' n' c -> piped a (i ++ i') (o ++ o') (n ++ n') c.
Proof.
  intros [] []. split; try congruence.
  - by eapply lib_runs_app.
  - by rewrite pp_sent1, pp_sent0, app_assoc.
  - by rewrite concat_app, <-app_assoc, pp_bytes1, app_assoc, pp_bytes0, app_assoc.
Qed.
Lemma piped_refl w w' : zs w' = zs w -> outputs (calls w') = outputs (calls w) -> bin w' = bin w ->
  want_crc w' = want_crc w -> state w' = state w -> binsz_need w' = binsz_need w -> piped w [] [] [] w'.
Proof. intros E1 E2 E3 E4 E5 E6. split; rewrite ?E1, ?E2, ?E3, ?app_nil_r; try done. constructor. Qed.

(** The checksum of [data]. *)
Definition crc_with w (data : bytes) : Z := if want_crc w then crc32 (crc w) data else crc w.

Lemma output_ok w : bin w <> None -> avail_out w = binsz w - Z.of_nat (length (default [] (bin w))) ->
  binsz w < 2 ^ 31 -> 0 <= avail_out w -> 0 < binsz_need w < 2 ^ 31 ->
  exists w' new, zlib_output w = (0, w') /\ piped w [] [] new w' /\ concat new = default [] (bin w) /\ out_ok w' /\
    bin w' = Some [] /\ binsz w' = avail_out w' /\ next_in w' = next_in w /\ queue w' = queue w /\ crc w' = crc w /\ zs w' = zs w.
Proof.
  intros Hb Hs Hmax Ha Hn. destruct (bin w) as [b|] eqn:Eb; [|done].
  cbn [default from_option id] in Hs. clear Hb.
  assert (forall w1, binsz_need w1 = binsz_need w ->
    zlib_output_init w1 = (0, set_out (Some []) (binsz_need w1) (binsz_need w1) w1)) as Hi.
  { intros w1 _. unfold zlib_output_init. rewrite (bind_eq get _ _ _ _ eq_refl).
    assert (driver_alloc_ok (binsz_need w1) w1 = (true, w1)) as Ea by (unfold driver_alloc_ok; by rewrite memory).
    by rewrite (bind_eq _ _ _ _ _ Ea). }
  unfold zlib_output. rewrite (bind_eq get _ _ _ _ eq_refl), Eb. cbv zeta.
  assert (int32 (binsz w - avail_out w) = Z.of_nat (length b)) as ->.
  { rewrite sint_small; lia. }
  set (w1 := if 0 <? Z.of_nat (length b) then set_log (calls w ++ [OutputBinary [] 0 b 0 (Z.of_nat (length b))]) w else w).
  set (r1 := if 0 <? Z.of_nat (length b) then send_rc (calls w) (OutputBinary [] 0 b 0 (Z.of_nat (length b))) else 0).
  assert ((if 0 <? Z.of_nat (length b) then do_call (OutputBinary [] 0 b 0 (Z.of_nat (length b))) else mret 0) w = (r1, w1)) as Ec.
  { subst r1 w1. by destruct (0 <? _). }
  rewrite (bind_eq _ _ _ _ _ Ec). assert (0 <= r1) as Hr by (subst r1; destruct (0 <? _); [apply sends|done]).
  rewrite (proj2 (Z.ltb_ge r1 0)) by done.
  set (w2 := set_out None 0 (avail_out w1) w1). rewrite (bind_eq (modify (fun w => set_out None 0 (avail_out w) w)) _ w1 tt w2 eq_refl).
  rewrite Hi by (subst w2 w1; by destruct (0 <? _)).
  exists (set_out (Some []) (binsz_need w2) (binsz_need w2) w2), (if 0 <? Z.of_nat (length b) then [b] else []).
  assert ((0 <? Z.of_nat (length b)) = false -> b = []) as Hnil by (intros; apply nil_length_inv; lia).
  split_and!; try done; try (subst w2 w1; by destruct (0 <? _)).
  - split; try (subst w2 w1; by destruct (0 <? _)).
    + subst w2 w1. destruct (0 <? _); constructor.
    + subst w2 w1. destruct (0 <? _); cbn; [|by rewrite app_nil_r].
      unfold outputs. rewrite omap_app. cbn. unfold slice. by rewrite Nat2Z.id, drop_0, take_ge.
    + rewrite Eb. destruct (0 <? _) eqn:E0; cbn; rewrite ?app_nil_r; [done|by rewrite Hnil].
  - destruct (0 <? _) eqn:E0; cbn; [by rewrite app_nil_r|by rewrite Hnil].
  - subst w2 w1. destruct (0 <? _); split; cbn; try done; lia.
Qed.

Lemma zcall_ok fl w : out_ok w -> let '(r, w') := zcall (f fl) w in
  exists i o, z_code (f fl (zs w) (next_in w) (avail_out w)) = r /\ next_in w = i ++ next_in w' /\
    (0 <= r -> piped w i o [] w') /\ bin w' <> None /\
    avail_out w' = binsz w' - Z.of_nat (length (default [] (bin w'))) /\ 0 <= avail_out w' /\ binsz w' = binsz w /\
    binsz_need w' = binsz_need w /\ queue w' = queue w /\ crc w' = crc w /\ want_crc w' = want_crc w /\
    zs w' = z_next (f fl (zs w) (next_in w) (avail_out w)) /\
    avail_out w' = avail_out w - Z.of_nat (length o) /\
    length i = z_consumed (f fl (zs w) (next_in w) (avail_out w)) /\ o = z_written (f fl (zs w) (next_in w) (avail_out w)).
Proof.
  intros []. unfold zcall. rewrite (bind_eq get _ _ _ _ eq_refl). cbv zeta. rewrite (bind_eq (modify _) _ w tt _ eq_refl).
  set (r := f fl (zs w) (next_in w) (avail_out w)). cbn [mret M_ret].
  pose proof (zl_written fl (zs w) (next_in w) (avail_out w) ltac:(lia)) as Hw.
  pose proof (zl_consumed fl (zs w) (next_in w) (avail_out w)) as Hc. fold r in Hw, Hc.
  destruct (bin w) as [b|] eqn:Eb; [|done]. cbn [default from_option id] in *.
  exists (take (z_consumed r) (next_in w)), (z_written r). cbn [set_stream zs next_in avail_out bin binsz binsz_need queue crc want_crc].
  rewrite take_drop, length_take. cbn [fmap option_fmap option_map default from_option id]. rewrite length_app.
  split_and!; try done; try lia.
  intros H0. split; cbn; rewrite ?Eb, ?app_nil_r; try done.
  pose proof (lib_call f (zs w) fl (next_in w) (avail_out w) [] [] (z_next r) ltac:(lia) H0 (lib_none _ _)) as Hr.
  by rewrite !app_nil_r in Hr.
Qed.
Lemma before_eq w : bin w <> None -> avail_out w = binsz w - Z.of_nat (length (default [] (bin w))) -> binsz w < 2 ^ 31 ->
  0 <= avail_out w ->
  before w = (tt, if inflating then set_crc (crc_with w (default [] (bin w))) w else w).
Proof.
  intros Hb Hs Hm Ha. unfold before. destruct inflating; [|done]. unfold crc_output.
  rewrite (bind_eq get _ _ _ _ eq_refl). unfold crc_with. destruct (want_crc w); [|by destruct w].
  unfold modify. assert (int32 (binsz w - avail_out w) = Z.of_nat (length (default [] (bin w)))) as ->.
  { rewrite sint_small; lia. }
  by rewrite Nat2Z.id, take_ge by done.
Qed.
(** An output, with the checksum before it. *)
Definition crc_sent w (new : list bytes) : Z := if inflating then crc_with w (concat new) else crc w.
Lemma send_ok w : bin w <> None -> avail_out w = binsz w - Z.of_nat (length (default [] (bin w))) ->
  binsz w < 2 ^ 31 -> 0 <= avail_out w -> 0 < binsz_need w < 2 ^ 31 ->
  exists w' new, (before;;; zlib_output;;; skip) w = (tt, w') /\ piped w [] [] new w' /\ out_ok w' /\
    bin w' = Some [] /\ binsz w' = avail_out w' /\ next_in w' = next_in w /\ queue w' = queue w /\
    crc w' = crc_sent w new /\ concat new = default [] (bin w) /\ zs w' = zs w.
Proof.
  intros Hb Hs Hm Ha Hn. rewrite (bind_eq _ _ _ _ _ (before_eq w Hb Hs Hm Ha)).
  set (w1 := if inflating then _ else w).
  destruct (output_ok w1) as (w' & new & Ho & Hp & Hnew & Hok & Hbin & Hsz & Hi & Hq & Hcrc & Hz);
    try (subst w1; by destruct inflating).
  exists w', new. rewrite (bind_eq _ _ _ _ _ Ho). split; [done|].
  assert (default [] (bin w1) = default [] (bin w)) as Ebin by (subst w1; by destruct inflating).
  split_and!; try done; try (subst w1; by destruct inflating).
  - destruct Hp. split; try done; subst w1; destruct inflating; done.
  - rewrite Hcrc. unfold crc_sent. rewrite Hnew, Ebin. subst w1. by destruct inflating.
Qed.
Lemma crc_sent_app w w' a b : want_crc w' = want_crc w -> crc w' = crc_sent w a -> crc_sent w' b = crc_sent w (a ++ b).
Proof.
  intros Hw Hc. unfold crc_sent, crc_with in *. rewrite Hc, Hw. destruct inflating; [|done].
  destruct (want_crc w); [|done]. by rewrite concat_app, crc32_app.
Qed.
Lemma crc_sent_nil w : crc_sent w [] = crc w.
Proof. unfold crc_sent, crc_with. cbn. rewrite crc32_nil. by destruct inflating, (want_crc w). Qed.

(** One turn of the loop. *)
Lemma turn_ok w : out_ok w -> let '(r, w1) := zcall (f Z_NO_FLUSH) w in
  let res := f Z_NO_FLUSH (zs w) (next_in w) (avail_out w) in
  r = z_code res /\ (0 <= r -> exists w2 i new,
    (when avail_out w1 =? 0 do (before;;; zlib_output;;; skip)) w1 = (tt, w2) /\
    next_in w = i ++ next_in w2 /\ piped w i (z_written res) new w2 /\ out_ok w2 /\ queue w2 = queue w /\
    crc w2 = crc_sent w new /\ zs w2 = z_next res /\ length i = z_consumed res).
Proof.
  intros Hw. pose proof (zcall_ok Z_NO_FLUSH w Hw) as Hz. destruct (zcall (f Z_NO_FLUSH) w) as [r w1] eqn:E1.
  destruct Hz as (i & o & Hr & Hi & Hp & Hb & Hs & Ha & Hz & Hn & Hq & Hc & Hwant & Hzs & _ & Hli & ->).
  split; [done|]. intros H0. specialize (Hp H0). pose proof Hw as []. destruct (Z.eqb_spec (avail_out w1) 0).
  - destruct (send_ok w1) as (w2 & new & E2 & Hp2 & Hok2 & _ & _ & Hi2 & Hq2 & Hc2 & _ & Hzs2); try done; try lia.
    pose proof (piped_trans _ _ _ _ _ _ _ _ _ Hp Hp2) as Hp3. rewrite !app_nil_r in Hp3. cbn [app] in Hp3.
    exists w2, i, new. split_and!; try done; [congruence|congruence| |congruence].
    rewrite Hc2. by apply (crc_sent_app w w1 [] new); [|rewrite crc_sent_nil].
  - exists w1, i, []. split_and!; try done; [split; try done; lia|]. by rewrite crc_sent_nil.
Qed.
Lemma feed_ok fuel : forall res w, out_ok w -> 0 <= res -> (res = Z_STREAM_END -> z_ended (zs w)) ->
  match feed f before fuel res w with
  | (Some (inr res'), w') => exists i o new, next_in w = i ++ next_in w' /\ piped w i o new w' /\ out_ok w' /\
      queue w' = queue w /\ crc w' = crc_sent w new /\ (next_in w' = [] \/ res' = Z_STREAM_END) /\ 0 <= res' /\
      (res' = Z_STREAM_END -> z_ended (zs w'))
  | (Some (inl c), _) => c < 0
  | _ => True
  end.
Proof.
  induction fuel as [|fuel IH]; intros res w Hw H0 He; cbn [feed]; rewrite (bind_eq get _ _ _ _ eq_refl).
  all: destruct (negb _ && _) eqn:Ec; [|cbn [mret M_ret]; exists [], [], []; rewrite crc_sent_nil;
    split_and!; try done; [by apply piped_refl|];
    apply andb_false_iff in Ec as [Ec|Ec]; apply negb_false_iff in Ec; [left; by apply bool_decide_eq_true in Ec|right; lia]].
  { done. }
  pose proof (turn_ok w Hw) as Ht. destruct (zcall (f Z_NO_FLUSH) w) as [r w1] eqn:E1. destruct Ht as [Hr Ht].
  rewrite (bind_eq _ _ _ _ _ E1). destruct (Z.ltb_spec r 0); [done|].
  destruct (Ht ltac:(done)) as (w2 & i & new & E2 & Hi & Hp & Hok & Hq & Hc & Hzs & _).
  rewrite (bind_eq get _ _ _ _ eq_refl), (bind_eq _ _ _ _ _ E2).
  assert (r = Z_STREAM_END -> z_ended (zs w2)) as He2.
  { intros ->. rewrite Hzs. by apply zl_end. }
  specialize (IH r w2 Hok ltac:(lia) He2). destruct (feed f before fuel r w2) as [[[c|res']|] w3] eqn:E3; try done.
  destruct IH as (i' & o' & new' & Hi3 & Hp3 & Hok3 & Hq3 & Hc3 & He3 & Hr3 & Hend3).
  exists (i ++ i'), (z_written (f Z_NO_FLUSH (zs w) (next_in w) (avail_out w)) ++ o'), (new ++ new').
  split_and!; try done; try congruence.
  - by rewrite Hi, Hi3, app_assoc.
  - by eapply piped_trans.
  - rewrite Hc3. apply crc_sent_app; [by destruct Hp|done].
Qed.
(** The checksum after [i] was consumed and [new] sent. *)
Definition crc_piped w (i : bytes) (new : list bytes) : Z := crc_with w (if inflating then concat new else i).
Lemma after_eq w data : after data w = (tt, if inflating then w else set_crc (crc_with w data) w).
Proof.
  unfold after, crc_with. destruct inflating; [done|]. unfold crc_input. rewrite (bind_eq get _ _ _ _ eq_refl).
  destruct (want_crc w); [done|by destruct w].
Qed.
Lemma crc_piped_app w w' i new i' new' : want_crc w' = want_crc w -> crc w' = crc_piped w i new ->
  crc_piped w' i' new' = crc_piped w (i ++ i') (new ++ new').
Proof.
  intros Hw Hc. unfold crc_piped, crc_with in *. rewrite Hc, Hw. destruct (want_crc w); [|done].
  destruct inflating; [by rewrite concat_app, crc32_app|by rewrite crc32_app].
Qed.
(** One segment of the queue. *)
Lemma segment_ok fuel res w : out_ok w -> 0 <= res -> (res = Z_STREAM_END -> z_ended (zs w)) ->
  q_bytes (queue w) <> [] ->
  let iov := hd [] (driver_peekq (queue w)) in
  match feed f before fuel res (set_in iov w) with
  | (Some (inr res'), w1) =>
      let len := (length iov - length (next_in w1))%nat in
      let w2 := snd (after (take len iov) w1) in
      let w' := set_queue (driver_deq (queue w2) (Z.of_nat len)) w2 in
      exists i o new, q_bytes (queue w) = i ++ q_bytes (queue w') /\ piped w i o new w' /\ out_ok w' /\
        crc w' = crc_piped w i new /\ (next_in w' = [] \/ z_ended (zs w')) /\ 0 <= res' /\
        (res' = Z_STREAM_END -> z_ended (zs w')) /\ (i <> [] \/ res' = Z_STREAM_END)
  | (Some (inl c), _) => c < 0
  | _ => True
  end.
Proof.
  intros Hw H0 He Hq iov. destruct (segments (queue w) Hq) as (c & l & Epeek & Hc).
  assert (iov = c) as -> by (subst iov; by rewrite Epeek).
  assert (q_bytes (queue w) = c ++ concat l) as Eq by (rewrite <-q_peekq_bytes, Epeek; done).
  assert (out_ok (set_in c w)) as Hw1 by (by destruct Hw).
  pose proof (feed_ok fuel res (set_in c w) Hw1 H0 He) as Hf.
  destruct (feed f before fuel res (set_in c w)) as [[[?|res']|] w1]; try done.
  destruct Hf as (i & o & new & Hi & Hp & Hok & Hqu & Hcrc & Hend & Hr & He2). cbn [set_in next_in] in Hi. cbv zeta.
  assert (length c - length (next_in w1) = length i)%nat as -> by (rewrite Hi, length_app; lia).
  assert (take (length i) c = i) as -> by (rewrite Hi; apply take_app_length).
  rewrite after_eq. cbn [snd]. set (w2 := if inflating then w1 else _).
  assert (queue w2 = queue w) as Eq2 by (subst w2; by destruct inflating).
  exists i, o, new. cbn [set_queue queue]. rewrite Eq2, q_deq_bytes by (rewrite Eq, Hi, !length_app; lia).
  rewrite Nat2Z.id. split_and!; try done.
  - rewrite Eq, Hi, <-app_assoc, drop_app_length. done.
  - destruct Hp. subst w2. by destruct inflating.
  - destruct Hok. subst w2. by destruct inflating.
  - destruct Hp. subst w2. unfold crc_piped, crc_sent, crc_with in *. destruct inflating; cbn; [done|]. by rewrite pp_want0, Hcrc.
  - destruct Hend as [Hend|Hend]; [left|right]; subst w2; by destruct inflating; auto.
  - subst w2. by destruct inflating.
  - destruct Hend as [Hend|]; [left|by right]. rewrite Hend, app_nil_r in Hi. congruence.
Qed.
Definition drained w (res : Z) : Prop := (q_bytes (queue w) = [] \/ res = Z_STREAM_END) /\ (next_in w = [] \/ z_ended (zs w)).
Lemma pump_ok fuel n : forall res w, out_ok w -> 0 <= res -> (res = Z_STREAM_END -> z_ended (zs w)) ->
  (q_bytes (queue w) = [] -> next_in w = [] \/ z_ended (zs w)) ->
  match pump f before after fuel n res w with
  | (Some (inr res'), w') => exists i o new, q_bytes (queue w) = i ++ q_bytes (queue w') /\ piped w i o new w' /\
      out_ok w' /\ crc w' = crc_piped w i new /\ drained w' res' /\ 0 <= res' /\ (res' = Z_STREAM_END -> z_ended (zs w'))
  | (Some (inl c), _) => c < 0
  | _ => True
  end.
Proof.
  induction n as [|n IH]; intros res w Hw H0 He Hi; cbn [pump]; rewrite (bind_eq get _ _ _ _ eq_refl), q_sizeq_bytes.
  all: destruct (_ && _) eqn:Ec; [|cbn [mret M_ret]; exists [], [], []; split_and!; try done;
    [by apply piped_refl|unfold crc_piped, crc_with; destruct inflating; cbn; rewrite crc32_nil; by destruct (want_crc w)|
     apply andb_false_iff in Ec as [Ec|Ec];
       [assert (q_bytes (queue w) = []) by (apply nil_length_inv; lia); split; [by left|by apply Hi]|
        apply negb_false_iff in Ec; assert (res = Z_STREAM_END) by lia; split; [by right|right; by apply He]]]].
  { done. }
  apply andb_true_iff in Ec as [Ec _]. cbv zeta.
  pose proof (segment_ok fuel res w Hw H0 He ltac:(intros E; rewrite E in Ec; done)) as Hs. cbv zeta in Hs.
  set (iov := hd [] (driver_peekq (queue w))) in *.
  rewrite (bind_eq (modify _) _ w tt (set_in iov w) eq_refl).
  destruct (feed f before fuel res (set_in iov w)) as [[[?|res']|] w1] eqn:E1; rewrite (bind_eq _ _ _ _ _ E1); try done.
  rewrite (bind_eq get _ _ _ _ eq_refl). set (len := (length iov - length (next_in w1))%nat) in *.
  pose proof (after_eq w1 (take len iov)) as Ea. rewrite (bind_eq _ _ _ _ _ Ea), (bind_eq get _ _ _ _ eq_refl).
  rewrite Ea in Hs. cbn [snd] in Hs. set (w2 := if inflating then w1 else _) in *.
  rewrite (bind_eq (modify _) _ w2 tt (set_queue (driver_deq (queue w2) (Z.of_nat len)) w2) eq_refl).
  set (w3 := set_queue _ w2) in *. destruct Hs as (i & o & new & Hq3 & Hp3 & Hok3 & Hc3 & Hi3 & Hr3 & He3 & _).
  specialize (IH res' w3 Hok3 Hr3 He3 (fun _ => Hi3)). destruct (pump f before after fuel n res' w3) as [[[?|res2]|] w4]; try done.
  destruct IH as (i4 & o4 & new4 & Hq4 & Hp4 & Hok4 & Hc4 & Hd4 & Hr4 & He4).
  exists (i ++ i4), (o ++ o4), (new ++ new4). split_and!; try done.
  - by rewrite Hq3, Hq4, app_assoc.
  - by eapply piped_trans.
  - rewrite Hc4. apply crc_piped_app; [by destruct Hp3|done].
Qed.

(** A flush after the queue is empty, or after the end, consumes nothing. *)
Lemma flush_call fl w : out_ok w -> (next_in w = [] \/ z_ended (zs w)) -> let '(r, w') := zcall (f fl) w in
  0 <= r -> exists o, next_in w' = next_in w /\ piped w [] o [] w' /\ bin w' <> None /\
    avail_out w' = binsz w' - Z.of_nat (length (default [] (bin w'))) /\ 0 <= avail_out w' /\ binsz w' = binsz w /\
    binsz_need w' = binsz_need w /\ queue w' = queue w /\ crc w' = crc w /\ want_crc w' = want_crc w /\
    (z_ended (zs w) -> z_ended (zs w')) /\ (r = Z_STREAM_END -> z_ended (zs w')) /\
    avail_out w' = avail_out w - Z.of_nat (length o).
Proof.
  intros Hw He. pose proof (zcall_ok fl w Hw) as Hz. destruct (zcall (f fl) w) as [r w'].
  destruct Hz as (i & o & Hr & Hi & Hp & Hb & Hs & Ha & Hz & Hn & Hq & Hc & Hwant & Hzs & Hav & Hli & _).
  intros H0. assert (i = []) as ->.
  { destruct He as [He|He].
    - rewrite He in Hi. symmetry in Hi. by apply app_eq_nil in Hi as [-> _].
    - apply nil_length_inv. rewrite Hli. by apply (zl_ended fl (zs w) (next_in w) (avail_out w)). }
  exists o. split_and!; try done; [by apply Hp| |].
  - intros Hend. rewrite Hzs. by apply zl_ended.
  - intros ->. rewrite Hzs. by apply zl_end with (1 := Hr).
Qed.
Definition between w : Prop := bin w <> None /\ avail_out w = binsz w - Z.of_nat (length (default [] (bin w))) /\
  0 <= avail_out w /\ binsz w < 2 ^ 31 /\ 0 < binsz_need w < 2 ^ 31.
Lemma drain_ok fuel flush : forall res w, between w -> 0 <= res -> (res = Z_STREAM_END -> z_ended (zs w)) ->
  (next_in w = [] \/ z_ended (zs w)) ->
  match drain f before fuel flush res w with
  | (Some (inr res'), w') => exists o new, next_in w' = next_in w /\ queue w' = queue w /\ piped w [] o new w' /\
      bin w' = Some [] /\ crc w' = crc_sent w new /\ 0 <= res' /\ (z_ended (zs w) -> z_ended (zs w'))
  | (Some (inl c), _) => c < 0
  | _ => True
  end.
Proof.
  induction fuel as [|fuel IH]; intros res w (Hb & Hs & Ha & Hm & Hn) H0 He Hi; cbn [drain]; rewrite (bind_eq get _ _ _ _ eq_refl).
  all: destruct (Z.ltb_spec (avail_out w) (binsz w)); [|cbn [mret M_ret]; exists [], []; rewrite crc_sent_nil; split_and!; try done;
    [by apply piped_refl|]; destruct (bin w) as [[|]|]; [done|cbn in *; lia|done]].
  { done. }
  destruct (send_ok w Hb Hs Hm Ha Hn) as (w1 & new & E1 & Hp1 & Hok1 & Hb1 & Hz1 & Hi1 & Hq1 & Hc1 & _ & Hzs1).
  assert (forall k : M (world Q) (option (Z + Z)), (before;;; zlib_output;;; k) w = k w1) as Ek.
  { intros k. revert E1. unfold mbind, M_bind. destruct (before w) as [[] wa]. destruct (zlib_output wa) as [ra wb].
    by intros [= ->]. }
  rewrite Ek. destruct (Z.eqb_spec res Z_STREAM_END) as [->|].
  { cbn [mret M_ret]. exists [], new. split_and!; try done. by rewrite Hzs1. }
  pose proof (flush_call flush w1 Hok1 ltac:(rewrite Hi1, Hzs1; done)) as Hf.
  destruct (zcall (f flush) w1) as [r w2] eqn:E2. rewrite (bind_eq _ _ _ _ _ E2).
  destruct (Z.ltb_spec r 0); [done|]. destruct (Hf ltac:(done)) as (o & Hi2 & Hp2 & Hb2 & Hs2 & Ha2 & Hz2 & Hn2 & Hq2 & Hc2 & Hw2 & He2 & Hend2 & _).
  assert (next_in w2 = [] \/ z_ended (zs w2)) as Hi2'.
  { rewrite Hi2, Hi1. destruct Hi as [Hi|Hi]; [by left|right]. apply He2. by rewrite Hzs1. }
  pose proof Hok1 as []. specialize (IH r w2 ltac:(split_and!; done || lia) ltac:(lia) Hend2 Hi2').
  destruct (drain f before fuel flush r w2) as [[[?|res']|] w3]; try done.
  destruct IH as (o3 & new3 & Hi3 & Hq3 & Hp3 & Hb3 & Hc3 & H03 & He3).
  exists (o ++ o3), (new ++ new3). split_and!; try congruence; try done.
  - exact (piped_trans _ _ _ _ _ _ _ _ _ Hp1 (piped_trans _ _ _ _ _ _ _ _ _ Hp2 Hp3)).
  - rewrite Hc3. apply crc_sent_app; [destruct Hp1; congruence|]. by rewrite Hc2.
  - intros Hz. apply He3, He2. by rewrite Hzs1.
Qed.

(** ** The whole operation *)

Definition ready w : Prop :=
  (bin w = None \/ out_ok w) /\ 0 < binsz_need w < 2 ^ 31 /\ (next_in w = [] \/ z_ended (zs w)).
(** What was taken off the queue went through the library, what it wrote was sent, up to what is in
    the output binary; the checksum is that of the input or of what was sent. *)
Definition streamed (flush : Z) w w' : Prop := exists i o new,
  q_bytes (queue w) = i ++ q_bytes (queue w') /\ piped w i o new w' /\ crc w' = crc_piped w i new /\
  (q_bytes (queue w') = [] \/ z_ended (zs w')) /\ (flush <> Z_NO_FLUSH -> default [] (bin w') = []).
(** Input that an earlier run left of its segment does not matter unless a flush finds the queue empty. *)
Definition startable (flush : Z) w : Prop :=
  (bin w = None \/ out_ok w) /\ 0 < binsz_need w < 2 ^ 31 /\ (flush <> Z_NO_FLUSH -> q_bytes (queue w) = [] -> next_in w = [] \/ z_ended (zs w)).
Lemma start_run w : bin w = None \/ out_ok w -> 0 < binsz_need w < 2 ^ 31 -> exists w1, (if bin w is None then zlib_output_init else mret 0) w = (0, w1) /\ out_ok w1 /\
  piped w [] [] [] w1 /\ queue w1 = queue w /\ next_in w1 = next_in w /\ zs w1 = zs w /\ crc w1 = crc w.
Proof.
  intros Hb Hn. destruct (bin w) as [b|] eqn:Eb.
  - destruct Hb as [|Hb]; [done|]. exists w. split_and!; try done. by apply piped_refl.
  - unfold zlib_output_init. rewrite (bind_eq get _ _ _ _ eq_refl).
    assert (driver_alloc_ok (binsz_need w) w = (true, w)) as Ea by (unfold driver_alloc_ok; by rewrite memory).
    rewrite (bind_eq _ _ _ _ _ Ea). eexists. split; [reflexivity|]. split_and!; try done.
    + split; cbn; done || lia.
    + split; cbn; rewrite ?Eb, ?app_nil_r; try done. constructor.
Qed.
Lemma run_ok fuel flush w : startable flush w ->
  match zlib_run f before after fuel flush w with
  | (Some res, w') => 0 <= res -> streamed flush w w'
  | _ => True
  end.
Proof.
  intros (Hb & Hn & Hi). destruct (start_run w Hb Hn) as (w1 & E1 & Hok1 & Hp1 & Hq1 & Hi1 & Hz1 & Hc1).
  unfold zlib_run. rewrite (bind_eq get _ _ _ _ eq_refl).
  rewrite (bind_eq _ _ _ _ _ E1). cbn [Z.ltb Z.compare].
  destruct (decide (flush = Z_NO_FLUSH /\ q_bytes (queue w) = [])) as [[-> Hq]|Hflush].
  { assert (pump f before after fuel fuel Z_OK w1 = (Some (inr Z_OK), w1)) as E.
    { destruct fuel; cbn [pump]; rewrite (bind_eq get _ _ _ _ eq_refl), q_sizeq_bytes, Hq1, Hq; done. }
    rewrite (bind_eq _ _ _ _ _ E). cbn [mret M_ret]. intros _. exists [], [], []. split_and!; try done; [by rewrite Hq1| |left; by rewrite Hq1].
    unfold crc_piped, crc_with. rewrite Hc1. destruct inflating; cbn [concat]; rewrite crc32_nil; by destruct (want_crc w). }
  pose proof (pump_ok fuel fuel Z_OK w1 Hok1 ltac:(done) ltac:(done)
    ltac:(rewrite Hq1, Hi1, Hz1; intros Hq; apply Hi; [intros Hf; by apply Hflush|done])) as Hp.
  destruct (pump f before after fuel fuel Z_OK w1) as [[[c|res]|] w2] eqn:E2; rewrite (bind_eq _ _ _ _ _ E2);
    [cbn [code_of mret M_ret]; lia| |done].
  destruct Hp as (i & o & new & Hq2 & Hp2 & Hok2 & Hc2 & [Hd2 Hi2] & Hr2 & He2).
  rewrite Hq1 in Hq2. pose proof (piped_trans _ _ _ _ _ _ _ _ _ Hp1 Hp2) as Hp12. cbn [app] in Hp12.
  assert (crc w2 = crc_piped w i new) as Hc12.
  { rewrite Hc2. unfold crc_piped, crc_with. rewrite Hc1. by destruct Hp1 as [_ _ _ -> _ _]. }
  assert (q_bytes (queue w2) = [] \/ z_ended (zs w2)) as Hd by (destruct Hd2; auto).
  destruct (Z.eqb_spec flush Z_NO_FLUSH); [by exists i, o, new|].
  pose proof (flush_call flush w2 Hok2 Hi2) as Hf. destruct (zcall (f flush) w2) as [r w3] eqn:E3. rewrite (bind_eq _ _ _ _ _ E3).
  destruct (Z.ltb_spec r 0); [cbn [mret M_ret]; lia|].
  destruct (Hf ltac:(done)) as (o3 & Hi3 & Hp3 & Hb3 & Hs3 & Ha3 & Hz3 & Hn3 & Hq3 & Hc3 & Hw3 & He3 & Hend3 & _).
  pose proof Hok2 as [].
  assert (next_in w3 = [] \/ z_ended (zs w3)) as Hi3' by (rewrite Hi3; destruct Hi2; auto).
  pose proof (drain_ok fuel flush r w3 ltac:(split_and!; done || lia) ltac:(lia) Hend3 Hi3') as Hdr.
  destruct (drain f before fuel flush r w3) as [[[c|res4]|] w4] eqn:E4; rewrite (bind_eq _ _ _ _ _ E4);
    cbn [code_of mret M_ret]; [lia|intros _|done].
  destruct Hdr as (o4 & new4 & Hi4 & Hq4 & Hp4 & Hb4 & Hc4 & H04 & He4).
  exists i, (o ++ o3 ++ o4), (new ++ new4). split_and!.
  - by rewrite Hq4, Hq3.
  - pose proof (piped_trans _ _ _ _ _ _ _ _ _ Hp12 (piped_trans _ _ _ _ _ _ _ _ _ Hp3 Hp4)) as Hall. by rewrite !app_nil_r in Hall.
  - rewrite Hc4. unfold crc_sent. pose proof (crc_piped_app w w3 i new [] new4) as Ha. rewrite app_nil_r in Ha.
    assert (crc w3 = crc_piped w i new) as Hc by (by rewrite Hc3).
    rewrite <-Ha; [|by rewrite Hw3; destruct Hp12|done]. unfold crc_piped, crc_with. destruct inflating; [done|].
    rewrite crc32_nil. by destruct (want_crc w3).
  - rewrite Hq4, Hq3. destruct Hd; auto.
  - intros _. by rewrite Hb4.
Qed.

(** ** The loops end

    [z_left] bounds what the library can still write without input, [ratio] what a byte of input can
    add to it; a call with input and room makes progress, ends or fails. *)
Context (z_left : z_int -> nat) (ratio : nat).
Definition bounded : Prop := forall fl s i n, 0 < n -> 0 <= z_code (f fl s i n) ->
  (length (z_written (f fl s i n)) + z_left (z_next (f fl s i n)) <= z_left s + ratio * z_consumed (f fl s i n))%nat /\
  (i <> [] -> z_code (f fl s i n) <> Z_STREAM_END -> (0 < z_consumed (f fl s i n) + length (z_written (f fl s i n)))%nat).
Context (BND : bounded).

Lemma piped_left w i o new w' : piped w i o new w' -> (length o + z_left (zs w') <= z_left (zs w) + ratio * length i)%nat.
Proof.
  intros [Hr _ _ _ _ _]. induction Hr as [|s fl i n ins outs s' Hn Hc Hr IH]; [cbn; lia|].
  destruct (BND fl s i n Hn Hc) as [Hb _]. pose proof (zl_consumed fl s i n).
  rewrite !length_app, length_take, Nat.min_l by done. lia.
Qed.
Lemma feed_ends fuel : forall res w, out_ok w -> (z_left (zs w) + S ratio * length (next_in w) < fuel)%nat ->
  fst (feed f before fuel res w) <> None.
Proof.
  induction fuel as [|fuel IH]; intros res w Hw Hf; [lia|]. cbn [feed]. rewrite (bind_eq get _ _ _ _ eq_refl).
  destruct (negb (bool_decide (next_in w = []))) eqn:En; [|done]. destruct (negb (res =? Z_STREAM_END)); [|done]. cbn [andb].
  apply negb_true_iff, bool_decide_eq_false in En.
  pose proof (turn_ok w Hw) as Ht. destruct (zcall (f Z_NO_FLUSH) w) as [r w1] eqn:E1. destruct Ht as [Hr Ht].
  rewrite (bind_eq _ _ _ _ _ E1). destruct (Z.ltb_spec r 0); [done|].
  destruct (Ht ltac:(done)) as (w2 & i & new & E2 & Hi & Hp & Hok & Hq & Hc & Hzs & Hlen).
  rewrite (bind_eq get _ _ _ _ eq_refl), (bind_eq _ _ _ _ _ E2). pose proof Hw as [].
  destruct (BND Z_NO_FLUSH (zs w) (next_in w) (avail_out w)) as [Hb1 Hb2]; [done|lia|].
  rewrite <-Hlen, <-Hzs in *. rewrite Hi, length_app in Hf.
  destruct (Z.eq_dec r Z_STREAM_END) as [Hend|Hend].
  - rewrite Hend. destruct fuel; cbn [feed]; rewrite (bind_eq get _ _ _ _ eq_refl), andb_false_r; done.
  - apply IH; [done|]. specialize (Hb2 En ltac:(congruence)). nia.
Qed.
Lemma pump_ends fuel n : forall res w, out_ok w -> 0 <= res -> (res = Z_STREAM_END -> z_ended (zs w)) ->
  (z_left (zs w) + S ratio * length (q_bytes (queue w)) < fuel)%nat -> (length (q_bytes (queue w)) < n)%nat ->
  fst (pump f before after fuel n res w) <> None.
Proof.
  induction n as [|n IH]; intros res w Hw H0 He Hf Hn; [lia|]. cbn [pump]. rewrite (bind_eq get _ _ _ _ eq_refl), q_sizeq_bytes.
  destruct (_ && _) eqn:Ec; [|done]. apply andb_true_iff in Ec as [Ec _]. cbv zeta.
  assert (q_bytes (queue w) <> []) as Hq by (intros E; rewrite E in Ec; done).
  pose proof (segment_ok fuel res w Hw H0 He Hq) as Hs. cbv zeta in Hs.
  destruct (segments (queue w) Hq) as (c & l & Epeek & Hc).
  assert (length c <= length (q_bytes (queue w)))%nat as Hcl.
  { rewrite <-q_peekq_bytes, Epeek. cbn [concat]. rewrite length_app. lia. }
  set (iov := hd [] (driver_peekq (queue w))) in *. assert (iov = c) as Eiov by (subst iov; by rewrite Epeek).
  rewrite (bind_eq (modify _) _ w tt (set_in iov w) eq_refl).
  assert (out_ok (set_in iov w)) as Hw1 by (by destruct Hw).
  pose proof (feed_ends fuel res (set_in iov w) Hw1 ltac:(cbn [set_in zs next_in]; rewrite Eiov; nia)) as Hfe.
  destruct (feed f before fuel res (set_in iov w)) as [[[?|res']|] w1] eqn:E1; rewrite (bind_eq _ _ _ _ _ E1); try done.
  rewrite (bind_eq get _ _ _ _ eq_refl). set (len := (length iov - length (next_in w1))%nat) in *.
  pose proof (after_eq w1 (take len iov)) as Ea. rewrite (bind_eq _ _ _ _ _ Ea), (bind_eq get _ _ _ _ eq_refl).
  rewrite Ea in Hs. cbn [snd] in Hs. set (w2 := if inflating then w1 else _) in *.
  rewrite (bind_eq (modify _) _ w2 tt (set_queue (driver_deq (queue w2) (Z.of_nat len)) w2) eq_refl).
  set (w3 := set_queue _ w2) in *. destruct Hs as (i & o & new & Hq3 & Hp3 & Hok3 & Hc3 & Hi3 & Hr3 & He3 & Hend).
  pose proof (piped_left _ _ _ _ _ Hp3). rewrite Hq3, length_app in *.
  destruct (Z.eq_dec res' Z_STREAM_END) as [->|Hne].
  { destruct n; cbn [pump]; rewrite (bind_eq get _ _ _ _ eq_refl), andb_false_r; done. }
  destruct Hend as [Hend|]; [|done]. destruct i as [|b i]; [done|]. cbn [length] in *. apply IH; [done..|nia|lia].
Qed.
Lemma drain_ends fuel flush : forall res w, between w -> (next_in w = [] \/ z_ended (zs w)) ->
  (z_left (zs w) + (if (avail_out w <? binsz w)%Z then 1 else 0) < fuel)%nat -> fst (drain f before fuel flush res w) <> None.
Proof.
  induction fuel as [|fuel IH]; intros res w (Hb & Hs & Ha & Hm & Hn) Hi Hf; [lia|]. cbn [drain]. rewrite (bind_eq get _ _ _ _ eq_refl).
  destruct (Z.ltb_spec (avail_out w) (binsz w)); [|done].
  destruct (send_ok w Hb Hs Hm Ha Hn) as (w1 & new & E1 & Hp1 & Hok1 & Hb1 & Hz1 & Hi1 & Hq1 & Hc1 & _ & Hzs1).
  assert (forall k : M (world Q) (option (Z + Z)), (before;;; zlib_output;;; k) w = k w1) as Ek.
  { intros k. revert E1. unfold mbind, M_bind. destruct (before w) as [[] wa]. destruct (zlib_output wa) as [ra wb].
    by intros [= ->]. }
  rewrite Ek. destruct (Z.eqb_spec res Z_STREAM_END) as [->|]; [done|].
  pose proof (flush_call flush w1 Hok1 ltac:(rewrite Hi1, Hzs1; done)) as Hf1.
  destruct (zcall (f flush) w1) as [r w2] eqn:E2. rewrite (bind_eq _ _ _ _ _ E2).
  destruct (Z.ltb_spec r 0); [done|]. destruct (Hf1 ltac:(done)) as (o & Hi2 & Hp2 & Hb2 & Hs2 & Ha2 & Hz2 & Hn2 & Hq2 & Hc2 & Hw2 & He2 & Hend2 & Ho).
  pose proof (piped_left _ _ _ _ _ Hp2). rewrite Hzs1 in *. pose proof Hok1 as []. cbn [length] in *.
  apply IH; [split_and!; done || lia| |].
  - rewrite Hi2, Hi1. destruct Hi; auto.
  - destruct (Z.ltb_spec (avail_out w2) (binsz w2)); lia.
Qed.
Lemma run_ends fuel flush w : ready w -> (z_left (zs w) + S ratio * length (q_bytes (queue w)) + 1 < fuel)%nat ->
  fst (zlib_run f before after fuel flush w) <> None.
Proof.
  intros Hw Hf. destruct (start_run w (proj1 Hw) (proj1 (proj2 Hw))) as (w1 & E1 & Hok1 & Hp1 & Hq1 & Hi1 & Hz1 & Hc1).
  unfold zlib_run. rewrite (bind_eq get _ _ _ _ eq_refl), (bind_eq _ _ _ _ _ E1). cbn [Z.ltb Z.compare].
  destruct Hw as (_ & _ & Hi). rewrite <-Hq1, <-Hz1 in Hf.
  pose proof (pump_ends fuel fuel Z_OK w1 Hok1 ltac:(done) ltac:(done) ltac:(lia) ltac:(nia)) as Hpe.
  pose proof (pump_ok fuel fuel Z_OK w1 Hok1 ltac:(done) ltac:(done) ltac:(intros _; rewrite Hi1, Hz1; done)) as Hp.
  destruct (pump f before after fuel fuel Z_OK w1) as [[[c|res]|] w2] eqn:E2; rewrite (bind_eq _ _ _ _ _ E2); try done.
  destruct Hp as (i & o & new & Hq2 & Hp2 & Hok2 & Hc2 & [Hd2 Hi2] & Hr2 & He2).
  destruct (Z.eqb_spec flush Z_NO_FLUSH); [done|].
  pose proof (flush_call flush w2 Hok2 Hi2) as Hf2. destruct (zcall (f flush) w2) as [r w3] eqn:E3. rewrite (bind_eq _ _ _ _ _ E3).
  destruct (Z.ltb_spec r 0); [done|].
  destruct (Hf2 ltac:(done)) as (o3 & Hi3 & Hp3 & Hb3 & Hs3 & Ha3 & Hz3 & Hn3 & Hq3 & Hc3 & Hw3 & He3 & Hend3 & _).
  pose proof Hok2 as []. pose proof (piped_left _ _ _ _ _ Hp2). pose proof (piped_left _ _ _ _ _ Hp3).
  rewrite Hq2, length_app in Hf. cbn [length] in *.
  pose proof (drain_ends fuel flush r w3 ltac:(split_and!; done || lia) ltac:(rewrite Hi3; destruct Hi2; auto)
    ltac:(destruct (_ <? _); nia)) as Hde.
  destruct (drain f before fuel flush r w3) as [[[c|res4]|] w4] eqn:E4; rewrite (bind_eq _ _ _ _ _ E4); done.
Qed.
End Pipe.

(** * Control *)

(** The state a command needs, and the one it goes to when it succeeds. *)
Definition needs (command : Z) : option ZLibState :=
  if (command =? DEFLATE_INIT) || (command =? DEFLATE_INIT2) || (command =? INFLATE_INIT) || (command =? INFLATE_INIT2)
  then Some ST_NONE
  else if (DEFLATE_SETDICT <=? command) && (command <=? DEFLATE) then Some ST_DEFLATE
  else if (INFLATE_SETDICT <=? command) && (command <=? INFLATE) then Some ST_INFLATE
  else None.
Definition goes_to (command : Z) : option ZLibState :=
  if (command =? DEFLATE_INIT) || (command =? DEFLATE_INIT2) then Some ST_DEFLATE
  else if (command =? INFLATE_INIT) || (command =? INFLATE_INIT2) then Some ST_INFLATE
  else if (command =? DEFLATE_END) || (command =? INFLATE_END) then Some ST_NONE
  else None.

Section Control.
Context `{ZL : ZLib} {Q : Type} `{PQ : !PortQueue Q} `{IV : !IOVec Q} `{RT : !Runtime} (erl_errno_id : Z -> string).
Implicit Types (w : world Q).
Definition same w w' : Prop := state w' = state w.
#[export] Instance same_preorder : PreOrder same.
Proof. split; [done|]. intros a b c. unfold same. congruence. Qed.
Abbreviation Ens := (ensures same).

Lemma same_modify f : (forall w, state (f w) = state w) -> Ens (modify f).
Proof. intros Hf w. apply Hf. Qed.
Lemma same_zcall f : Ens (zcall f).
Proof. intros w. done. Qed.
Lemma same_call c : Ens (do_call c).
Proof. intros w. done. Qed.
Lemma same_alloc n : Ens (driver_alloc_ok n).
Proof. intros w. done. Qed.
Lemma same_get : Ens get.
Proof. intros w. done. Qed.
Create HintDb zlib.
#[local] Hint Resolve same_zcall same_call same_alloc same_get : zlib.
Local Ltac sm := walk ltac:(first [solve [auto 2 with zlib] | apply same_modify; intros ?; reflexivity]).
Lemma same_output_init : Ens zlib_output_init.
Proof. unfold zlib_output_init. sm. Qed.
#[local] Hint Resolve same_output_init : zlib.
Lemma same_output : Ens zlib_output.
Proof. unfold zlib_output. sm. Qed.
Lemma same_crc_output : Ens crc_output.
Proof. unfold crc_output. sm. Qed.
Lemma same_crc_input d : Ens (crc_input d).
Proof. unfold crc_input. sm. Qed.
Lemma same_flush_queue : Ens flush_queue.
Proof. unfold flush_queue. sm. Qed.
#[local] Hint Resolve same_output same_crc_output same_crc_input same_flush_queue : zlib.
Lemma same_skip : Ens skip.
Proof. intros w. done. Qed.
#[local] Hint Resolve same_skip : zlib.
Lemma same_run f before after fuel flush : Ens before -> (forall d, Ens (after d)) -> Ens (zlib_run f before after fuel flush).
Proof.
  intros Hb Ha. assert (forall fuel res, Ens (feed f before fuel res)) as Hf.
  { intros n. induction n as [|n IH]; intros res; cbn [feed]; sm. }
  assert (forall n res, Ens (pump f before after fuel n res)) as Hp.
  { intros n. induction n as [|n IH]; intros res; cbn [pump]; sm. }
  assert (forall n res, Ens (drain f before n flush res)) as Hd.
  { intros n. induction n as [|n IH]; intros res; cbn [drain]; sm. }
  unfold zlib_run. sm.
Qed.
Lemma same_deflate fuel flush : Ens (zlib_deflate fuel flush).
Proof. apply same_run; auto with zlib. Qed.
Lemma same_inflate fuel flush : Ens (zlib_inflate fuel flush).
Proof. apply same_run; auto with zlib. Qed.

(** Replies. *)
Definition answers_fit (rlen : Z) (r : Z * bytes) : Prop :=
  fst r = Z.of_nat (length (snd r)) /\ 0 < fst r <= Z.max 1 rlen \/ r = (-1, []) /\ rlen < 5.
Lemma return_fit code rlen w : answers_fit rlen (fst (zlib_return erl_errno_id code rlen w)) /\
  snd (zlib_return erl_errno_id code rlen w) = w.
Proof.
  unfold zlib_return. rewrite (bind_eq get _ _ _ _ eq_refl). destruct (zlib_reason _ _ _) as [src msg]. split; [|done].
  left. cbn [fst snd mret M_ret length]. rewrite length_take. lia.
Qed.
Lemma value_fit v rlen w : answers_fit rlen (fst (zlib_value v rlen w)) /\ snd (zlib_value v rlen w) = w.
Proof. unfold zlib_value. destruct (Z.ltb_spec rlen 5); (split; [|done]); [by right|left; cbn; lia]. Qed.
(** What a command does to the state: [to] is where it may go. *)
Definition controls (rlen : Z) (to : option ZLibState) (m : M (world Q) (Z * bytes)) : Prop := forall w,
  answers_fit rlen (fst (m w)) /\ (state (snd (m w)) = state w \/ to = Some (state (snd (m w)))).
Lemma controls_return code rlen to : controls rlen to (zlib_return erl_errno_id code rlen).
Proof. intros w. destruct (return_fit code rlen w) as [Hf ->]. auto. Qed.
Lemma controls_value v rlen to : controls rlen to (zlib_value v rlen).
Proof. intros w. destruct (value_fit v rlen w) as [Hf ->]. auto. Qed.
Lemma controls_bind {A} rlen to (m : M (world Q) A) f : Ens m -> (forall a, controls rlen to (f a)) -> controls rlen to (mbind f m).
Proof.
  intros Hm Hf w. specialize (Hm w). unfold mbind, M_bind, same in *. destruct (m w) as [a w1]. cbn [snd] in Hm.
  destruct (Hf a w1) as [Ha Hs]. rewrite Hm in Hs. auto.
Qed.
Lemma controls_set rlen st f m : (forall w, state (f w) = st) ->
  (forall w, answers_fit rlen (fst (m w)) /\ state (snd (m w)) = state w) -> controls rlen (Some st) (modify f;;; m).
Proof.
  intros Hf Hm w. rewrite (bind_eq (modify f) _ w tt (f w) eq_refl). destruct (Hm (f w)) as [Ha Hs].
  split; [done|right]. by rewrite Hs, Hf.
Qed.
Lemma controls_badarg rlen to : controls rlen to (badarg erl_errno_id rlen).
Proof. apply controls_bind; [by apply same_modify|intros []; apply controls_return]. Qed.
#[local] Hint Resolve controls_return controls_value controls_badarg : zlib.
Local Ltac ct :=
  repeat first [ progress cbv zeta | solve [auto 2 with zlib]
    | apply controls_bind; [solve [sm]|intros ?]
    | match goal with |- controls _ _ (match ?x with _ => _ end) => destruct x end ].
Lemma controls_open f st want rlen : controls rlen (Some st) (zlib_open erl_errno_id f st want rlen).
Proof.
  unfold zlib_open. apply controls_bind; [auto with zlib|intros w0]. destruct (negb _); [auto with zlib|].
  apply controls_bind; [auto with zlib|intros res]. destruct (res =? Z_OK).
  - apply controls_set; [done|]. intros w. destruct (return_fit res rlen w) as [Hf ->]. auto.
  - apply controls_bind; [auto with zlib|intros _; auto with zlib].
Qed.
Lemma controls_end f st rlen : controls rlen (Some ST_NONE) (zlib_end erl_errno_id f st rlen).
Proof.
  unfold zlib_end. apply controls_bind; [auto with zlib|intros w0]. destruct (negb _); [auto with zlib|].
  apply controls_bind; [auto with zlib|intros _]. apply controls_bind; [auto with zlib|intros res].
  apply controls_set; [done|]. intros w. destruct (return_fit res rlen w) as [Hf ->]. auto.
Qed.
Lemma controls_op f st rlen to : controls rlen to (zlib_op erl_errno_id f st rlen).
Proof. unfold zlib_op. ct. Qed.
Lemma controls_reset f st rlen to : controls rlen to (zlib_reset erl_errno_id f st rlen).
Proof. unfold zlib_reset. ct. Qed.
Lemma controls_set_bufsz buf rlen to : controls rlen to (zlib_set_bufsz erl_errno_id buf rlen).
Proof. unfold zlib_set_bufsz. ct. Qed.

Lemma some_of_eq {A} (m : M (world Q) A) w : some_of m w = (Some (fst (m w)), snd (m w)).
Proof. unfold some_of, mbind, M_bind. by destruct (m w). Qed.
Lemma process_controls run st fuel buf rlen w : (forall fuel flush, Ens (run fuel flush)) ->
  match zlib_process erl_errno_id run st fuel buf rlen w with
  | (None, w') => state w' = state w
  | (Some r, w') => answers_fit rlen r /\ state w' = state w
  end.
Proof.
  intros Hr. unfold zlib_process. rewrite (bind_eq get _ _ _ _ eq_refl). destruct (_ || _).
  - change (match some_of (badarg erl_errno_id rlen) w with (None, w') => state w' = state w
      | (Some r, w') => answers_fit rlen r /\ state w' = state w end).
    rewrite some_of_eq. destruct (controls_badarg rlen None w) as [Hf [Hs|]]; [|done]. auto.
  - pose proof (Hr fuel (i32 buf) w) as Hs. destruct (run fuel (i32 buf) w) as [[res|] w1] eqn:E1; rewrite (bind_eq _ _ _ _ _ E1); [|done].
    change (match some_of (zlib_return erl_errno_id res rlen) w1 with (None, w') => state w' = state w
      | (Some r, w') => answers_fit rlen r /\ state w' = state w end).
    rewrite some_of_eq. destruct (return_fit res rlen w1) as [Hf ->]. auto.
Qed.
Lemma ctl_states ulong fuel command buf rlen w :
  match zlib_ctl erl_errno_id ulong fuel command buf rlen w with
  | (None, w') => state w' = state w
  | (Some r, w') => answers_fit rlen r /\ (state w' = state w \/ goes_to command = Some (state w'))
  end.
Proof.
  assert (forall to (m : M (world Q) (Z * bytes)), controls rlen to m -> (to = None \/ to = goes_to command) ->
    match some_of m w with
    | (None, w') => state w' = state w
    | (Some r, w') => answers_fit rlen r /\ (state w' = state w \/ goes_to command = Some (state w'))
    end) as Hc.
  { intros to m Hm Hto. rewrite some_of_eq. destruct (Hm w) as [Hf Hs]. split; [done|].
    destruct Hs as [|Hs]; [by left|]. destruct Hto as [->|<-]; [done|by right]. }
  assert (forall to (b : bool) (m : M (world Q) (Z * bytes)), controls rlen to m ->
    controls rlen to (if b then badarg erl_errno_id rlen else m)) as Hb.
  { intros to b m Hm. destruct b; [apply controls_badarg|done]. }
  assert (forall run st, (forall fuel flush, Ens (run fuel flush)) ->
    match zlib_process erl_errno_id run st fuel buf rlen w with
    | (None, w') => state w' = state w
    | (Some r, w') => answers_fit rlen r /\ (state w' = state w \/ goes_to command = Some (state w'))
    end) as Hp.
  { intros run st Hr. pose proof (process_controls run st fuel buf rlen w Hr). case_match. case_match; [|done]. tauto. }
  unfold zlib_ctl. cbv zeta.
  repeat match goal with |- context [if command =? ?k then _ else _] => destruct (Z.eqb_spec command k) as [->|?] end.
  1-2: apply (Hc (Some ST_DEFLATE)); [apply Hb, controls_open|by right].
  1: apply (Hc None); [apply controls_op|by left].
  1: apply (Hc None); [apply Hb, controls_reset|by left].
  1: apply (Hc (Some ST_NONE)); [apply Hb, controls_end|by right].
  1: apply (Hc None); [apply Hb, controls_op|by left].
  1: apply Hp, same_deflate.
  1-2: apply (Hc (Some ST_INFLATE)); [apply Hb, controls_open|by right].
  1: apply (Hc None); [apply controls_op|by left].
  1: apply (Hc None); [apply Hb, controls_op|by left].
  1: apply (Hc None); [apply Hb, controls_reset|by left].
  1: apply (Hc (Some ST_NONE)); [apply Hb, controls_end|by right].
  1: apply Hp, same_inflate.
  1-2: apply (Hc None); [apply controls_bind; [apply same_get|intros ?; apply controls_value]|by left].
  1: apply (Hc None); [apply controls_set_bufsz|by left].
  1: apply (Hc None); [apply controls_bind; [apply same_get|intros ?; apply controls_value]|by left].
  1: apply (Hc None); [apply controls_value|by left].
  1: apply (Hc None); [apply Hb, controls_value|by left].
  apply (Hc None); [apply controls_badarg|by left].
Qed.

(** In another state than the one it needs, a command is a bad argument. *)
Lemma needs_refused st rlen k w : state w <> st ->
  (w ← get; if negb (bool_decide (state w = st)) then badarg erl_errno_id rlen else k w) w = badarg erl_errno_id rlen w.
Proof. intros Hs. rewrite (bind_eq get _ _ _ _ eq_refl). by rewrite bool_decide_eq_false_2. Qed.
Lemma process_refused run st fuel buf rlen w : state w <> st ->
  zlib_process erl_errno_id run st fuel buf rlen w = some_of (badarg erl_errno_id rlen) w.
Proof. intros Hs. unfold zlib_process. rewrite (bind_eq get _ _ _ _ eq_refl). by rewrite bool_decide_eq_false_2. Qed.
Lemma ctl_refused ulong fuel command buf rlen w st : needs command = Some st -> state w <> st ->
  zlib_ctl erl_errno_id ulong fuel command buf rlen w = some_of (badarg erl_errno_id rlen) w.
Proof.
  intros Hn Hs.
  assert (forall (b : bool) m, m w = badarg erl_errno_id rlen w ->
    some_of (if b then badarg erl_errno_id rlen else m) w = some_of (badarg erl_errno_id rlen) w) as Hb.
  { intros b m Hm. rewrite !some_of_eq. destruct b; [done|by rewrite Hm]. }
  unfold zlib_ctl. cbv zeta.
  repeat match goal with |- context [if command =? ?k then _ else _] =>
    destruct (Z.eqb_spec command k) as [->|?]; [first [discriminate Hn|injection Hn as <-]|] end.
  all: try by apply process_refused.
  all: lazymatch goal with
    | |- some_of (if _ then _ else _) _ = _ => apply Hb
    | |- some_of (zlib_op _ _ _ _) _ = _ => apply (Hb false)
    | _ => done
    end; unfold zlib_open, zlib_op, zlib_reset, zlib_end; by apply needs_refused.
Qed.
End Control.

(** * The theorems *)

(** C7: DEFLATE and INFLATE are a pipe to the library. With memory, when messages are accepted, when the size of the output binary is positive and the one there is, if any, has room, and unless a flush
    finds the queue empty and the library input that an earlier run left - as after an INFLATE that stopped early and a RESET ([reset_keeps_input]) -: when one succeeds, what was
    taken off the queue went through the library in order, without loss or repetition, what the library wrote was sent to the owner in order, up
    to what is left in the output binary, nothing after a flush; the whole queue is taken unless the
    library reported the end; and the checksum kept is that of the input (DEFLATE) or of what was
    sent (INFLATE). *)
Theorem zlib_stream `{ZL : ZLib} {Q : Type} `{PL : PortQueueLaws Q} `{RT : !Runtime}
    `{MEM : !Memory} `{SND : !Sends} `{CRC : !Checksum} `{SEG : !Segments Q} `{ZD : !ZStream deflate} `{ZI : !ZStream inflate}
    fuel flush (w w' : world Q) res : 0 <= res ->
  (startable deflate flush w -> zlib_deflate fuel flush w = (Some res, w') -> streamed deflate false flush w w') /\
  (startable inflate flush w -> zlib_inflate fuel flush w = (Some res, w') -> streamed inflate true flush w w').
Proof.
  intros H0. split; intros Hw Heq.
  - pose proof (run_ok deflate false fuel flush w Hw) as Hr. change (zlib_run _ _ _ fuel flush w) with (zlib_deflate fuel flush w) in Hr.
    rewrite Heq in Hr. auto.
  - pose proof (run_ok inflate true fuel flush w Hw) as Hr. change (zlib_run _ _ _ fuel flush w) with (zlib_inflate fuel flush w) in Hr.
    rewrite Heq in Hr. auto.
Qed.


(** INFLATE never returns when the stream needs a dictionary: the library reports [Z_NEED_DICT] without taking
    input until [inflateSetDictionary] is called; that code is neither an error nor the end, so the
    loop calls it again for ever. *)
Theorem need_dict_hangs `{ZL : ZLib} {Q : Type} `{PL : PortQueueLaws Q} `{RT : !Runtime}
    erl_errno_id ulong fuel buf rlen (w : world Q) c l :
  state w = ST_INFLATE -> length buf = 4%nat -> bin w <> None -> 0 < avail_out w ->
  driver_peekq (queue w) = c :: l -> c <> [] ->
  inflate Z_NO_FLUSH (zs w) c (avail_out w) = ZResult Z_NEED_DICT 0 [] (zs w) ->
  fst (zlib_ctl erl_errno_id ulong fuel INFLATE buf rlen w) = None.
Proof.
  intros Hs Hl Hb Ha Hq Hc Hinf.
  assert (forall n res (w1 : world Q), res <> Z_STREAM_END -> zs w1 = zs w -> next_in w1 = c -> avail_out w1 = avail_out w ->
    fst (feed inflate crc_output n res w1) = None) as Hfeed.
  { intros n. induction n as [|n IH]; intros res w1 Hres Hz Hi Hav; cbn [feed]; rewrite (bind_eq get _ _ _ _ eq_refl), Hi.
    all: rewrite bool_decide_eq_false_2, (proj2 (Z.eqb_neq res _)) by done; cbn [negb andb]. { done. }
    set (w2 := set_stream (zs w) c (avail_out w - 0) ((fun b => b ++ []) <$> bin w1) w1).
    assert (zcall (inflate Z_NO_FLUSH) w1 = (Z_NEED_DICT, w2)) as Ez.
    { unfold zcall, mbind, M_bind, get, modify, mret, M_ret. by rewrite Hz, Hi, Hav, Hinf. }
    rewrite (bind_eq _ _ _ _ _ Ez). change (Z_NEED_DICT <? 0) with false. cbv iota.
    rewrite (bind_eq get _ _ _ _ eq_refl). cbn [w2 set_stream avail_out]. rewrite (proj2 (Z.eqb_neq _ 0)) by lia.
    rewrite (bind_eq skip _ _ _ _ eq_refl). apply IH; [done..|]. cbn. lia. }
  assert (q_bytes (queue w) <> []) as Hne.
  { rewrite <-q_peekq_bytes, Hq. cbn. by destruct c. }
  assert (fst (zlib_inflate fuel (i32 buf) w) = None) as Hinfl.
  { unfold zlib_inflate, zlib_run. rewrite (bind_eq get _ _ _ _ eq_refl). destruct (bin w) eqn:Eb; [|done].
    rewrite (bind_eq (mret 0) _ w 0 w eq_refl). cbn [Z.ltb Z.compare].
    assert (fst (pump inflate crc_output (fun _ => skip) fuel fuel Z_OK w) = None) as Hp.
    { destruct fuel; cbn [pump]; rewrite (bind_eq get _ _ _ _ eq_refl), q_sizeq_bytes.
      all: rewrite (proj2 (Z.ltb_lt 0 _)) by (destruct (q_bytes (queue w)); [done|cbn; lia]); cbn [negb andb]. { done. }
      rewrite Hq. cbn [hd negb Z.eqb Z_OK Z_STREAM_END]. cbv zeta. rewrite (bind_eq (modify _) _ w tt (set_in c w) eq_refl).
      pose proof (Hfeed (S fuel) Z_OK (set_in c w) ltac:(done) ltac:(done) ltac:(done) ltac:(done)) as Hf.
      destruct (feed inflate crc_output (S fuel) Z_OK (set_in c w)) as [r w2] eqn:Ef. cbn [fst] in Hf. subst r.
      by rewrite (bind_eq _ _ _ _ _ Ef). }
    destruct (pump inflate crc_output (fun _ => skip) fuel fuel Z_OK w) as [r w2] eqn:Ep. cbn [fst] in Hp. subst r.
    by rewrite (bind_eq _ _ _ _ _ Ep). }
  change (zlib_ctl erl_errno_id ulong fuel INFLATE buf rlen w) with (zlib_process erl_errno_id zlib_inflate ST_INFLATE fuel buf rlen w).
  unfold zlib_process. rewrite (bind_eq get _ _ _ _ eq_refl), Hs, Hl. cbn [negb orb Nat.eqb].
  rewrite bool_decide_eq_true_2 by done. cbn [negb orb].
  destruct (zlib_inflate fuel (i32 buf) w) as [r w2] eqn:Ei. cbn [fst] in Hinfl. subst r. by rewrite (bind_eq _ _ _ _ _ Ei).
Qed.

(** C16: Commands are answered in every state, within the buffer for the reply: the count returned is that of the
    bytes written, which is not more than the room (one byte for none at all), or -1 with no room for an integer; the
    state changes only as the command says; and in another state than the one it needs a command is answered
    with the error of EINVAL and changes nothing but [errno]. *)
Theorem zlib_commands `{ZL : ZLib} {Q : Type} `{PQ : !PortQueue Q} `{RT : !Runtime}
    erl_errno_id ulong fuel command buf rlen (w : world Q) :
  let '(r, w') := zlib_ctl erl_errno_id ulong fuel command buf rlen w in
  match r with Some r => answers_fit rlen r | None => True end /\
  (state w' = state w \/ goes_to command = Some (state w')) /\
  (forall st, needs command = Some st -> state w <> st ->
    r = Some (fst (zlib_return erl_errno_id Z_ERRNO rlen (set_errno EINVAL w))) /\ w' = set_errno EINVAL w).
Proof.
  pose proof (ctl_states erl_errno_id ulong fuel command buf rlen w) as Hs.
  pose proof (ctl_refused erl_errno_id ulong fuel command buf rlen w) as Hr.
  destruct (zlib_ctl erl_errno_id ulong fuel command buf rlen w) as [r w'].
  split; [by destruct r as [r|]; [destruct Hs|]|split].
  - destruct r as [r|]; [by destruct Hs|by left].
  - intros st Hn Hst. specialize (Hr st Hn Hst). rewrite some_of_eq in Hr. unfold badarg in Hr.
    rewrite (bind_eq (modify _) _ w tt (set_errno EINVAL w) eq_refl) in Hr. injection Hr as -> ->.
    split; [done|]. by destruct (return_fit erl_errno_id Z_ERRNO rlen (set_errno EINVAL w)).
Qed.

(** * A library that copies *)

#[local] Instance rt_ok_sends : Sends (RT := rt_ok).
Proof. intros l c. by cbn. Qed.

(** The functions of a library that only uses [f]; the checksum is the sum. *)
Definition lib_of (f : Z -> bool -> bytes -> Z -> zresult bool) : ZLib := {|
  z_int := bool; z_zero := false;
  deflateInit _ := f 0; deflateInit2 _ _ _ _ _ := f 0; deflateSetDictionary _ := f 0; deflateReset := f 0;
  deflateEnd := f 0; deflateParams _ _ := f 0; deflate := f;
  inflateInit := f 0; inflateInit2 _ := f 0; inflateSetDictionary _ := f 0; inflateSync := f 0; inflateReset := f 0;
  inflateEnd := f 0; inflate := f;
  crc32 c b := fold_left Z.add b c; crc32_init := 0 |}.
#[local] Instance lib_checksum f : Checksum (ZL := lib_of f).
Proof. split; [done|]. intros c a b. apply fold_left_app. Qed.
(** Copies what there is room for, and reports the end when asked to finish and all is copied. *)
Definition copy (fl : Z) (ended : bool) (i : bytes) (n : Z) : zresult bool :=
  if ended then ZResult Z_STREAM_END 0 [] true else
  let k := Nat.min (length i) (Z.to_nat n) in
  let fin := (fl =? Z_FINISH) && (k =? length i)%nat in
  ZResult (if fin then Z_STREAM_END else Z_OK) k (take k i) fin.
#[local] Instance copy_lib : ZLib := lib_of copy.
#[local] Instance copy_stream : ZStream (ZL := copy_lib) copy.
Proof.
  refine {| z_ended (s : z_int (ZLib := copy_lib)) := s = true |}; intros fl s i n; unfold copy.
  - destruct s; cbn; lia.
  - intros Hn. destruct s; cbn; [lia|]. rewrite length_take. lia.
  - destruct s; [done|]. cbn. by destruct (_ && _).
  - by intros ->.
Defined.
Lemma copy_bounded : bounded (ZL := copy_lib) copy (fun _ => 0%nat) 1.
Proof.
  intros fl s i n Hn _. unfold copy. destruct s; cbn; [split; [lia|done]|]. rewrite length_take. split; [lia|].
  intros Hi _. destruct i; [done|]. cbn [length z_consumed z_written]. lia.
Qed.

(** A port on which [data] was sent, with an output of 2 bytes. *)
Definition sample (st : ZLibState) (data : bytes) : world (ZL := copy_lib) bytes :=
  World (false : z_int (ZLib := copy_lib)) [] 0 st None 0 2 0 true 0 data [].
Lemma sample_ready st data f `{ZS : !ZStream f} : ready f (sample st data).
Proof. split; [by left|]. split; [by cbn|by left]. Qed.

Lemma zlib_stream_witness :
  let w := sample ST_DEFLATE [65; 66; 67] in
  streamed copy false Z_FINISH w (snd (zlib_deflate (RT := rt_ok) 10 Z_FINISH w)) /\
  outputs (calls (snd (zlib_deflate (RT := rt_ok) 10 Z_FINISH w))) = [[65; 66]; [67]].
Proof.
  intros w. split; [|vm_compute; reflexivity].
  refine (proj1 (zlib_stream (RT := rt_ok) 10 Z_FINISH w _ Z_STREAM_END _) _ _);
    [by_decision|split; [by left|split; [by cbn|by left]]|vm_compute; reflexivity].
Defined.
Lemma zlib_commands_witness :
  let w := sample ST_DEFLATE [65] in
  let '(r, w') := zlib_ctl (RT := rt_ok) (fun _ => "einval"%string) 64 10 DEFLATE_INIT [0; 0; 0; 6] 64 w in
  r = Some (7, [1; 101; 105; 110; 118; 97; 108]) /\ w' = set_errno EINVAL w.
Proof.
  intros w. pose proof (zlib_commands (RT := rt_ok) (fun _ => "einval"%string) 64 10 DEFLATE_INIT [0; 0; 0; 6] 64 w) as H.
  destruct (zlib_ctl _ _ _ _ _ _ _) as [r w']. destruct H as (_ & _ & H).
  destruct (H ST_NONE eq_refl ltac:(discriminate)) as [-> ->]. split; reflexivity.
Defined.

(** A stream that needs a dictionary. *)
Definition dict_lib : ZLib := lib_of (fun _ s _ _ => ZResult Z_NEED_DICT 0 [] s).
Lemma need_dict_hangs_witness :
  let w : world (ZL := dict_lib) bytes := World (false : z_int (ZLib := dict_lib)) [] 2 ST_INFLATE (Some []) 2 2 0 false 0 [120; 187] [] in
  fst (zlib_ctl (ZL := dict_lib) (RT := rt_ok) (fun _ => ""%string) 64 1000 INFLATE [0; 0; 0; 0] 64 w) = None.
Proof.
  intros w. apply (need_dict_hangs (ZL := dict_lib) (RT := rt_ok) _ _ _ _ _ w [120; 187] []); try reflexivity; discriminate.
Defined.

(** A flush that finds the queue empty feeds the library what an earlier INFLATE left of its segment, which the RESET in between freed: here the
    stream ends after its first byte, and the second one comes out. *)
Definition ending (fl : Z) (ended : bool) (i : bytes) (n : Z) : zresult bool :=
  if ended then ZResult Z_STREAM_END 0 [] true else ZResult (if fl =? Z_NO_FLUSH then Z_STREAM_END else Z_OK) (Nat.min 1 (length i)) (take 1 i) (fl =? Z_NO_FLUSH).
Definition ending_lib : ZLib := {|
  z_int := bool; z_zero := false;
  deflateInit _ := ending 0; deflateInit2 _ _ _ _ _ := ending 0; deflateSetDictionary _ := ending 0; deflateReset := ending 0;
  deflateEnd := ending 0; deflateParams _ _ := ending 0; deflate := ending;
  inflateInit := ending 0; inflateInit2 _ := ending 0; inflateSetDictionary _ := ending 0; inflateSync := ending 0;
  inflateReset _ _ _ := ZResult Z_OK 0 [] false; inflateEnd := ending 0; inflate := ending;
  crc32 c b := fold_left Z.add b c; crc32_init := 0 |}.
Lemma reset_keeps_input :
  let w : world (ZL := ending_lib) bytes := World (false : z_int (ZLib := ending_lib)) [] 0 ST_INFLATE None 0 4 0 false 0 [65; 66] [] in
  let ctl command buf := zlib_ctl (ZL := ending_lib) (RT := rt_ok) (fun _ => ""%string) 64 10 command buf 64 in
  let w1 := snd (ctl INFLATE_RESET [] (snd (ctl INFLATE [0; 0; 0; 0] w))) in
  let w2 := snd (ctl INFLATE [0; 0; 0; 2] w1) in
  queue w1 = [] /\ bin w1 = Some [65] /\ outputs (calls w2) = [[65; 66]].
Proof. vm_compute. split_and!; reflexivity. Qed.
