(* ===== verification/Unixdom.v ===== *)
(** The Unix domain socket driver: [unixdom/c_src/unixdom_drv.c].  A port holds one stream socket;
    the ports of the driver are in the table [desc_table], and a port that accepts and the port
    that listens refer to each other through it.

    A pointer to a descriptor is its index in the table.  The operating system is a parameter: what a
    call answers is a function of the calls made so far, the trace.  What C leaves undefined, and an
    assertion that fails, is an event of the trace ([Fault]).  The counters of [input_count] and [output_count], which
    nothing reads, are left out. *)
From stdpp Require Import strings.
From S2P Require Import Prelude ErlTerm Erts.
#[local] Open Scope Z_scope.

(** * Constants *)

Definition UNIXDOM_REQ_ENDIAN := 1.
Definition UNIXDOM_REQ_KNUTHHASH := 2.
Definition UNIXDOM_REQ_OPEN := 3.
Definition UNIXDOM_REQ_CONNECT := 4.
Definition UNIXDOM_REQ_CLOSE := 5.
Definition UNIXDOM_REQ_WRITE := 6.
Definition UNIXDOM_REQ_RECV := 7.
Definition UNIXDOM_REQ_SETOPTS := 8.
Definition UNIXDOM_REQ_BIND := 9.
Definition UNIXDOM_REQ_ACCEPT := 10.
Definition UNIXDOM_REQ_GETIX := 11.
Definition UNIXDOM_REQ_GETOPTS := 12.
Definition UNIXDOM_REP_OK := 1.
Definition UNIXDOM_REP_ERROR := 2.
Definition UNIXDOM_REP_WOULDBLOCK := 3.
Definition UNIXDOM_REPBODY_LSB := 254.
Definition UNIXDOM_REPBODY_MSB := 255.
Definition UNIXDOM_OPT_ENDOFLIST := 0.
Definition UNIXDOM_OPT_IGNORE := 1.
Definition UNIXDOM_OPT_ACTIVE := 2.
Definition UNIXDOM_OPT_BACKLOG := 3.
Definition MODE_BINARY := 1.
Definition INVALID_SOCKET := -1.
Definition INVALID_EVENT := -1.
Definition SOCKET_ERROR := -1.
Definition M_PASSIVE := 0.
Definition M_ACTIVE := 1.
Definition M_ACTIVE_DEFAULT := M_PASSIVE.
Definition F_OPEN := 0x0001.
Definition F_BOUND := 0x0002.
Definition F_ACTIVE := 0x0004.
Definition F_LISTEN := 0x0008.
Definition F_CON := 0x0010.
Definition F_ACC := 0x0020.
Definition F_LST := 0x0040.
Definition F_BUSY := 0x0080.
Definition STATE_CLOSED := 0.
Definition STATE_OPEN := F_OPEN.
Definition STATE_BOUND := Z.lor STATE_OPEN F_BOUND.
Definition STATE_CONNECTED := Z.lor STATE_BOUND F_ACTIVE.
Definition STATE_CONNECTING := Z.lor STATE_BOUND F_CON.
Definition STATE_ACCEPTING := F_ACC.
Definition STATE_LISTEN := Z.lor STATE_BOUND F_LISTEN.
Definition STATE_LISTENING := Z.lor STATE_LISTEN F_LST.
Definition DEF_BUFSIZ := 1024 * 4.
Definition MAX_BUFSIZ := 1024 * 64.
Definition HIGH_WATERMARK := 1024 * 8.
Definition LOW_WATERMARK := 1024 * 4.
Definition INFINITY := 0xffffffff.
Definition PTYPE_RAW := 0.
Definition EXBADPORT : string := "exbadport".
Definition EXBADSEQ : string := "exbadseq".
Definition MAX_VSIZE : nat := 16.
(** The flags of [driver_select], [socket.h], [stdio.h] and [errno.h]; [sun_path] has [SUN_PATH] bytes. *)
Definition FD_READ := 1.
Definition FD_WRITE := 2.
Definition FD_CLOSE := 0.
Definition FD_CONNECT := FD_WRITE.
Definition FD_ACCEPT := FD_READ.
Definition SOCK_STREAM := 1.
Definition BUFSIZ := 8192.
Definition SUN_PATH := 108.
Definition EINTR := 4.
Definition EBADF := 9.
Definition ERRNO_BLOCK := 11.
Definition EWOULDBLOCK := 11.
Definition ENOMEM := 12.
Definition EINVAL := 22.
Definition EMFILE := 24.
Definition EPIPE := 32.
Definition EOVERFLOW := 75.
Definition ECONNRESET := 104.
Definition EISCONN := 106.
Definition ENOTCONN := 107.
Definition EINPROGRESS := 115.

(** * The environment *)

(** [Overread]: bytes beyond the command are read; [Overflow]: a store outside an array; [Wild]: a read outside the
    table; [Abort]: a failed assertion; [BadFree]: a binary freed as a block; [NullStore]: a store through the
    null pointer. *)
Inductive fault := Overread | Overflow | Wild | Abort | BadFree | NullStore.
Inductive io :=
  | Socket (fd : Z) | Accept (lfd fd : Z) | Close (fd : Z) | Nonblock (fd : Z)
  | Connect (fd : Z) (path : bytes) (rc : Z) | Bind (fd : Z) (path : bytes) (rc : Z) | Listen (fd backlog rc : Z)
  | Peername (fd : Z)
  | Recv (port fd : Z) (room size : Z) (data : bytes)   (* the size of the buffer, the size asked for, what came *)
  | Writev (port fd : Z) (data : bytes) (n : Z) | Write (fd : Z) (data : bytes) (n : Z)
  | Select (port ev : Z) (flags : Z) (on : bool)
  | OutputTerm (port : Z) (s : spec) | SetTimer (port ms : Z) | CancelTimer (port : Z)
  | SetBusy (port on : Z) | DriverExit (port err : Z)
  | Fault (f : fault).
Abbreviation trace := (list io).

(** Answers: the result and [errno]. *)
Class Os := {
  os_socket : trace -> Z * Z;
  os_connect : trace -> Z -> bytes -> Z * Z;
  os_bind : trace -> Z -> bytes -> Z * Z;
  os_listen : trace -> Z -> Z -> Z * Z;
  os_accept : trace -> Z -> Z * Z;
  os_recv : trace -> Z -> Z -> Z * Z * bytes;
  os_writev : trace -> Z -> bytes -> Z * Z;
  os_write : trace -> Z -> bytes -> Z * Z;
  os_peer : trace -> Z -> Z * Z;
  os_alloc : trace -> Z -> bool;
  erl_errno_id : Z -> string;
  little_endian : bool;
}.

(** The sockets opened and not closed. *)
Definition open_socket (l : list Z) (e : io) : list Z :=
  match e with
  | Socket fd | Accept _ fd => if fd =? INVALID_SOCKET then l else fd :: l
  | Close fd => filter (fun x => x <> fd) l
  | _ => l
  end.
Definition open_sockets (tr : trace) : list Z := fold_left open_socket tr [].

(** Documented results: a new descriptor is none of those in use; [recv] and [writev] transfer at most
    what was asked for; [writev] of something writes something. *)
Class OsLaws (OS : Os) : Prop := {
  os_socket_law tr : let fd := fst (os_socket tr) in fd = -1 \/ 0 <= fd /\ fd ∉ open_sockets tr;
  os_accept_law tr lfd : let fd := fst (os_accept tr lfd) in fd = -1 \/ 0 <= fd /\ fd ∉ open_sockets tr;
  os_recv_law tr fd size : let '(n, _, data) := os_recv tr fd size in
    -1 <= n <= Z.max 0 size /\ Z.of_nat (length data) = Z.max 0 n;
  os_writev_law tr fd data : let n := fst (os_writev tr fd data) in
    -1 <= n <= Z.of_nat (length data) /\ (data <> [] -> n <> 0);
}.

(** * Descriptors *)

Record descriptor (Q : Type) := Descriptor {
  s : Z;   (* the socket, INVALID_SOCKET if not open *)
  event : Z;
  event_mask : Z;
  port : Z;
  state : Z;
  prebound : Z;
  mode : Z;
  exitf : Z;
  active : Z;
  stype : Z;
  htype : Z;
  ix : Z;
  backlog : Z;
  bufsz : Z;
  i_buf : option (Z * bytes);   (* size and what was read into it *)
  i_bufp : bool;   (* whether it is set *)
  low : Z;
  high : Z;
  send_timeout : Z;
  busy_on_send : Z;
  i_ix : Z;
  queue : Q;   (* the port's queue *)
}.
Arguments Descriptor {Q}.
Arguments s {Q}. Arguments event {Q}. Arguments event_mask {Q}. Arguments port {Q}. Arguments state {Q}.
Arguments prebound {Q}. Arguments mode {Q}. Arguments exitf {Q}. Arguments active {Q}. Arguments stype {Q}.
Arguments htype {Q}. Arguments ix {Q}. Arguments backlog {Q}. Arguments bufsz {Q}. Arguments i_buf {Q}.
Arguments i_bufp {Q}. Arguments low {Q}. Arguments high {Q}. Arguments send_timeout {Q}. Arguments
busy_on_send {Q}. Arguments i_ix {Q}. Arguments queue {Q}.
Section Set_fields.
Context {Q : Type}.
Implicit Types (d : descriptor Q).
Definition w_s (v : Z) d : descriptor Q :=
  Descriptor v (event d) (event_mask d) (port d) (state d) (prebound d) (mode d) (exitf d) (active d) (stype d) (htype d) (ix d) (backlog d) (bufsz d) (i_buf d) (i_bufp d) (low d) (high d) (send_timeout d) (busy_on_send d) (i_ix d) (queue d).
Definition w_event (v : Z) d : descriptor Q :=
  Descriptor (s d) v (event_mask d) (port d) (state d) (prebound d) (mode d) (exitf d) (active d) (stype d) (htype d) (ix d) (backlog d) (bufsz d) (i_buf d) (i_bufp d) (low d) (high d) (send_timeout d) (busy_on_send d) (i_ix d) (queue d).
Definition w_event_mask (v : Z) d : descriptor Q :=
  Descriptor (s d) (event d) v (port d) (state d) (prebound d) (mode d) (exitf d) (active d) (stype d) (htype d) (ix d) (backlog d) (bufsz d) (i_buf d) (i_bufp d) (low d) (high d) (send_timeout d) (busy_on_send d) (i_ix d) (queue d).
Definition w_state (v : Z) d : descriptor Q :=
  Descriptor (s d) (event d) (event_mask d) (port d) v (prebound d) (mode d) (exitf d) (active d) (stype d) (htype d) (ix d) (backlog d) (bufsz d) (i_buf d) (i_bufp d) (low d) (high d) (send_timeout d) (busy_on_send d) (i_ix d) (queue d).
Definition w_mode (v : Z) d : descriptor Q :=
  Descriptor (s d) (event d) (event_mask d) (port d) (state d) (prebound d) v (exitf d) (active d) (stype d) (htype d) (ix d) (backlog d) (bufsz d) (i_buf d) (i_bufp d) (low d) (high d) (send_timeout d) (busy_on_send d) (i_ix d) (queue d).
Definition w_exitf (v : Z) d : descriptor Q :=
  Descriptor (s d) (event d) (event_mask d) (port d) (state d) (prebound d) (mode d) v (active d) (stype d) (htype d) (ix d) (backlog d) (bufsz d) (i_buf d) (i_bufp d) (low d) (high d) (send_timeout d) (busy_on_send d) (i_ix d) (queue d).
Definition w_active (v : Z) d : descriptor Q :=
  Descriptor (s d) (event d) (event_mask d) (port d) (state d) (prebound d) (mode d) (exitf d) v (stype d) (htype d) (ix d) (backlog d) (bufsz d) (i_buf d) (i_bufp d) (low d) (high d) (send_timeout d) (busy_on_send d) (i_ix d) (queue d).
Definition w_stype (v : Z) d : descriptor Q :=
  Descriptor (s d) (event d) (event_mask d) (port d) (state d) (prebound d) (mode d) (exitf d) (active d) v (htype d) (ix d) (backlog d) (bufsz d) (i_buf d) (i_bufp d) (low d) (high d) (send_timeout d) (busy_on_send d) (i_ix d) (queue d).
Definition w_htype (v : Z) d : descriptor Q :=
  Descriptor (s d) (event d) (event_mask d) (port d) (state d) (prebound d) (mode d) (exitf d) (active d) (stype d) v (ix d) (backlog d) (bufsz d) (i_buf d) (i_bufp d) (low d) (high d) (send_timeout d) (busy_on_send d) (i_ix d) (queue d).
Definition w_backlog (v : Z) d : descriptor Q :=
  Descriptor (s d) (event d) (event_mask d) (port d) (state d) (prebound d) (mode d) (exitf d) (active d) (stype d) (htype d) (ix d) v (bufsz d) (i_buf d) (i_bufp d) (low d) (high d) (send_timeout d) (busy_on_send d) (i_ix d) (queue d).
Definition w_bufsz (v : Z) d : descriptor Q :=
  Descriptor (s d) (event d) (event_mask d) (port d) (state d) (prebound d) (mode d) (exitf d) (active d) (stype d) (htype d) (ix d) (backlog d) v (i_buf d) (i_bufp d) (low d) (high d) (send_timeout d) (busy_on_send d) (i_ix d) (queue d).
Definition w_i_buf (v : option (Z * bytes)) d : descriptor Q :=
  Descriptor (s d) (event d) (event_mask d) (port d) (state d) (prebound d) (mode d) (exitf d) (active d) (stype d) (htype d) (ix d) (backlog d) (bufsz d) v (i_bufp d) (low d) (high d) (send_timeout d) (busy_on_send d) (i_ix d) (queue d).
Definition w_i_bufp (v : bool) d : descriptor Q :=
  Descriptor (s d) (event d) (event_mask d) (port d) (state d) (prebound d) (mode d) (exitf d) (active d) (stype d) (htype d) (ix d) (backlog d) (bufsz d) (i_buf d) v (low d) (high d) (send_timeout d) (busy_on_send d) (i_ix d) (queue d).
Definition w_low (v : Z) d : descriptor Q :=
  Descriptor (s d) (event d) (event_mask d) (port d) (state d) (prebound d) (mode d) (exitf d) (active d) (stype d) (htype d) (ix d) (backlog d) (bufsz d) (i_buf d) (i_bufp d) v (high d) (send_timeout d) (busy_on_send d) (i_ix d) (queue d).
Definition w_high (v : Z) d : descriptor Q :=
  Descriptor (s d) (event d) (event_mask d) (port d) (state d) (prebound d) (mode d) (exitf d) (active d) (stype d) (htype d) (ix d) (backlog d) (bufsz d) (i_buf d) (i_bufp d) (low d) v (send_timeout d) (busy_on_send d) (i_ix d) (queue d).
Definition w_send_timeout (v : Z) d : descriptor Q :=
  Descriptor (s d) (event d) (event_mask d) (port d) (state d) (prebound d) (mode d) (exitf d) (active d) (stype d) (htype d) (ix d) (backlog d) (bufsz d) (i_buf d) (i_bufp d) (low d) (high d) v (busy_on_send d) (i_ix d) (queue d).
Definition w_busy_on_send (v : Z) d : descriptor Q :=
  Descriptor (s d) (event d) (event_mask d) (port d) (state d) (prebound d) (mode d) (exitf d) (active d) (stype d) (htype d) (ix d) (backlog d) (bufsz d) (i_buf d) (i_bufp d) (low d) (high d) (send_timeout d) v (i_ix d) (queue d).
Definition w_i_ix (v : Z) d : descriptor Q :=
  Descriptor (s d) (event d) (event_mask d) (port d) (state d) (prebound d) (mode d) (exitf d) (active d) (stype d) (htype d) (ix d) (backlog d) (bufsz d) (i_buf d) (i_bufp d) (low d) (high d) (send_timeout d) (busy_on_send d) v (queue d).
Definition w_queue (v : Q) d : descriptor Q :=
  Descriptor (s d) (event d) (event_mask d) (port d) (state d) (prebound d) (mode d) (exitf d) (active d) (stype d) (htype d) (ix d) (backlog d) (bufsz d) (i_buf d) (i_bufp d) (low d) (high d) (send_timeout d) (busy_on_send d) (i_ix d) v.
End Set_fields.


(** [desc_table] with [desc_ix], [errno] and the calls made; [desc_size] is the length of the table. *)
Record world (Q : Type) := World {
  desc_table : list (option (descriptor Q));
  desc_ix : nat;
  errno : Z;
  calls : trace;
}.
Arguments World {Q}. Arguments desc_table {Q}. Arguments desc_ix {Q}. Arguments errno {Q}. Arguments calls {Q}.

(** [BINARY], [BUSY] and the like. *)
Definition has (st flags : Z) : bool := Z.land st flags =? flags.
Definition IS_OPEN {Q} (d : descriptor Q) : bool := has (state d) F_OPEN.
Definition IS_BOUND {Q} (d : descriptor Q) : bool := has (state d) F_BOUND.
Definition IS_CONNECTED {Q} (d : descriptor Q) : bool := has (state d) STATE_CONNECTED.
Definition IS_CONNECTING {Q} (d : descriptor Q) : bool := has (state d) F_CON.
Definition IS_BUSY {Q} (d : descriptor Q) : bool := has (state d) F_BUSY.

(** A reply of a control command: where it is written and what. *)
Inductive reply := InPlace (b : bytes) | Allocated (b : bytes) | NoReply.

Section Driver.
Context `{OS : !Os} {Q : Type} `{PQ : !PortQueue Q} `{IV : !IOVec Q}.
(** [unsigned long] has [ulong] bits; [empty] is the queue of a new port. *)
Context (ulong : Z) (empty : Q).
Abbreviation W := (world Q).
Abbreviation U := (M W).
Implicit Types (d : descriptor Q).

Definition act (e : io) : U unit :=
  modify (fun w => World (desc_table w) (desc_ix w) (errno w) (calls w ++ [e])).
Definition set_errno (e : Z) : U unit :=
  modify (fun w => World (desc_table w) (desc_ix w) e (calls w)).
Definition sock_errno : U Z := gets errno.
(** A block with nothing in it, where there is no descriptor. *)
Definition blank : descriptor Q :=
  Descriptor INVALID_SOCKET INVALID_EVENT 0 0 0 0 0 0 0 0 0 0 0 0 None false 0 0 0 0 (-1) empty.
Definition this (i : nat) : U (descriptor Q) := gets (fun w => default blank (default None (desc_table w !! i))).
Definition upd (i : nat) (f : descriptor Q -> descriptor Q) : U unit :=
  modify (fun w => World (alter (option_map f) i (desc_table w)) (desc_ix w) (errno w) (calls w)).
(** A system call: its answer for the calls made, its event, and [errno]. *)
Definition sys {A} (answer : trace -> A * Z) (e : A -> io) : U A := fun w =>
  let '(a, err) := answer (calls w) in
  (a, World (desc_table w) (desc_ix w) err (calls w ++ [e a])).

Definition sock_select (i : nat) (flags : Z) (on : bool) : U unit :=
  upd i (fun d => w_event_mask (if on then Z.lor (event_mask d) flags else Z.land (event_mask d) (Z.lnot flags)) d);;;
  d ← this i;
  act (Select (port d) (event d) flags on).

(** Memory of [n] bytes from the runtime. *)
Definition driver_alloc (n : Z) : U bool := gets (fun w => os_alloc (calls w) n).
Definition output_term (i : nat) (sp : spec) : U unit := d ← this i; act (OutputTerm (port d) sp).

(** ** Replies of control commands *)

(** What is stored through the null pointer when there is no memory. *)
Definition ctl_reply (rep : Z) (buf : bytes) (rbuflen : Z) : U (Z * reply) :=
  let len := Z.of_nat (length buf) in
  let b := u8 rep :: buf in
  if len + 1 >? rbuflen then
    ok ← driver_alloc (len + 1);
    if ok : bool then mret (len + 1, Allocated b) else act (Fault NullStore);;; mret (len + 1, NoReply)
  else mret (len + 1, InPlace b).
Definition ctl_error (err rbuflen : Z) : U (Z * reply) :=
  ctl_reply UNIXDOM_REP_ERROR (lit (tolower (erl_errno_id err))) rbuflen.
Definition ctl_xerror (xerr : string) (rbuflen : Z) : U (Z * reply) :=
  ctl_reply UNIXDOM_REP_ERROR (lit xerr) rbuflen.
Definition ctl_ok (buf : bytes) (rbuflen : Z) : U (Z * reply) := ctl_reply UNIXDOM_REP_OK buf rbuflen.
Definition ctl_errno (rbuflen : Z) : U (Z * reply) := e ← sock_errno; ctl_error e rbuflen.

(** ** Messages to the owner *)

Definition ok_spec (port : Z) : spec :=
  let spec := LOAD_ATOM [] "unixdom_reply" in
  let spec := LOAD_PORT spec port in
  let spec := LOAD_ATOM spec "ok" in
  LOAD_TUPLE spec 3.
Definition wouldblock_spec (port : Z) : spec :=
  let spec := LOAD_ATOM [] "unixdom_reply" in
  let spec := LOAD_PORT spec port in
  let spec := LOAD_ATOM spec "wouldblock" in
  LOAD_TUPLE spec 3.
Definition closed_spec (port : Z) : spec :=
  let spec := LOAD_ATOM [] "closed" in
  let spec := LOAD_PORT spec port in
  LOAD_TUPLE spec 2.
(** [unixdom_recv_error] passes an integer for the atom. *)
Definition error_spec (port : Z) (reason : word) : spec :=
  let spec := LOAD_ATOM [] "unixdom_reply" in
  let spec := LOAD_PORT spec port in
  let spec := LOAD_ATOM spec "error" in
  let spec := spec ++ [Tag ERL_DRV_ATOM; reason] in
  let spec := LOAD_TUPLE spec 2 in
  LOAD_TUPLE spec 3.
Definition data_spec (port : Z) (bin : bytes) (nbytes : Z) : spec :=
  let spec := LOAD_ATOM [] "unixdom" in
  let spec := LOAD_PORT spec port in
  let spec := LOAD_BINARY spec bin 0 nbytes in
  LOAD_TUPLE spec 3.

Definition error_atom (err : Z) : word := Atm (tolower (erl_errno_id err)).
Definition reply_ok (i : nat) : U unit := d ← this i; output_term i (ok_spec (port d)).
Definition reply_wouldblock (i : nat) : U unit := d ← this i; output_term i (wouldblock_spec (port d)).
Definition reply_closed (i : nat) : U unit := d ← this i; output_term i (closed_spec (port d)).
Definition reply_error_am (i : nat) (reason : word) : U unit := d ← this i; output_term i (error_spec (port d) reason).
Definition reply_data (i : nat) (nbytes : Z) : U unit :=
  d ← this i;
  output_term i (data_spec (port d) (default [] (snd <$> i_buf d)) nbytes);;;
  upd i (w_i_buf None).

(** ** Closing *)

Definition desc_close (i : nat) : U unit :=
  d ← this i;
  when negb (s d =? INVALID_SOCKET) do (
    sock_select i (Z.lor (Z.lor FD_READ FD_WRITE) FD_CLOSE) false;;;
    act (Close (s d));;;
    upd i (fun d => w_event_mask 0 (w_event INVALID_EVENT (w_s INVALID_SOCKET d)))).
Definition clear_input (i : nat) : U unit := upd i (fun d => w_i_bufp false (w_i_buf None d)).
Definition clear_output (i : nat) : U unit :=
  upd i (fun d => w_queue (driver_deq (queue d) (int32 (driver_sizeq (queue d)))) d).
Definition unixdom_close (i : nat) : U unit :=
  d ← this i;
  when (prebound d =? 0) && IS_OPEN d do (desc_close i;;; upd i (w_state STATE_CLOSED)).

(** [d->state &= ~F_BUSY; set_busy_port(d->port, 0);] *)
Definition unbusy (i : nat) : U unit :=
  upd i (fun d => w_state (Z.land (state d) (Z.lnot F_BUSY)) d);;;
  d ← this i;
  act (SetBusy (port d) 0).
Definition cancel_timer (i : nat) : U unit := d ← this i; act (CancelTimer (port d)).
Definition driver_exit (i : nat) (err : Z) : U unit := d ← this i; act (DriverExit (port d) err).

(** [err] is not used. *)
Definition reply_error (i : nat) (err : Z) : U Z :=
  d ← this i;
  (when IS_BUSY d do (
    (when negb (busy_on_send d =? 0) do (cancel_timer i;;; upd i (w_busy_on_send 0)));;;
    unbusy i));;;
  code ← sys (fun tr => os_peer tr (s d)) (fun _ => Peername (s d));
  e ← sock_errno;
  (if (code =? SOCKET_ERROR) && ((e =? ENOTCONN) || (e =? EPIPE)) then
     if negb (active d =? 0) then
       reply_closed i;;;
       reply_error_am i (Atm "closed");;;
       if negb (exitf d =? 0) then driver_exit i 0 else desc_close i
     else
       clear_output i;;;
       unixdom_close i;;;
       reply_error_am i (Atm "closed")
   else reply_error_am i (error_atom e));;;
  mret (-1).

(** A blocked send is given up. *)
Definition give_up_send (i : nat) : U unit :=
  d ← this i;
  when IS_BUSY d do (
    clear_output i;;;
    cancel_timer i;;;
    upd i (w_busy_on_send 0);;;
    unbusy i;;;
    reply_error_am i (Atm "closed")).
Definition unixdom_recv_closed (i : nat) : U Z :=
  d ← this i;
  (if active d =? 0 then
     cancel_timer i;;;
     clear_input i;;;
     desc_close i;;;
     reply_error_am i (Atm "closed")
   else
     give_up_send i;;;
     clear_input i;;;
     sock_select i (Z.lor FD_WRITE FD_READ) false;;;
     if negb (exitf d =? 0) then driver_exit i 0 else desc_close i);;;
  mret (-2).
(** The reason is the number where an atom is due. *)
Definition unixdom_recv_error (i : nat) (err : Z) : U Z :=
  if err =? EWOULDBLOCK then mret 0 else
  d ← this i;
  (if active d =? 0 then
     cancel_timer i;;;
     clear_input i;;;
     reply_error_am i (Val err)
   else
     give_up_send i;;;
     clear_input i;;;
     reply_error i err;;;
     reply_closed i;;;
     if negb (exitf d =? 0) then driver_exit i err else desc_close i);;;
  mret (-1).

(** ** Receiving *)

(** What comes beyond the room of the buffer is stored outside it; the binary has the rest. *)
Definition unixdom_recv (i : nat) (request_len : Z) : U Z :=
  d ← this i;
  let sz := if 0 <? request_len then request_len else bufsz d in
  ok ← match i_buf d with
    | None =>
        ok ← driver_alloc sz;
        (when (ok : bool) do upd i (fun d => w_i_bufp true (w_i_buf (Some (sz, [])) d)));;; mret ok
    | Some _ => mret true
    end;
  if negb ok then mret (-1) else
  d ← this i;
  let room := default 0 (fst <$> i_buf d) in
  r ← sys (fun tr => let '(n, err, data) := os_recv tr (s d) sz in ((n, data), err))
          (fun r => Recv (port d) (s d) room sz (snd r));
  let '(n, data) := r in
  (when room <? n do act (Fault Overflow));;;
  if n <? 0 then
    err ← sock_errno;
    if (err =? ECONNRESET) || (err =? EPIPE) then unixdom_recv_closed i
    else if err =? EWOULDBLOCK then mret 0
    else unixdom_recv_error i err
  else if n =? 0 then unixdom_recv_closed i
  else upd i (w_i_buf (Some (room, take (Z.to_nat room) data)));;; mret n.

(** ** Sending *)

(** [sock_sendv]: at most [MAX_VSIZE] segments. *)
Definition sock_sendv (i : nat) (iov : list bytes) : U Z :=
  d ← this i;
  let data := concat (take MAX_VSIZE iov) in
  sys (fun tr => os_writev tr (s d) data) (fun n => Writev (port d) (s d) data n).
Definition send_error (err : Z) : bool := negb (err =? ERRNO_BLOCK) && negb (err =? EINTR).

Definition do_outputv (i : nat) (ev : list bytes) : U Z :=
  let size := Z.of_nat (length (concat ev)) in
  if size =? 0 then mret 0 else
  d ← this i;
  let sz := driver_sizeq (queue d) in
  if 0 <? sz then
    upd i (fun d => w_queue (driver_enqv (queue d) ev 0) d);;;
    if high d <=? sz + size then
      upd i (fun d => w_state (Z.lor (state d) F_BUSY) d);;;
      act (SetBusy (port d) 1);;;
      if negb (send_timeout d =? INFINITY) then
        upd i (w_busy_on_send 1);;;
        act (SetTimer (port d) (send_timeout d));;;
        mret 1
      else mret 0
    else mret 0
  else
    n ← sock_sendv i ev;
    err ← sock_errno;
    if (n =? SOCKET_ERROR) && send_error err then reply_error i err else
    let n := if n =? SOCKET_ERROR then 0 else n in
    if n =? size then mret 0 else
    upd i (fun d => w_queue (driver_enqv (queue d) ev n) d);;;
    sock_select i (Z.lor FD_WRITE FD_CLOSE) true;;;
    mret 0.

Definition unixdom_outputv (i : nat) (ev : list bytes) : U unit :=
  d ← this i;
  if negb (IS_CONNECTED d) then reply_error i ENOTCONN;;; skip else
  r ← do_outputv i ev;
  when r =? 0 do reply_ok i.

(** Below the low watermark the port is released, and the sender that waits answered. *)
Definition release (i : nat) : U unit :=
  d ← this i;
  when (driver_sizeq (queue d) <=? low d) && IS_BUSY d do (
    unbusy i;;;
    when negb (busy_on_send d =? 0) do (cancel_timer i;;; upd i (w_busy_on_send 0);;; reply_ok i)).
(** [for (;;)]: [false] when the turns do not suffice. *)
Fixpoint flush_queue (fuel : nat) (i : nat) : U bool :=
  d ← this i;
  let iov := driver_peekq (queue d) in
  if bool_decide (iov = []) then sock_select i FD_WRITE false;;; mret true else
  match fuel with
  | O => mret false
  | S fuel =>
      n ← sock_sendv i iov;
      err ← sock_errno;
      if n =? SOCKET_ERROR then
        (when send_error err do (reply_error i err;;; skip));;;
        mret true
      else
        upd i (fun d => w_queue (driver_deq (queue d) n) d);;;
        release i;;;
        flush_queue fuel i
  end.
Definition unixdom_ready_output (fuel i : nat) : U bool :=
  d ← this i;
  if state d =? STATE_CONNECTING then upd i (w_state STATE_CONNECTED);;; reply_ok i;;; mret true
  else if IS_CONNECTED d then
    upd i (fun d => w_queue (driver_deq (queue d) 0) d);;;
    flush_queue fuel i
  else mret true.

(** ** Accepting *)

(** The first descriptor whose [i_ix] is that of the accepting port. *)
Definition waits_for (a : Z) (o : option (descriptor Q)) : bool :=
  match o with Some d => (stype d =? SOCK_STREAM) && (i_ix d =? a) | None => false end.
Fixpoint find_listener (a : Z) (t : list (option (descriptor Q))) : option nat :=
  match t with
  | [] => None
  | o :: t => if waits_for a o then Some 0%nat else S <$> find_listener a t
  end.
Definition clear_listener (a : nat) : U unit :=
  a_desc ← this a;
  (when negb (state a_desc =? STATE_ACCEPTING) do act (Fault Abort));;;
  t ← gets desc_table;
  match find_listener (ix a_desc) t with
  | Some l =>
      l_desc ← this l;
      (when state l_desc =? STATE_LISTENING do (
        upd l (w_state STATE_LISTEN);;;
        sock_select l FD_ACCEPT false));;;
      upd l (w_i_ix (-1))
  | None => skip
  end.
(** The descriptor takes the socket of an accepted connection. *)
Definition take_socket (i : nat) (fd : Z) : U unit :=
  upd i (fun d => w_event fd (w_s fd d));;;
  act (Nonblock fd);;;
  upd i (w_state STATE_CONNECTED);;;
  sock_select i FD_CONNECT false;;;
  d ← this i;
  sock_select i (Z.lor FD_READ FD_CLOSE) (negb (active d =? 0)).
Definition sock_accept (l : nat) : U Z :=
  d ← this l;
  sys (fun tr => os_accept tr (s d)) (fun fd => Accept (s d) fd).

Definition unixdom_ready_input (i : nat) : U unit :=
  d ← this i;
  if state d =? STATE_LISTENING then
    sock_select i FD_ACCEPT false;;;
    let a := Z.to_nat (i_ix d) in
    upd i (fun d => w_i_ix (-1) (w_state STATE_LISTEN d));;;
    t ← gets desc_table;
    match default None (t !! a) with
    | None => skip
    | Some a_desc =>
        if negb (state a_desc =? STATE_ACCEPTING) then skip else
        fd ← sock_accept i;
        if fd =? INVALID_SOCKET then
          err ← sock_errno;
          reply_error a err;;;
          desc_close a
        else
          take_socket a fd;;;
          reply_ok i
    end
  else if IS_CONNECTED d then
    n ← unixdom_recv i 0;
    (when 0 <? n do reply_data i n);;;
    d ← this i;
    when active d =? 0 do sock_select i (Z.lor FD_READ FD_CLOSE) false
  else sock_select i FD_ACCEPT false.

Definition unixdom_timeout (i : nat) : U unit :=
  d ← this i;
  if has (state d) STATE_CONNECTED then
    (if negb (busy_on_send d =? 0) then upd i (w_busy_on_send 0)
     else
       (when negb (active d =? 0) do act (Fault Abort));;;
       sock_select i (Z.lor FD_READ FD_CLOSE) false);;;
    reply_error_am i (Atm "timeout")
  else if has (state d) STATE_CONNECTING then
    unixdom_close i;;;
    reply_error_am i (Atm "timeout")
  else if has (state d) STATE_ACCEPTING then
    clear_listener i;;;
    reply_error_am i (Atm "timeout")
  else skip.

(** ** Control commands *)

(** [get_int32] at [off] of the command. *)
Definition int_arg (buf : bytes) (off : nat) : U Z :=
  (when (length buf <? off + 4)%nat do act (Fault Overread));;;
  mret (get_int32 (drop off buf)).
Definition u_long (z : Z) : Z := wrap ulong z.
(** [strncpy] to [path], of [BUFSIZ], its terminator, and [strcpy] to [sun_path]. *)
Definition copy_path (p : bytes) (plen : Z) : U bytes :=
  (when (plen <? 0) || (BUFSIZ <=? plen) || (SUN_PATH <=? Z.of_nat (length (c_str p))) do act (Fault Overflow));;;
  mret (c_str p).
(** An [int] as it is in memory. *)
Definition native_int (n : Z) : bytes := if little_endian then rev (put_int32 n) else put_int32 n.

Definition ctl_endian (rbuflen : Z) : U (Z * reply) :=
  ctl_ok [if little_endian then UNIXDOM_REPBODY_LSB else UNIXDOM_REPBODY_MSB] rbuflen.
Definition knuthhash (path : bytes) : Z :=
  fold_left (fun n b => Z.lxor (Z.lxor (wrap 32 (Z.shiftl n 3)) (Z.shiftr n 5)) b) path 0.
Definition ctl_knuthhash (path : bytes) (rbuflen : Z) : U (Z * reply) := ctl_ok (native_int (knuthhash path)) rbuflen.

Definition ctl_open (i : nat) (rbuflen : Z) : U (Z * reply) :=
  d ← this i;
  if negb (state d =? STATE_CLOSED) then ctl_xerror EXBADSEQ rbuflen else
  fd ← sys os_socket Socket;
  upd i (w_s fd);;;
  if fd =? INVALID_SOCKET then ctl_errno rbuflen else
  upd i (w_event fd);;;
  act (Nonblock fd);;;
  upd i (fun d => w_stype SOCK_STREAM (w_state STATE_OPEN d));;;
  ctl_ok [] rbuflen.

Definition ctl_connect (i : nat) (p : bytes) (rbuflen : Z) : U (Z * reply) :=
  d ← this i;
  if negb (IS_OPEN d) then ctl_xerror EXBADPORT rbuflen else
  if IS_CONNECTED d then ctl_error EISCONN rbuflen else
  if IS_CONNECTING d then ctl_error EINVAL rbuflen else
  timeout ← int_arg p 0;
  path ← copy_path (drop 4 p) (Z.of_nat (length p) - 4);
  sock_select i FD_CONNECT true;;;
  res ← sys (fun tr => os_connect tr (s d) path) (fun rc => Connect (s d) path rc);
  if res =? SOCKET_ERROR then
    err ← sock_errno;
    if err =? EINPROGRESS then
      upd i (w_state STATE_CONNECTING);;;
      (when negb (u_long timeout =? INFINITY) do act (SetTimer (port d) (u_long timeout)));;;
      ctl_error EINVAL rbuflen
    else ctl_error err rbuflen
  else
    sock_select i FD_CONNECT false;;;
    upd i (w_state STATE_CONNECTED);;;
    (when negb (active d =? 0) do sock_select i (Z.lor FD_READ FD_CLOSE) true);;;
    ctl_ok [] rbuflen.

(** The error for a closed port is written but not returned. *)
Definition ctl_close (i : nat) (rbuflen : Z) : U (Z * reply) :=
  d ← this i;
  (when state d =? STATE_CLOSED do (ctl_error EINVAL rbuflen;;; skip));;;
  clear_input i;;;
  desc_close i;;;
  upd i (w_state STATE_CLOSED);;;
  ctl_ok [] rbuflen.

Definition ctl_write (i : nat) (buf : bytes) (rbuflen : Z) : U (Z * reply) :=
  d ← this i;
  let count := Z.of_nat (length buf) in
  if IS_CONNECTING d then ctl_error EINVAL rbuflen
  else if IS_CONNECTED d then
    n ← sys (fun tr => os_write tr (s d) buf) (fun n => Write (s d) buf n);
    if n <? 0 then ctl_errno rbuflen
    else if negb (n =? count) then ctl_error EOVERFLOW rbuflen
    else ctl_ok (native_int count) rbuflen
  else
    sock_select i FD_CONNECT false;;;
    ctl_error EINVAL rbuflen.

Definition ctl_recv (i : nat) (nbytes timeout : Z) (rbuflen : Z) : U (Z * reply) :=
  d ← this i;
  if negb (IS_CONNECTED d) then r ← unixdom_recv_error i EBADF; mret (r, NoReply) else
  n ← unixdom_recv i (int32 nbytes);
  if 0 <? n then reply_data i n;;; ctl_ok [] rbuflen
  else if n =? 0 then
    if timeout =? 0 then
      reply_error_am i (Atm "timeout");;;
      ctl_ok [] rbuflen
    else
      (when negb (timeout =? INFINITY) do act (SetTimer (port d) timeout));;;
      sock_select i (Z.lor FD_READ FD_CLOSE) true;;;
      ctl_ok [] rbuflen
  else if n =? -1 then ctl_errno rbuflen
  else if n =? -2 then ctl_xerror "closed" rbuflen
  else mret (-1, NoReply).

(** The loop over the options: the error, if there is one. *)
Fixpoint set_opts (i : nat) (bufp : bytes) : U (option string) :=
  match bufp with
  | [] => act (Fault Overread);;; mret (Some EXBADPORT)
  | opt :: bufp =>
      if opt =? UNIXDOM_OPT_ENDOFLIST then mret None
      else if opt =? UNIXDOM_OPT_IGNORE then set_opts i bufp
      else if opt =? UNIXDOM_OPT_ACTIVE then
        match bufp with
        | [] => act (Fault Overread);;; mret (Some EXBADPORT)
        | b :: bufp =>
            upd i (w_active (schar b));;;
            sock_select i (Z.lor FD_READ FD_CLOSE) (negb (schar b =? 0));;;
            set_opts i bufp
        end
      else if opt =? UNIXDOM_OPT_BACKLOG then
        d ← this i;
        if negb (IS_OPEN d) then mret (Some EXBADPORT) else
        if negb (IS_BOUND d) then mret (Some EXBADSEQ) else
        match bufp with
        | b3 :: b2 :: b1 :: b0 :: bufp =>
            let l := get_int32 [b3; b2; b1; b0] in
            rc ← sys (fun tr => os_listen tr (s d) l) (fun rc => Listen (s d) l rc);
            if rc =? SOCKET_ERROR then mret (Some EXBADPORT) else
            upd i (w_backlog l);;;
            set_opts i bufp
        | _ => act (Fault Overread);;; mret (Some EXBADPORT)
        end
      else mret (Some EXBADPORT)
  end.
Definition ctl_setopts (i : nat) (buf : bytes) (rbuflen : Z) : U (Z * reply) :=
  err ← set_opts i buf;
  match err with None => ctl_ok [] rbuflen | Some err => ctl_xerror err rbuflen end.

Definition ctl_bind (i : nat) (buf : bytes) (rbuflen : Z) : U (Z * reply) :=
  d ← this i;
  if negb (IS_OPEN d) then ctl_xerror EXBADPORT rbuflen else
  if IS_CONNECTED d then ctl_error EISCONN rbuflen else
  if IS_CONNECTING d then ctl_error EINVAL rbuflen else
  backlog ← int_arg buf 0;
  (when backlog <? 0 do act (Fault Abort));;;
  path ← copy_path (drop 4 buf) (Z.of_nat (length buf) - 4);
  res ← sys (fun tr => os_bind tr (s d) path) (fun rc => Bind (s d) path rc);
  if res =? SOCKET_ERROR then
    err ← sock_errno;
    if err =? EINPROGRESS then ctl_error EINVAL rbuflen else ctl_error err rbuflen
  else
    res ← sys (fun tr => os_listen tr (s d) backlog) (fun rc => Listen (s d) backlog rc);
    if res =? SOCKET_ERROR then ctl_errno rbuflen else
    upd i (w_active 0);;;
    sock_select i FD_ACCEPT false;;;
    upd i (w_state STATE_LISTEN);;;
    ctl_ok [] rbuflen.

Definition inherit (l_desc d : descriptor Q) : descriptor Q :=
  w_send_timeout (send_timeout l_desc) (w_low (low l_desc) (w_high (high l_desc) (w_bufsz (bufsz l_desc)
    (w_htype (htype l_desc) (w_stype (stype l_desc) (w_active M_ACTIVE_DEFAULT
      (w_exitf (exitf l_desc) (w_mode (mode l_desc) d)))))))).
(** A negative index reads in front of the table. *)
Definition ctl_accept (i : nat) (buf : bytes) (rbuflen : Z) : U (Z * reply) :=
  d ← this i;
  if negb (state d =? STATE_CLOSED) then ctl_xerror EXBADPORT rbuflen else
  lix ← int_arg buf 0;
  timeout ← int_arg buf 4;
  t ← gets desc_table;
  if Z.of_nat (length t) <=? lix then ctl_error EINVAL rbuflen else
  if lix <? 0 then act (Fault Wild);;; mret (0, NoReply) else
  let l := Z.to_nat lix in
  match default None (t !! l) with
  | None => ctl_error EINVAL rbuflen
  | Some l_desc =>
      if negb (state l_desc =? STATE_LISTEN) then ctl_error EINVAL rbuflen else
      (when negb (bool_decide (i_buf d = None)) || i_bufp d do act (Fault Abort));;;
      upd i (inherit l_desc);;;
      fd ← sock_accept l;
      if fd =? INVALID_SOCKET then
        err ← sock_errno;
        if err =? ERRNO_BLOCK then
          upd i (w_state STATE_ACCEPTING);;;
          upd l (fun l_desc => w_i_ix (ix d) (w_state STATE_LISTENING l_desc));;;
          sock_select l FD_ACCEPT true;;;
          (when negb (u_long timeout =? INFINITY) do act (SetTimer (port d) (u_long timeout)));;;
          ctl_reply UNIXDOM_REP_WOULDBLOCK [] rbuflen
        else ctl_error err rbuflen
      else
        take_socket i fd;;;
        ctl_ok [] rbuflen
  end.

Definition get_opt d (cmd : Z) : bytes :=
  if (cmd =? UNIXDOM_OPT_ENDOFLIST) || (cmd =? UNIXDOM_OPT_IGNORE) then [cmd]
  else if cmd =? UNIXDOM_OPT_ACTIVE then [cmd; u8 (active d)]
  else if cmd =? UNIXDOM_OPT_BACKLOG then cmd :: put_int32 (backlog d)
  else [].
Definition ctl_getopts (i : nat) (buf : bytes) (rbuflen : Z) : U (Z * reply) :=
  d ← this i;
  let dstlen := int32 (Z.of_nat (length buf) * 9 + 1) in
  if dstlen >? MAX_BUFSIZ then ctl_error EINVAL rbuflen else
  let dst := UNIXDOM_REP_OK :: concat (map (get_opt d) buf) in
  let len := Z.of_nat (length dst) in
  if dstlen >? rbuflen then
    ok ← driver_alloc dstlen;
    if ok : bool then mret (len, Allocated dst) else ctl_error ENOMEM rbuflen
  else mret (len, InPlace dst).

Definition unixdom_ctl (i : nat) (cmd : Z) (buf : bytes) (rbuflen : Z) : U (Z * reply) :=
  if cmd =? UNIXDOM_REQ_ENDIAN then ctl_endian rbuflen
  else if cmd =? UNIXDOM_REQ_KNUTHHASH then ctl_knuthhash buf rbuflen
  else if cmd =? UNIXDOM_REQ_OPEN then ctl_open i rbuflen
  else if cmd =? UNIXDOM_REQ_CONNECT then ctl_connect i buf rbuflen
  else if cmd =? UNIXDOM_REQ_CLOSE then ctl_close i rbuflen
  else if cmd =? UNIXDOM_REQ_WRITE then ctl_write i buf rbuflen
  else if cmd =? UNIXDOM_REQ_RECV then
    size ← int_arg buf 0;
    timeout ← int_arg buf 0;
    ctl_recv i (u_long size) (u_long timeout) rbuflen
  else if cmd =? UNIXDOM_REQ_SETOPTS then ctl_setopts i buf rbuflen
  else if cmd =? UNIXDOM_REQ_BIND then ctl_bind i buf rbuflen
  else if cmd =? UNIXDOM_REQ_ACCEPT then ctl_accept i buf rbuflen
  else if cmd =? UNIXDOM_REQ_GETIX then d ← this i; ctl_ok (put_int32 (ix d)) rbuflen
  else if cmd =? UNIXDOM_REQ_GETOPTS then ctl_getopts i buf rbuflen
  else ctl_xerror EXBADPORT rbuflen.

(** ** Start and stop *)

(** The table of [desc_size] entries, or no driver. *)
Definition driver_init (desc_size : nat) (pointer : Z) : option W :=
  if os_alloc [] (pointer * Z.of_nat desc_size) then Some (World (replicate desc_size None) 0 0 []) else None.
(** [do ... while (ix != save_ix)]: the first free entry from [ix] on, or [save_ix] again. *)
Fixpoint free_ix (t : list (option (descriptor Q))) (n ix : nat) : nat :=
  match n with
  | O => ix
  | S n => if default None (t !! ix) is Some _ then free_ix t n ((ix + 1) mod length t)%nat else ix
  end.
Definition unixdom_start (dsz port : Z) : U (option nat) :=
  w ← gets (fun w => w);
  let t := desc_table w in
  let i := free_ix t (length t) (desc_ix w) in
  if default None (t !! i) is Some _ then set_errno EMFILE;;; mret None else
  modify (fun w => World (desc_table w) ((i + 1) mod length t)%nat (errno w) (calls w));;;
  ok ← driver_alloc dsz;
  if negb ok then mret None else
  let d := Descriptor INVALID_SOCKET INVALID_EVENT 0 port STATE_CLOSED 0 MODE_BINARY 1 M_ACTIVE_DEFAULT (-1)
    PTYPE_RAW (Z.of_nat i) (-1) DEF_BUFSIZ None false LOW_WATERMARK HIGH_WATERMARK 5000 0 (-1) empty in
  modify (fun w => World (<[i := Some d]> (desc_table w)) (desc_ix w) (errno w) (calls w));;;
  mret (Some i).
(** The input buffer, a binary, is freed as a block. *)
Definition unixdom_stop (i : nat) : U unit :=
  d ← this i;
  (when negb (bool_decide (i_buf d = None)) do (act (Fault BadFree);;; upd i (w_i_buf None)));;;
  (if (state d =? STATE_LISTENING) && negb (i_ix d =? -1) then
     t ← gets desc_table;
     let a := Z.to_nat (i_ix d) in
     match default None (t !! a) with
     | Some a_desc => when state a_desc =? STATE_ACCEPTING do (reply_error a EINVAL;;; skip)
     | None => skip
     end
   else if state d =? STATE_ACCEPTING then
     clear_listener i;;;
     reply_error_am i (Atm "closed")
   else if state d =? STATE_CONNECTED then reply_error_am i (Atm "closed")
   else skip);;;
  d ← this i;
  (when IS_OPEN d do (desc_close i;;; upd i (w_state STATE_CLOSED)));;;
  modify (fun w => World (<[i := None]> (desc_table w)) (desc_ix w) (errno w) (calls w)).
End Driver.

(** * A system

    A device that accepts a connection when it is asked again, from which no fewer than three bytes are read, and
    to which two bytes are written at a time. *)
Definition fresh_fd (tr : trace) : Z := 1 + foldr Z.max 0 (open_sockets tr).
Definition was_refused (e : io) : bool := match e with Accept _ fd => fd =? INVALID_SOCKET | _ => false end.
Definition small_os : Os := {|
  os_socket tr := (fresh_fd tr, 0);
  os_connect _ _ _ := (0, 0);
  os_bind _ _ _ := (0, 0);
  os_listen _ _ _ := (0, 0);
  os_accept tr _ := if existsb was_refused tr then (fresh_fd tr, 0) else (INVALID_SOCKET, ERRNO_BLOCK);
  os_recv _ _ size := if size <? 3 then (-1, EWOULDBLOCK, []) else (3, 0, [7; 8; 9]);
  os_writev _ _ data := (Z.min 2 (Z.of_nat (length data)), 0);
  os_write _ _ data := (Z.of_nat (length data), 0);
  os_peer _ _ := (0, 0);
  os_alloc _ _ := true;
  erl_errno_id _ := "EINVAL";
  little_endian := true;
|}.
Lemma fresh_fd_fresh tr : 0 <= fresh_fd tr /\ fresh_fd tr ∉ open_sockets tr.
Proof.
  unfold fresh_fd. assert (forall l, 0 <= foldr Z.max 0 l /\ Forall (fun x => x <= foldr Z.max 0 l) l) as Hmax.
  { induction l as [|x l [IH1 IH2]]; cbn; [done|]. split; [lia|]. constructor; [lia|]. eapply Forall_impl; [exact IH2|]. cbn. lia. }
  destruct (Hmax (open_sockets tr)) as [H0 Hall]. split; [lia|]. intros Hin. rewrite Forall_forall in Hall. specialize (Hall _ Hin). cbn in Hall. lia.
Qed.
#[export] Instance small_os_laws : OsLaws small_os.
Proof.
  split; cbn.
  - intros tr. right. apply fresh_fd_fresh.
  - intros tr _. destruct (existsb _ _); [right; apply fresh_fd_fresh|by left].
  - intros _ _ size. destruct (Z.ltb_spec size 3); cbn; lia.
  - intros _ _ data. split; [lia|]. intros Hd. destruct data; [done|]. cbn [length]. lia.
Qed.
