(* ===== verification/UnixdomPort.v ===== *)
(** The ports of the Unix domain socket driver: the calls the emulator makes of them in any order, and who
    owns the sockets. *)
From S2P Require Import Prelude ErlTerm Erts Unixdom.
#[local] Open Scope Z_scope.

Section Ports.
Context `{OS : !Os} {Q : Type} `{PQ : !PortQueue Q} `{IV : !IOVec Q} (ulong : Z) (empty : Q).
Implicit Types (w : world Q) (d : descriptor Q) (t : list (option (descriptor Q))).
Abbreviation U := (M (world Q)).
Abbreviation desc w i := (default (blank empty) (default None (desc_table w !! i))).

(** * Calls

    The emulator calls the driver for the ports it has. *)
Inductive ucall :=
  | Start (dsz port : Z) | Stop (i : nat) | Ctl (i : nat) (cmd : Z) (buf : bytes) (rbuflen : Z)
  | Outputv (i : nat) (ev : list bytes) | Ready_input (i : nat) | Ready_output (fuel i : nat) | Timeout (i : nat).
Definition live w (i : nat) : Prop := exists d, desc_table w !! i = Some (Some d).
#[export] Instance live_dec w i : Decision (live w i).
Proof. unfold live. destruct (desc_table w !! i) as [[d|]|]; [left; by exists d|right; by intros [d ?]..]. Defined.
Definition on (i : nat) {A} (m : U A) : U unit :=
  w ← get; if decide (live w i) then m;;; skip else skip.
Definition exec (c : ucall) : U unit :=
  match c with
  | Start dsz port => unixdom_start empty dsz port;;; skip
  | Stop i => on i (unixdom_stop empty i)
  | Ctl i cmd buf rbuflen => on i (unixdom_ctl ulong empty i cmd buf rbuflen)
  | Outputv i ev => on i (unixdom_outputv empty i ev)
  | Ready_input i => on i (unixdom_ready_input empty i)
  | Ready_output fuel i => on i (unixdom_ready_output empty fuel i)
  | Timeout i => on i (unixdom_timeout empty i)
  end.
Fixpoint execs (l : list ucall) : U unit :=
  match l with [] => skip | c :: l => exec c;;; execs l end.

(** * The table *)

(** [w] and [w'] have the same ports, and those of [w'] are in relation [R] to those of [w]. *)
Definition table_rel (R : relation (descriptor Q)) w w' : Prop := Forall2 (option_Forall2 R) (desc_table w) (desc_table w').
#[export] Instance table_rel_preorder R `{!PreOrder R} : PreOrder (table_rel R).
Proof. unfold table_rel. split; [intros ?; reflexivity|intros ?????; by etransitivity]. Qed.
Lemma table_rel_upd R `{!Reflexive R} i f w : (forall d, R d (f d)) -> table_rel R w (snd (upd i f w)).
Proof.
  intros Hf. unfold upd, modify, table_rel. cbn [snd desc_table]. apply Forall2_same_length_lookup_2.
  { by rewrite length_alter. }
  intros j x y Hx Hy. destruct (decide (i = j)) as [<-|Hne].
  - rewrite list_lookup_alter_eq, Hx in Hy. injection Hy as <-. destruct x; by constructor.
  - rewrite list_lookup_alter_ne, Hx in Hy by done. injection Hy as <-. reflexivity.
Qed.
Lemma table_rel_same R `{!PreOrder R} w w' : desc_table w' = desc_table w -> table_rel R w w'.
Proof. unfold table_rel. intros ->. reflexivity. Qed.
Lemma table_rel_desc R w w' i d : table_rel R w w' -> desc_table w !! i = Some (Some d) ->
  exists d', desc_table w' !! i = Some (Some d') /\ R d d'.
Proof.
  intros Ht Hi. destruct (Forall2_lookup_l _ _ _ _ _ Ht Hi) as (o & Hi' & Hr). inversion Hr; subst. eauto.
Qed.
Lemma desc_live w i d : desc_table w !! i = Some (Some d) -> desc w i = d.
Proof. by intros ->. Qed.

(** * The sockets

    A socket that was opened and not closed is held by exactly one port, and no other descriptor is ever closed. *)
Definition own (o : option (descriptor Q)) : list Z :=
  match o with Some d => if s d =? INVALID_SOCKET then [] else [s d] | None => [] end.
Definition owned t : list Z := concat (own <$> t).
Definition closes_ok (tr : trace) : Prop := forall a fd b, tr = a ++ Close fd :: b -> fd ∈ open_sockets a.
Record owns w : Prop := Owns {
  ow_sockets : open_sockets (calls w) ≡ₚ owned (desc_table w);
  ow_nodup : NoDup (open_sockets (calls w));
  ow_closes : closes_ok (calls w);
  ow_closed i d : desc_table w !! i = Some (Some d) -> IS_OPEN d = false -> s d = INVALID_SOCKET;
}.
Definition quiet w w' : Prop := owns w -> owns w'.
#[export] Instance quiet_preorder : PreOrder quiet.
Proof. split; unfold quiet; intros ?; auto. Qed.

(** Nothing happens to a socket. *)
Definition same_socket d d' : Prop := s d' = s d /\ (IS_OPEN d = true -> IS_OPEN d' = true).
#[export] Instance same_socket_preorder : PreOrder same_socket.
Proof. split; unfold same_socket; [done|]. intros ??? [? ?] [? ?]. split; [congruence|auto]. Qed.
Definition mild (e : io) : Prop :=
  match e with Socket fd | Accept _ fd => fd = INVALID_SOCKET | Close _ => False | _ => True end.
Definition calm w w' : Prop :=
  (exists new, calls w' = calls w ++ new /\ Forall mild new) /\ table_rel same_socket w w'.
#[export] Instance calm_preorder : PreOrder calm.
Proof.
  split.
  - intros w. split; [exists []; by rewrite app_nil_r|reflexivity].
  - intros a b c [(n1 & E1 & F1) T1] [(n2 & E2 & F2) T2]. split; [|by etransitivity].
    exists (n1 ++ n2). rewrite E2, E1, app_assoc. split; [done|by apply Forall_app].
Qed.

Lemma open_sockets_snoc tr e : open_sockets (tr ++ [e]) = open_socket (open_sockets tr) e.
Proof. unfold open_sockets. by rewrite fold_left_app. Qed.
Lemma open_sockets_mild tr new : Forall mild new -> open_sockets (tr ++ new) = open_sockets tr.
Proof.
  induction new as [|e new IH] using rev_ind; [by rewrite app_nil_r|]. intros [Hn He]%Forall_app.
  rewrite app_assoc, open_sockets_snoc, IH by done. inversion He as [|?? Hm _]; subst. destruct e; try done; cbn in *; by rewrite Hm.
Qed.
Lemma closes_ok_mild tr new : Forall mild new -> closes_ok tr -> closes_ok (tr ++ new).
Proof.
  intros Hn Hc a fd b E. apply app_eq_inv in E as [(k & -> & E)|(k & -> & E)].
  - destruct k as [|e k]; cbn in E; [subst new; by inversion Hn|].
    injection E as <- ->. by eapply Hc.
  - exfalso. subst new. apply Forall_app in Hn as [_ Hn]. by inversion Hn.
Qed.
Lemma closes_ok_close tr fd : closes_ok tr -> fd ∈ open_sockets tr -> closes_ok (tr ++ [Close fd]).
Proof.
  intros Hc Hfd a fd' b E. destruct b as [|e b _] using rev_ind.
  - apply app_inj_tail in E as [<- E]. by injection E as <-.
  - rewrite app_comm_cons, app_assoc in E. apply app_inj_tail in E as [E _]. by eapply Hc.
Qed.
Lemma owned_rel w w' : table_rel same_socket w w' -> owned (desc_table w') = owned (desc_table w).
Proof.
  unfold table_rel, owned. intros Ht. induction Ht as [|o o' t t' Ho Ht IH]; [done|].
  cbn. f_equal; [|done]. destruct Ho as [d d' [E _]|]; cbn; by rewrite ?E.
Qed.
Lemma calm_quiet w w' : calm w w' -> quiet w w'.
Proof.
  intros [(new & E & Hn) Ht] []. split; rewrite ?E, ?open_sockets_mild by done.
  - by rewrite (owned_rel _ _ Ht).
  - done.
  - by apply closes_ok_mild.
  - intros i d' Hi Ho. destruct (Forall2_lookup_r _ _ _ _ _ Ht Hi) as (o & Hi0 & Hr).
    inversion Hr as [d ? [Es Hop]|]; subst. rewrite Es. apply (ow_closed0 i); [done|].
    destruct (IS_OPEN d); [|done]. rewrite Hop in Ho; done.
Qed.
Lemma owned_alter i f t d : t !! i = Some (Some d) ->
  owned (alter (option_map f) i t) ≡ₚ own (Some (f d)) ++ owned (<[i := None]> t) /\
  owned t ≡ₚ own (Some d) ++ owned (<[i := None]> t).
Proof.
  intros Hi. pose proof (take_drop_middle t i (Some d) Hi) as E. pose proof (lookup_lt_Some _ _ _ Hi) as Hl.
  assert (length (take i t) = i) as Ht by (rewrite length_take; lia). rewrite <-E.
  rewrite alter_app_r_alt, insert_app_r_alt by lia. rewrite Ht, Nat.sub_diag. cbn [alter list_alter insert list_insert option_map].
  unfold owned. rewrite !fmap_app, !concat_app. cbn [fmap list_fmap concat].
  change (own None) with ([] : list Z). split; apply Permutation_app_swap_app.
Qed.

(** ** What leaves the sockets alone *)

Lemma quiet_act e : mild e -> ensures quiet (act e).
Proof.
  intros He w. apply calm_quiet. split; [exists [e]; split; [done|by apply Forall_singleton]|by apply table_rel_same; [apply _|]].
Qed.
Lemma quiet_upd i f : (forall d, same_socket d (f d)) -> ensures quiet (upd i f).
Proof.
  intros Hf w. apply calm_quiet. split; [exists []; by rewrite app_nil_r|]. by apply table_rel_upd; [apply _|].
Qed.
Lemma quiet_sys {A} (answer : trace -> A * Z) (e : A -> io) : (forall a, mild (e a)) -> ensures quiet (sys answer e).
Proof.
  intros He w. unfold sys. destruct (answer (calls w)) as [a err]. apply calm_quiet. split; [|by apply table_rel_same; [apply _|]].
  exists [e a]. split; [done|by apply Forall_singleton].
Qed.
Lemma quiet_errno e : ensures quiet (set_errno e).
Proof. intros w. apply calm_quiet. split; [exists []; by rewrite app_nil_r|by apply table_rel_same; [apply _|]]. Qed.

(** ** Closing *)

Lemma own_socket d : s d <> INVALID_SOCKET -> own (Some d) = [s d].
Proof. intros Hs. unfold own. by rewrite (proj2 (Z.eqb_neq _ _)). Qed.
Lemma own_nothing d : s d = INVALID_SOCKET -> own (Some d) = [].
Proof. intros Hs. unfold own. by rewrite Hs. Qed.
(** A descriptor gives up its socket: [Close], and no socket in the table. *)
Lemma owns_close i f d w : desc_table w !! i = Some (Some d) -> s d <> INVALID_SOCKET -> s (f d) = INVALID_SOCKET -> owns w ->
  owns (snd (upd i f (snd (act (Close (s d)) w)))).
Proof.
  intros Hi Hs Hf []. destruct (owned_alter i f (desc_table w) d Hi) as [Ha Ho]. rewrite own_nothing in Ha by done. rewrite own_socket in Ho by done.
  cbn [app] in *. assert (open_sockets (calls w) ≡ₚ s d :: owned (<[i:=None]> (desc_table w))) as Hp by (by rewrite ow_sockets0).
  split; cbn [upd act modify snd calls desc_table].
  - rewrite open_sockets_snoc. cbn [open_socket]. rewrite Ha. by apply filter_others.
  - rewrite open_sockets_snoc. cbn [open_socket]. by apply NoDup_filter.
  - apply closes_ok_close; [done|]. rewrite Hp. by left.
  - intros j d' Hj Hop. destruct (decide (i = j)) as [<-|Hne].
    + rewrite list_lookup_alter_eq, Hi in Hj. by injection Hj as <-.
    + rewrite list_lookup_alter_ne in Hj by done. by apply (ow_closed0 j).
Qed.
Lemma sock_select_eq i fl on w : exists ev, sock_select empty i fl on w =
  (tt, World (alter (option_map (fun d => w_event_mask (if on then Z.lor (event_mask d) fl else Z.land (event_mask d) (Z.lnot fl)) d)) i
     (desc_table w)) (desc_ix w) (errno w) (calls w ++ [ev])) /\ mild ev.
Proof. eexists (Select _ _ fl on). split; [reflexivity|done]. Qed.
Lemma quiet_select i fl on : ensures quiet (sock_select empty i fl on).
Proof.
  intros w Hw. destruct (sock_select_eq i fl on w) as (ev & E & Hev). rewrite E. cbn [snd].
  set (f := fun d => w_event_mask _ d). exact (quiet_act ev Hev (snd (upd i f w)) (quiet_upd i f (fun d => conj eq_refl (fun H => H)) w Hw)).
Qed.
Lemma desc_close_owns i w : owns w -> owns (snd (desc_close empty i w)) /\
  (forall d, desc_table (snd (desc_close empty i w)) !! i = Some (Some d) -> s d = INVALID_SOCKET).
Proof.
  intros Hw. unfold desc_close. rewrite (bind_eq (this empty i) _ w _ w eq_refl).
  destruct (Z.eqb_spec (s (desc w i)) INVALID_SOCKET) as [E|E]; cbn [negb].
  { cbn [skip snd]. split; [done|]. intros d Hd. by rewrite (desc_live _ _ _ Hd) in E. }
  destruct (decide (live w i)) as [[d Hi]|Hn].
  2: { exfalso. apply E. destruct (desc_table w !! i) as [[d|]|] eqn:Hi; [by exfalso; apply Hn; exists d|done..]. }
  rewrite (desc_live _ _ _ Hi) in *.
  pose proof (quiet_select i (Z.lor (Z.lor FD_READ FD_WRITE) FD_CLOSE) false w Hw) as Hw1.
  destruct (sock_select_eq i (Z.lor (Z.lor FD_READ FD_WRITE) FD_CLOSE) false w) as (ev & E1 & _). rewrite (bind_eq _ _ _ _ _ E1).
  rewrite E1 in Hw1. cbn [snd] in Hw1. set (w1 := World _ _ _ _) in *.
  assert (desc_table w1 !! i = Some (Some (w_event_mask (Z.land (event_mask d) (Z.lnot (Z.lor (Z.lor FD_READ FD_WRITE) FD_CLOSE))) d))) as Hi1
    by (subst w1; cbn [desc_table]; by rewrite list_lookup_alter_eq, Hi).
  split; [by apply (owns_close i _ _ w1 Hi1)|].
  intros d'. set (f := fun d => w_event_mask 0 _).
  change (alter (option_map f) i (desc_table w1) !! i = Some (Some d') -> s d' = INVALID_SOCKET).
  rewrite list_lookup_alter_eq, Hi1. by intros [= <-].
Qed.
Lemma quiet_desc_close i : ensures quiet (desc_close empty i).
Proof. intros w Hw. by apply desc_close_owns. Qed.
Lemma alter_same {A} (f : A -> A) (l : list A) i : (forall x, l !! i = Some x -> f x = x) -> alter f i l = l.
Proof.
  intros Hf. apply list_eq. intros j. destruct (decide (i = j)) as [<-|]; [|by rewrite list_lookup_alter_ne].
  rewrite list_lookup_alter_eq. destruct (l !! i) eqn:E; cbn; [by rewrite Hf|done].
Qed.
(** A state without a socket. *)
Lemma owns_closed_state i st w : owns w -> (forall d, desc_table w !! i = Some (Some d) -> s d = INVALID_SOCKET) ->
  owns (snd (upd i (w_state st) w)).
Proof.
  intros [] Hs. assert (owned (alter (option_map (w_state st)) i (desc_table w)) ≡ₚ owned (desc_table w)) as Ho.
  { destruct (desc_table w !! i) as [[d|]|] eqn:E0.
    - destruct (owned_alter i (w_state st) (desc_table w) d E0) as [Ha Hb]. assert (s d = INVALID_SOCKET) as Hd by (by apply Hs). rewrite Ha, Hb, (own_nothing d Hd), (own_nothing (w_state st d) Hd). reflexivity.
    - rewrite alter_same; [done|]. intros x. rewrite E0. by intros [= <-].
    - rewrite alter_same; [done|]. intros x. by rewrite E0. }
  split; cbn [upd modify snd desc_table calls]; try done; [by rewrite Ho|].
  intros j d Hj Hop. destruct (decide (i = j)) as [<-|Hne].
  - rewrite list_lookup_alter_eq in Hj. destruct (desc_table w !! i) as [[d0|]|] eqn:E0; try done. injection Hj as <-. exact (Hs d0 eq_refl).
  - rewrite list_lookup_alter_ne in Hj by done. by apply (ow_closed0 j).
Qed.

(** Closing, the new state and what follows. *)
Lemma quiet_close_down {A} i (k : U A) : ensures quiet k -> ensures quiet (desc_close empty i;;; upd i (w_state STATE_CLOSED);;; k).
Proof.
  intros Hk w Hw. destruct (desc_close_owns i w Hw) as [Hw1 Hs]. destruct (desc_close empty i w) as [[] w1] eqn:E1.
  rewrite (bind_eq _ _ _ _ _ E1). cbn [snd] in *. rewrite (bind_eq (upd i _) _ w1 tt (snd (upd i (w_state STATE_CLOSED) w1)) eq_refl).
  apply Hk. by apply owns_closed_state.
Qed.
Lemma quiet_close_down_end i : ensures quiet (desc_close empty i;;; upd i (w_state STATE_CLOSED)).
Proof.
  intros w Hw. destruct (desc_close_owns i w Hw) as [Hw1 Hs]. destruct (desc_close empty i w) as [[] w1] eqn:E1.
  rewrite (bind_eq _ _ _ _ _ E1). by apply owns_closed_state.
Qed.

(** ** A walk through the driver

    A relation that the primitive steps keep is kept by the handlers, but for [open], [accept] and
    receiving. [plain] are the events that open, close, receive and deliver nothing. *)
Definition plain (e : io) : Prop :=
  match e with
  | Socket fd | Accept _ fd => fd = INVALID_SOCKET
  | Close _ => False
  | Recv _ _ _ _ data => data = []
  | OutputTerm _ sp => exists p, sp = ok_spec p \/ sp = closed_spec p \/ exists reason, sp = error_spec p reason
  | _ => True
  end.
Class Walks (R : relation (world Q)) := {
  walks_preorder :: PreOrder R;
  walks_act e : plain e -> ensures R (act e);
  walks_upd i f : (forall d, same_socket d (f d)) -> ensures R (upd i f);
  walks_sys {A} (answer : trace -> A * Z) (e : A -> io) : (forall a, plain (e a)) -> ensures R (sys answer e);
  walks_errno e : ensures R (set_errno e);
  walks_desc_close (empty : Q) i : ensures R (desc_close empty i);
  walks_close_down {A} (empty : Q) i (k : U A) : ensures R k -> ensures R (desc_close empty i;;; upd i (w_state STATE_CLOSED);;; k);
  walks_close_down_end (empty : Q) i : ensures R (desc_close empty i;;; upd i (w_state STATE_CLOSED));
}.
Lemma open_unbusy st : has (Z.land st (Z.lnot F_BUSY)) F_OPEN = has st F_OPEN.
Proof. unfold has. by rewrite <-Z.land_assoc. Qed.
Lemma open_busy st : has (Z.lor st F_BUSY) F_OPEN = has st F_OPEN.
Proof. unfold has. by rewrite Z.land_lor_distr_l, Z.lor_0_r. Qed.
End Ports.
Lemma plain_mild e : plain e -> mild e.
Proof. by destruct e. Qed.
#[export] Instance quiet_walks `{OS : !Os} {Q : Type} `{PQ : !PortQueue Q} `{IV : !IOVec Q} : Walks (Q := Q) quiet.
Proof.
  split; [apply _|intros; by apply quiet_act, plain_mild|apply quiet_upd|intros; apply quiet_sys; auto using plain_mild|apply quiet_errno
    |intros; apply quiet_desc_close|intros A e i k; apply quiet_close_down|intros; apply quiet_close_down_end].
Qed.

Ltac same_sock := intros ?; split;
  [reflexivity|unfold IS_OPEN; cbn [state w_state]; rewrite ?open_unbusy, ?open_busy; done].
Ltac plain_event := solve [done | eexists; eauto].
Create HintDb unixdom.
Ltac walk_unixdom := walk ltac:(auto 2 with unixdom).

Section Walk.
Context `{OS : !Os} {Q : Type} `{PQ : !PortQueue Q} `{IV : !IOVec Q} (ulong : Z) (empty : Q).
Context (R : relation (world Q)) `{WR : !Walks R}.
#[local] Hint Extern 1 (ensures R (act _)) => apply walks_act; plain_event : unixdom.
#[local] Hint Extern 1 (ensures R (upd _ _)) => apply walks_upd; same_sock : unixdom.
#[local] Hint Extern 1 (ensures R (sys _ _)) => apply walks_sys; intros ?; done : unixdom.
#[local] Hint Extern 1 (ensures R (set_errno _)) => apply walks_errno : unixdom.
#[local] Hint Resolve walks_desc_close walks_close_down_end : unixdom.
Lemma walks_this i : ensures R (this empty i).
Proof. unfold this. walk_unixdom. Qed.
Lemma walks_alloc n : ensures R (driver_alloc n).
Proof. unfold driver_alloc. walk_unixdom. Qed.
Lemma walks_sock_errno : ensures R sock_errno.
Proof. unfold sock_errno. walk_unixdom. Qed.
#[local] Hint Resolve walks_this walks_alloc walks_sock_errno : unixdom.
Lemma walks_select i fl on : ensures R (sock_select empty i fl on).
Proof. unfold sock_select. walk_unixdom. Qed.
#[local] Hint Resolve walks_select : unixdom.
Lemma walks_ctl_reply rep buf n : ensures R (ctl_reply rep buf n).
Proof. unfold ctl_reply. walk_unixdom. Qed.
#[local] Hint Resolve walks_ctl_reply : unixdom.
Lemma walks_ctl_error e n : ensures R (ctl_error e n).
Proof. apply walks_ctl_reply. Qed.
Lemma walks_ctl_xerror e n : ensures R (ctl_xerror e n).
Proof. apply walks_ctl_reply. Qed.
Lemma walks_ctl_ok b n : ensures R (ctl_ok b n).
Proof. apply walks_ctl_reply. Qed.
#[local] Hint Resolve walks_ctl_error walks_ctl_xerror walks_ctl_ok : unixdom.
Lemma walks_ctl_errno n : ensures R (ctl_errno n).
Proof. unfold ctl_errno. walk_unixdom. Qed.
#[local] Hint Resolve walks_ctl_errno : unixdom.
Lemma walks_reply_ok i : ensures R (reply_ok empty i).
Proof. unfold reply_ok, output_term. walk_unixdom. Qed.
Lemma walks_reply_closed i : ensures R (reply_closed empty i).
Proof. unfold reply_closed, output_term. walk_unixdom. Qed.
Lemma walks_reply_error_am i r : ensures R (reply_error_am empty i r).
Proof. unfold reply_error_am, output_term. walk_unixdom. Qed.
Lemma walks_clear_input i : ensures R (clear_input i).
Proof. unfold clear_input. walk_unixdom. Qed.
Lemma walks_clear_output i : ensures R (clear_output i).
Proof. unfold clear_output. walk_unixdom. Qed.
Lemma walks_unbusy i : ensures R (unbusy empty i).
Proof. unfold unbusy. walk_unixdom. Qed.
Lemma walks_cancel_timer i : ensures R (cancel_timer empty i).
Proof. unfold cancel_timer. walk_unixdom. Qed.
Lemma walks_driver_exit i e : ensures R (driver_exit empty i e).
Proof. unfold driver_exit. walk_unixdom. Qed.
#[local] Hint Resolve walks_reply_ok walks_reply_closed walks_reply_error_am walks_clear_input walks_clear_output
  walks_unbusy walks_cancel_timer walks_driver_exit : unixdom.
Lemma walks_unixdom_close i : ensures R (unixdom_close empty i).
Proof.
  unfold unixdom_close. apply ensures_bind; [apply _|auto with unixdom|]. intros d. destruct (_ && _); [auto with unixdom|].
  apply ensures_skip, _.
Qed.
#[local] Hint Resolve walks_unixdom_close : unixdom.
Lemma walks_reply_error i e : ensures R (reply_error empty i e).
Proof. unfold reply_error. walk_unixdom. Qed.
#[local] Hint Resolve walks_reply_error : unixdom.
Lemma walks_give_up i : ensures R (give_up_send empty i).
Proof. unfold give_up_send. walk_unixdom. Qed.
#[local] Hint Resolve walks_give_up : unixdom.
Lemma walks_recv_closed i : ensures R (unixdom_recv_closed empty i).
Proof. unfold unixdom_recv_closed. walk_unixdom. Qed.
Lemma walks_recv_error i e : ensures R (unixdom_recv_error empty i e).
Proof. unfold unixdom_recv_error. walk_unixdom. Qed.
Lemma walks_sendv i iov : ensures R (sock_sendv empty i iov).
Proof. unfold sock_sendv. walk_unixdom. Qed.
#[local] Hint Resolve walks_recv_closed walks_recv_error walks_sendv : unixdom.
Lemma walks_do_outputv i ev : ensures R (do_outputv empty i ev).
Proof. unfold do_outputv. walk_unixdom. Qed.
#[local] Hint Resolve walks_do_outputv : unixdom.
Lemma walks_outputv i ev : ensures R (unixdom_outputv empty i ev).
Proof. unfold unixdom_outputv. walk_unixdom. Qed.
Lemma walks_release i : ensures R (release empty i).
Proof. unfold release. walk_unixdom. Qed.
#[local] Hint Resolve walks_release : unixdom.
Lemma walks_flush i fuel : ensures R (flush_queue empty fuel i).
Proof. induction fuel; cbn [flush_queue]; walk_unixdom. Qed.
#[local] Hint Resolve walks_flush : unixdom.
Lemma walks_ready_output fuel i : ensures R (unixdom_ready_output empty fuel i).
Proof. unfold unixdom_ready_output. walk_unixdom. Qed.
Lemma walks_clear_listener i : ensures R (clear_listener empty i).
Proof. unfold clear_listener. walk_unixdom. Qed.
#[local] Hint Resolve walks_clear_listener : unixdom.
Lemma walks_timeout i : ensures R (unixdom_timeout empty i).
Proof. unfold unixdom_timeout. walk_unixdom. Qed.
Lemma walks_int_arg b off : ensures R (int_arg b off).
Proof. unfold int_arg. walk_unixdom. Qed.
Lemma walks_copy_path p n : ensures R (copy_path p n).
Proof. unfold copy_path. walk_unixdom. Qed.
#[local] Hint Resolve walks_int_arg walks_copy_path : unixdom.
Lemma walks_set_opts i buf : ensures R (set_opts empty i buf).
Proof.
  assert (forall n buf, (length buf <= n)%nat -> ensures R (set_opts empty i buf)) as H; [|by apply (H (length buf))].
  induction n as [|n IH]; intros [|o b] Hl; cbn [length] in Hl; try lia; cbn [set_opts]; [walk_unixdom..|].
  destruct (_ =? _); [walk_unixdom|]. destruct (_ =? _); [apply IH; lia|]. destruct (_ =? _).
  { destruct b as [|x b]; [walk_unixdom|]. cbn [length] in Hl. assert (ensures R (set_opts empty i b)) by (apply IH; lia). walk_unixdom. }
  destruct (_ =? _); [|walk_unixdom]. destruct b as [|b3 [|b2 [|b1 [|b0 b]]]]; [walk_unixdom..|]. cbn [length] in Hl.
  assert (ensures R (set_opts empty i b)) by (apply IH; lia). walk_unixdom.
Qed.
#[local] Hint Resolve walks_set_opts : unixdom.
(** Every command but OPEN, ACCEPT and RECV. *)
Definition walked (cmd : Z) : Prop := cmd <> UNIXDOM_REQ_OPEN /\ cmd <> UNIXDOM_REQ_ACCEPT /\ cmd <> UNIXDOM_REQ_RECV.
Lemma walks_ctl i cmd buf n : walked cmd -> ensures R (unixdom_ctl ulong empty i cmd buf n).
Proof.
  intros (H1 & H2 & H3). unfold unixdom_ctl.
  repeat match goal with |- context [if cmd =? ?k then _ else _] => destruct (Z.eqb_spec cmd k) as [->|?]; [try done|] end.
  - unfold ctl_endian. walk_unixdom.
  - unfold ctl_knuthhash. walk_unixdom.
  - unfold ctl_connect. walk_unixdom.
  - unfold ctl_close. apply ensures_bind; [apply _|auto with unixdom|intros d]. apply ensures_bind; [apply _|walk_unixdom|intros _].
    apply ensures_bind; [apply _|auto with unixdom|intros _]. apply walks_close_down. auto with unixdom.
  - unfold ctl_write. walk_unixdom.
  - unfold ctl_setopts. walk_unixdom.
  - unfold ctl_bind. walk_unixdom.
  - walk_unixdom.
  - unfold ctl_getopts. walk_unixdom.
  - walk_unixdom.
Qed.
End Walk.
(** Walk through code that uses them. *)
Ltac walk_known :=
  walk ltac:(idtac; lazymatch goal with
    | |- ensures _ (this _ _) => apply walks_this; exact _
    | |- ensures _ (driver_alloc _) => apply walks_alloc; exact _
    | |- ensures _ sock_errno => apply walks_sock_errno; exact _
    | |- ensures _ (sock_select _ _ _ _) => apply walks_select; exact _
    | |- ensures _ (ctl_reply _ _ _) => apply walks_ctl_reply; exact _
    | |- ensures _ (ctl_error _ _) => apply walks_ctl_error; exact _
    | |- ensures _ (ctl_xerror _ _) => apply walks_ctl_xerror; exact _
    | |- ensures _ (ctl_ok _ _) => apply walks_ctl_ok; exact _
    | |- ensures _ (ctl_errno _) => apply walks_ctl_errno; exact _
    | |- ensures _ (reply_ok _ _) => apply walks_reply_ok; exact _
    | |- ensures _ (reply_closed _ _) => apply walks_reply_closed; exact _
    | |- ensures _ (reply_error_am _ _ _) => apply walks_reply_error_am; exact _
    | |- ensures _ (reply_error _ _ _) => apply walks_reply_error; exact _
    | |- ensures _ (clear_input _) => apply walks_clear_input; exact _
    | |- ensures _ (clear_output _) => apply walks_clear_output; exact _
    | |- ensures _ (cancel_timer _ _) => apply walks_cancel_timer; exact _
    | |- ensures _ (driver_exit _ _ _) => apply walks_driver_exit; exact _
    | |- ensures _ (desc_close _ _) => apply walks_desc_close; exact _
    | |- ensures _ (unixdom_recv_closed _ _) => apply walks_recv_closed; exact _
    | |- ensures _ (unixdom_recv_error _ _ _) => apply walks_recv_error; exact _
    | |- ensures _ (clear_listener _ _) => apply walks_clear_listener; exact _
    | |- ensures _ (int_arg _ _) => apply walks_int_arg; exact _
    | _ => solve [auto 2 with unixdom]
    end).

Section Sockets.
Context `{OS : !Os} {Q : Type} `{PQ : !PortQueue Q} `{IV : !IOVec Q} (ulong : Z) (empty : Q).
Implicit Types (w : world Q) (d : descriptor Q) (t : list (option (descriptor Q))).
Abbreviation U := (M (world Q)).
Abbreviation desc w i := (default (blank empty) (default None (desc_table w !! i))).
#[local] Hint Extern 1 (ensures quiet (act _)) => apply quiet_act; exact I : unixdom.
#[local] Hint Extern 1 (ensures quiet (upd _ _)) => apply quiet_upd; same_sock : unixdom.
#[local] Hint Extern 1 (ensures quiet (sys _ _)) => apply quiet_sys; intros ?; exact I : unixdom.
#[local] Hint Resolve quiet_errno : unixdom.
(** Code that leaves the sockets alone. *)
Local Ltac quietly :=
  match goal with H : owns ?w |- owns (snd (?m ?w)) =>
    let Hm := fresh in assert (ensures quiet m) as Hm; [solve [walk_known]|exact (Hm w H)] end.
Lemma quiet_recv i n : ensures quiet (unixdom_recv empty i n).
Proof. unfold unixdom_recv. walk_known. Qed.
Lemma quiet_reply_data i n : ensures quiet (reply_data empty i n).
Proof. unfold reply_data, output_term. walk_known. Qed.
#[local] Hint Resolve quiet_recv quiet_reply_data : unixdom.
(** ** Opening *)

Lemma alter_insert {A} (f : A -> A) (l : list A) i x : l !! i = Some x -> alter f i l = <[i := f x]> l.
Proof.
  intros Hi. apply list_eq. intros j. destruct (decide (i = j)) as [<-|].
  - rewrite list_lookup_alter_eq, Hi, list_lookup_insert_eq; [done|]. by apply lookup_lt_Some in Hi.
  - by rewrite list_lookup_alter_ne, list_lookup_insert_ne.
Qed.
Lemma upd_eq i f d w : desc_table w !! i = Some (Some d) ->
  upd i f w = (tt, World (<[i := Some (f d)]> (desc_table w)) (desc_ix w) (errno w) (calls w)).
Proof. intros Hi. unfold upd, modify. by rewrite (alter_insert _ _ _ _ Hi). Qed.
Lemma owned_insert i o o' t : t !! i = Some o' -> owned (<[i := o]> t) ≡ₚ own o ++ owned (<[i := None]> t).
Proof.
  intros Hi. pose proof (lookup_lt_Some _ _ _ Hi) as Hl. pose proof (take_drop_middle t i o' Hi) as E.
  assert (length (take i t) = i) as Ht by (rewrite length_take; lia). rewrite <-E.
  rewrite !insert_app_r_alt by lia. rewrite Ht, Nat.sub_diag. cbn [insert list_insert].
  unfold owned. rewrite !fmap_app, !concat_app. cbn [fmap list_fmap concat]. change (own None) with ([] : list Z).
  apply Permutation_app_swap_app.
Qed.
(** A descriptor without a socket gets the one just opened. *)
Definition opens (e : io) (fd : Z) : Prop := match e with Socket fd' | Accept _ fd' => fd' = fd | _ => False end.
Lemma owns_open i d d' e fd new w w' : owns w -> desc_table w !! i = Some (Some d) -> s d = INVALID_SOCKET ->
  opens e fd -> 0 <= fd -> fd ∉ open_sockets (calls w) -> desc_table w' = <[i := Some d']> (desc_table w) ->
  s d' = fd -> IS_OPEN d' = true -> calls w' = (calls w ++ [e]) ++ new -> Forall mild new -> owns w'.
Proof.
  intros [] Hi Hs He Hfd Hnew Ht Hs' Ho Hc Hm.
  assert (open_sockets (calls w') = fd :: open_sockets (calls w)) as Hopen.
  { rewrite Hc, open_sockets_mild, open_sockets_snoc by done.
    destruct e; try done; cbn [opens open_socket] in *; subst; by rewrite (proj2 (Z.eqb_neq _ _)) by (unfold INVALID_SOCKET; lia). }
  assert (owned (desc_table w') ≡ₚ fd :: owned (desc_table w)) as Hown.
  { rewrite Ht, (owned_insert _ _ _ _ Hi), own_socket by (unfold INVALID_SOCKET; lia). rewrite Hs'. cbn [app]. f_equiv.
    destruct (owned_alter i id (desc_table w) d Hi) as [_ Hb]. by rewrite Hb, own_nothing. }
  split.
  - by rewrite Hopen, Hown, ow_sockets0.
  - rewrite Hopen. by apply NoDup_cons.
  - rewrite Hc. apply closes_ok_mild; [done|]. intros a fd' b Eq.
    destruct b as [|x b _] using rev_ind; [apply app_inj_tail in Eq as [_ Eq]; by subst e|].
    rewrite app_comm_cons, app_assoc in Eq. apply app_inj_tail in Eq as [Eq _]. by eapply ow_closes0.
  - intros j d0 Hj Hop. rewrite Ht in Hj. destruct (decide (i = j)) as [<-|Hne].
    + rewrite list_lookup_insert_eq in Hj by (by apply lookup_lt_Some in Hi). injection Hj as <-. congruence.
    + rewrite list_lookup_insert_ne in Hj by done. by apply (ow_closed0 j).
Qed.
Lemma quiet_take_socket i d e fd w : owns w -> desc_table w !! i = Some (Some d) -> s d = INVALID_SOCKET ->
  opens e fd -> 0 <= fd -> fd ∉ open_sockets (calls w) -> forall err,
  owns (snd (take_socket empty i fd (World (desc_table w) (desc_ix w) err (calls w ++ [e])))).
Proof.
  intros Hw Hi Hs He Hfd Hnew err. unfold take_socket. set (w0 := World _ _ err _).
  assert (desc_table w0 !! i = Some (Some d)) as Hi0 by done.
  rewrite (bind_eq _ _ _ _ _ (upd_eq i _ d w0 Hi0)). set (w1 := World (<[i := _]> _) _ _ _).
  rewrite (bind_eq (act _) _ w1 tt (snd (act (Nonblock fd) w1)) eq_refl). set (w2 := snd (act _ w1)).
  assert (desc_table w2 !! i = Some (Some (w_event fd (w_s fd d)))) as Hi2.
  { subst w2 w1. cbn [act modify snd desc_table]. apply list_lookup_insert_eq. by apply lookup_lt_Some in Hi. }
  rewrite (bind_eq _ _ _ _ _ (upd_eq i _ _ w2 Hi2)). set (w3 := World _ _ _ _).
  assert (owns w3) as Hw3.
  { eapply (owns_open i d (w_state STATE_CONNECTED (w_event fd (w_s fd d))) e fd [Nonblock fd] w); try done.
    - subst w3 w2 w1. cbn [act modify snd desc_table]. apply list_insert_insert_eq.
    - by apply Forall_singleton. }
  quietly.
Qed.

Context `{OL : !OsLaws OS}.
(** The result of [accept]: none, or a new socket. *)
Definition accepted w err lfd fd : world Q := World (desc_table w) (desc_ix w) err (calls w ++ [Accept lfd fd]).
Lemma accept_eq l w : exists fd err lfd, sock_accept empty l w = (fd, accepted w err lfd fd) /\
  (fd = INVALID_SOCKET \/ 0 <= fd /\ fd ∉ open_sockets (calls w)).
Proof.
  unfold sock_accept. rewrite (bind_eq (this empty l) _ w _ w eq_refl). unfold sys.
  pose proof (os_accept_law (calls w) (s (desc w l))) as Hl. destruct (os_accept (calls w) (s (desc w l))) as [fd err].
  by exists fd, err, (s (desc w l)).
Qed.
(** A descriptor changes, but not its socket. *)
Lemma owns_put i d d' new w w' : owns w -> desc_table w !! i = Some (Some d) -> desc_table w' = <[i := Some d']> (desc_table w) ->
  s d' = s d -> (IS_OPEN d' = false -> s d = INVALID_SOCKET) -> calls w' = calls w ++ new -> Forall mild new -> owns w'.
Proof.
  intros [] Hi Ht Hs Ho Hc Hm.
  assert (owned (desc_table w') ≡ₚ owned (desc_table w)) as Hown.
  { rewrite Ht, (owned_insert _ _ _ _ Hi). destruct (owned_alter i id (desc_table w) d Hi) as [_ Hb]. rewrite Hb.
    unfold own. by rewrite Hs. }
  split; rewrite ?Hc, ?open_sockets_mild by done; [by rewrite Hown|done|by apply closes_ok_mild|].
  intros j d0 Hj Hop. rewrite Ht in Hj. destruct (decide (i = j)) as [<-|Hne].
  - rewrite list_lookup_insert_eq in Hj by (by apply lookup_lt_Some in Hi). injection Hj as <-. rewrite Hs. auto.
  - rewrite list_lookup_insert_ne in Hj by done. by apply (ow_closed0 j).
Qed.
Lemma owns_ctl_open i n w : owns w -> live w i -> owns (snd (ctl_open empty i n w)).
Proof.
  intros Hw [d Hi]. unfold ctl_open. rewrite (bind_eq (this empty i) _ w _ w eq_refl), (desc_live empty _ _ _ Hi).
  destruct (Z.eqb_spec (state d) STATE_CLOSED) as [Hc|]; cbn [negb]; [|quietly].
  assert (IS_OPEN d = false) as Hop by (unfold IS_OPEN; by rewrite Hc).
  pose proof (ow_closed w Hw i d Hi Hop) as Hs.
  pose proof (os_socket_law (calls w)) as Hl. destruct (os_socket (calls w)) as [fd err] eqn:E. cbn [fst] in Hl.
  assert (sys os_socket Socket w = (fd, World (desc_table w) (desc_ix w) err (calls w ++ [Socket fd]))) as Es by (unfold sys; by rewrite E).
  rewrite (bind_eq _ _ _ _ _ Es). set (w1 := World _ _ _ _).
  rewrite (bind_eq _ _ _ _ _ (upd_eq i (w_s fd) d w1 Hi)). set (w2 := World (<[i:=_]> _) _ _ _).
  pose proof (lookup_lt_Some _ _ _ Hi) as Hlt. destruct (Z.eqb_spec fd INVALID_SOCKET) as [->|Hfd].
  { apply (walks_ctl_errno quiet). eapply (owns_put i d (w_s INVALID_SOCKET d) [Socket INVALID_SOCKET] w w2); try done.
    by apply Forall_singleton. }
  destruct Hl as [|[H0 Hnew]]; [done|].
  assert (desc_table w2 !! i = Some (Some (w_s fd d))) as Hi2 by (by apply list_lookup_insert_eq).
  rewrite (bind_eq _ _ _ _ _ (upd_eq i (w_event fd) _ w2 Hi2)). set (w3 := World (<[i:=_]> _) _ _ _).
  rewrite (bind_eq (act _) _ w3 tt (snd (act (Nonblock fd) w3)) eq_refl). set (w4 := snd (act _ w3)).
  assert (desc_table w4 !! i = Some (Some (w_event fd (w_s fd d)))) as Hi4.
  { subst w4 w3. cbn [act modify snd desc_table]. apply list_lookup_insert_eq. subst w2. cbn [desc_table]. by rewrite length_insert. }
  rewrite (bind_eq _ _ _ _ _ (upd_eq i _ _ w4 Hi4)). set (w5 := World (<[i:=_]> _) _ _ _).
  apply (walks_ctl_ok quiet). eapply (owns_open i d _ (Socket fd) fd [Nonblock fd] w w5); try done.
  - subst w5 w4 w3 w2 w1. cbn [act modify snd desc_table]. rewrite !list_insert_insert_eq. reflexivity.
  - done.
  - done.
  - by apply Forall_singleton.
Qed.

Lemma bind_quiet {A B} (m : U A) (k : A -> U B) w : owns w -> ensures quiet m ->
  (forall a w', m w = (a, w') -> owns w' -> owns (snd (k a w'))) -> owns (snd (mbind k m w)).
Proof.
  intros Hw Hm Hk. specialize (Hm w Hw). destruct (m w) as [a w'] eqn:E. rewrite (bind_eq _ _ _ _ _ E). by apply Hk.
Qed.
Lemma owns_accepted w err lfd : owns w -> owns (accepted w err lfd INVALID_SOCKET).
Proof.
  intros Hw. refine (calm_quiet w _ _ Hw). split; [|by apply table_rel_same; [apply _|]].
  exists [Accept lfd INVALID_SOCKET]. split; [done|by apply Forall_singleton].
Qed.
Lemma int_arg_eq off buf w : exists x w', int_arg buf off w = (x, w') /\ (owns w -> owns w') /\ desc_table w' = desc_table w.
Proof.
  unfold int_arg. destruct (_ <? _)%nat; [|by eexists _, _].
  eexists _, _. split; [reflexivity|]. split; [|done]. by apply (quiet_act (Fault Overread)).
Qed.
(** The port that accepts takes the socket, or waits at the listening port. *)
Lemma owns_take_or_wait i l d n tmo w : owns w -> desc_table w !! i = Some (Some d) -> s d = INVALID_SOCKET -> IS_OPEN d = false ->
  owns (snd ((fd ← sock_accept empty l;
    if fd =? INVALID_SOCKET then
      err ← sock_errno;
      if err =? ERRNO_BLOCK then
        upd i (w_state STATE_ACCEPTING);;;
        upd l (fun l_desc => w_i_ix (ix d) (w_state STATE_LISTENING l_desc));;;
        sock_select empty l FD_ACCEPT true;;;
        (when negb (u_long ulong tmo =? INFINITY) do act (SetTimer (port d) (u_long ulong tmo)));;;
        ctl_reply UNIXDOM_REP_WOULDBLOCK [] n
      else ctl_error err n
    else
      take_socket empty i fd;;;
      ctl_ok [] n) w)).
Proof.
  intros Hw Hi Hs Hop. destruct (accept_eq l w) as (fd & err & lfd & E & Hfd). rewrite (bind_eq _ _ _ _ _ E).
  destruct (Z.eqb_spec fd INVALID_SOCKET) as [->|Hne].
  - pose proof (owns_accepted w err lfd Hw) as Hw1. set (w1 := accepted _ _ _ _) in *.
    rewrite (bind_eq sock_errno _ w1 _ w1 eq_refl). destruct (_ =? ERRNO_BLOCK); [|quietly].
    rewrite (bind_eq (upd i (w_state STATE_ACCEPTING)) _ w1 tt (snd (upd i (w_state STATE_ACCEPTING) w1)) eq_refl).
    assert (owns (snd (upd i (w_state STATE_ACCEPTING) w1))) as Hw2.
    { apply owns_closed_state; [done|]. intros d0 Hd0. change (desc_table w1) with (desc_table w) in Hd0. congruence. }
    quietly.
  - destruct Hfd as [|[H0 Hnew]]; [done|].
    pose proof (quiet_take_socket i d (Accept lfd fd) fd w Hw Hi Hs eq_refl H0 Hnew err) as Hw2.
    change (World _ _ err _) with (accepted w err lfd fd) in Hw2.
    destruct (take_socket empty i fd (accepted w err lfd fd)) as [[] w2] eqn:E2. rewrite (bind_eq _ _ _ _ _ E2). quietly.
Qed.
Lemma owns_ctl_accept i buf n w : owns w -> live w i -> owns (snd (ctl_accept ulong empty i buf n w)).
Proof.
  intros Hw [d Hi]. unfold ctl_accept. rewrite (bind_eq (this empty i) _ w _ w eq_refl), (desc_live empty _ _ _ Hi).
  destruct (Z.eqb_spec (state d) STATE_CLOSED) as [Hc|]; cbn [negb]; [|quietly].
  assert (IS_OPEN d = false) as Hop by (unfold IS_OPEN; by rewrite Hc).
  pose proof (ow_closed w Hw i d Hi Hop) as Hs.
  destruct (int_arg_eq 0 buf w) as (lix & wa & Ea & Hwa & Hta). rewrite (bind_eq _ _ _ _ _ Ea).
  destruct (int_arg_eq 4 buf wa) as (tmo & wb & Eb & Hwb & Htb). rewrite (bind_eq _ _ _ _ _ Eb).
  rewrite (bind_eq (gets desc_table) _ wb _ wb eq_refl). specialize (Hwb (Hwa Hw)). rewrite Hta in Htb.
  rewrite <-Htb in Hi. clear dependent wa.
  destruct (_ <=? _); [quietly|]. destruct (lix <? 0); [quietly|].
  set (l := Z.to_nat lix). destruct (default None (desc_table wb !! l)) as [l_desc|]; [|quietly].
  destruct (negb (state l_desc =? _)); [quietly|].
  assert (exists wc, (when negb (bool_decide (i_buf d = None)) || i_bufp d do act (Fault Abort)) wb = (tt, wc) /\ owns wc /\
    desc_table wc = desc_table wb) as (wc & Ec & Hwc & Htc).
  { destruct (_ || _); [|by exists wb]. eexists. split; [reflexivity|]. split; [by apply (quiet_act (Fault Abort))|done]. }
  rewrite (bind_eq _ _ _ _ _ Ec). rewrite <-Htc in Hi. rewrite (bind_eq _ _ _ _ _ (upd_eq i (inherit l_desc) d wc Hi)).
  set (wd := World (<[i:=_]> _) _ _ _). assert (owns wd) as Hwd.
  { eapply (owns_put i d (inherit l_desc d) [] wc wd); try done. by rewrite app_nil_r. }
  apply (owns_take_or_wait i l (inherit l_desc d) n tmo wd); try done.
  apply list_lookup_insert_eq. by apply lookup_lt_Some in Hi.
Qed.

Lemma quiet_ctl_recv i m k n : ensures quiet (ctl_recv empty i m k n).
Proof. unfold ctl_recv. walk_known. Qed.
Lemma owns_ctl i cmd buf n w : owns w -> live w i -> owns (snd (unixdom_ctl ulong empty i cmd buf n w)).
Proof.
  intros Hw Hi. destruct (decide (walked cmd)) as [Hc|Hc]; [exact (walks_ctl ulong empty quiet i cmd buf n Hc w Hw)|].
  destruct (Z.eq_dec cmd UNIXDOM_REQ_OPEN) as [->|Ho]; [by apply owns_ctl_open|].
  destruct (Z.eq_dec cmd UNIXDOM_REQ_ACCEPT) as [->|Ha]; [by apply owns_ctl_accept|].
  destruct (Z.eq_dec cmd UNIXDOM_REQ_RECV) as [->|Hr]; [|by exfalso; apply Hc].
  pose proof quiet_ctl_recv. unfold unixdom_ctl. cbn [Z.eqb Pos.eqb UNIXDOM_REQ_RECV UNIXDOM_REQ_ENDIAN UNIXDOM_REQ_KNUTHHASH
    UNIXDOM_REQ_OPEN UNIXDOM_REQ_CONNECT UNIXDOM_REQ_CLOSE UNIXDOM_REQ_WRITE]. quietly.
Qed.
Lemma owns_ready_input i w : owns w -> owns (snd (unixdom_ready_input empty i w)).
Proof.
  intros Hw. unfold unixdom_ready_input. rewrite (bind_eq (this empty i) _ w _ w eq_refl).
  destruct (state (desc w i) =? STATE_LISTENING).
  2: { destruct (IS_CONNECTED _); quietly. }
  apply bind_quiet; [done|walk_known|]. intros [] w1 _ Hw1. apply bind_quiet; [done|walk_known|]. intros [] w2 _ Hw2.
  rewrite (bind_eq (gets desc_table) _ w2 _ w2 eq_refl). set (a := Z.to_nat _).
  destruct (desc_table w2 !! a) as [[a_desc|]|] eqn:Ha; cbn [default from_option id]; [|done..].
  destruct (Z.eqb_spec (state a_desc) STATE_ACCEPTING) as [Hst|]; cbn [negb]; [|done].
  assert (IS_OPEN a_desc = false) as Hop by (unfold IS_OPEN; by rewrite Hst).
  pose proof (ow_closed w2 Hw2 a a_desc Ha Hop) as Hs.
  destruct (accept_eq i w2) as (fd & err & lfd & E & Hfd). rewrite (bind_eq _ _ _ _ _ E).
  destruct (Z.eqb_spec fd INVALID_SOCKET) as [->|Hne].
  - pose proof (owns_accepted w2 err lfd Hw2) as Hw3. set (w3 := accepted _ _ _ _) in *.
    quietly.
  - destruct Hfd as [|[H0 Hnew]]; [done|].
    pose proof (quiet_take_socket a a_desc (Accept lfd fd) fd w2 Hw2 Ha Hs eq_refl H0 Hnew err) as Hw3.
    change (World _ _ err _) with (accepted w2 err lfd fd) in Hw3.
    destruct (take_socket empty a fd (accepted w2 err lfd fd)) as [[] w3] eqn:E2. rewrite (bind_eq _ _ _ _ _ E2). quietly.
Qed.
(** A port without a socket leaves or enters the table. *)
Lemma owns_slot i o o' ix w : owns w -> desc_table w !! i = Some o -> own o = [] -> own o' = [] ->
  (forall d, o' = Some d -> s d = INVALID_SOCKET) -> owns (World (<[i := o']> (desc_table w)) ix (errno w) (calls w)).
Proof.
  intros [] Hi Ho Ho' Hd. split; cbn [desc_table calls]; try done.
  - rewrite (owned_insert _ _ _ _ Hi), Ho'. rewrite ow_sockets0. rewrite <-(list_insert_id _ _ _ Hi) at 1.
    by rewrite (owned_insert _ _ _ _ Hi), Ho.
  - intros j d Hj Hop. destruct (decide (i = j)) as [<-|Hne].
    + rewrite list_lookup_insert_eq in Hj by (by apply lookup_lt_Some in Hi). injection Hj as ->. by apply Hd.
    + rewrite list_lookup_insert_ne in Hj by done. by apply (ow_closed0 j).
Qed.
Lemma owns_leave i w : owns w -> (forall d, desc_table w !! i = Some (Some d) -> s d = INVALID_SOCKET) ->
  owns (World (<[i := None]> (desc_table w)) (desc_ix w) (errno w) (calls w)).
Proof.
  intros Hw Hs. destruct (desc_table w !! i) as [o|] eqn:Hi.
  - apply (owns_slot i o None); try done. destruct o as [d|]; [|done]. by apply own_nothing, Hs.
  - rewrite list_insert_ge by (by apply lookup_ge_None). by destruct w.
Qed.
Lemma owns_stop i w : owns w -> owns (snd (unixdom_stop empty i w)).
Proof.
  intros Hw. unfold unixdom_stop. apply bind_quiet; [done|walk_known|]. intros d w1 _ Hw1.
  apply bind_quiet; [done|walk_known|]. intros [] w2 _ Hw2. apply bind_quiet; [done|walk_known|]. intros [] w3 _ Hw3.
  rewrite (bind_eq (this empty i) _ w3 _ w3 eq_refl). destruct (IS_OPEN (desc w3 i)) eqn:Hop.
  - destruct (desc_close_owns empty i w3 Hw3) as [Hw4 Hs4]. destruct (desc_close empty i w3) as [[] w4] eqn:E4. cbn [snd] in *.
    set (w5 := snd (upd i (w_state STATE_CLOSED) w4)).
    assert ((desc_close empty i;;; upd i (w_state STATE_CLOSED)) w3 = (tt, w5)) as E5 by (by rewrite (bind_eq _ _ _ _ _ E4)).
    rewrite (bind_eq _ _ _ _ _ E5). apply (owns_leave i w5); [by apply owns_closed_state|].
    intros d5. subst w5. cbn [upd modify snd desc_table]. rewrite list_lookup_alter_eq.
    destruct (desc_table w4 !! i) as [[d4|]|] eqn:E; try done. intros [= <-]. exact (Hs4 d4 eq_refl).
  - rewrite (bind_eq skip _ w3 tt w3 eq_refl). apply (owns_leave i w3); [done|]. intros d3 Hd3.
    apply (ow_closed w3 Hw3 i); [done|]. by rewrite (desc_live empty _ _ _ Hd3) in Hop.
Qed.
Lemma owns_start dsz port w : owns w -> owns (snd (unixdom_start empty dsz port w)).
Proof.
  intros Hw. unfold unixdom_start. rewrite (bind_eq (gets _) _ w w w eq_refl). cbv zeta.
  set (i := free_ix _ _ _). destruct (default None (desc_table w !! i)) as [d|] eqn:Hi; [quietly|].
  match goal with |- owns (snd (mbind _ (modify ?f) w)) => rewrite (bind_eq (modify f) _ w tt (f w) eq_refl) end.
  cbv beta. set (w1 := World _ _ _ _).
  assert (owns w1) as Hw1 by (by destruct Hw).
  rewrite (bind_eq (driver_alloc dsz) _ w1 _ w1 eq_refl). destruct (os_alloc _ _); cbn [negb]; [|done].
  match goal with |- owns (snd (mbind _ (modify ?f) w1)) => rewrite (bind_eq (modify f) _ w1 tt (f w1) eq_refl) end.
  cbn [mret M_ret snd]. destruct (desc_table w1 !! i) as [o|] eqn:Hi1.
  - assert (o = None) as -> by (change (desc_table w1) with (desc_table w) in Hi1; rewrite Hi1 in Hi; exact Hi).
    apply (owns_slot i None); try done. by intros ? [= <-].
  - rewrite list_insert_ge by (by apply lookup_ge_None). done.
Qed.
Lemma owns_exec c w : owns w -> owns (snd (exec ulong empty c w)).
Proof.
  intros Hw. assert (forall i A (m : U A), (live w i -> owns (snd (m w))) -> owns (snd (on i m w))) as Hon.
  { intros i A m Hm. unfold on. rewrite (bind_eq get _ w w w eq_refl). destruct (decide (live w i)) as [Hi|]; [|done].
    specialize (Hm Hi). destruct (m w) as [a w'] eqn:E. by rewrite (bind_eq _ _ _ _ _ E). }
  destruct c as [dsz port|i|i cmd buf n|i ev|i|fuel i|i]; cbn [exec].
  - pose proof (owns_start dsz port w Hw) as Hs. destruct (unixdom_start empty dsz port w) as [r w'] eqn:E. by rewrite (bind_eq _ _ _ _ _ E).
  - apply Hon. intros _. by apply owns_stop.
  - apply Hon. intros Hi. by apply owns_ctl.
  - apply Hon. intros _. exact (walks_outputv empty quiet i ev w Hw).
  - apply Hon. intros _. by apply owns_ready_input.
  - apply Hon. intros _. exact (walks_ready_output empty quiet fuel i w Hw).
  - apply Hon. intros _. exact (walks_timeout empty quiet i w Hw).
Qed.
Lemma owns_execs l : forall w, owns w -> owns (snd (execs ulong empty l w)).
Proof.
  induction l as [|c l IH]; intros w Hw; cbn [execs]; [done|]. apply owns_exec with (c := c) in Hw.
  destruct (exec ulong empty c w) as [[] w1] eqn:E. rewrite (bind_eq _ _ _ _ _ E). by apply IH.
Qed.
Lemma owns_init desc_size pointer w : driver_init desc_size pointer = Some w -> owns w.
Proof.
  unfold driver_init. destruct (os_alloc _ _); [|done]. intros [= <-].
  assert (owned (replicate desc_size (@None (descriptor Q))) = []) as Ho by (induction desc_size; done).
  split; cbn [desc_table calls]; rewrite ?Ho; try constructor.
  - intros a fd b E. by destruct a.
  - intros i d Hi%lookup_replicate. by destruct Hi.
Qed.
End Sockets.

(** C8: No socket is lost or closed twice: after any calls of the driver in any order, the sockets opened or accepted and not
    closed are exactly those held by the ports, each by one port; every descriptor ever closed was an open
    socket at that moment; and a port that is not open holds none. *)
Theorem sockets_owned `{OS : !Os} {Q : Type} `{PQ : !PortQueue Q} `{IV : !IOVec Q} `{OL : !OsLaws OS} ulong (empty : Q)
    desc_size pointer (l : list ucall) (w0 : world Q) :
  driver_init desc_size pointer = Some w0 ->
  let w := snd (execs ulong empty l w0) in
  open_sockets (calls w) ≡ₚ owned (desc_table w) /\ NoDup (owned (desc_table w)) /\ closes_ok (calls w) /\
  (forall i d, desc_table w !! i = Some (Some d) -> IS_OPEN d = false -> s d = INVALID_SOCKET).
Proof.
  intros H0 w. destruct (owns_execs ulong empty l w0 (owns_init _ _ _ H0)) as [Hp Hn Hc Hs].
  fold w in Hp, Hn, Hc, Hs. split_and!; try done. by rewrite <-Hp.
Qed.

(** One port listens, one accepts, receives, and is stopped. *)
Definition sample_calls : list ucall :=
  [Start 100 1; Ctl 0 UNIXDOM_REQ_OPEN [] 64; Ctl 0 UNIXDOM_REQ_BIND (put_int32 5 ++ [47; 112]) 64;
   Start 100 2; Ctl 1 UNIXDOM_REQ_ACCEPT (put_int32 0 ++ put_int32 1000) 64; Ready_input 0;
   Ctl 1 UNIXDOM_REQ_RECV (put_int32 0 ++ put_int32 0) 64].
Definition sample_start : world bytes := World [None; None] 0 0 [].
Lemma sockets_owned_witness : exists w : world bytes, w = snd (execs (OS := small_os) 64 [] sample_calls sample_start) /\
  open_sockets (calls w) = [2; 1] /\ open_sockets (calls w) ≡ₚ owned (desc_table w).
Proof.
  eexists. split; [reflexivity|]. split; [vm_compute; reflexivity|].
  exact (proj1 (sockets_owned (OS := small_os) 64 [] 2 8 sample_calls sample_start eq_refl)).
Defined.
