(* ===== verification/UnixdomFlow.v ===== *)
(** What passes through the Unix domain socket driver: data received and sent, replies, and the meeting of a
    port that accepts with one that listens. *)
From stdpp Require Import strings.
From S2P Require Import Prelude ErlTerm Erts Unixdom UnixdomPort.
#[local] Open Scope Z_scope.

(** * Received data *)

(** The data messages [{unixdom, Port, Data}] and the data read from sockets, with their ports. *)
Definition message_of (e : io) : option (Z * bytes) :=
  match e with
  | OutputTerm _ sp =>
      match eval sp [] with
      | Some [TTuple [TAtom a; TPort p; TBinary b]] => if (a =? "unixdom")%string then Some (p, b) else None
      | _ => None
      end
  | _ => None
  end.
Definition received_of (e : io) : option (Z * bytes) :=
  match e with Recv p _ _ _ (b :: data) => Some (p, b :: data) | _ => None end.
Definition messages (tr : trace) : list (Z * bytes) := omap message_of tr.
Definition received (tr : trace) : list (Z * bytes) := omap received_of tr.
(** A read that its buffer has room for. *)
Definition roomy (e : io) : Prop := match e with Recv _ _ room _ data => Z.of_nat (length data) <= room | _ => True end.
#[export] Instance roomy_dec e : Decision (roomy e).
Proof. destruct e; exact _. Defined.

Section Flow.
Context `{OS : !Os} {Q : Type} `{PQ : !PortQueue Q} `{IV : !IOVec Q} (ulong : Z) (empty : Q).
Implicit Types (w : world Q) (d : descriptor Q).
Abbreviation U := (M (world Q)).
Abbreviation desc w i := (default (blank empty) (default None (desc_table w !! i))).

(** What is received is passed on, where no read overran its buffer. *)
Definition passes w w' : Prop := exists new, calls w' = calls w ++ new /\ (Forall roomy new -> messages new = received new).
#[export] Instance passes_preorder : PreOrder passes.
Proof.
  split; [intros w; exists []; by rewrite app_nil_r|]. intros a b c (n1 & E1 & H1) (n2 & E2 & H2).
  exists (n1 ++ n2). rewrite E2, E1, app_assoc. split; [done|]. intros [R1 R2]%Forall_app. unfold messages, received in *. by rewrite !omap_app, H1, H2.
Qed.
Lemma passes_act e : message_of e = received_of e -> ensures passes (act e).
Proof. intros He w. exists [e]. split; [done|]. intros _. unfold messages, received. cbn. by rewrite He. Qed.
Lemma passes_upd i f : ensures passes (upd i f).
Proof. intros w. exists []. by rewrite app_nil_r. Qed.
Lemma passes_sys {A} (answer : trace -> A * Z) (e : A -> io) : (forall a, message_of (e a) = received_of (e a)) -> ensures passes (sys answer e).
Proof.
  intros He w. unfold sys. destruct (answer (calls w)) as [a err]. exists [e a]. split; [done|].
  intros _. unfold messages, received. cbn. by rewrite He.
Qed.
Lemma passes_errno e : ensures passes (set_errno e).
Proof. intros w. exists []. by rewrite app_nil_r. Qed.
Lemma passes_desc_close e i : ensures passes (desc_close e i).
Proof.
  unfold desc_close, sock_select, this. walk ltac:(first [apply passes_upd | apply passes_act; reflexivity]).
Qed.
Lemma plain_passes e : plain e -> message_of e = received_of e.
Proof. destruct e; try done; cbn [plain]; [by intros ->|]. intros (p & [->|[->|[r ->]]]); [done..|by destruct r]. Qed.
#[export] Instance passes_walks : Walks passes.
Proof.
  split; [apply _|intros; by apply passes_act, plain_passes|intros; apply passes_upd|intros; apply passes_sys; auto using plain_passes
    |apply passes_errno|apply passes_desc_close|intros A e i k Hk|intros e i].
  - apply ensures_bind; [apply _|apply passes_desc_close|intros _]. apply ensures_bind; [apply _|apply passes_upd|done].
  - apply ensures_bind; [apply _|apply passes_desc_close|intros _]. apply passes_upd.
Qed.
#[local] Hint Extern 1 (ensures passes (act _)) => apply passes_act; reflexivity : unixdom.
#[local] Hint Extern 1 (ensures passes (sys _ _)) => apply passes_sys; intros ?; reflexivity : unixdom.
#[local] Hint Resolve passes_upd passes_errno : unixdom.

Lemma recv_closed_rc e i w : fst (unixdom_recv_closed e i w) <= 0.
Proof. unfold unixdom_recv_closed, mbind, M_bind. by repeat case_match. Qed.
Lemma recv_error_rc e i err w : fst (unixdom_recv_error e i err w) <= 0.
Proof. unfold unixdom_recv_error. destruct (_ =? _); [done|]. unfold mbind, M_bind. by repeat case_match. Qed.
Lemma upd_live i f w d : desc_table w !! i = Some (Some d) -> exists w', upd i f w = (tt, w') /\
  desc_table w' !! i = Some (Some (f d)) /\ calls w' = calls w.
Proof.
  intros Hi. eexists. rewrite (upd_eq i f d w Hi). split; [reflexivity|]. split; [|done].
  apply list_lookup_insert_eq. by apply lookup_lt_Some in Hi.
Qed.
(** [unixdom_recv] returns what it read in the buffer, or nothing was read. *)
Context `{OL : !OsLaws OS}.
Definition receives i w w' (n : Z) : Prop := exists fd room size data new, n = Z.of_nat (length data) /\ data <> [] /\
  calls w' = calls w ++ Recv (port (desc w i)) fd room size data :: new /\ messages new = [] /\ received new = [] /\
  exists d, desc_table w' !! i = Some (Some d) /\ i_buf d = Some (room, take (Z.to_nat room) data) /\ port d = port (desc w i).
Lemma recv_spec i k w n w' : live w i -> unixdom_recv empty i k w = (n, w') ->
  0 < n /\ receives i w w' n \/ n <= 0 /\ passes w w'.
Proof.
  intros [d Hi]. unfold unixdom_recv. rewrite (bind_eq (this empty i) _ w _ w eq_refl), (desc_live _ _ _ _ Hi). cbv zeta.
  set (sz := if 0 <? k then k else bufsz d).
  match goal with |- mbind _ ?m w = _ -> _ => assert (exists ok w1 d1, m w = (ok, w1) /\ desc_table w1 !! i = Some (Some d1) /\
    calls w1 = calls w /\ port d1 = port d) as (ok & w1 & d1 & E1 & Hi1 & Hc1 & Hp1) end.
  { destruct (i_buf d); [by eexists true, w, d|]. rewrite (bind_eq (driver_alloc sz) _ w _ w eq_refl).
    destruct (os_alloc _ _); [|by eexists false, w, d].
    destruct (upd_live i (fun d => w_i_bufp true (w_i_buf (Some (sz, [])) d)) w d Hi) as (w1 & E1 & Hi1 & Hc1).
    rewrite (bind_eq _ _ _ _ _ E1). by eexists true, w1, _. }
  rewrite (bind_eq _ _ _ _ _ E1). destruct ok; cbn [negb].
  2: { intros [= <- <-]. right. split; [done|]. exists []. by rewrite app_nil_r. }
  rewrite (bind_eq (this empty i) _ w1 _ w1 eq_refl), (desc_live _ _ _ _ Hi1). cbv zeta.
  set (room := default 0 (fst <$> i_buf d1)).
  pose proof (os_recv_law (calls w1) (s d1) sz) as Hl.
  destruct (os_recv (calls w1) (s d1) sz) as [[n0 err] data] eqn:Eo. destruct Hl as [Hn0 Hlen].
  set (w2 := World (desc_table w1) (desc_ix w1) err (calls w1 ++ [Recv (port d1) (s d1) room sz data])).
  assert (sys (fun tr => let '(n, err, data) := os_recv tr (s d1) sz in ((n, data), err)) (fun r => Recv (port d1) (s d1) room sz (snd r)) w1
    = ((n0, data), w2)) as E2 by (unfold sys; by rewrite Eo).
  rewrite (bind_eq _ _ _ _ _ E2).
  assert (exists w3 new, (when room <? n0 do act (Fault Overflow)) w2 = (tt, w3) /\ calls w3 = calls w2 ++ new /\ desc_table w3 = desc_table w2 /\
    messages new = [] /\ received new = []) as (w3 & new & E3 & Hc3 & Ht3 & Hm3 & Hr3).
  { destruct (room <? n0); [by exists (snd (act (Fault Overflow) w2)), [Fault Overflow]|exists w2, []; by rewrite app_nil_r]. }
  rewrite (bind_eq _ _ _ _ _ E3).
  assert (n0 <= 0 -> passes w w3) as Hpass.
  { intros Hle. assert (data = []) as Hd by (apply nil_length_inv; lia). exists (Recv (port d1) (s d1) room sz data :: new).
    rewrite Hc3. cbn [w2 calls]. rewrite <-Hc1, <-app_assoc. split; [done|]. intros _. rewrite Hd. unfold messages, received in *. cbn. by rewrite Hm3, Hr3. }
  destruct (Z.ltb_spec n0 0); [|destruct (Z.eqb_spec n0 0) as [->|]].
  - specialize (Hpass ltac:(lia)). intros E. right.
    assert (forall m, ensures passes m -> (forall w, fst (m w) <= 0) -> m w3 = (n, w') -> n <= 0 /\ passes w w') as Hm.
    { intros m Hm1 Hm2 Em. specialize (Hm1 w3). specialize (Hm2 w3). rewrite Em in Hm1, Hm2. split; [done|]. by etransitivity. }
    revert E. rewrite (bind_eq sock_errno _ w3 _ w3 eq_refl).
    destruct (_ || _); [apply Hm; [apply walks_recv_closed, _|apply recv_closed_rc]|].
    destruct (_ =? _); [apply Hm; [apply ensures_ret, _|done]|]. apply Hm; [apply walks_recv_error, _|apply recv_error_rc].
  - specialize (Hpass ltac:(lia)). intros E. right. pose proof (walks_recv_closed empty passes i w3) as Hc.
    pose proof (recv_closed_rc empty i w3) as Hrc. rewrite E in Hc, Hrc. split; [done|]. by etransitivity.
  - assert (desc_table w3 !! i = Some (Some d1)) as Hi3 by (by rewrite Ht3).
    destruct (upd_live i (w_i_buf (Some (room, take (Z.to_nat room) data))) w3 d1 Hi3) as (w4 & E4 & Hi4 & Hc4).
    rewrite (bind_eq _ _ _ _ _ E4). intros [= <- <-]. left. split; [lia|].
    exists (s d1), room, sz, data, new. split_and!; try done; [lia|by intros ->; cbn in *; lia| |].
    + rewrite Hc4, Hc3. cbn [w2 calls]. by rewrite <-app_assoc, Hc1, Hp1, (desc_live _ _ _ _ Hi).
    + eexists. split; [exact Hi4|]. split; [done|]. by rewrite (desc_live _ _ _ _ Hi).
Qed.
Lemma reply_data_passes i w w1 n : receives i w w1 n -> passes w (snd (reply_data empty i n w1)).
Proof.
  intros (fd & room & size & data & new & Hn & Hd & Hc & Hm & Hr & d & Hi & Hb & Hp).
  unfold reply_data, output_term. rewrite (bind_eq (this empty i) _ w1 _ w1 eq_refl), (desc_live _ _ _ _ Hi), Hb.
  cbn [fmap option_fmap option_map snd default from_option id].
  set (e := OutputTerm (port d) (data_spec (port d) (take (Z.to_nat room) data) n)).
  exists (Recv (port (desc w i)) fd room size data :: new ++ [e]). split.
  { unfold mbind, M_bind, this, gets, act, modify, upd. cbn [calls snd]. rewrite (desc_live _ _ _ _ Hi), Hc. by rewrite <-app_assoc. }
  intros [Hroom _]%Forall_cons. cbn [roomy] in Hroom.
  assert (message_of e = Some (port d, data)) as He.
  { subst e. rewrite take_ge by lia. assert (eval (data_spec (port d) data n) [] = Some [TTuple [TAtom "unixdom"; TPort (port d); TBinary data]]) as Hev.
    { change (denotes (data_spec (port d) data n) (TTuple [TAtom "unixdom"; TPort (port d); TBinary data])).
      unfold data_spec. rewrite Hn. solve_spec. }
    cbn [message_of]. by rewrite Hev. }
  unfold messages, received in *. cbn [omap list_omap]. rewrite !omap_app, Hm, Hr. cbn [omap list_omap]. rewrite He.
  destruct data as [|b data]; [done|]. cbn [message_of received_of e]. by rewrite Hp.
Qed.
(** Receiving with what is done about it. *)
Lemma recv_bind {A} i k (f : Z -> U A) w : live w i ->
  (forall n w', 0 < n -> receives i w w' n -> passes w (snd (f n w'))) -> (forall n, n <= 0 -> ensures passes (f n)) ->
  passes w (snd (mbind f (unixdom_recv empty i k) w)).
Proof.
  intros Hi Hpos Hneg. destruct (unixdom_recv empty i k w) as [n w'] eqn:E. rewrite (bind_eq _ _ _ _ _ E).
  destruct (recv_spec i k w n w' Hi E) as [[H0 Hr]|[H0 Hp]]; [by apply Hpos|]. etransitivity; [exact Hp|by apply Hneg].
Qed.
Lemma then_passes {A B} (m : U A) (f : A -> U B) w0 w : passes w0 (snd (m w)) -> (forall a, ensures passes (f a)) ->
  passes w0 (snd (mbind f m w)).
Proof.
  intros Hm Hf. destruct (m w) as [a w1] eqn:E. rewrite (bind_eq _ _ _ _ _ E). etransitivity; [exact Hm|apply Hf].
Qed.
Lemma ctl_recv_passes i nb tmo n w : live w i -> passes w (snd (ctl_recv empty i nb tmo n w)).
Proof.
  intros Hi. unfold ctl_recv. rewrite (bind_eq (this empty i) _ w _ w eq_refl). destruct (negb _).
  { match goal with |- passes w (snd (?m w)) => assert (ensures passes m) as Hm; [walk_known|apply Hm] end. }
  apply recv_bind; [done| |].
  - intros m w' H0 Hr. rewrite (proj2 (Z.ltb_lt 0 m)) by done.
    apply then_passes; [by apply reply_data_passes|intros _; apply walks_ctl_ok, _].
  - intros m H0. rewrite (proj2 (Z.ltb_ge 0 m)) by done. walk_known.
Qed.
Lemma passes_take_socket i fd : ensures passes (take_socket empty i fd).
Proof. unfold take_socket. walk_known. Qed.
Lemma passes_accept i : ensures passes (sock_accept empty i).
Proof. unfold sock_accept. walk_known. Qed.
#[local] Hint Resolve passes_take_socket passes_accept : unixdom.
Lemma ctl_passes i cmd buf n w : live w i -> passes w (snd (unixdom_ctl ulong empty i cmd buf n w)).
Proof.
  intros Hi. destruct (decide (walked cmd)) as [Hc|Hc]; [exact (walks_ctl ulong empty passes i cmd buf n Hc w)|].
  destruct (Z.eq_dec cmd UNIXDOM_REQ_OPEN) as [->|Ho].
  { assert (ensures passes (ctl_open empty i n)) as Hm; [unfold ctl_open; walk_known|apply Hm]. }
  destruct (Z.eq_dec cmd UNIXDOM_REQ_ACCEPT) as [->|Ha].
  { assert (ensures passes (ctl_accept ulong empty i buf n)) as Hm; [unfold ctl_accept; walk_known|apply Hm]. }
  destruct (Z.eq_dec cmd UNIXDOM_REQ_RECV) as [->|Hr]; [|by exfalso; apply Hc].
  change (unixdom_ctl ulong empty i UNIXDOM_REQ_RECV buf n) with
    (size ← int_arg buf 0; timeout ← int_arg buf 0; ctl_recv empty i (u_long ulong size) (u_long ulong timeout) n).
  destruct (int_arg_eq 0 buf w) as (x & w1 & E1 & _ & Ht1). rewrite (bind_eq _ _ _ _ _ E1).
  destruct (int_arg_eq 0 buf w1) as (y & w2 & E2 & _ & Ht2). rewrite (bind_eq _ _ _ _ _ E2).
  assert (passes w w1) as H1 by (pose proof (walks_int_arg passes buf 0 w) as H; by rewrite E1 in H).
  assert (passes w1 w2) as H2 by (pose proof (walks_int_arg passes buf 0 w1) as H; by rewrite E2 in H).
  transitivity w1; [exact H1|]. transitivity w2; [exact H2|]. apply ctl_recv_passes. destruct Hi as [d Hd]. exists d. by rewrite Ht2, Ht1.
Qed.
Lemma ready_input_passes i w : live w i -> passes w (snd (unixdom_ready_input empty i w)).
Proof.
  intros Hi. unfold unixdom_ready_input. rewrite (bind_eq (this empty i) _ w _ w eq_refl).
  destruct (state _ =? _); [|destruct (IS_CONNECTED _)].
  - match goal with |- passes w (snd (?m w)) => assert (ensures passes m) as Hm; [walk_known|apply Hm] end.
  - apply recv_bind; [done| |].
    + intros n w' H0 Hr. rewrite (proj2 (Z.ltb_lt 0 n)) by done.
      apply then_passes; [by apply reply_data_passes|intros _; walk_known].
    + intros n H0. rewrite (proj2 (Z.ltb_ge 0 n)) by done. walk_known.
  - match goal with |- passes w (snd (?m w)) => assert (ensures passes m) as Hm; [walk_known|apply Hm] end.
Qed.
Lemma passes_exec c : ensures passes (exec ulong empty c).
Proof.
  intros w. assert (forall i A (m : U A), (live w i -> passes w (snd (m w))) -> passes w (snd (on i m w))) as Hon.
  { intros i A m Hm. unfold on. rewrite (bind_eq get _ w w w eq_refl). destruct (decide (live w i)) as [Hi|]; [|reflexivity].
    apply then_passes; [by apply Hm|intros _; apply ensures_skip, _]. }
  assert (forall f, (forall w, calls (f w) = calls w) -> ensures passes (modify f)) as Hmod.
  { intros f Hf w0. exists []. by rewrite app_nil_r, <-(Hf w0). }
  destruct c as [dsz port|i|i cmd buf n|i ev|i|fuel i|i]; cbn [exec].
  - apply then_passes; [|intros _; apply ensures_skip, _].
    assert (ensures passes (unixdom_start empty dsz port)) as Hm; [unfold unixdom_start; walk_known; by apply Hmod|apply Hm].
  - apply Hon. intros _. assert (ensures passes (unixdom_stop empty i)) as Hm; [unfold unixdom_stop; walk_known; by apply Hmod|apply Hm].
  - apply Hon. apply ctl_passes.
  - apply Hon. intros _. exact (walks_outputv empty passes i ev w).
  - apply Hon. apply ready_input_passes.
  - apply Hon. intros _. exact (walks_ready_output empty passes fuel i w).
  - apply Hon. intros _. exact (walks_timeout empty passes i w).
Qed.
Lemma passes_execs l : ensures passes (execs ulong empty l).
Proof.
  induction l as [|c l IH]; cbn [execs]; [apply ensures_skip, _|].
  apply ensures_bind; [apply _|apply passes_exec|intros _; apply IH].
Qed.
End Flow.

(** * Data sent *)

(** What was written for a port. *)
Definition written_of (p : Z) (e : io) : bytes :=
  match e with Writev p' _ data n => if p' =? p then take (Z.to_nat n) data else [] | _ => [] end.
Definition written (p : Z) (tr : trace) : bytes := concat (map (written_of p) tr).
Lemma written_on_app p a b : written p (a ++ b) = written p a ++ written p b.
Proof. unfold written. by rewrite map_app, concat_app. Qed.

Section Output.
Context `{OS : !Os} {Q : Type} `{VL : IOVecLaws Q} (ulong : Z) (empty : Q).
Implicit Types (w : world Q) (d : descriptor Q).
Abbreviation U := (M (world Q)).
Abbreviation desc w i := (default (blank empty) (default None (desc_table w !! i))).

(** The port stays connected, and [b] is added to what was written and is queued. *)
Definition adds (i : nat) (b : bytes) w w' : Prop := forall d, desc_table w !! i = Some (Some d) -> IS_CONNECTED d = true ->
  exists d', desc_table w' !! i = Some (Some d') /\ IS_CONNECTED d' = true /\ port d' = port d /\
    written (port d) (calls w') ++ q_bytes (queue d') = written (port d) (calls w) ++ q_bytes (queue d) ++ b.
Definition same_out (i : nat) : relation (world Q) := adds i [].
Lemma adds_trans i a b w w1 w2 : adds i a w w1 -> adds i b w1 w2 -> adds i (a ++ b) w w2.
Proof.
  intros H1 H2 d Hi Hc. destruct (H1 d Hi Hc) as (d1 & Hi1 & Hc1 & Hp1 & E1). destruct (H2 d1 Hi1 Hc1) as (d2 & Hi2 & Hc2 & Hp2 & E2).
  exists d2. split_and!; try done; [congruence|]. rewrite Hp1 in E2. rewrite E2, app_assoc, E1. by rewrite <-!app_assoc.
Qed.
Lemma same_out_refl i w : same_out i w w.
Proof. intros d Hi Hc. exists d. by rewrite app_nil_r. Qed.
(** Nothing is written, and the queue stays. *)
Definition same_queue d d' : Prop := q_bytes (queue d') = q_bytes (queue d) /\ port d' = port d /\ (IS_CONNECTED d = true -> IS_CONNECTED d' = true).
Definition still (i : nat) w w' : Prop := (forall p, written p (calls w') = written p (calls w)) /\
  forall d, desc_table w !! i = Some (Some d) -> exists d', desc_table w' !! i = Some (Some d') /\ same_queue d d'.
#[export] Instance still_preorder i : PreOrder (still i).
Proof.
  split; [intros w; split; [done|]; intros d Hi; by exists d|]. intros a b c [W1 H1] [W2 H2]. split; [intros p; by rewrite W2|].
  intros d Hi. destruct (H1 d Hi) as (d1 & Hi1 & Q1 & P1 & C1). destruct (H2 d1 Hi1) as (d2 & Hi2 & Q2 & P2 & C2).
  exists d2. split; [done|]. split_and!; [congruence|congruence|auto].
Qed.
Lemma still_same_out i w w' : still i w w' -> same_out i w w'.
Proof.
  intros [W Hs] d Hi Hc. destruct (Hs d Hi) as (d' & Hi' & Hq & Hp & Hcon). exists d'. rewrite W, Hq, app_nil_r. auto.
Qed.
Lemma still_act i e : (forall p, written_of p e = []) -> ensures (still i) (act e).
Proof.
  intros He w. split; [|intros d Hi; by exists d]. intros p. cbn [act modify snd calls]. rewrite written_on_app.
  unfold written at 2. cbn. by rewrite He, !app_nil_r.
Qed.
Lemma still_upd i j f : (forall d, same_queue d (f d)) -> ensures (still i) (upd j f).
Proof.
  intros Hf w. split; [done|]. intros d Hi. cbn [upd modify snd desc_table calls].
  destruct (decide (j = i)) as [->|Hne].
  - rewrite list_lookup_alter_eq, Hi. cbn. by exists (f d).
  - rewrite list_lookup_alter_ne by done. by exists d.
Qed.
Lemma connected_busy st : has (Z.lor st F_BUSY) STATE_CONNECTED = has st STATE_CONNECTED.
Proof. unfold has. by rewrite Z.land_lor_distr_l, Z.lor_0_r. Qed.
Lemma connected_unbusy st : has (Z.land st (Z.lnot F_BUSY)) STATE_CONNECTED = has st STATE_CONNECTED.
Proof. unfold has. by rewrite <-Z.land_assoc. Qed.
Local Ltac same_q := intros ?; split_and!; [reflexivity|reflexivity|
  unfold IS_CONNECTED; cbn [state w_state]; rewrite ?connected_busy, ?connected_unbusy; done].
Create HintDb uout.
#[local] Hint Extern 1 (ensures _ (act _)) => apply still_act; reflexivity : uout.
#[local] Hint Extern 1 (ensures _ (upd _ _)) => apply still_upd; same_q : uout.
Local Ltac q := walk ltac:(auto 2 with uout).
Lemma still_this i j : ensures (still i) (this empty j).
Proof. unfold this. q. Qed.
#[local] Hint Resolve still_this : uout.
Lemma still_select i j fl on : ensures (still i) (sock_select empty j fl on).
Proof. unfold sock_select. q. Qed.
Lemma still_reply_ok i j : ensures (still i) (reply_ok empty j).
Proof. unfold reply_ok, output_term. q. Qed.
Lemma still_unbusy i j : ensures (still i) (unbusy empty j).
Proof. unfold unbusy. q. Qed.
Lemma still_cancel i j : ensures (still i) (cancel_timer empty j).
Proof. unfold cancel_timer. q. Qed.
#[local] Hint Resolve still_select still_reply_ok still_unbusy still_cancel : uout.
Lemma still_release i j : ensures (still i) (release empty j).
Proof. unfold release. q. Qed.

(** The device only ever reports that it is busy, or is interrupted. *)
Definition soft_errors : Prop := forall tr fd data,
  fst (os_writev tr fd data) = SOCKET_ERROR -> send_error (snd (os_writev tr fd data)) = false.
Context `{OL : !OsLaws OS}.

Lemma concat_take (iov : list bytes) k n : (n <= length (concat (take k iov)))%nat ->
  take n (concat (take k iov)) = take n (concat iov) /\ (n <= length (concat iov))%nat.
Proof.
  intros Hn. assert (concat iov = concat (take k iov) ++ concat (drop k iov)) as -> by (by rewrite <-concat_app, take_drop).
  rewrite length_app. split; [|lia]. by rewrite take_app_le.
Qed.
(** A write of the first segments: [n] bytes of the whole, or a soft error. *)
Lemma sendv_eq i iov w d : desc_table w !! i = Some (Some d) -> exists n err data, sock_sendv empty i iov w =
    (n, World (desc_table w) (desc_ix w) err (calls w ++ [Writev (port d) (s d) data n])) /\
  (n = SOCKET_ERROR /\ (soft_errors -> send_error err = false) \/ 0 <= n <= Z.of_nat (length (concat iov)) /\ (take MAX_VSIZE iov <> [] -> concat (take MAX_VSIZE iov) <> [] -> n <> 0)) /\
  written_of (port d) (Writev (port d) (s d) data n) = take (Z.to_nat n) (concat iov).
Proof.
  intros Hi. unfold sock_sendv. rewrite (bind_eq (this empty i) _ w _ w eq_refl), (desc_live _ _ _ _ Hi). cbv zeta. unfold sys.
  set (data := concat (take MAX_VSIZE iov)). pose proof (os_writev_law (calls w) (s d) data) as [Hl Hne]. assert (soft_errors -> fst (os_writev (calls w) (s d) data) = SOCKET_ERROR -> send_error (snd (os_writev (calls w) (s d) data)) = false) as Hs by (intros Hsoft; apply Hsoft).
  destruct (os_writev (calls w) (s d) data) as [n err]. cbn [fst snd] in *. exists n, err, data. split; [done|].
  destruct (concat_take iov MAX_VSIZE (Z.to_nat n)) as [Ht Hn]; [subst data; lia|].
  split; [|cbn [written_of]; by rewrite Z.eqb_refl]. unfold SOCKET_ERROR in *.
  destruct (Z.eq_dec n (-1)); [left; auto|right]. split; [lia|]. intros _. exact Hne.
Qed.

(** ** Nothing is lost *)
Section Soft.
Context (SE : soft_errors).
Lemma do_outputv_adds i ev : forall w, adds i (concat ev) w (snd (do_outputv empty i ev w)).
Proof.
  intros w d Hi Hc. unfold do_outputv. cbv zeta. destruct (Z.eqb_spec (Z.of_nat (length (concat ev))) 0) as [E0|E0].
  { exists d. rewrite (nil_length_inv (concat ev)), app_nil_r by lia. done. }
  rewrite (bind_eq (this empty i) _ w _ w eq_refl), (desc_live _ _ _ _ Hi).
  destruct (Z.ltb_spec 0 (driver_sizeq (queue d))) as [Hq|Hq].
  - destruct (upd_live i (fun d => w_queue (driver_enqv (queue d) ev 0) d) w d Hi) as (w1 & E1 & Hi1 & Hc1). rewrite (bind_eq _ _ _ _ _ E1).
    match goal with |- context [snd (?m w1)] => assert (ensures (still i) m) as Hm by q end.
    destruct (still_same_out _ _ _ (Hm w1) _ Hi1 Hc) as (d2 & Hi2 & Hcon2 & Hp2 & E2). exists d2. split_and!; try done.
    rewrite Hc1, app_nil_r in E2. cbn [port queue w_queue] in E2. rewrite E2, q_enqv_bytes by lia. by rewrite drop_0.
  - destruct (sendv_eq i ev w d Hi) as (n & err & data & E1 & Hn & Hw). rewrite (bind_eq _ _ _ _ _ E1).
    set (w1 := World (desc_table w) (desc_ix w) err (calls w ++ [Writev (port d) (s d) data n])) in *.
    rewrite (bind_eq sock_errno _ w1 _ w1 eq_refl). change (errno w1) with err.
    assert (((n =? SOCKET_ERROR) && send_error err) = false) as -> by (destruct Hn as [[_ Hs]|[Hn _]]; [rewrite Hs by done; apply andb_false_r|unfold SOCKET_ERROR; lia]).
    set (n' := if n =? SOCKET_ERROR then 0 else n).
    assert (0 <= n' <= Z.of_nat (length (concat ev)) /\ written_of (port d) (Writev (port d) (s d) data n) = take (Z.to_nat n') (concat ev)) as [Hn' Hw'].
    { subst n'. destruct Hn as [[-> _]|[Hn _]]; [split; [cbn; lia|exact Hw]|]. unfold SOCKET_ERROR. rewrite (proj2 (Z.eqb_neq n _)) by lia. done. }
    assert (written (port d) (calls w1) = written (port d) (calls w) ++ take (Z.to_nat n') (concat ev)) as Hw1.
    { cbn [w1 calls]. rewrite written_on_app. unfold written at 2. cbn [map concat]. by rewrite Hw', app_nil_r. }
    assert (q_bytes (queue d) = []) as Hnil by (apply nil_length_inv; rewrite q_sizeq_bytes in Hq; lia).
    destruct (Z.eqb_spec n' (Z.of_nat (length (concat ev)))) as [En|En].
    + exists d. split_and!; try done. cbn [snd mret M_ret]. rewrite Hw1, Hnil, take_ge, app_nil_r by lia. done.
    + assert (desc_table w1 !! i = Some (Some d)) as Hi1 by done.
      destruct (upd_live i (fun d => w_queue (driver_enqv (queue d) ev n') d) w1 d Hi1) as (w2 & E2 & Hi2 & Hc2). rewrite (bind_eq _ _ _ _ _ E2).
      match goal with |- context [snd (?m w2)] => assert (ensures (still i) m) as Hm by q end.
      destruct (still_same_out _ _ _ (Hm w2) _ Hi2 Hc) as (d3 & Hi3 & Hcon3 & Hp3 & E3). exists d3. split_and!; try done.
      rewrite Hc2, app_nil_r in E3. cbn [port queue w_queue] in E3. rewrite E3, q_enqv_bytes, Hw1, Hnil by lia.
      cbn [app]. by rewrite <-app_assoc, take_drop.
Qed.
Lemma outputv_adds i ev w : adds i (concat ev) w (snd (unixdom_outputv empty i ev w)).
Proof.
  intros d Hi Hc. unfold unixdom_outputv. rewrite (bind_eq (this empty i) _ w _ w eq_refl), (desc_live _ _ _ _ Hi), Hc. cbn [negb].
  pose proof (do_outputv_adds i ev w) as Ha. destruct (do_outputv empty i ev w) as [r w1] eqn:E. rewrite (bind_eq _ _ _ _ _ E).
  cbn [snd] in Ha. revert d Hi Hc. change (adds i (concat ev) w (snd ((when r =? 0 do reply_ok empty i) w1))).
  rewrite <-(app_nil_r (concat ev)). eapply adds_trans; [exact Ha|]. apply still_same_out. destruct (r =? 0); [apply still_reply_ok|reflexivity].
Qed.
(** The queue is written until it is empty or the device is busy. *)
Lemma flush_adds i fuel : forall w, same_out i w (snd (flush_queue empty fuel i w)).
Proof.
  induction fuel as [|fuel IH]; intros w d Hi Hc; cbn [flush_queue]; rewrite (bind_eq (this empty i) _ w _ w eq_refl), (desc_live _ _ _ _ Hi);
    cbv zeta; case_bool_decide as Hp;
    [match goal with |- context [snd (?m w)] => assert (ensures (still i) m) as Hm; [q|exact (still_same_out _ _ _ (Hm w) d Hi Hc)] end|
    |match goal with |- context [snd (?m w)] => assert (ensures (still i) m) as Hm; [q|exact (still_same_out _ _ _ (Hm w) d Hi Hc)] end|].
  { exists d. by rewrite app_nil_r. }
  destruct (sendv_eq i (driver_peekq (queue d)) w d Hi) as (n & err & data & E1 & Hn & Hw). rewrite (bind_eq _ _ _ _ _ E1).
  set (w1 := World (desc_table w) (desc_ix w) err (calls w ++ [Writev (port d) (s d) data n])) in *.
  rewrite (bind_eq sock_errno _ w1 _ w1 eq_refl). change (errno w1) with err. rewrite q_peekq_bytes in Hn, Hw.
  assert (written (port d) (calls w1) = written (port d) (calls w) ++ take (Z.to_nat n) (q_bytes (queue d))) as Hw1.
  { cbn [w1 calls]. rewrite written_on_app. unfold written at 2. cbn [map concat]. by rewrite Hw, app_nil_r. }
  destruct (Z.eqb_spec n SOCKET_ERROR) as [->|Hne].
  - destruct Hn as [[_ Hs]|[Hn _]]; [rewrite Hs by done|unfold SOCKET_ERROR in *; lia]. exists d. split_and!; try done.
    change (written (port d) (calls w1) ++ q_bytes (queue d) = written (port d) (calls w) ++ q_bytes (queue d) ++ []).
    rewrite Hw1. change (Z.to_nat SOCKET_ERROR) with 0%nat. by rewrite take_0, !app_nil_r.
  - destruct Hn as [[]|[Hn _]]; [done|]. assert (desc_table w1 !! i = Some (Some d)) as Hi1 by done.
    destruct (upd_live i (fun d => w_queue (driver_deq (queue d) n) d) w1 d Hi1) as (w2 & E2 & Hi2 & Hc2). rewrite (bind_eq _ _ _ _ _ E2).
    destruct (still_release i i w2) as [W3 Hs3]. destruct (release empty i w2) as [[] w3] eqn:E3. rewrite (bind_eq _ _ _ _ _ E3).
    cbn [snd] in *. destruct (Hs3 _ Hi2) as (d3 & Hi3 & Hq3 & Hp3 & Hcon3).
    destruct (IH w3 d3 Hi3 (Hcon3 Hc)) as (d4 & Hi4 & Hc4 & Hp4 & E4). cbn [port queue w_queue] in *. exists d4. split_and!; try done; [congruence|].
    rewrite Hp3 in E4. rewrite E4, W3, Hc2, Hw1, Hq3, q_deq_bytes, <-app_assoc, !app_nil_r, take_drop by lia. done.
Qed.
Lemma ready_output_adds i fuel w : same_out i w (snd (unixdom_ready_output empty fuel i w)).
Proof.
  intros d Hi Hc. unfold unixdom_ready_output. rewrite (bind_eq (this empty i) _ w _ w eq_refl), (desc_live _ _ _ _ Hi), Hc.
  destruct (Z.eqb_spec (state d) STATE_CONNECTING) as [E|_]; [unfold IS_CONNECTED in Hc; by rewrite E in Hc|].
  destruct (upd_live i (fun d => w_queue (driver_deq (queue d) 0) d) w d Hi) as (w1 & E1 & Hi1 & Hc1). rewrite (bind_eq _ _ _ _ _ E1).
  destruct (flush_adds i fuel w1 _ Hi1 Hc) as (d2 & Hi2 & Hcon2 & Hp2 & E2). exists d2. split_and!; try done.
  rewrite Hc1, app_nil_r in E2. cbn [port queue w_queue] in E2. rewrite app_nil_r, E2, q_deq_bytes by lia. done.
Qed.
End Soft.

(** ** The loop ends *)

Lemma flush_ends `{SEG : !Segments Q} i fuel : forall w d, desc_table w !! i = Some (Some d) -> (length (q_bytes (queue d)) < fuel)%nat ->
  fst (flush_queue empty fuel i w) = true.
Proof.
  induction fuel as [|fuel IH]; intros w d Hi Hf; [lia|]. cbn [flush_queue].
  rewrite (bind_eq (this empty i) _ w _ w eq_refl), (desc_live _ _ _ _ Hi). cbv zeta. case_bool_decide as Hp; [done|].
  destruct (sendv_eq i (driver_peekq (queue d)) w d Hi) as (n & err & data & E1 & Hn & Hw). rewrite (bind_eq _ _ _ _ _ E1).
  set (w1 := World (desc_table w) (desc_ix w) err (calls w ++ [Writev (port d) (s d) data n])) in *.
  rewrite (bind_eq sock_errno _ w1 _ w1 eq_refl). destruct (Z.eqb_spec n SOCKET_ERROR) as [->|Hne].
  { destruct (send_error _); [|done]. unfold mbind, M_bind. by repeat case_match. }
  destruct Hn as [[]|[Hn Hpos]]; [done|]. rewrite q_peekq_bytes in *. assert (desc_table w1 !! i = Some (Some d)) as Hi1 by done.
  destruct (upd_live i (fun d => w_queue (driver_deq (queue d) n) d) w1 d Hi1) as (w2 & E2 & Hi2 & Hc2). rewrite (bind_eq _ _ _ _ _ E2).
  assert (n <> 0) as Hn0.
  { destruct (driver_peekq (queue d)) as [|c l] eqn:Epeek; [done|]. pose proof (peekq_segments _ _ _ Epeek) as Hc.
    apply Hpos; [done|]. unfold MAX_VSIZE. cbn [take concat]. by destruct c. }
  destruct (still_release i i w2) as [W3 Hs3]. destruct (release empty i w2) as [[] w3] eqn:E3. rewrite (bind_eq _ _ _ _ _ E3).
  cbn [snd] in *. destruct (Hs3 _ Hi2) as (d3 & Hi3 & Hq3 & Hp3 & Hcon3). apply (IH w3 d3 Hi3).
  rewrite Hq3. cbn [queue w_queue]. rewrite q_deq_bytes, length_drop by lia. lia.
Qed.
Lemma ready_output_ends `{SEG : !Segments Q} i fuel w d : desc_table w !! i = Some (Some d) -> (length (q_bytes (queue d)) < fuel)%nat ->
  fst (unixdom_ready_output empty fuel i w) = true.
Proof.
  intros Hi Hf. unfold unixdom_ready_output. rewrite (bind_eq (this empty i) _ w _ w eq_refl), (desc_live _ _ _ _ Hi).
  destruct (_ =? _); [unfold mbind, M_bind; by repeat case_match|]. destruct (IS_CONNECTED d); [|done].
  destruct (upd_live i (fun d => w_queue (driver_deq (queue d) 0) d) w d Hi) as (w1 & E1 & Hi1 & Hc1). rewrite (bind_eq _ _ _ _ _ E1).
  apply (flush_ends i fuel w1 _ Hi1). cbn [queue w_queue]. rewrite q_deq_bytes, length_drop by lia. lia.
Qed.

End Output.

(** Sends on a port, and calls when its socket takes more. *)
Inductive out := Send (ev : list bytes) | Flush (fuel : nat).
Definition sent (o : out) : bytes := match o with Send ev => concat ev | Flush _ => [] end.
Definition call_of (i : nat) (o : out) : ucall := match o with Send ev => Outputv i ev | Flush fuel => Ready_output fuel i end.

(** * The theorems *)

(** C10: What is read from the sockets is delivered: after any calls of the driver in any order in which no read returned more than its buffer has room for
    ([recv_overrun] is one that does), the messages [{unixdom, Port, Data}] are exactly the data that the reads returned, in order, each to the owner of the
    port it was read for. *)
Theorem data_delivered `{OS : !Os} {Q : Type} `{PQ : !PortQueue Q} `{IV : !IOVec Q} `{OL : !OsLaws OS} ulong (empty : Q)
    desc_size pointer (l : list ucall) (w0 : world Q) :
  driver_init desc_size pointer = Some w0 ->
  let w := snd (execs ulong empty l w0) in Forall roomy (calls w) -> messages (calls w) = received (calls w).
Proof.
  intros H0 w. destruct (passes_execs ulong empty l w0) as (new & E & Hm). fold w in E. rewrite E.
  unfold driver_init in H0. destruct (os_alloc _ _); [|done]. injection H0 as <-. exact Hm.
Qed.

Lemma data_delivered_witness : exists w : world bytes, w = snd (execs (OS := small_os) 64 [] sample_calls sample_start) /\
  received (calls w) = [(2, [7; 8; 9])] /\ messages (calls w) = received (calls w).
Proof.
  eexists. split; [reflexivity|]. split; [vm_compute; reflexivity|].
  exact (data_delivered (OS := small_os) 64 [] 2 8 sample_calls sample_start eq_refl ltac:(by_decision)).
Defined.

(** C9: What is sent is neither lost nor reordered: on a connected port, after any sends and any calls that the socket takes more,
    what was written to the socket and then what is queued is what it was before and then the data of the sends, as
    long as the device only reports that it is busy; and the port stays connected. *)
Theorem sent_stream `{OS : !Os} {Q : Type} `{VL : IOVecLaws Q} `{OL : !OsLaws OS} ulong (empty : Q) i (l : list out) (w : world Q) d :
  soft_errors -> desc_table w !! i = Some (Some d) -> IS_CONNECTED d = true ->
  let w' := snd (execs ulong empty (map (call_of i) l) w) in
  exists d', desc_table w' !! i = Some (Some d') /\ IS_CONNECTED d' = true /\ port d' = port d /\
    written (port d) (calls w') ++ q_bytes (queue d') = written (port d) (calls w) ++ q_bytes (queue d) ++ concat (map sent l).
Proof.
  intros SE Hi Hc w'. assert (adds i (concat (map sent l)) w w') as Ha; [|by apply Ha].
  subst w'. clear d Hi Hc. revert w. induction l as [|o l IH]; intros w; cbn [map concat execs]; [apply same_out_refl|].
  assert (adds i (sent o) w (snd (exec ulong empty (call_of i o) w))) as Ho.
  { assert (forall (m : M (world Q) unit) b, adds i b w (snd (m w)) -> adds i b w (snd (on i m w))) as Hon.
    { intros m b Hm. unfold on. rewrite (bind_eq get _ w w w eq_refl). destruct (decide (live w i)) as [|Hn].
      - destruct (m w) as [[] w1] eqn:E. by rewrite (bind_eq _ _ _ _ _ E).
      - intros d Hi. by exfalso; apply Hn; exists d. }
    destruct o as [ev|fuel]; cbn [call_of exec sent]; [by apply Hon, outputv_adds|].
    unfold on. rewrite (bind_eq get _ w w w eq_refl). destruct (decide (live w i)) as [|Hn]; [|apply same_out_refl].
    pose proof (ready_output_adds empty SE i fuel w) as Hr. destruct (unixdom_ready_output empty fuel i w) as [b w1] eqn:E.
    by rewrite (bind_eq _ _ _ _ _ E). }
  destruct (exec ulong empty (call_of i o) w) as [[] w1] eqn:E. rewrite (bind_eq _ _ _ _ _ E). eapply adds_trans; [exact Ho|apply IH].
Qed.

(** A connected port with four bytes to send. *)
Definition sample_connected : descriptor bytes :=
  w_queue [1; 2; 3; 4] (w_state STATE_CONNECTED (w_s 5 (blank []))).
Definition sample_world : world bytes := World [Some sample_connected] 0 0 [].
Lemma small_os_soft : soft_errors (OS := small_os).
Proof. intros tr fd data. unfold SOCKET_ERROR. cbn. lia. Qed.
Lemma sent_stream_witness : exists d', desc_table (snd (execs (OS := small_os) 64 [] (map (call_of 0) [Send [[5]; [6]]; Flush 9; Send [[7]]]) sample_world)) !! 0%nat = Some (Some d') /\
  written 0 (calls (snd (execs (OS := small_os) 64 [] (map (call_of 0) [Send [[5]; [6]]; Flush 9; Send [[7]]]) sample_world))) ++ queue d' = [1; 2; 3; 4; 5; 6; 7].
Proof.
  destruct (sent_stream (OS := small_os) 64 [] 0 [Send [[5]; [6]]; Flush 9; Send [[7]]] sample_world sample_connected
    small_os_soft eq_refl eq_refl) as (d' & H1 & _ & _ & H4).
  exists d'. split; [exact H1|exact H4].
Defined.

(** C30: The loop that empties the queue ends: with more turns than there are bytes queued, [unixdom_ready_output]
    returns, since each write of something takes at least one byte or fails. *)
Theorem ready_output_returns `{OS : !Os} {Q : Type} `{VL : IOVecLaws Q} `{SEG : !Segments Q} `{OL : !OsLaws OS} (empty : Q) fuel i (w : world Q) d :
  desc_table w !! i = Some (Some d) -> (length (q_bytes (queue d)) < fuel)%nat -> fst (unixdom_ready_output empty fuel i w) = true.
Proof. intros Hi Hf. by apply (ready_output_ends empty i fuel w d). Qed.

Lemma ready_output_returns_witness : fst (unixdom_ready_output (OS := small_os) [] 5 0 sample_world) = true.
Proof. apply (ready_output_returns (OS := small_os) [] 5 0 sample_world sample_connected); [reflexivity|cbn; lia]. Defined.
