(* ===== verification/UnixdomMeet.v ===== *)
(** The descriptors of the Unix domain socket driver: the types of their fields, which every call keeps, and how
    two of them meet, the port that accepts a connection and the port that listens. *)
From stdpp Require Import strings.
From S2P Require Import Prelude ErlTerm Erts Unixdom UnixdomPort UnixdomFlow.
#[local] Open Scope Z_scope.

(** * The states of a port *)

(** The states of the header, apart from [F_BUSY], which is a flag of its own. *)
Definition states : list Z :=
  [STATE_CLOSED; STATE_OPEN; STATE_CONNECTED; STATE_CONNECTING; STATE_ACCEPTING; STATE_LISTEN; STATE_LISTENING].
Definition calm_state (st : Z) : Z := Z.land st (Z.lnot F_BUSY).
(** The descriptor at [i] of a table of [n] entries. *)
Record well_typed {Q} (n i : nat) (d : descriptor Q) : Prop := WellTyped {
  t_ix : ix d = Z.of_nat i;
  t_peer : i_ix d = -1 \/ 0 <= i_ix d < Z.of_nat n;
  t_state : calm_state (state d) ∈ states;
  t_active : -128 <= active d < 128;
  t_backlog : - 2 ^ 31 <= backlog d < 2 ^ 31;
  t_wait : busy_on_send d = 0 \/ busy_on_send d = 1;
  t_stype : stype d = -1 \/ stype d = SOCK_STREAM;
  t_settings : prebound d = 0 /\ mode d = MODE_BINARY /\ exitf d = 1 /\ htype d = PTYPE_RAW /\ bufsz d = DEF_BUFSIZ /\
    low d = LOW_WATERMARK /\ high d = HIGH_WATERMARK /\ send_timeout d = 5000;
}.

Section Types.
Context `{OS : !Os} {Q : Type} `{PQ : !PortQueue Q} `{IV : !IOVec Q} (ulong : Z) (empty : Q).
Implicit Types (w : world Q) (d : descriptor Q).
Abbreviation U := (M (world Q)).

Definition all_typed w : Prop := forall i d, desc_table w !! i = Some (Some d) -> well_typed (length (desc_table w)) i d.
Definition keeps w w' : Prop := all_typed w -> all_typed w' /\ length (desc_table w') = length (desc_table w).
#[export] Instance keeps_preorder : PreOrder keeps.
Proof. split; [done|]. intros a b c H1 H2 Ta. destruct (H1 Ta) as [Tb L1]. destruct (H2 Tb) as [Tc L2]. split; [done|congruence]. Qed.
Lemma keeps_table w w' : desc_table w' = desc_table w -> keeps w w'.
Proof. intros E Hw. unfold all_typed. by rewrite E. Qed.
Lemma keeps_act e : ensures keeps (act e).
Proof. intros w. by apply keeps_table. Qed.
Lemma keeps_errno e : ensures keeps (set_errno e).
Proof. intros w. by apply keeps_table. Qed.
Lemma keeps_sys {A} (answer : trace -> A * Z) (e : A -> io) : ensures keeps (sys answer e).
Proof. intros w. apply keeps_table. unfold sys. by destruct (answer (calls w)). Qed.
(** An update of one descriptor. *)
Lemma keeps_upd_at i f w : (forall j d, well_typed (length (desc_table w)) j d -> well_typed (length (desc_table w)) j (f d)) ->
  keeps w (snd (upd i f w)).
Proof.
  intros Hf Hw. cbn [upd modify snd]. split; [|by cbn; rewrite length_alter]. intros j d. cbn [desc_table]. rewrite length_alter.
  destruct (decide (i = j)) as [<-|]; [|rewrite list_lookup_alter_ne by done; apply Hw].
  rewrite list_lookup_alter_eq. destruct (desc_table w !! i) as [[d0|]|] eqn:Hi; try done. intros [= <-]. by apply Hf, Hw.
Qed.
Definition keeps_type (f : descriptor Q -> descriptor Q) : Prop := forall n i d, well_typed n i d -> well_typed n i (f d).
Lemma keeps_upd i f : keeps_type f -> ensures keeps (upd i f).
Proof. intros Hf w. apply keeps_upd_at. intros j d. apply Hf. Qed.
Lemma calm_busy st : calm_state (Z.lor st F_BUSY) = calm_state st.
Proof. unfold calm_state. rewrite Z.land_lor_distr_l. apply Z.lor_0_r. Qed.
Lemma calm_unbusy st : calm_state (Z.land st (Z.lnot F_BUSY)) = calm_state st.
Proof. unfold calm_state. by rewrite <-Z.land_assoc. Qed.
Lemma schar_range b : -128 <= schar b < 128.
Proof. apply (sint_range 8). lia. Qed.
Lemma get_int32_range b : - 2 ^ 31 <= get_int32 b < 2 ^ 31.
Proof. apply (sint_range 32). lia. Qed.
Local Ltac field :=
  intros ? ? ? []; split;
  cbn [ix i_ix state active backlog busy_on_send stype prebound mode exitf htype bufsz low high send_timeout
    w_s w_event w_event_mask w_state w_active w_stype w_backlog w_i_buf w_i_bufp w_busy_on_send w_i_ix w_queue];
  rewrite ?calm_busy, ?calm_unbusy;
  first [done | by left | by right | apply schar_range | apply get_int32_range | apply (bool_decide_unpack _); by vm_compute].
Create HintDb utype.
#[local] Hint Extern 1 (ensures keeps (act _)) => apply keeps_act : utype.
#[local] Hint Extern 1 (ensures keeps (set_errno _)) => apply keeps_errno : utype.
#[local] Hint Extern 1 (ensures keeps (sys _ _)) => apply keeps_sys : utype.
#[local] Hint Extern 1 (ensures keeps (upd _ _)) => apply keeps_upd; field : utype.
Local Ltac k := walk ltac:(auto 2 with utype).
Lemma keeps_desc_close i : ensures keeps (desc_close empty i).
Proof. unfold desc_close, sock_select, this. k. Qed.
#[local] Hint Resolve keeps_desc_close : utype.
Local Ltac ku := unfold reply_data, reply_ok, reply_closed, reply_error_am, output_term, driver_exit, cancel_timer, unbusy, clear_input,
  clear_output, unixdom_close, ctl_ok, ctl_errno, ctl_error, ctl_xerror, ctl_reply, int_arg, copy_path, driver_alloc, sock_errno,
  sock_select, this; k.
Lemma keeps_reply_error i e : ensures keeps (reply_error empty i e).
Proof. unfold reply_error. ku. Qed.
Lemma keeps_give_up i : ensures keeps (give_up_send empty i).
Proof. unfold give_up_send. ku. Qed.
#[local] Hint Resolve keeps_reply_error keeps_give_up : utype.
Lemma keeps_recv_closed i : ensures keeps (unixdom_recv_closed empty i).
Proof. unfold unixdom_recv_closed. ku. Qed.
Lemma keeps_recv_error i e : ensures keeps (unixdom_recv_error empty i e).
Proof. unfold unixdom_recv_error. ku. Qed.
#[local] Hint Resolve keeps_recv_closed keeps_recv_error : utype.
Lemma keeps_recv i n : ensures keeps (unixdom_recv empty i n).
Proof. unfold unixdom_recv. ku. Qed.
Lemma keeps_sendv i iov : ensures keeps (sock_sendv empty i iov).
Proof. unfold sock_sendv. ku. Qed.
Lemma keeps_clear_listener i : ensures keeps (clear_listener empty i).
Proof. unfold clear_listener. ku. Qed.
Lemma keeps_take_socket i fd : ensures keeps (take_socket empty i fd).
Proof. unfold take_socket. ku. Qed.
Lemma keeps_accept i : ensures keeps (sock_accept empty i).
Proof. unfold sock_accept. ku. Qed.
#[local] Hint Resolve keeps_recv keeps_sendv keeps_clear_listener keeps_take_socket keeps_accept : utype.
Lemma keeps_set_opts i buf : ensures keeps (set_opts empty i buf).
Proof.
  assert (forall n buf, (length buf <= n)%nat -> ensures keeps (set_opts empty i buf)) as H; [|by apply (H (length buf))].
  induction n as [|n IH]; intros [|o b] Hl; cbn [length] in Hl; try lia; cbn [set_opts]; [ku..|].
  destruct b as [|b3 b]; [ku; apply IH; cbn; lia|]. cbn [length] in Hl.
  assert (ensures keeps (set_opts empty i (b3 :: b))) by (apply IH; cbn [length]; lia). assert (ensures keeps (set_opts empty i b)) by (apply IH; lia).
  destruct b as [|b2 [|b1 [|b0 b]]]; [ku..|]. cbn [length] in Hl. assert (ensures keeps (set_opts empty i b)) by (apply IH; lia). ku.
Qed.
Lemma keeps_flush i fuel : ensures keeps (flush_queue empty fuel i).
Proof. induction fuel; cbn [flush_queue]; unfold release; ku. Qed.
#[local] Hint Resolve keeps_set_opts keeps_flush : utype.
Lemma keeps_ctl i cmd buf n : cmd <> UNIXDOM_REQ_ACCEPT -> ensures keeps (unixdom_ctl ulong empty i cmd buf n).
Proof.
  intros Ha. unfold unixdom_ctl.
  repeat match goal with |- context [if cmd =? ?k then _ else _] => destruct (Z.eqb_spec cmd k) as [->|?]; [try done|] end.
  all: unfold ctl_endian, ctl_knuthhash, ctl_open, ctl_connect, ctl_close, ctl_write, ctl_recv, ctl_setopts, ctl_bind, ctl_getopts; ku.
Qed.
(** Code that keeps the types, and then more. *)
Lemma keeps_bind {A B} (m : U A) (k : A -> U B) w : keeps w (snd (m w)) ->
  (forall a w', m w = (a, w') -> all_typed w' -> length (desc_table w') = length (desc_table w) -> keeps w' (snd (k a w'))) -> keeps w (snd (mbind k m w)).
Proof.
  intros Hm Hk Hw. destruct (Hm Hw) as [T1 L1]. destruct (m w) as [a w1] eqn:E. rewrite (bind_eq _ _ _ _ _ E). cbn [snd] in *.
  destruct (Hk a w1 eq_refl T1 L1 T1) as [T2 L2]. split; [done|congruence].
Qed.
Local Ltac kw := match goal with |- keeps ?w (snd (?m ?w)) => let Hm := fresh in assert (ensures keeps m) as Hm; [ku|exact (Hm w)] end.
Lemma keeps_ctl_accept i buf n w : live w i -> keeps w (snd (ctl_accept ulong empty i buf n w)).
Proof.
  intros [d Hi] Hw. pose proof (t_ix _ _ _ (Hw i d Hi)) as Hix. pose proof (lookup_lt_Some _ _ _ Hi) as Hlt. revert Hw. change (keeps w (snd (ctl_accept ulong empty i buf n w))). unfold ctl_accept.
  rewrite (bind_eq (this empty i) _ w _ w eq_refl), (desc_live empty _ _ _ Hi). destruct (negb _); [kw|].
  apply keeps_bind; [kw|]. intros lix w1 E1 T1 L1. apply keeps_bind; [kw|]. intros tmo w2 E2 T2 L2.
  rewrite (bind_eq (gets desc_table) _ w2 _ w2 eq_refl). destruct (_ <=? _); [kw|]. destruct (_ <? _); [kw|]. cbv zeta.
  destruct (default None (desc_table w2 !! Z.to_nat lix)) as [l_desc|] eqn:El; [|kw]. destruct (negb _); [kw|].
  assert (well_typed (length (desc_table w2)) (Z.to_nat lix) l_desc) as Hl.
  { apply T2. by destruct (desc_table w2 !! Z.to_nat lix) as [o|]; [cbn in El; subst o|]. }
  apply keeps_bind; [kw|]. intros [] w3 E3 T3 L3. apply keeps_bind.
  { apply keeps_upd_at. intros j d0 []. destruct Hl. split; try done; cbn; tauto. }
  intros [] w4 E4 T4 L4. apply keeps_bind; [kw|]. intros fd w5 E5 T5 L5. destruct (fd =? _); [|kw].
  apply keeps_bind; [kw|]. intros err w6 E6 T6 L6. destruct (err =? _); [|kw]. apply keeps_bind; [kw|]. intros [] w7 E7 T7 L7.
  apply keeps_bind; [|intros [] w8 E8 T8 L8; kw]. apply keeps_upd_at. intros j d0 []. split; try done; cbn.
  - right. rewrite Hix. lia.
  - by apply (bool_decide_unpack _); vm_compute.
Qed.
Lemma keeps_start dsz port : ensures keeps (unixdom_start empty dsz port).
Proof.
  intros w. unfold unixdom_start. rewrite (bind_eq (gets _) _ w w w eq_refl). cbv zeta. set (i := free_ix _ _ _).
  destruct (default None (desc_table w !! i)); [kw|].
  apply keeps_bind; [by apply keeps_table|]. intros [] w1 E1 T1 L1. apply keeps_bind; [kw|]. intros ok w2 E2 T2 L2. destruct (negb ok); [kw|].
  apply keeps_bind; [|intros [] w3 _ _ _; kw]. intros Tw. cbn [modify snd]. unfold all_typed. cbn [desc_table]. split; [|by rewrite length_insert].
  intros j d. rewrite length_insert. destruct (decide (i = j)) as [<-|]; [|rewrite list_lookup_insert_ne by done; apply Tw].
  destruct (decide (i < length (desc_table w2))%nat); [|by rewrite list_insert_ge by lia; apply Tw].
  rewrite list_lookup_insert_eq by done. intros [= <-]. split; try done; by left.
Qed.
Lemma keeps_stop i : ensures keeps (unixdom_stop empty i).
Proof.
  unfold unixdom_stop. assert (ensures keeps (modify (fun w : world Q => World (<[i := None]> (desc_table w)) (desc_ix w) (errno w) (calls w)))).
  { intros w Tw. cbn [modify snd]. unfold all_typed. cbn [desc_table]. split; [|by rewrite length_insert]. rewrite length_insert.
    intros j d. destruct (decide (i = j)) as [<-|]; [|rewrite list_lookup_insert_ne by done; apply Tw].
    destruct (decide (i < length (desc_table w))%nat); [by rewrite list_lookup_insert_eq|by rewrite list_insert_ge by lia; apply Tw]. }
  ku.
Qed.
Lemma keeps_exec c : ensures keeps (exec ulong empty c).
Proof.
  intros w. assert (forall i A (m : U A), (live w i -> keeps w (snd (m w))) -> keeps w (snd (on i m w))) as Hon.
  { intros i A m Hm. unfold on. rewrite (bind_eq get _ w w w eq_refl). destruct (decide (live w i)) as [Hi|]; [|by apply keeps_table].
    apply keeps_bind; [by apply Hm|]. intros a w' _ _ _. by apply keeps_table. }
  destruct c as [dsz port|i|i cmd buf n|i ev|i|fuel i|i]; cbn [exec].
  - apply keeps_bind; [apply keeps_start|]. intros a w' _ _ _. by apply keeps_table.
  - apply Hon. intros _. apply keeps_stop.
  - apply Hon. intros Hi. destruct (decide (cmd = UNIXDOM_REQ_ACCEPT)) as [->|]; [by apply keeps_ctl_accept|by apply keeps_ctl].
  - apply Hon. intros _. unfold unixdom_outputv, do_outputv. kw.
  - apply Hon. intros _. unfold unixdom_ready_input. kw.
  - apply Hon. intros _. unfold unixdom_ready_output. kw.
  - apply Hon. intros _. unfold unixdom_timeout. kw.
Qed.
Lemma keeps_execs l : ensures keeps (execs ulong empty l).
Proof.
  induction l as [|c l IH]; cbn [execs]; [by intros w; apply keeps_table|].
  apply ensures_bind; [apply _|apply keeps_exec|intros _; apply IH].
Qed.
Lemma typed_init desc_size pointer w : driver_init desc_size pointer = Some w -> all_typed w /\ length (desc_table w) = desc_size.
Proof.
  unfold driver_init. destruct (os_alloc _ _); [|done]. intros [= <-]. split; [|apply length_replicate].
  intros i d Hi%lookup_replicate. by destruct Hi.
Qed.
End Types.

(** C12: Every descriptor is well formed at all times: after any calls in any order, a port knows its own index in the
    table, the index of the port it is to meet is -1 or in the table, its state is one of the seven of the header, perhaps busy,
    and the settings it was created with are unchanged, those taken from a listening port included. *)
Theorem ports_well_typed `{OS : !Os} {Q : Type} `{PQ : !PortQueue Q} `{IV : !IOVec Q} ulong (empty : Q)
    desc_size pointer (l : list ucall) (w0 : world Q) :
  driver_init desc_size pointer = Some w0 ->
  let w := snd (execs ulong empty l w0) in
  length (desc_table w) = desc_size /\
  forall i d, desc_table w !! i = Some (Some d) -> well_typed desc_size i d.
Proof.
  intros H0 w. destruct (typed_init _ _ _ H0) as [T0 L0]. destruct (keeps_execs ulong empty l w0 T0) as [T L].
  fold w in T, L. rewrite L0 in L. split; [done|]. intros i d Hi. rewrite <-L. by apply T.
Qed.

Lemma ports_well_typed_witness : exists w : world bytes, w = snd (execs (OS := small_os) 64 [] sample_calls sample_start) /\
  length (desc_table w) = 2%nat /\ forall i d, desc_table w !! i = Some (Some d) -> well_typed 2 i d.
Proof.
  eexists. split; [reflexivity|]. exact (ports_well_typed (OS := small_os) 64 [] 2 8 sample_calls sample_start eq_refl).
Defined.

(** * Running one descriptor *)

Section Run.
Context `{OS : !Os} {Q : Type} `{PQ : !PortQueue Q} `{IV : !IOVec Q} (ulong : Z) (empty : Q).
Implicit Types (w : world Q) (d : descriptor Q).
Abbreviation U := (M (world Q)).
(** From [w] to [w'], the descriptor [i] becomes [d'], [new] is called, and nothing else changes. *)
Record moves (i : nat) d' (new : list io) w w' : Prop := Moves {
  mv_here : desc_table w' !! i = Some (Some d');
  mv_there j : j <> i -> desc_table w' !! j = desc_table w !! j;
  mv_calls : calls w' = calls w ++ new;
}.
Definition runs {A} i d' new (m : U A) (a : A) w : Prop := exists w', m w = (a, w') /\ moves i d' new w w'.
Lemma runs_ret {A} i d (a : A) w : desc_table w !! i = Some (Some d) -> runs i d [] (mret a) a w.
Proof. intros Hi. exists w. split; [done|]. split; [done..|by rewrite app_nil_r]. Qed.
Lemma runs_bind {A B} i d1 new1 d2 new2 (m : U A) (k : A -> U B) a b w : runs i d1 new1 m a w ->
  (forall w', desc_table w' !! i = Some (Some d1) -> calls w' = calls w ++ new1 -> runs i d2 new2 (k a) b w') ->
  runs i d2 (new1 ++ new2) (mbind k m) b w.
Proof.
  intros (w1 & E1 & [H1 T1 C1]) Hk. destruct (Hk w1 H1 C1) as (w2 & E2 & [H2 T2 C2]). exists w2. rewrite (bind_eq _ _ _ _ _ E1).
  split; [done|]. split; [done|intros j Hj; by rewrite T2, T1|by rewrite C2, C1, app_assoc].
Qed.
Lemma runs_this i d w : desc_table w !! i = Some (Some d) -> runs i d [] (this empty i) d w.
Proof. intros Hi. exists w. split; [unfold this, gets; by rewrite Hi|]. split; [done..|by rewrite app_nil_r]. Qed.
Lemma runs_act i d e w : desc_table w !! i = Some (Some d) -> runs i d [e] (act e) tt w.
Proof. intros Hi. eexists. split; [reflexivity|]. by split. Qed.
Lemma runs_upd i d f w : desc_table w !! i = Some (Some d) -> runs i (f d) [] (upd i f) tt w.
Proof.
  intros Hi. eexists. split; [reflexivity|]. split; cbn [desc_table calls].
  - by rewrite list_lookup_alter_eq, Hi.
  - intros j Hj. by apply list_lookup_alter_ne.
  - by rewrite app_nil_r.
Qed.
Lemma runs_skip i d w : desc_table w !! i = Some (Some d) -> runs i d [] skip tt w.
Proof. apply runs_ret. Qed.
Lemma runs_gets {A} i d (f : world Q -> A) w : desc_table w !! i = Some (Some d) -> runs i d [] (gets f) (f w) w.
Proof. intros Hi. exists w. split; [done|]. split; [done..|by rewrite app_nil_r]. Qed.
Lemma runs_as {A} i d d' new new' (m : U A) a w : runs i d new m a w -> d = d' -> new = new' -> runs i d' new' m a w.
Proof. by intros ? <- <-. Qed.
Definition selected (fl : Z) (on : bool) d : descriptor Q :=
  w_event_mask (if on then Z.lor (event_mask d) fl else Z.land (event_mask d) (Z.lnot fl)) d.
Lemma runs_select i d fl on w : desc_table w !! i = Some (Some d) ->
  runs i (selected fl on d) [Select (port d) (event d) fl on] (sock_select empty i fl on) tt w.
Proof.
  intros Hi. unfold sock_select. eapply runs_as; [eapply runs_bind; [by apply (runs_upd i d)|]|reflexivity..].
  intros w1 H1 _. eapply runs_as; [eapply runs_bind; [by apply runs_this|]|reflexivity..]. intros w2 H2 _. by apply runs_act.
Qed.
Lemma runs_term i d sp w : desc_table w !! i = Some (Some d) -> runs i d [OutputTerm (port d) sp] (output_term empty i sp) tt w.
Proof.
  intros Hi. unfold output_term. eapply runs_as; [eapply runs_bind; [by apply runs_this|]|reflexivity..]. intros w2 H2 _. by apply runs_act.
Qed.
End Run.
(** One step, where the descriptor at hand is known. *)
Ltac run_leaf := cbv beta zeta match; lazymatch goal with
  | |- runs _ _ _ (this _ _) _ _ => by apply runs_this
  | |- runs _ _ _ (act _) _ _ => by apply runs_act
  | |- runs _ _ _ (upd _ _) _ _ => by eapply runs_upd
  | |- runs _ _ _ (gets _) _ _ => by apply runs_gets
  | |- runs _ _ _ sock_errno _ _ => by apply runs_gets
  | |- runs _ _ _ skip _ _ => by apply runs_skip
  | |- runs _ _ _ (mret _) _ _ => by apply runs_ret
  | |- runs _ _ _ (sock_select _ _ _ _) _ _ => by apply runs_select
  | |- runs _ _ _ (output_term _ _ _) _ _ => by apply runs_term
  end.
Ltac run_step := eapply runs_bind; [run_leaf|let w := fresh "w" in let Hi := fresh "Hi" in let Hc := fresh "Hc" in intros w Hi Hc].

Section Run_replies.
Context `{OS : !Os} {Q : Type} `{PQ : !PortQueue Q} `{IV : !IOVec Q} (ulong : Z) (empty : Q).
Lemma runs_reply_error_am i d r (w : world Q) : desc_table w !! i = Some (Some d) ->
  runs i d [OutputTerm (port d) (error_spec (port d) r)] (reply_error_am empty i r) tt w.
Proof. intros Hi. unfold reply_error_am. eapply runs_as; [run_step; run_leaf|done..]. Qed.
Lemma runs_reply_ok i d (w : world Q) : desc_table w !! i = Some (Some d) ->
  runs i d [OutputTerm (port d) (ok_spec (port d))] (reply_ok empty i) tt w.
Proof. intros Hi. unfold reply_ok. eapply runs_as; [run_step; run_leaf|done..]. Qed.
Lemma runs_take_socket i d fd (w : world Q) : desc_table w !! i = Some (Some d) ->
  exists d', s d' = fd /\ event d' = fd /\ state d' = STATE_CONNECTED /\ active d' = active d /\ queue d' = queue d /\ port d' = port d /\
  runs i d' [Nonblock fd; Select (port d) fd FD_CONNECT false; Select (port d) fd (Z.lor FD_READ FD_CLOSE) (negb (active d =? 0))]
    (take_socket empty i fd) tt w.
Proof.
  intros Hi. eexists. split_and!; cycle 6; [unfold take_socket; eapply runs_as; [do 5 run_step; run_leaf|reflexivity..]|done..].
Qed.
(** The timer of a port that is connected and waits for no send. *)
Lemma runs_timeout i d (w : world Q) : desc_table w !! i = Some (Some d) -> has (state d) STATE_CONNECTED = true -> busy_on_send d = 0 ->
  exists d', same_socket d d' /\ state d' = state d /\ runs i d' ((if active d =? 0 then [] else [Fault Abort]) ++
    [Select (port d) (event d) (Z.lor FD_READ FD_CLOSE) false; OutputTerm (port d) (error_spec (port d) (Atm "timeout"))])
    (unixdom_timeout empty i) tt w.
Proof.
  intros Hi Hc Hb. exists (selected (Z.lor FD_READ FD_CLOSE) false d). split; [done|]. split; [done|].
  unfold unixdom_timeout. destruct (active d =? 0) eqn:Ha.
  all: eapply runs_as; [run_step; rewrite Hc, Hb, ?Ha; cbn [negb Z.eqb];
    eapply runs_bind; [run_step; run_leaf|intros w1 Hi1 _; by apply runs_reply_error_am]|reflexivity..].
Qed.
End Run_replies.

(** * The meeting *)

Section Meeting.
Context `{OS : !Os} {Q : Type} `{PQ : !PortQueue Q} `{IV : !IOVec Q} (ulong : Z) (empty : Q).
Implicit Types (w : world Q) (d : descriptor Q).
Local Ltac use P w H T C := let E := fresh "E" in destruct P as (w & E & [H T C]); rewrite (bind_eq _ _ _ _ _ E); clear E.
Lemma accept_known l d fd err w : desc_table w !! l = Some (Some d) -> os_accept (calls w) (s d) = (fd, err) ->
  sock_accept empty l w = (fd, accepted w err (s d) fd).
Proof.
  intros Hi Ho. unfold sock_accept. rewrite (bind_eq (this empty l) _ w _ w eq_refl), (desc_live empty _ _ _ Hi). unfold sys. by rewrite Ho.
Qed.

Lemma int_arg_put (x : Z) (rest : bytes) w : int_arg (put_int32 x ++ rest) 0 w = (int32 x, w).
Proof.
  unfold int_arg. assert ((length (put_int32 x ++ rest) <? 0 + 4)%nat = false) as ->.
  { apply Nat.ltb_ge. rewrite length_app. cbn. lia. }
  rewrite (bind_eq skip _ w tt w eq_refl), drop_0, get_put_int32. done.
Qed.
(** The port that accepts: closed, and nothing received in it. *)
Record may_accept a d : Prop := {
  ma_state : state d = STATE_CLOSED; ma_buf : i_buf d = None; ma_bufp : i_bufp d = false; ma_ix : ix d = Z.of_nat a
}.
(** No connection is there: the two ports wait for one. *)
Definition waiting l a w : Prop := exists ld ad, desc_table w !! l = Some (Some ld) /\ desc_table w !! a = Some (Some ad) /\
  state ld = STATE_LISTENING /\ i_ix ld = Z.of_nat a /\ state ad = STATE_ACCEPTING.
Lemma accept_waits l a ld ad timeout w : desc_table w !! l = Some (Some ld) -> desc_table w !! a = Some (Some ad) -> l <> a ->
  state ld = STATE_LISTEN -> may_accept a ad -> Z.of_nat l < 2 ^ 31 ->
  os_accept (calls w) (s ld) = (INVALID_SOCKET, ERRNO_BLOCK) ->
  exists w' ld' ad', unixdom_ctl ulong empty a UNIXDOM_REQ_ACCEPT (put_int32 (Z.of_nat l) ++ put_int32 timeout) 64 w
      = ((1, InPlace [UNIXDOM_REP_WOULDBLOCK]), w') /\
    desc_table w' !! l = Some (Some ld') /\ desc_table w' !! a = Some (Some ad') /\ state ld' = STATE_LISTENING /\ i_ix ld' = Z.of_nat a /\
    s ld' = s ld /\ port ld' = port ld /\ event ld' = event ld /\ state ad' = STATE_ACCEPTING /\ port ad' = port ad /\ active ad' = M_PASSIVE /\
    (forall j, j <> l -> j <> a -> desc_table w' !! j = desc_table w !! j) /\
    calls w' = calls w ++ [Accept (s ld) INVALID_SOCKET; Select (port ld) (event ld) FD_ACCEPT true] ++
      (if negb (u_long ulong (int32 timeout) =? INFINITY) then [SetTimer (port ad) (u_long ulong (int32 timeout))] else []).
Proof.
  intros Hl Ha Hne Hst [Hc Hb Hbp Hix] Hlt Hacc.
  change (unixdom_ctl _ _ _ _ _ _) with (ctl_accept ulong empty a (put_int32 (Z.of_nat l) ++ put_int32 timeout) 64).
  unfold ctl_accept. rewrite (bind_eq (this empty a) _ w _ w eq_refl), (desc_live empty _ _ _ Ha), Hc. cbn [negb Z.eqb].
  change (STATE_CLOSED =? STATE_CLOSED) with true. cbn [negb].
  rewrite (bind_eq _ _ _ _ _ (int_arg_put (Z.of_nat l) (put_int32 timeout) w)).
  assert (int_arg (put_int32 (Z.of_nat l) ++ put_int32 timeout) 4 w = (int32 timeout, w)) as E4.
  { pose proof (int_arg_put timeout [] w) as E. rewrite app_nil_r in E. exact E. }
  rewrite (bind_eq _ _ _ _ _ E4), (bind_eq (gets desc_table) _ w _ w eq_refl).
  rewrite (sint_small 32 (Z.of_nat l)) by lia. rewrite Nat2Z.id, Hl. pose proof (lookup_lt_Some _ _ _ Hl).
  rewrite (proj2 (Z.leb_gt _ _)), (proj2 (Z.ltb_ge _ _)) by lia. cbn [default from_option id]. cbv zeta. rewrite Hst.
  change (STATE_LISTEN =? STATE_LISTEN) with true. cbn [negb].
  rewrite Hb, Hbp. rewrite bool_decide_eq_true_2 by done. cbn [negb orb].
  rewrite (bind_eq skip _ w tt w eq_refl).
  use (runs_upd a ad (inherit ld) w Ha) w1 Ha1 T1 C1. rewrite app_nil_r in C1.
  assert (desc_table w1 !! l = Some (Some ld)) as Hl1 by (by rewrite T1).
  rewrite <-C1 in Hacc. rewrite (bind_eq _ _ _ _ _ (accept_known l ld _ _ w1 Hl1 Hacc)).
  change (INVALID_SOCKET =? INVALID_SOCKET) with true. cbv match. set (w2 := accepted w1 _ _ _).
  rewrite (bind_eq sock_errno _ w2 _ w2 eq_refl). change (errno w2 =? ERRNO_BLOCK) with true. cbv match.
  use (runs_upd a (inherit ld ad) (w_state STATE_ACCEPTING) w2 Ha1) w3 Ha3 T3 C3.
  assert (desc_table w3 !! l = Some (Some ld)) as Hl3 by (by rewrite T3).
  use (runs_upd l ld (fun l_desc => w_i_ix (ix ad) (w_state STATE_LISTENING l_desc)) w3 Hl3) w4 Hl4 T4 C4.
  use (runs_select empty l _ FD_ACCEPT true w4 Hl4) w5 Hl5 T5 C5.
  set (ms := u_long ulong (int32 timeout)).
  assert (runs l _ (if negb (ms =? INFINITY) then [SetTimer (port ad) ms] else []) (when negb (ms =? INFINITY) do act (SetTimer (port ad) ms)) tt w5) as R
    by (destruct (negb _); run_leaf).
  use R w6 Hl6 T6 C6. unfold ctl_reply. cbn [length Z.of_nat]. change (0 + 1 >? 64) with false. cbv match. unfold mret, M_ret.
  eexists w6, _, _. split; [reflexivity|]. split; [exact Hl6|]. split.
  { rewrite T6, T5, T4 by congruence. exact Ha3. }
  do 8 (split; [first [reflexivity | exact Hix]|]). split.
  - intros j Hj1 Hj2. rewrite T6, T5, T4, T3 by done. unfold w2, accepted. cbn. by rewrite T1.
  - rewrite C6, C5, C4, C3. unfold w2, accepted. cbn [calls]. rewrite C1, !app_nil_r, <-!app_assoc. done.
Qed.
(** A connection is there: the waiting port gets it. *)
Lemma listener_gives l a ld ad fd err w : desc_table w !! l = Some (Some ld) -> desc_table w !! a = Some (Some ad) -> l <> a ->
  state ld = STATE_LISTENING -> i_ix ld = Z.of_nat a -> state ad = STATE_ACCEPTING ->
  os_accept (calls w ++ [Select (port ld) (event ld) FD_ACCEPT false]) (s ld) = (fd, err) -> fd <> INVALID_SOCKET ->
  exists w' ld' ad', unixdom_ready_input empty l w = (tt, w') /\
    desc_table w' !! l = Some (Some ld') /\ desc_table w' !! a = Some (Some ad') /\ state ld' = STATE_LISTEN /\ i_ix ld' = -1 /\
    s ld' = s ld /\ port ld' = port ld /\ state ad' = STATE_CONNECTED /\ s ad' = fd /\ port ad' = port ad /\
    (forall j, j <> l -> j <> a -> desc_table w' !! j = desc_table w !! j) /\
    calls w' = calls w ++ [Select (port ld) (event ld) FD_ACCEPT false; Accept (s ld) fd; Nonblock fd; Select (port ad) fd FD_CONNECT false;
      Select (port ad) fd (Z.lor FD_READ FD_CLOSE) (negb (active ad =? 0)); OutputTerm (port ld) (ok_spec (port ld))].
Proof.
  intros Hl Ha Hne Hst Hix Hsa Hacc Hfd. unfold unixdom_ready_input.
  rewrite (bind_eq (this empty l) _ w _ w eq_refl), (desc_live empty _ _ _ Hl), Hst, Hix, Nat2Z.id.
  change (STATE_LISTENING =? STATE_LISTENING) with true. cbv match zeta.
  use (runs_select empty l ld FD_ACCEPT false w Hl) w1 Hl1 T1 C1. rewrite <-C1 in Hacc.
  use (runs_upd l _ (fun d => w_i_ix (-1) (w_state STATE_LISTEN d)) w1 Hl1) w2 Hl2 T2 C2. rewrite app_nil_r in C2. rewrite <-C2 in Hacc.
  rewrite (bind_eq (gets desc_table) _ w2 _ w2 eq_refl).
  assert (desc_table w2 !! a = Some (Some ad)) as Ha2 by (rewrite T2, T1 by congruence; exact Ha).
  rewrite Ha2. cbn [default from_option id]. rewrite Hsa. change (STATE_ACCEPTING =? STATE_ACCEPTING) with true. cbn [negb].
  rewrite (bind_eq _ _ _ _ _ (accept_known l _ fd err w2 Hl2 Hacc)). rewrite (proj2 (Z.eqb_neq fd _)) by done.
  set (w3 := accepted w2 _ _ _). assert (desc_table w3 !! a = Some (Some ad)) as Ha3 by done.
  destruct (runs_take_socket empty a ad fd w3 Ha3) as (ad' & Hs' & _ & Hst' & _ & _ & Hp' & R). use R w4 Ha4 T4 C4.
  assert (desc_table w4 !! l = Some (Some (w_i_ix (-1) (w_state STATE_LISTEN (selected FD_ACCEPT false ld))))) as Hl4
    by (rewrite T4 by done; exact Hl2).
  destruct (runs_reply_ok empty l _ w4 Hl4) as (w5 & E5 & [Hl5 T5 C5]). rewrite E5.
  eexists w5, _, ad'. split; [reflexivity|]. split; [exact Hl5|]. split; [rewrite T5 by congruence; exact Ha4|].
  do 7 (split; [first [reflexivity | assumption]|]). split.
  - intros j Hj1 Hj2. rewrite T5, T4 by done. unfold w3, accepted. cbn [desc_table]. by rewrite T2, T1.
  - rewrite C5, C4. unfold w3, accepted. cbn [calls]. rewrite C2, C1, <-!app_assoc. done.
Qed.
End Meeting.

(** C13: How a port gets its connection: ACCEPT, when there is none, answers that it would block, and leaves the two ports
    bound to each other; when one arrives, the listening port hands its socket to the other, which is
    connected, listens on, and its owner is told. No other port is touched, and the timer that ACCEPT set is never cancelled. *)
Theorem accept_rendezvous `{OS : !Os} {Q : Type} `{PQ : !PortQueue Q} `{IV : !IOVec Q} ulong (empty : Q)
    l a ld ad timeout fd err (w : world Q) :
  desc_table w !! l = Some (Some ld) -> desc_table w !! a = Some (Some ad) -> l <> a ->
  state ld = STATE_LISTEN -> may_accept a ad -> Z.of_nat l < 2 ^ 31 ->
  os_accept (calls w) (s ld) = (INVALID_SOCKET, ERRNO_BLOCK) ->
  (forall new, os_accept (calls w ++ Accept (s ld) INVALID_SOCKET :: new) (s ld) = (fd, err)) -> fd <> INVALID_SOCKET ->
  let '(r, w1) := unixdom_ctl ulong empty a UNIXDOM_REQ_ACCEPT (put_int32 (Z.of_nat l) ++ put_int32 timeout) 64 w in
  let w2 := snd (unixdom_ready_input empty l w1) in
  r = (1, InPlace [UNIXDOM_REP_WOULDBLOCK]) /\ waiting l a w1 /\
  (exists ld2 ad2, desc_table w2 !! l = Some (Some ld2) /\ desc_table w2 !! a = Some (Some ad2) /\
    state ld2 = STATE_LISTEN /\ i_ix ld2 = -1 /\ s ld2 = s ld /\ state ad2 = STATE_CONNECTED /\ s ad2 = fd) /\
  (forall j, j <> l -> j <> a -> desc_table w2 !! j = desc_table w !! j) /\
  exists new, calls w2 = calls w ++ new ++ [OutputTerm (port ld) (ok_spec (port ld))] /\ Forall (fun e => forall p, e <> CancelTimer p) new /\
    (u_long ulong (int32 timeout) <> INFINITY -> SetTimer (port ad) (u_long ulong (int32 timeout)) ∈ new).
Proof.
  intros Hl Ha Hne Hst Hma Hlt Hacc Hacc2 Hfd.
  destruct (accept_waits ulong empty l a ld ad timeout w Hl Ha Hne Hst Hma Hlt Hacc) as
    (w1 & ld1 & ad1 & E1 & Hl1 & Ha1 & S1 & I1 & F1 & P1 & V1 & S1' & P1' & A1 & T1 & C1).
  rewrite E1. cbv zeta. set (tm := if negb _ then _ else _) in C1.
  destruct (listener_gives empty l a ld1 ad1 fd err w1 Hl1 Ha1 Hne S1 I1 S1') as
    (w2 & ld2 & ad2 & E2 & Hl2 & Ha2 & S2 & I2 & F2 & P2 & S2' & F2' & P2' & T2 & C2); [|done|].
  { rewrite C1, F1, <-!app_assoc. cbn [app]. apply Hacc2. }
  rewrite E2. cbn [snd]. split; [done|]. split; [by exists ld1, ad1|]. split.
  { exists ld2, ad2. by rewrite F2, F1. }
  split; [intros j Hj1 Hj2; by rewrite T2, T1|].
  rewrite C2, C1, P1, P1', V1, F1, A1. cbn [M_PASSIVE Z.eqb negb].
  exists ([Accept (s ld) INVALID_SOCKET; Select (port ld) (event ld) FD_ACCEPT true] ++ tm ++ [Select (port ld) (event ld) FD_ACCEPT false;
    Accept (s ld) fd; Nonblock fd; Select (port ad) fd FD_CONNECT false; Select (port ad) fd (Z.lor FD_READ FD_CLOSE) false]).
  split; [by rewrite <-!app_assoc|]. split.
  - subst tm. destruct (negb _); repeat constructor; by intros.
  - intros Hinf. subst tm. rewrite (proj2 (Z.eqb_neq _ _) Hinf). cbn. by right; right; left.
Qed.

(** A port that listens and one that is closed. *)
Definition sample_listener : descriptor bytes := w_state STATE_LISTEN (w_s 1 (blank [])).
Definition sample_closed : descriptor bytes := Descriptor INVALID_SOCKET INVALID_EVENT 0 2 STATE_CLOSED 0 MODE_BINARY 1 0 (-1)
  PTYPE_RAW 1 (-1) DEF_BUFSIZ None false LOW_WATERMARK HIGH_WATERMARK 5000 0 (-1) [].
Definition sample_pair : world bytes := World [Some sample_listener; Some sample_closed] 0 0 [Socket 1].
(** One that has a connection the second time. *)
Definition second_os : Os := {|
  os_socket := @os_socket small_os; os_connect := @os_connect small_os; os_bind := @os_bind small_os; os_listen := @os_listen small_os;
  os_accept tr _ := match tr with Socket _ :: Accept _ _ :: _ => (2, 0) | _ => (INVALID_SOCKET, ERRNO_BLOCK) end;
  os_recv := @os_recv small_os; os_writev := @os_writev small_os; os_write := @os_write small_os; os_peer := @os_peer small_os;
  os_alloc := @os_alloc small_os; erl_errno_id := @erl_errno_id small_os; little_endian := true |}.
Lemma accept_rendezvous_witness :
  let '(r, w1) := unixdom_ctl (OS := second_os) 64 [] 1 UNIXDOM_REQ_ACCEPT (put_int32 (Z.of_nat 0) ++ put_int32 1000) 64 sample_pair in
  waiting 0 1 w1 /\ exists ld2 ad2, desc_table (snd (unixdom_ready_input (OS := second_os) [] 0 w1)) !! 0%nat = Some (Some ld2) /\
    desc_table (snd (unixdom_ready_input (OS := second_os) [] 0 w1)) !! 1%nat = Some (Some ad2) /\
    state ld2 = STATE_LISTEN /\ i_ix ld2 = -1 /\ s ld2 = 1 /\ state ad2 = STATE_CONNECTED /\ s ad2 = 2.
Proof.
  assert (may_accept 1 sample_closed) as Hma by done.
  assert (0%nat <> 1%nat /\ 2 <> INVALID_SOCKET) as [Hne Hfd] by done.
  pose proof (accept_rendezvous (OS := second_os) 64 [] 0 1 sample_listener sample_closed 1000 2 0 sample_pair eq_refl eq_refl
    Hne eq_refl Hma eq_refl eq_refl (fun _ => eq_refl) Hfd) as P.
  destruct (unixdom_ctl _ _ _ _ _ _ _) as [r w1]. exact (conj (proj1 (proj2 P)) (proj1 (proj2 (proj2 P)))).
Defined.

(** A timer that runs out on a connected port whose sender does not wait reports a timeout to the owner: on a passive
    port reading stops and the port stays connected; on an active port the assertion of the handler fails first. *)
Theorem timeout_while_connected {Q : Type} (empty : Q) i d (w : world Q) :
  desc_table w !! i = Some (Some d) -> IS_CONNECTED d = true -> busy_on_send d = 0 ->
  let w' := snd (unixdom_timeout empty i w) in
  (exists d', desc_table w' !! i = Some (Some d') /\ IS_CONNECTED d' = true /\ s d' = s d) /\
  calls w' = calls w ++ (if active d =? 0 then [] else [Fault Abort]) ++
    [Select (port d) (event d) (Z.lor FD_READ FD_CLOSE) false; OutputTerm (port d) (error_spec (port d) (Atm "timeout"))].
Proof.
  intros Hi Hc Hb w'. destruct (runs_timeout empty i d w Hi Hc Hb) as (d' & [Hs _] & Hst & w1 & E & [H1 _ C1]).
  subst w'. rewrite E. cbn [snd]. split; [|done]. exists d'. split; [done|]. unfold IS_CONNECTED. by rewrite Hst.
Qed.

Lemma timeout_while_connected_witness : exists w, w = snd (unixdom_timeout [] 0 sample_world) /\
  calls w = [Select 0 INVALID_EVENT FD_READ false; OutputTerm 0 (error_spec 0 (Atm "timeout"))].
Proof.
  eexists. split; [reflexivity|].
  exact (proj2 (timeout_while_connected [] 0 sample_connected sample_world eq_refl eq_refl eq_refl)).
Defined.

Section Overrun.
Context `{OS : !Os} {Q : Type} `{PQ : !PortQueue Q} `{IV : !IOVec Q} (ulong : Z) (empty : Q).
Implicit Types (w : world Q) (d : descriptor Q).
(** Nothing to receive: the buffer stays, in the size asked for. *)
Lemma recv_blocks i n d w : desc_table w !! i = Some (Some d) -> i_buf d = None -> 0 < n -> os_alloc (calls w) n = true ->
  os_recv (calls w) (s d) n = (-1, EWOULDBLOCK, []) ->
  runs i (w_i_bufp true (w_i_buf (Some (n, [])) d)) [Recv (port d) (s d) n n []] (unixdom_recv empty i n) 0 w.
Proof.
  intros Hi Hb Hn Ha Ho. unfold unixdom_recv. eapply runs_as.
  - eapply runs_bind; [run_leaf|]. intros w0 Hi0 C0. rewrite app_nil_r in C0. cbv zeta. rewrite (proj2 (Z.ltb_lt 0 n)) by done.
    eapply runs_bind.
    { rewrite Hb. eapply runs_bind; [by apply runs_gets|]. intros w1 Hi1 C1. rewrite app_nil_r in C1. rewrite C0, Ha.
      eapply runs_bind; [run_leaf|]. intros w2 Hi2 _. run_leaf. }
    intros w1 Hi1 C1. cbn [app] in C1. rewrite app_nil_r in C1. cbn [negb]. eapply runs_bind; [run_leaf|]. intros w2 Hi2 C2.
    rewrite app_nil_r in C2. cbn [i_buf w_i_bufp w_i_buf fmap option_fmap option_map fst default from_option id port s]. cbv zeta.
    assert (calls w2 = calls w) as E by congruence.
    exists (World (desc_table w2) (desc_ix w2) EWOULDBLOCK (calls w2 ++ [Recv (port d) (s d) n n []])). split; [|by split].
    unfold mbind, M_bind at 1. unfold sys. rewrite E. cbv beta. rewrite Ho. unfold mbind, M_bind, skip, sock_errno, gets. rewrite (proj2 (Z.ltb_ge n (-1))) by lia. reflexivity.
  - reflexivity.
  - reflexivity.
Qed.
Lemma ctl_recv_blocks i n tmo d w : desc_table w !! i = Some (Some d) -> IS_CONNECTED d = true -> i_buf d = None -> 0 < n < 2 ^ 31 ->
  os_alloc (calls w) n = true -> os_recv (calls w) (s d) n = (-1, EWOULDBLOCK, []) -> tmo <> 0 ->
  exists d' new, runs i d' new (ctl_recv empty i n tmo 64) (1, InPlace [UNIXDOM_REP_OK]) w /\
    i_buf d' = Some (n, []) /\ s d' = s d /\ port d' = port d /\ bufsz d' = bufsz d /\ state d' = state d.
Proof.
  intros Hi Hc Hb Hn Ha Ho Ht. eexists _, _. split; [|shelve]. unfold ctl_recv. eapply runs_bind; [run_leaf|]. intros w0 Hi0 C0.
  rewrite app_nil_r in C0. rewrite Hc. cbn [negb]. rewrite (sint_small 32) by lia.
  eapply runs_bind; [apply (recv_blocks i n d); [done..|lia|by rewrite C0|by rewrite C0]|]. intros w1 Hi1 _. cbv match zeta beta.
  rewrite (proj2 (Z.eqb_neq tmo 0)) by done. change (0 <? 0) with false. change (0 =? 0) with true. cbv match.
  eapply (runs_bind i _ (if negb (tmo =? INFINITY) then [SetTimer (port d) tmo] else [])); [destruct (negb _); run_leaf|].
  intros w2 Hi2 _. run_step. by apply (runs_ret i _ (1, InPlace [UNIXDOM_REP_OK])).
  Unshelve. split_and!; done.
Qed.
(** The calls made are never unmade. *)
Definition grows w w' : Prop := exists new, calls w' = calls w ++ new.
#[export] Instance grows_preorder : PreOrder grows.
Proof.
  split; [intros w; exists []; by rewrite app_nil_r|]. intros a b c [n1 E1] [n2 E2]. exists (n1 ++ n2). by rewrite E2, E1, app_assoc.
Qed.
Lemma grows_act e : ensures grows (act e).
Proof. intros w. by exists [e]. Qed.
Lemma grows_upd i f : ensures grows (upd i f).
Proof. intros w. exists []. by rewrite app_nil_r. Qed.
Lemma grows_desc_close e i : ensures grows (desc_close e i).
Proof. unfold desc_close, sock_select, this. walk ltac:(first [apply grows_upd | apply grows_act]). Qed.
#[export] Instance grows_walks : Walks grows.
Proof.
  split; [apply _|intros; apply grows_act|intros; apply grows_upd| | |apply grows_desc_close|intros A e i k Hk|intros e i].
  - intros A answer e _ w. unfold sys. destruct (answer (calls w)) as [x err]. by exists [e x].
  - intros e w. exists []. by rewrite app_nil_r.
  - apply ensures_bind; [apply _|apply grows_desc_close|intros _]. apply ensures_bind; [apply _|apply grows_upd|done].
  - apply ensures_bind; [apply _|apply grows_desc_close|intros _]. apply grows_upd.
Qed.
#[local] Hint Extern 1 (ensures grows (act _)) => apply grows_act : unixdom.
#[local] Hint Extern 1 (ensures grows (upd _ _)) => apply grows_upd : unixdom.
Lemma grows_reply_data i n : ensures grows (reply_data empty i n).
Proof. unfold reply_data, output_term. walk_known. Qed.
Lemma recv_overflows i k n m d data b w : desc_table w !! i = Some (Some d) -> i_buf d = Some (n, b) -> n < m -> k <= 0 ->
  os_recv (calls w) (s d) (bufsz d) = (m, 0, data) ->
  exists w' f, unixdom_recv empty i k w = f w' /\ ensures grows f /\ calls w' = calls w ++ [Recv (port d) (s d) n (bufsz d) data; Fault Overflow].
Proof.
  intros Hi Hb Hn Hk Ho. unfold unixdom_recv. rewrite (bind_eq (this empty i) _ w _ w eq_refl), (desc_live empty _ _ _ Hi), Hb.
  rewrite (proj2 (Z.ltb_ge 0 k)) by lia. cbv zeta match. rewrite (bind_eq (mret true) _ w true w eq_refl). cbn [negb].
  rewrite (bind_eq (this empty i) _ w _ w eq_refl), (desc_live empty _ _ _ Hi), Hb. cbn [fmap option_fmap option_map fst default from_option id].
  set (w1 := World (desc_table w) (desc_ix w) 0 (calls w ++ [Recv (port d) (s d) n (bufsz d) data])).
  rewrite (bind_eq _ _ w (m, data) w1) by (unfold sys; by rewrite Ho). cbv zeta match.
  rewrite (bind_eq (when n <? m do act (Fault Overflow)) _ w1 tt (snd (act (Fault Overflow) w1))) by (by rewrite (proj2 (Z.ltb_lt n m))).
  eexists _, _. split; [reflexivity|]. split; [walk_known|]. cbn [act modify snd calls w1]. by rewrite <-app_assoc.
Qed.
End Overrun.

(** A buffer smaller than the read: RECV of fewer bytes than the default, when nothing is there, leaves a buffer of that size;
    the data that then arrives is read into it up to the default size, so that more than was asked for
    is stored outside the buffer. *)
Theorem recv_overrun `{OS : !Os} {Q : Type} `{PQ : !PortQueue Q} `{IV : !IOVec Q} (empty : Q) i n tmo d m data (w : world Q) :
  desc_table w !! i = Some (Some d) -> IS_CONNECTED d = true -> i_buf d = None -> 0 < n < bufsz d -> bufsz d < 2 ^ 31 -> tmo <> 0 ->
  os_alloc (calls w) n = true -> os_recv (calls w) (s d) n = (-1, EWOULDBLOCK, []) ->
  let '(r, w1) := ctl_recv empty i n tmo 64 w in
  os_recv (calls w1) (s d) (bufsz d) = (m, 0, data) -> n < m ->
  r = (1, InPlace [UNIXDOM_REP_OK]) /\
  exists new, calls (snd (unixdom_ready_input empty i w1)) = calls w1 ++ Recv (port d) (s d) n (bufsz d) data :: Fault Overflow :: new.
Proof.
  intros Hi Hc Hb Hn Hsz Ht Ha Ho.
  destruct (ctl_recv_blocks empty i n tmo d w Hi Hc Hb ltac:(lia) Ha Ho Ht) as (d1 & new1 & (w1 & E1 & [H1 T1 C1]) & B1 & S1 & P1 & Z1 & St1).
  rewrite E1. intros Hr Hm. split; [done|]. unfold unixdom_ready_input.
  rewrite (bind_eq (this empty i) _ w1 _ w1 eq_refl), (desc_live empty _ _ _ H1), St1.
  assert ((state d =? STATE_LISTENING) = false) as ->.
  { destruct (Z.eqb_spec (state d) STATE_LISTENING) as [E|]; [|done]. unfold IS_CONNECTED in Hc. by rewrite E in Hc. }
  assert (IS_CONNECTED d1 = true) as -> by (unfold IS_CONNECTED; by rewrite St1).
  rewrite <-S1, <-Z1 in Hr.
  destruct (recv_overflows empty i 0 n m d1 data [] w1 H1 B1 Hm ltac:(lia) Hr) as (w2 & f & E2 & Hf & C2).
  match goal with |- context [mbind ?k _ w1] => assert (exists new, calls (snd (mbind k (unixdom_recv empty i 0) w1)) = calls w2 ++ new) as [new E] end.
  { destruct (f w2) as [r w3] eqn:E3. rewrite (bind_eq _ _ _ _ _ E2). specialize (Hf w2). rewrite E3 in Hf.
    match goal with |- exists _, calls (snd (?m w3)) = _ => assert (ensures grows m) as Hm3 end.
    { pose proof (grows_reply_data empty i r). walk_known. }
    exact (transitivity (R := grows) Hf (Hm3 w3)). }
  exists new. rewrite E, C2, P1, S1, Z1, <-app_assoc. done.
Qed.

(** One byte is asked for; three come. *)
Definition sample_reader : descriptor bytes := w_bufsz DEF_BUFSIZ sample_connected.
Lemma recv_overrun_witness : let w1 := snd (ctl_recv (OS := small_os) [] 0 1 1000 64 (World [Some sample_reader] 0 0 [])) in
  exists new, calls (snd (unixdom_ready_input (OS := small_os) [] 0 w1)) = calls w1 ++ Recv 0 5 1 DEF_BUFSIZ [7; 8; 9] :: Fault Overflow :: new.
Proof.
  refine (proj2 (recv_overrun (OS := small_os) [] 0 1 1000 sample_reader 3 [7; 8; 9] (World [Some sample_reader] 0 0 []) _ _ _ _ _ _ _ _ _ _)); done.
Defined.
