(* ===== verification/UnixdomCtl.v ===== *)
(** Control commands of the Unix domain socket driver, and the start of its ports: the answers fit where they are
    written, options read back, and a port is found an entry of the table. *)
From stdpp Require Import strings.
From S2P Require Import Prelude ErlTerm Erts Unixdom UnixdomPort UnixdomFlow UnixdomMeet.
#[local] Open Scope Z_scope.

(** * Answers *)

(** The length returned is that of the answer, which fits the buffer of the emulator or has one of its own. When there is no answer the length is
    not positive, or it would have been written to the null pointer, for want of memory. *)
Definition fits (rbuflen : Z) (a : Z * reply) (tr : trace) : Prop :=
  match snd a with
  | InPlace b => fst a = Z.of_nat (length b) /\ fst a <= rbuflen
  | Allocated b => fst a = Z.of_nat (length b)
  | NoReply => fst a <= 0 \/ Fault NullStore ∈ tr
  end.
Section Answers.
Context `{OS : !Os} {Q : Type} `{PQ : !PortQueue Q} `{IV : !IOVec Q} (ulong : Z) (empty : Q).
Abbreviation U := (M (world Q)).
Definition gives (n : Z) (m : U (Z * reply)) : Prop := forall w, fits n (fst (m w)) (calls (snd (m w))).
Lemma gives_ret n a : (forall tr, fits n a tr) -> gives n (mret a).
Proof. intros Ha w. apply Ha. Qed.
Lemma gives_bind {A} n (m : U A) (k : A -> U (Z * reply)) : (forall a, gives n (k a)) -> gives n (mbind k m).
Proof. intros Hk w. unfold mbind, M_bind. destruct (m w) as [a w']. apply Hk. Qed.
Lemma gives_ctl_reply rep buf n : gives n (ctl_reply rep buf n).
Proof.
  unfold ctl_reply. destruct (_ >? n) eqn:E.
  - apply gives_bind. intros [|]; [apply gives_ret; intros tr; cbn; lia|]. intros w. right. apply elem_of_app. right. by left.
  - apply gives_ret. intros tr. split; cbn; lia.
Qed.
Lemma length_get_opt (d : descriptor Q) o : (length (get_opt d o) <= 5)%nat.
Proof. unfold get_opt. repeat case_match; cbn; lia. Qed.
Lemma length_get_opts (d : descriptor Q) buf : (length (concat (map (get_opt d) buf)) <= 5 * length buf)%nat.
Proof.
  induction buf as [|o buf IH]; cbn [map concat length]; [done|]. rewrite length_app. pose proof (length_get_opt d o). lia.
Qed.
Lemma gives_getopts i buf n : Z.of_nat (length buf) < 2 ^ 27 -> gives n (ctl_getopts empty i buf n).
Proof.
  intros Hl. unfold ctl_getopts. apply gives_bind. intros d. cbv zeta. rewrite (sint_small 32) by lia.
  destruct (_ >? MAX_BUFSIZ); [apply gives_ctl_reply|]. pose proof (length_get_opts d buf). destruct (_ >? n) eqn:E.
  - apply gives_bind. intros [|]; [by apply gives_ret|apply gives_ctl_reply].
  - apply gives_ret. intros tr. split; cbn [fst length]; lia.
Qed.
Lemma gives_recv_error i err n : gives n (r ← unixdom_recv_error empty i err; mret (r, NoReply)).
Proof.
  intros w. pose proof (recv_error_rc empty i err w). unfold mbind, M_bind. destruct (unixdom_recv_error empty i err w) as [r w']. by left.
Qed.
Lemma gives_recv i n tmo k : gives k (ctl_recv empty i n tmo k).
Proof.
  unfold ctl_recv, ctl_errno, ctl_xerror, ctl_ok, ctl_error.
  repeat first [apply gives_recv_error | apply gives_bind; intros ? | apply gives_ctl_reply | apply gives_ret; intros ?; by left | case_match].
Qed.
End Answers.

(** C33: The answer of a control command fits: whatever the command and its arguments, fewer than 2^27 bytes of them, the length returned is
    that of the answer, and an answer written into the emulator's buffer is no longer than the buffer. Where there is no answer the length is not
    positive, or the null pointer was written, for want of memory. *)
Theorem ctl_answers_fit `{OS : !Os} {Q : Type} `{PQ : !PortQueue Q} `{IV : !IOVec Q} ulong (empty : Q) i cmd buf rbuflen (w : world Q) :
  Z.of_nat (length buf) < 2 ^ 27 ->
  fits rbuflen (fst (unixdom_ctl ulong empty i cmd buf rbuflen w)) (calls (snd (unixdom_ctl ulong empty i cmd buf rbuflen w))).
Proof.
  intros Hl. revert w. change (gives rbuflen (unixdom_ctl ulong empty i cmd buf rbuflen)).
  unfold unixdom_ctl, ctl_endian, ctl_knuthhash, ctl_open, ctl_connect, ctl_close, ctl_write, ctl_setopts, ctl_bind, ctl_accept,
    ctl_errno, ctl_xerror, ctl_ok, ctl_error.
  repeat first [apply gives_recv | by apply gives_getopts | apply gives_bind; intros ? | apply gives_ctl_reply | apply gives_ret; intros ?; by left | case_match].
Qed.
Lemma ctl_answers_fit_witness : let r := unixdom_ctl (OS := small_os) 64 [] 0 UNIXDOM_REQ_GETOPTS [2; 3] 64 sample_start in fits 64 (fst r) (calls (snd r)).
Proof. apply (ctl_answers_fit (OS := small_os) 64 [] 0 UNIXDOM_REQ_GETOPTS [2; 3] 64 sample_start). by vm_compute. Defined.

(** * Starting *)

Section Start.
Context `{OS : !Os} {Q : Type} (empty : Q).
Implicit Types (t : list (option (descriptor Q))).
Definition free t (i : nat) : Prop := t !! i = Some None.
(** After [k] turns the search is [k] entries further. *)
Lemma free_ix_search t n ix : (ix < length t)%nat ->
  (exists k, k < n /\ free t ((ix + k) mod length t) /\ free_ix t n ix = (ix + k) mod length t)%nat \/
  (forall k, (k < n)%nat -> ~ free t ((ix + k) mod length t)) /\ free_ix t n ix = ((ix + n) mod length t)%nat.
Proof.
  revert ix. induction n as [|n IH]; intros ix Hix; cbn [free_ix].
  { right. split; [lia|]. by rewrite Nat.add_0_r, Nat.mod_small. }
  destruct (lookup_lt_is_Some_2 t ix Hix) as [o Ho]. rewrite Ho. cbn [default from_option id]. destruct o as [d|].
  - assert (forall k, (((ix + 1) mod length t + k) mod length t = (ix + S k) mod length t)%nat) as Hk.
    { intros k. rewrite Nat.Div0.add_mod_idemp_l. f_equal. lia. }
    destruct (IH ((ix + 1) mod length t)%nat) as [(k & Hlt & Hf & E)|[Hn E]]; [apply Nat.mod_upper_bound; lia| |].
    + left. exists (S k). rewrite <-Hk. split; [lia|done].
    + right. split; [|by rewrite E, Hk]. intros [|k] Hlt; [|rewrite <-Hk; apply Hn; lia].
      rewrite Nat.add_0_r, Nat.mod_small by done. unfold free. congruence.
  - left. exists 0%nat. rewrite Nat.add_0_r, Nat.mod_small by done. split; [lia|done].
Qed.
(** A whole turn finds an entry, if one is free. *)
Lemma free_ix_spec t ix : (ix < length t)%nat ->
  let i := free_ix t (length t) ix in (i < length t)%nat /\ ((exists j, free t j) -> free t i).
Proof.
  intros Hix i. subst i. destruct (free_ix_search t (length t) ix Hix) as [(k & Hk & Hf & E)|[Hn E]]; rewrite E.
  - split; [apply Nat.mod_upper_bound; lia|done].
  - split; [apply Nat.mod_upper_bound; lia|]. intros [j Hj]. pose proof (lookup_lt_Some _ _ _ Hj) as Hlt. exfalso.
    apply (Hn ((j + (length t - ix)) mod length t)%nat); [apply Nat.mod_upper_bound; lia|].
    rewrite Nat.Div0.add_mod_idemp_r. replace (ix + (j + (length t - ix)))%nat with (j + 1 * length t)%nat by lia.
    by rewrite Nat.Div0.mod_add, Nat.mod_small.
Qed.
End Start.

(** Starting a port: when an entry of the table is free, the port gets a free one, closed and without a socket, and the others
    stay as they are; when none is, the port is refused with EMFILE and nothing changes. *)
Theorem start_takes_free_entry `{OS : !Os} {Q : Type} (empty : Q) dsz p (w : world Q) :
  (desc_ix w < length (desc_table w))%nat -> os_alloc (calls w) dsz = true ->
  let '(r, w') := unixdom_start empty dsz p w in
  ((exists j, free (desc_table w) j) -> exists i d, r = Some i /\ free (desc_table w) i /\
     desc_table w' = <[i := Some d]> (desc_table w) /\ port d = p /\ state d = STATE_CLOSED /\ s d = INVALID_SOCKET /\ well_typed (length (desc_table w)) i d) /\
  ((forall j, ~ free (desc_table w) j) -> r = None /\ desc_table w' = desc_table w /\ errno w' = EMFILE) /\
  (desc_ix w' < length (desc_table w'))%nat.
Proof.
  intros Hix Ha. unfold unixdom_start. rewrite (bind_eq (gets _) _ w w w eq_refl). cbv zeta.
  destruct (free_ix_spec (desc_table w) (desc_ix w) Hix) as [Hlt Hf]. set (i := free_ix _ _ _) in *.
  destruct (lookup_lt_is_Some_2 _ _ Hlt) as [o Ho]. rewrite Ho. cbn [default from_option id]. destruct o as [d|].
  - cbn. split; [|done]. intros Hj. specialize (Hf Hj). unfold free in Hf. congruence.
  - unfold mbind, M_bind, modify, driver_alloc, gets. cbn [calls]. rewrite Ha. cbn [negb mret M_ret desc_table desc_ix errno calls].
    split_and!; cycle 1.
    + intros Hn. by destruct (Hn i).
    + cbn [desc_ix desc_table]. rewrite length_insert. apply Nat.mod_upper_bound. lia.
    + intros _. eexists i, _. split; [done|]. split; [done|]. split; [reflexivity|]. do 3 (split; [done|]).
      split; try done; by left.
Qed.
Lemma start_takes_free_entry_witness : exists i d, fst (unixdom_start (OS := small_os) [] 100 1 sample_start) = Some i /\
  desc_table (snd (unixdom_start (OS := small_os) [] 100 1 sample_start)) = <[i := Some d]> [None; None] /\ port d = 1.
Proof.
  pose proof (start_takes_free_entry (OS := small_os) [] 100 1 sample_start ltac:(cbn; lia) eq_refl) as P.
  destruct (unixdom_start _ _ _ _) as [r w']. destruct P as [P _]. destruct P as (i & d & Hr & _ & Ht & Hp & _); [by exists 0%nat|].
  by exists i, d.
Defined.
