(* ===== verification/Ibrowse.v ===== *)
(** The URL encoding driver: [ibrowse/c_src/ibrowse_drv.c].  A control command is a string; the answer is
    its URL encoding in a block of its own, or nothing when there is nothing to encode.

    What it prints to standard error is left out. *)
From S2P Require Import Prelude Erts.
#[local] Open Scope Z_scope.

(** * The driver *)

(** [alloc_ptr] is the last block handed out; [None] for NULL. [count] is never used. *)
Record State := MkState { count : Z; alloc_ptr : option bytes }.

(** [temp = buf[i]]: a plain [char] in an [unsigned int]. *)
Definition temp_of (c : Z) : Z := u32 (schar c).
(** The test of both loops. *)
Definition unreserved (temp : Z) : bool :=
  ((97 <=? temp) && (temp <=? 122)) || ((65 <=? temp) && (temp <=? 90)) || ((48 <=? temp) && (temp <=? 57)) ||
  (temp =? 45) || (temp =? 95) || (temp =? 46).
Definition d2h (i : Z) : Z := if i <? 10 then i + 48 else u32 (i + 97 - 10).
Fixpoint encoded_from (count : Z) (buf : bytes) : Z :=
  match buf with
  | [] => count
  | c :: buf => encoded_from (u32 (if unreserved (temp_of c) then count + 1 else count + 3)) buf
  end.
Definition calc_encoded_length (buf : bytes) : Z := encoded_from 0 buf.

(** [replybuf[j++] = c], [None] outside the block. *)
Definition put (r : option (bytes * Z)) (c : Z) : option (bytes * Z) :=
  '(b, j) ← r;
  if j <? Z.of_nat (length b) then Some (<[Z.to_nat j := u8 c]> b, u32 (j + 1)) else None.
Fixpoint encode_loop (r : option (bytes * Z)) (buf : bytes) : option (bytes * Z) :=
  match buf with
  | [] => r
  | c :: buf =>
      let temp := temp_of c in
      encode_loop
        (if unreserved temp then put r temp
         else put (put (put r 37) (d2h (temp >> 4)%C)) (d2h (temp & 15)%C)) buf
  end.

Section Driver.
(** A new block has some contents; no block is the null pointer. *)
Context (driver_alloc : Z -> option bytes).
Definition ibrowse_drv_start (sz : Z) : option State := _ ← driver_alloc sz; Some (MkState 0 None).
(** The count returned, the block of the answer, or [None]: a store outside it. *)
Definition ibrowse_drv_control (state : State) (buf : bytes) : option (Z * State) :=
  let rlen_1 := calc_encoded_length buf in
  if rlen_1 =? Z.of_nat (length buf) then Some (0, MkState (count state) None)
  else
    rbuf ← driver_alloc rlen_1;
    '(replybuf, _) ← encode_loop (Some (rbuf, 0)) buf;
    Some (rlen_1, MkState (count state) (Some replybuf)).
End Driver.

(** * The encoding *)

(** A byte as the driver writes it. *)
Definition code (c : Z) : bytes :=
  let temp := temp_of c in
  if unreserved temp then [u8 temp] else [37; u8 (d2h (temp >> 4)%C); u8 (d2h (temp & 15)%C)].
Definition encode (buf : bytes) : bytes := concat (map code buf).

(** RFC 3986: [%] and two hexadecimal digits are a byte, unreserved characters stand for themselves. *)
Definition hex_digit (c : Z) : option Z :=
  if (48 <=? c) && (c <=? 57) then Some (c - 48)
  else if (97 <=? c) && (c <=? 102) then Some (c - 87)
  else if (65 <=? c) && (c <=? 70) then Some (c - 55)
  else None.
Fixpoint decode (s : bytes) : option bytes :=
  match s with
  | [] => Some []
  | c :: s =>
      if c =? 37 then
        match s with
        | h :: l :: s => a ← hex_digit h; b ← hex_digit l; r ← decode s; Some (16 * a + b :: r)
        | _ => None
        end
      else if unreserved c then r ← decode s; Some (c :: r) else None
  end.
Definition ascii (c : Z) : Prop := 0 <= c < 128.

(** A property of all bytes, by going through them. *)
Lemma all_below (n : nat) (f : Z -> bool) : forallb f (seqZ 0 (Z.of_nat n)) = true -> forall x, 0 <= x < Z.of_nat n -> f x = true.
Proof. intros Hb x Hx. rewrite forallb_forall in Hb. apply Hb, list_elem_of_In, elem_of_seqZ. lia. Qed.
(** A byte at a time: the code has one or three characters, and decodes to the byte when that is ASCII. *)
Definition code_ok (c : Z) : bool :=
  match code c with
  | [d] => (d =? c) && unreserved (temp_of c) && negb (c =? 37) && unreserved c && (c <? 128)
  | [p; h; l] => negb (unreserved (temp_of c)) && (p =? 37) &&
      (if c <? 128 then match hex_digit h, hex_digit l with Some a, Some b => 16 * a + b =? c | _, _ => false end
       else (79 <=? h) && (h <=? 86) && match hex_digit h with None => true | Some _ => false end)
  | _ => false
  end.
Lemma code_cases c : is_byte c ->
  (code c = [c] /\ unreserved (temp_of c) = true /\ c <> 37 /\ unreserved c = true /\ c < 128) \/
  (unreserved (temp_of c) = false /\ exists h l, code c = [37; h; l] /\
     (c < 128 -> exists a b, hex_digit h = Some a /\ hex_digit l = Some b /\ 16 * a + b = c) /\
     (128 <= c -> 79 <= h <= 86 /\ hex_digit h = None)).
Proof.
  intros Hc. assert (code_ok c = true) as H by (apply (all_below 256); [by vm_compute|exact Hc]). unfold code_ok in H.
  destruct (code c) as [|p [|h [|l [|? ?]]]]; try done; rewrite !andb_true_iff in H.
  - left. destruct H as ((((H1 & H2) & H3) & H4) & H5). apply Z.eqb_eq in H1 as ->. split_and!; try done; [by apply Z.eqb_neq, negb_true_iff|lia].
  - right. destruct H as ((H1 & H2) & H3). apply Z.eqb_eq in H2 as ->. split; [by apply negb_true_iff|]. exists h, l. split; [done|].
    destruct (Z.ltb_spec c 128); (split; intros ?; try lia).
    + destruct (hex_digit h) as [a|]; [|done]. destruct (hex_digit l) as [b|]; [|done]. exists a, b. split_and!; try done. by apply Z.eqb_eq.
    + rewrite !andb_true_iff in H3. destruct H3 as ((H3 & H4) & H5). destruct (hex_digit h); [done|]. split; [lia|done].
Qed.
Lemma encode_cons c buf : encode (c :: buf) = code c ++ encode buf.
Proof. done. Qed.
Lemma length_code c : is_byte c -> (1 <= length (code c) <= 3)%nat.
Proof. intros Hc. destruct (code_cases c Hc) as [(-> & _)|(_ & h & l & -> & _)]; cbn; lia. Qed.
Lemma length_encode buf : all_bytes buf -> (length buf <= length (encode buf) <= 3 * length buf)%nat.
Proof.
  induction 1 as [|c buf Hc _ IH]; [done|]. rewrite encode_cons, length_app. pose proof (length_code c Hc). cbn [length]. lia.
Qed.
Lemma encode_same buf : all_bytes buf -> length (encode buf) = length buf -> encode buf = buf.
Proof.
  induction 1 as [|c buf Hc Hb IH]; [done|]. rewrite encode_cons, length_app. cbn [length]. intros E. pose proof (length_encode buf Hb).
  destruct (code_cases c Hc) as [(Ek & _)|(_ & h & l & Ek & _)]; rewrite Ek in *; cbn [length app] in *; [f_equal; apply IH; lia|lia].
Qed.

(** ** The length *)

Lemma encoded_from_spec n buf : all_bytes buf -> 0 <= n -> n + 3 * Z.of_nat (length buf) < 2 ^ 32 ->
  encoded_from n buf = n + Z.of_nat (length (encode buf)).
Proof.
  intros Hb. revert n. induction Hb as [|c buf Hc Hb IH]; intros n H0 Hn; cbn [encoded_from]; [cbn; lia|]. cbn [length] in Hn.
  rewrite encode_cons, length_app. destruct (code_cases c Hc) as [(-> & -> & _)|(-> & h & l & -> & _)];
    (rewrite wrap_small by lia; rewrite IH by lia; cbn [length]; lia).
Qed.

(** ** The stores *)

Lemma put_all s : forall b j, (Z.to_nat j + length s <= length b)%nat -> 0 <= j -> Z.of_nat (length b) < 2 ^ 32 ->
  foldl put (Some (b, j)) s = Some (memcpy_at b (Z.to_nat j) (map u8 s), j + Z.of_nat (length s)).
Proof.
  induction s as [|c s IH]; intros b j Hl H0 Hb; cbn [foldl map length].
  - f_equal. f_equal; [|lia]. unfold memcpy_at. cbn [app length]. by rewrite Nat.add_0_r, take_drop.
  - cbn [length] in Hl. assert (put (Some (b, j)) c = Some (<[Z.to_nat j := u8 c]> b, j + 1)) as ->.
    { unfold put. cbn [mbind option_bind]. rewrite (proj2 (Z.ltb_lt _ _)) by lia. by rewrite (wrap_small 32 (j + 1)) by lia. }
    rewrite IH by (rewrite ?length_insert; lia). f_equal. f_equal; [|lia].
    replace (Z.to_nat (j + 1)) with (S (Z.to_nat j)) by lia. unfold memcpy_at. rewrite length_map. cbn [length].
    rewrite insert_take_drop by lia.
    assert (length (take (Z.to_nat j) b) = Z.to_nat j) as Ht by (rewrite length_take; lia).
    rewrite take_app_ge, Ht by lia. replace (S (Z.to_nat j) - Z.to_nat j)%nat with 1%nat by lia. cbn [take app].
    rewrite length_map in *. rewrite drop_app_ge by lia. rewrite Ht. replace (S (Z.to_nat j) + length s - Z.to_nat j)%nat with (S (length s)) by lia.
    cbn [drop]. rewrite drop_drop, <-app_assoc. rewrite take_0. cbn [app]. do 4 f_equal. lia.
Qed.

(** The characters a byte is written with, before they are stored. *)
Definition raw (c : Z) : bytes :=
  let temp := temp_of c in
  if unreserved temp then [temp] else [37; d2h (temp >> 4)%C; d2h (temp & 15)%C].
Lemma code_raw c : code c = map u8 (raw c).
Proof. unfold code, raw. cbv zeta. by destruct (unreserved (temp_of c)). Qed.
Lemma encode_loop_raw buf : forall r, encode_loop r buf = foldl put r (concat (map raw buf)).
Proof.
  induction buf as [|c buf IH]; intros r; [done|]. cbn [encode_loop map concat]. rewrite foldl_app, IH.
  unfold raw at 2. cbv zeta. by destruct (unreserved (temp_of c)).
Qed.
Lemma encode_raw buf : encode buf = map u8 (concat (map raw buf)).
Proof. unfold encode. rewrite concat_map, map_map. f_equal. apply map_ext, code_raw. Qed.
(** The whole answer, in a block of its size. *)
Lemma encode_loop_spec buf b : length b = length (encode buf) -> Z.of_nat (length b) < 2 ^ 32 ->
  encode_loop (Some (b, 0)) buf = Some (encode buf, Z.of_nat (length b)).
Proof.
  intros Hl Hb. rewrite encode_loop_raw. rewrite encode_raw, length_map in *. rewrite put_all by (cbn; lia).
  unfold memcpy_at. rewrite length_map. change (Z.to_nat 0) with 0%nat. cbn [take app]. rewrite drop_ge, app_nil_r by (cbn; lia).
  f_equal. f_equal. lia.
Qed.

(** ** Decoding *)

Lemma decode_code c s : is_byte c -> decode (code c ++ s) = (if c <? 128 then r ← decode s; Some (c :: r) else None).
Proof.
  intros Hc. destruct (code_cases c Hc) as [(-> & _ & H37 & Hu & H128)|(_ & h & l & -> & Hlow & Hhigh)]; cbn [app decode].
  - rewrite (proj2 (Z.eqb_neq c 37)), Hu, (proj2 (Z.ltb_lt c 128)) by done. done.
  - change (37 =? 37) with true. cbv match. destruct (Z.ltb_spec c 128) as [Hl|Hh].
    + destruct (Hlow Hl) as (a & b & -> & -> & <-). done.
    + destruct (Hhigh Hh) as [_ ->]. done.
Qed.
Lemma decode_encode buf : all_bytes buf -> decode (encode buf) = (if forallb (fun c => c <? 128) buf then Some buf else None).
Proof.
  induction 1 as [|c buf Hc Hb IH]; [done|]. rewrite encode_cons, decode_code, IH by done. cbn [forallb].
  destruct (c <? 128); [|done]. by destruct (forallb _ _).
Qed.

