(* ===== verification/TunDrv.v ===== *)
(** The tunnel driver: [tuntap/c_src/tun_drv.c].  A port is a tun or tap device; a frame that is read is sent to the owner,
    as long as the port is active, or once.

    The operating system is a parameter: what a call answers is a function of the calls made. [Fault] is an assertion that fails. *)
From stdpp Require Import strings.
From S2P Require Import Prelude Erts.
#[local] Open Scope Z_scope.

Definition REPLY_ERROR := 0.
Definition REPLY_OK := 1.
Definition REQUEST_GET_DEVICE := 0.
Definition REQUEST_ACTIVE := 2.
Definition ACTIVE_FALSE := 0.
Definition ACTIVE_TRUE := 1.
Definition ACTIVE_ONCE := 2.
Definition TUNNEL_BUF_SIZE := 2048.
(** [linux/if_tun.h], [net/if.h]. *)
Definition IFF_TUN := 1.
Definition IFF_TAP := 2.
Definition IFF_NO_PI := 0x1000.
Definition IFNAMSIZ : nat := 16.

Inductive io :=
  | Open (fd : Z) | Tunsetiff (fd flags : Z) (name : bytes) (err : Z) | Close (fd : Z)
  | Read (fd n : Z) (data : bytes) | Write (fd : Z) (data : bytes) (n : Z)
  | Select (port fd flag : Z) | Output (port : Z) (data : bytes) | FailurePosix (port err : Z) | Free | Fault.
Abbreviation trace := (list io).
Class Os := {
  os_open : trace -> Z;
  os_tunsetiff : trace -> Z -> Z -> bytes -> Z * bytes;   (* the error and the name of the interface *)
  os_read : trace -> Z -> Z -> Z * bytes;
  os_write : trace -> Z -> bytes -> Z * Z;   (* the count and errno *)
  os_alloc : trace -> Z -> bool;
}.
(** Documented: the kernel's name of an interface is terminated. *)
Class OsLaws (OS : Os) : Prop :=
  os_name_law tr fd flags name : let '(_, dev) := os_tunsetiff tr fd flags name in (length (c_str dev) < IFNAMSIZ)%nat.

Record tun_state := TunState { port : Z; fd : Z; dev : bytes; active : Z }.
(** The port and the calls made. *)
Record world := World { tun : tun_state; calls : trace }.

(** * Arguments *)

(** [for (; *str != ' '; str++)], [None] at the end of the string. *)
Fixpoint to_space (str : bytes) : option bytes :=
  match str with
  | [] => None
  | c :: s => if c =? 0 then None else if c =? 32 then Some str else to_space s
  end.
Fixpoint past_space (str : bytes) : option bytes :=
  match str with
  | [] => None
  | c :: s => if c =? 32 then past_space s else if c =? 0 then None else Some str
  end.
(** [while ( *str == ' ') str++]. *)
Fixpoint skip_space (str : bytes) : bytes :=
  match str with c :: s => if c =? 32 then skip_space s else str | [] => [] end.
(** [strncpy (dst, src, n)]: the characters, and zeros up to [n]. *)
Definition strncpy (dst src : bytes) (n : nat) : bytes :=
  let s := take n (c_str src) in s ++ replicate (n - length s) 0 ++ drop n dst.
(** [dev_name] is what it was when the arguments are refused. *)
Definition parse_args (str : bytes) (dev_name : bytes) (max_name_len : nat) : option (Z * bytes) :=
  str ← to_space str;
  str ← past_space str;
  mode ← (if bool_decide (take 3 str = lit "tun"%string) then Some IFF_TUN
          else if bool_decide (take 3 str = lit "tap"%string) then Some IFF_TAP else None);
  Some (mode, strncpy dev_name (skip_space (drop 3 str)) max_name_len).

Section Driver.
Context `{OS : !Os}.
Abbreviation T := (M world).

Definition act (e : io) : T unit := modify (fun w => World (tun w) (calls w ++ [e])).
Definition set_active (a : Z) : T unit :=
  modify (fun w => World (TunState (port (tun w)) (fd (tun w)) (dev (tun w)) a) (calls w)).
Definition state : T tun_state := gets tun.
Definition driver_output (data : bytes) : T unit := s ← state; act (Output (port s) data).
Definition read_frame : T (Z * bytes) := fun w =>
  let '(n, data) := os_read (calls w) (fd (tun w)) TUNNEL_BUF_SIZE in
  ((n, data), World (tun w) (calls w ++ [Read (fd (tun w)) n data])).
Definition set_input (flag : Z) : T unit := s ← state; act (Select (port s) (fd s) flag).

(** The count returned and the bytes of the answer; a block that cannot be had fails the assertion. *)
Definition ctl_reply (rep : Z) (buf : bytes) (rsize : Z) : T (Z * bytes) :=
  let len := Z.of_nat (length buf) in
  (when len + 1 >? rsize do (ok ← gets (fun w => os_alloc (calls w) (len + 1)); when negb ok do act Fault));;;
  mret (len + 1, u8 rep :: buf).

(** The first byte of a command that is empty is read all the same: [junk]. *)
Definition tun_ctl (junk : Z) (cmd : Z) (buf : bytes) (rsize : Z) : T (Z * bytes) :=
  if cmd =? REQUEST_GET_DEVICE then
    s ← state;
    ctl_reply REPLY_OK (c_str (dev s)) rsize
  else if cmd =? REQUEST_ACTIVE then
    set_active (schar (hd junk buf));;;
    s ← state;
    (if active s =? ACTIVE_FALSE then set_input 0
     else if active s =? ACTIVE_TRUE then set_input 1
     else if active s =? ACTIVE_ONCE then
       r ← read_frame;
       if 0 <? fst r then
         driver_output (snd r);;;
         set_active ACTIVE_FALSE;;;
         set_input 0
       else set_input 1
     else act Fault);;;
    ctl_reply REPLY_OK [] rsize
  else ctl_reply REPLY_ERROR [] rsize.

Definition tun_output (buf : bytes) : T unit := fun w =>
  let '(n, err) := os_write (calls w) (fd (tun w)) buf in
  (act (Write (fd (tun w)) buf n);;; when n <? 0 do act (FailurePosix (port (tun w)) err)) w.

Definition tun_input : T unit :=
  r ← read_frame;
  (when 0 <? fst r do driver_output (snd r));;;
  s ← state;
  when active s =? ACTIVE_ONCE do (set_active ACTIVE_FALSE;;; set_input 0).

Definition tun_stop : T unit := set_input 0;;; s ← state; act (Close (fd s));;; act Free.

(** ** Opening *)

(** The descriptor or an error, and the name of the interface. *)
Definition make_if (mode : Z) (dev : bytes) (tr : trace) : Z * bytes * trace :=
  let fd := os_open tr in
  let tr := tr ++ [Open fd] in
  if fd <? 0 then (-1, dev, tr) else
  let flags := Z.lor mode IFF_NO_PI in
  let name := if hd 0 dev =? 0 then replicate IFNAMSIZ 0 else strncpy (replicate IFNAMSIZ 0) dev IFNAMSIZ in
  let '(err, ifr_name) := os_tunsetiff tr fd flags name in
  let tr := tr ++ [Tunsetiff fd flags name err] in
  if err <? 0 then (err, dev, tr ++ [Close fd]) else
  (fd, memcpy_at dev 0 (c_str ifr_name ++ [0]), tr).
Inductive start_error := ERL_DRV_ERROR_ERRNO | ERL_DRV_ERROR_BADARG | ERL_DRV_ERROR_GENERAL.
(** [block] is what the new [dev] holds. *)
Definition tun_start (size : Z) (block : bytes) (port : Z) (args : bytes) : (world + start_error) * trace :=
  if negb (os_alloc [] size) then (inr ERL_DRV_ERROR_ERRNO, []) else
  match parse_args args block (IFNAMSIZ - 1) with
  | None => (inr ERL_DRV_ERROR_BADARG, [])
  | Some (mode, dev) =>
      let '(fd, dev, tr) := make_if mode dev [] in
      if fd <? 0 then (inr ERL_DRV_ERROR_GENERAL, tr) else
      let w := snd (set_input 0 (World (TunState port fd dev ACTIVE_FALSE) tr)) in (inl w, calls w)
  end.
End Driver.

(** * Frames *)

(** The emulator calls for input when the descriptor is selected. *)
Inductive tcall := Ctl (junk cmd : Z) (buf : bytes) (rsize : Z) | Out (buf : bytes) | In.
Definition selects (s : bool) (e : io) : bool := match e with Select _ _ flag => negb (flag =? 0) | _ => s end.
Definition selected (tr : trace) : bool := fold_left selects tr false.
Definition frame (e : io) : option bytes := match e with Read _ n data => if 0 <? n then Some data else None | _ => None end.
Definition message (p : Z) (e : io) : option bytes := match e with Output q data => if q =? p then Some data else None | _ => None end.
Definition frames (tr : trace) : list bytes := omap frame tr.
Definition messages (p : Z) (tr : trace) : list bytes := omap (message p) tr.

Section Frames.
Context `{OS : !Os}.
Definition exec (c : tcall) : M world unit :=
  match c with
  | Ctl junk cmd buf rsize => tun_ctl junk cmd buf rsize;;; skip
  | Out buf => tun_output buf
  | In => w ← get; when selected (calls w) do tun_input
  end.
Fixpoint execs (l : list tcall) : M world unit := match l with [] => skip | c :: l => exec c;;; execs l end.

(** The state of a port between two calls: what is read is passed on, and its descriptor is selected when it is
    active; after a failed assertion nothing is known. *)
Definition in_step (w : world) : Prop := messages (port (tun w)) (calls w) = frames (calls w) /\
  (Fault ∈ calls w \/ selected (calls w) = negb (active (tun w) =? ACTIVE_FALSE)).
Lemma selected_app a b : selected (a ++ b) = fold_left selects b (selected a).
Proof. unfold selected. apply fold_left_app. Qed.
Lemma messages_app p a b : messages p (a ++ b) = messages p a ++ messages p b.
Proof. unfold messages. apply omap_app. Qed.
Lemma frames_app a b : frames (a ++ b) = frames a ++ frames b.
Proof. unfold frames. apply omap_app. Qed.
Lemma in_step_app w s' new : in_step w -> port s' = port (tun w) -> messages (port (tun w)) new = frames new ->
  Fault ∈ new \/ fold_left selects new (negb (active (tun w) =? ACTIVE_FALSE)) = negb (active s' =? ACTIVE_FALSE) ->
  in_step (World s' (calls w ++ new)).
Proof.
  intros [Hm Hs] Hp Hn Hf. split; cbn [tun calls].
  - by rewrite Hp, messages_app, frames_app, Hm, Hn.
  - rewrite selected_app. destruct Hs as [Hs|Hs]; [left; apply elem_of_app; by left|]. rewrite Hs.
    destruct Hf as [Hf|Hf]; [left; apply elem_of_app; by right|by right].
Qed.
(** The calls a handler makes, and the state it leaves. *)
Definition makes (w : world) (s' : tun_state) (new : trace) (w' : world) : Prop := w' = World s' (calls w ++ new).
Lemma ctl_reply_makes rep buf n w : exists r new, ctl_reply rep buf n w = (r, World (tun w) (calls w ++ new)) /\ (new = [] \/ new = [Fault]).
Proof.
  unfold ctl_reply. destruct (_ >? n); run; [|exists (Z.of_nat (length buf) + 1, u8 rep :: buf), []; rewrite app_nil_r; destruct w; auto].
  destruct (os_alloc _ _); cbn; [exists (Z.of_nat (length buf) + 1, u8 rep :: buf), []; rewrite app_nil_r; destruct w; auto|].
  eexists _, [Fault]. auto.
Qed.
(** Reading a frame: what is read is sent. *)
Definition active_to (a : Z) (s : tun_state) : tun_state := TunState (port s) (fd s) (dev s) a.
Definition read_and_send (w : world) (n : Z) (data : bytes) : trace :=
  Read (fd (tun w)) n data :: (if 0 <? n then [Output (port (tun w)) data] else []).
Lemma tun_input_makes w : exists n data, os_read (calls w) (fd (tun w)) TUNNEL_BUF_SIZE = (n, data) /\
  snd (tun_input w) = (if active (tun w) =? ACTIVE_ONCE
    then World (active_to ACTIVE_FALSE (tun w)) (calls w ++ read_and_send w n data ++ [Select (port (tun w)) (fd (tun w)) 0])
    else World (tun w) (calls w ++ read_and_send w n data)).
Proof.
  destruct (os_read (calls w) (fd (tun w)) TUNNEL_BUF_SIZE) as [n data] eqn:E. exists n, data. split; [done|].
  unfold tun_input, read_frame, driver_output, state, set_active, set_input, act, read_and_send. run. rewrite E. cbn.
  destruct (0 <? n); cbn; destruct (_ =? ACTIVE_ONCE); cbn; rewrite <-?app_assoc; done.
Qed.

Definition activated (w : world) (a : Z) : tun_state * trace :=
  let p := port (tun w) in let f := fd (tun w) in
  if a =? ACTIVE_FALSE then (active_to a (tun w), [Select p f 0])
  else if a =? ACTIVE_TRUE then (active_to a (tun w), [Select p f 1])
  else if a =? ACTIVE_ONCE then
    let '(n, data) := os_read (calls w) f TUNNEL_BUF_SIZE in
    if 0 <? n then (active_to ACTIVE_FALSE (tun w), read_and_send w n data ++ [Select p f 0])
    else (active_to a (tun w), read_and_send w n data ++ [Select p f 1])
  else (active_to a (tun w), [Fault]).
Lemma tun_ctl_active_makes junk buf rsize w : exists r fault, (fault = [] \/ fault = [Fault]) /\
  tun_ctl junk REQUEST_ACTIVE buf rsize w =
    (r, World (fst (activated w (schar (hd junk buf)))) (calls w ++ snd (activated w (schar (hd junk buf))) ++ fault)).
Proof.
  set (a := schar (hd junk buf)).
  assert (exists w1, tun_ctl junk REQUEST_ACTIVE buf rsize w = ctl_reply REPLY_OK [] rsize w1 /\
    w1 = World (fst (activated w a)) (calls w ++ snd (activated w a))) as (w1 & -> & ->).
  { eexists. split; [|reflexivity]. unfold activated, tun_ctl, read_frame, driver_output, state, set_active, set_input, act, read_and_send.
    fold a. change (REQUEST_ACTIVE =? REQUEST_GET_DEVICE) with false. change (REQUEST_ACTIVE =? REQUEST_ACTIVE) with true.
    cbv match. match goal with |- context [mbind ?k (modify ?f) w] => rewrite (bind_eq (modify f) k w tt (World (active_to a (tun w)) (calls w)) eq_refl) end.
    rewrite (bind_eq (gets tun) _ (World (active_to a (tun w)) (calls w)) _ _ eq_refl). cbn [tun]. cbn [active active_to].
    destruct (a =? ACTIVE_FALSE); [done|]. destruct (a =? ACTIVE_TRUE); [done|]. destruct (a =? ACTIVE_ONCE); [|done].
    unfold mbind, M_bind. cbn [tun calls fd active_to]. destruct (os_read _ _ _) as [n data]. cbn [fst snd].
    destruct (0 <? n); unfold modify, state, gets; cbn [tun calls port fd dev active_to fst snd]; rewrite <-?app_assoc; done. }
  destruct (ctl_reply_makes REPLY_OK [] rsize (World (fst (activated w a)) (calls w ++ snd (activated w a)))) as (r & new & -> & Hn).
  exists r, new. split; [done|]. cbn [tun calls]. by rewrite <-app_assoc.
Qed.
Lemma tun_ctl_other_makes junk cmd buf rsize w : cmd <> REQUEST_ACTIVE -> exists r fault, (fault = [] \/ fault = [Fault]) /\
  tun_ctl junk cmd buf rsize w = (r, World (tun w) (calls w ++ fault)).
Proof.
  intros Hc. unfold tun_ctl. rewrite (proj2 (Z.eqb_neq _ _) Hc). destruct (_ =? _).
  - rewrite (bind_eq state _ w _ w eq_refl). destruct (ctl_reply_makes REPLY_OK (c_str (dev (tun w))) rsize w) as (r & new & -> & Hn). by exists r, new.
  - destruct (ctl_reply_makes REPLY_ERROR [] rsize w) as (r & new & -> & Hn). by exists r, new.
Qed.
Lemma tun_output_makes buf w : exists new, snd (tun_output buf w) = World (tun w) (calls w ++ new) /\ messages (port (tun w)) new = [] /\
  frames new = [] /\ forall s, fold_left selects new s = s.
Proof.
  unfold tun_output. destruct (os_write _ _ _) as [n err]. unfold act. run. destruct (n <? 0); cbn.
  - eexists [Write _ _ _; FailurePosix _ _]. by rewrite <-app_assoc.
  - by eexists [Write _ _ _].
Qed.

(** ** Every call *)

Lemma read_and_send_passes w n data : messages (port (tun w)) (read_and_send w n data) = frames (read_and_send w n data).
Proof. unfold read_and_send, messages, frames. destruct (0 <? n) eqn:E; cbn; rewrite ?E, ?Z.eqb_refl; done. Qed.
Lemma read_and_send_selects w n data s : fold_left selects (read_and_send w n data) s = s.
Proof. unfold read_and_send. by destruct (0 <? n). Qed.
Lemma activated_passes w a : let '(s', new) := activated w a in
  port s' = port (tun w) /\ messages (port (tun w)) new = frames new /\
  (Fault ∈ new \/ forall s, fold_left selects new s = negb (active s' =? ACTIVE_FALSE)).
Proof.
  unfold activated. destruct (Z.eqb_spec a ACTIVE_FALSE) as [->|]; [by auto|]. destruct (Z.eqb_spec a ACTIVE_TRUE) as [->|]; [by auto|].
  destruct (Z.eqb_spec a ACTIVE_ONCE) as [->|]; [|cbv match; split_and!; [done..|left; by left]].
  destruct (os_read _ _ _) as [m data]. pose proof (read_and_send_passes w m data) as Hp.
  destruct (0 <? m); cbv match; rewrite messages_app, frames_app, Hp; (split_and!; [done..|right; intros s; by rewrite fold_left_app]).
Qed.
Lemma exec_in_step c w : in_step w -> in_step (snd (exec c w)) /\ port (tun (snd (exec c w))) = port (tun w).
Proof.
  intros Hw. destruct c as [junk cmd buf rsize|buf|]; cbn [exec].
  - destruct (decide (cmd = REQUEST_ACTIVE)) as [->|Hc].
    + destruct (tun_ctl_active_makes junk buf rsize w) as (r & fault & Hf & E). rewrite (bind_eq _ _ _ _ _ E). cbn [skip snd].
      pose proof (activated_passes w (schar (hd junk buf))) as Ha. destruct (activated _ _) as [s' new]. cbn [fst snd tun].
      destruct Ha as (Hp & Hm & Hs). split; [|done]. apply in_step_app; [done..| |].
      * rewrite messages_app, frames_app, Hm. by destruct Hf as [->| ->].
      * destruct Hs as [Hs|Hs]; [left; apply elem_of_app; by left|]. destruct Hf as [->| ->]; [|left; apply elem_of_app; right; by left].
        right. by rewrite app_nil_r.
    + destruct (tun_ctl_other_makes junk cmd buf rsize w Hc) as (r & fault & Hf & E). rewrite (bind_eq _ _ _ _ _ E). cbn [skip snd tun].
      split; [|done]. apply in_step_app; [done..|by destruct Hf as [->| ->]|]. destruct Hf as [->| ->]; [by right|left; by left].
  - destruct (tun_output_makes buf w) as (new & E & Hm & Hfr & Hs). rewrite E. cbn [tun]. split; [|done].
    apply in_step_app; [done..|by rewrite Hm, Hfr|]. right. by rewrite Hs.
  - rewrite (bind_eq get _ w w w eq_refl). destruct (selected _); [|done].
    destruct (tun_input_makes w) as (n & data & _ & E). rewrite E. pose proof (read_and_send_passes w n data) as Hp.
    destruct (Z.eqb_spec (active (tun w)) ACTIVE_ONCE) as [Ha|Ha]; cbn [tun]; (split; [|done]).
    + apply in_step_app; [done..| |].
      * rewrite messages_app, frames_app, Hp. done.
      * right. by rewrite fold_left_app, read_and_send_selects.
    + apply in_step_app; [done..|]. right. by rewrite read_and_send_selects.
Qed.
Lemma execs_in_step l : forall w, in_step w -> in_step (snd (execs l w)) /\ port (tun (snd (execs l w))) = port (tun w).
Proof.
  induction l as [|c l IH]; intros w Hw; cbn [execs]; [done|]. destruct (exec_in_step c w Hw) as [H1 P1].
  destruct (exec c w) as [[] w1] eqn:E. rewrite (bind_eq _ _ _ _ _ E). cbn [snd] in *. destruct (IH w1 H1) as [H2 P2].
  split; [done|congruence].
Qed.
End Frames.

(** * The theorems *)

(** What the port was asked for, one request after another. *)
Definition not_request (c : tcall) : Prop := match c with Ctl _ cmd _ _ => cmd <> REQUEST_ACTIVE | _ => True end.

Section Once.
Context `{OS : !Os}.
(** A passive port whose descriptor is not selected sends nothing. *)
Lemma passive_exec c w : not_request c -> active (tun w) = ACTIVE_FALSE -> selected (calls w) = false -> exists new,
  snd (exec c w) = World (tun w) (calls w ++ new) /\ messages (port (tun w)) new = [] /\ frames new = [] /\ fold_left selects new false = false.
Proof.
  intros Hc Ha Hs. destruct c as [junk cmd buf rsize|buf|]; cbn [exec not_request] in *.
  - destruct (tun_ctl_other_makes junk cmd buf rsize w Hc) as (r & fault & Hf & E). rewrite (bind_eq _ _ _ _ _ E).
    exists fault. split; [done|]. by destruct Hf as [->| ->].
  - destruct (tun_output_makes buf w) as (new & E & Hm & Hf & Hn). exists new. by split_and!.
  - rewrite (bind_eq get _ w w w eq_refl), Hs. exists []. rewrite app_nil_r. by destruct w.
Qed.
Lemma passive_execs l : forall w, Forall not_request l -> active (tun w) = ACTIVE_FALSE -> selected (calls w) = false -> exists new,
  snd (execs l w) = World (tun w) (calls w ++ new) /\ messages (port (tun w)) new = [] /\ frames new = [].
Proof.
  induction l as [|c l IH]; intros w Hl Ha Hs; cbn [execs]; [exists []; rewrite app_nil_r; by destruct w|].
  apply Forall_cons in Hl as [Hc Hl]. destruct (passive_exec c w Hc Ha Hs) as (n1 & E1 & M1 & F1 & S1).
  destruct (exec c w) as [[] w1] eqn:E. rewrite (bind_eq _ _ _ _ _ E). cbn [snd] in E1. subst w1.
  destruct (IH (World (tun w) (calls w ++ n1)) Hl Ha) as (n2 & E2 & M2 & F2); [cbn [calls]; by rewrite selected_app, Hs|].
  exists (n1 ++ n2). rewrite E2. cbn [tun calls] in *. rewrite messages_app, frames_app, M1, F1, app_assoc. done.
Qed.
(** A port active once: its next input ends that, with the frame it reads. *)
Lemma once_execs l : forall w, Forall not_request l -> active (tun w) = ACTIVE_ONCE -> exists s' new,
  snd (execs l w) = World s' (calls w ++ new) /\ messages (port (tun w)) new = frames new /\
  ((s' = tun w /\ frames new = []) \/ (active s' = ACTIVE_FALSE /\ (length (frames new) <= 1)%nat)).
Proof.
  induction l as [|c l IH]; intros w Hl Ha; cbn [execs]; [exists (tun w), []; rewrite app_nil_r; destruct w; cbn; auto|].
  apply Forall_cons in Hl as [Hc Hl].
  assert (forall new, snd (exec c w) = World (tun w) (calls w ++ new) -> messages (port (tun w)) new = [] -> frames new = [] ->
    exists s' new, snd ((exec c;;; execs l) w) = World s' (calls w ++ new) /\ messages (port (tun w)) new = frames new /\
    ((s' = tun w /\ frames new = []) \/ (active s' = ACTIVE_FALSE /\ (length (frames new) <= 1)%nat))) as Hquiet.
  { intros new E1 M1 F1. destruct (exec c w) as [[] w1] eqn:E. rewrite (bind_eq _ _ _ _ _ E). cbn [snd] in E1. subst w1.
    destruct (IH (World (tun w) (calls w ++ new)) Hl Ha) as (s' & n2 & E2 & M2 & R2). exists s', (new ++ n2).
    rewrite E2. cbn [tun calls] in *. rewrite messages_app, frames_app, M1, F1, app_assoc. done. }
  destruct c as [junk cmd buf rsize|buf|].
  - destruct (tun_ctl_other_makes junk cmd buf rsize w Hc) as (r & fault & Hf & E). apply (Hquiet fault); [|by destruct Hf as [->| ->]..].
    cbn [exec]. by rewrite (bind_eq _ _ _ _ _ E).
  - destruct (tun_output_makes buf w) as (new & E & Hm & Hf & Hn). by apply (Hquiet new).
  - destruct (selected (calls w)) eqn:Es.
    + clear Hquiet. destruct (tun_input_makes w) as (n & data & _ & E1). rewrite Ha in E1. change (ACTIVE_ONCE =? ACTIVE_ONCE) with true in E1. cbv match in E1.
      set (n1 := read_and_send w n data ++ _) in *. assert (exec In w = tun_input w) as EIn by (cbn [exec]; by rewrite (bind_eq get _ w w w eq_refl), Es).
      destruct (exec In w) as [[] w1] eqn:E. rewrite (bind_eq _ _ _ _ _ E). rewrite <-EIn in E1. cbn [snd] in E1. subst w1.
      assert (messages (port (tun w)) n1 = frames n1 /\ (length (frames n1) <= 1)%nat) as [M1 L1].
      { subst n1. rewrite messages_app, frames_app, read_and_send_passes. split; [done|]. unfold read_and_send, frames. destruct (0 <? n) eqn:E0; cbn; rewrite E0; cbn; lia. }
      destruct (passive_execs l (World (active_to ACTIVE_FALSE (tun w)) (calls w ++ n1)) Hl eq_refl) as (n2 & E2 & M2 & F2).
      { cbn [calls]. subst n1. by rewrite app_assoc, selected_app. }
      rewrite E2. cbn [tun calls port active_to] in *. exists (active_to ACTIVE_FALSE (tun w)), (n1 ++ n2). rewrite app_assoc.
      split; [done|]. rewrite messages_app, frames_app, M1, M2, F2, app_nil_r. split; [done|]. right. done.
    + apply (Hquiet []); [|done..]. cbn [exec]. rewrite (bind_eq get _ w w w eq_refl), Es, app_nil_r. by destruct w.
Qed.
End Once.

(** C18: Frames pass through: after any calls of a port in any order, the frames sent to the owner are those read from the device, in order,
    and, unless an assertion failed, the device is waited for just when the port is active. *)
Theorem frames_delivered `{OS : !Os} (l : list tcall) size block p args w0 :
  fst (tun_start size block p args) = inl w0 ->
  let w := snd (execs l w0) in
  messages p (calls w) = frames (calls w) /\
  (Fault ∈ calls w \/ selected (calls w) = negb (active (tun w) =? ACTIVE_FALSE)).
Proof.
  intros H0. assert (in_step w0 /\ port (tun w0) = p) as [Hw0 <-].
  { revert H0. unfold tun_start. destruct (negb _); [done|]. destruct (parse_args _ _ _) as [[mode dev0]|]; [|done]. unfold make_if. cbv zeta.
    destruct (os_open [] <? 0); [done|]. destruct (os_tunsetiff _ _ _ _) as [err name]. destruct (err <? 0) eqn:Ee.
    - rewrite Ee. done.
    - destruct (os_open [] <? 0) eqn:Eo; [done|]. cbn. intros [= <-]. split; [|done]. split; [done|]. by right. }
  intros w. destruct (execs_in_step l w0 Hw0) as [[Hm Hs] Hp]. fold w in Hm, Hs, Hp. rewrite Hp in Hm. done.
Qed.

(** Active once is one frame: from the request on, and until the next, at most one frame is sent, and when one was the port is passive. *)
Theorem once_sends_one `{OS : !Os} (l : list tcall) junk rest rsize (w : world) :
  Forall not_request l ->
  let w' := snd (execs (Ctl junk REQUEST_ACTIVE (ACTIVE_ONCE :: rest) rsize :: l) w) in
  exists new, calls w' = calls w ++ new /\ messages (port (tun w)) new = frames new /\ (length (frames new) <= 1)%nat /\
    (frames new <> [] -> active (tun w') = ACTIVE_FALSE).
Proof.
  intros Hl w'. subst w'. cbn [execs exec]. rewrite <-(app_nil_l l). cbn [app].
  destruct (tun_ctl_active_makes junk (ACTIVE_ONCE :: rest) rsize w) as (r & fault & Hf & E). cbn [hd] in E. change (schar ACTIVE_ONCE) with ACTIVE_ONCE in E.
  assert (forall k : M world unit, (tun_ctl junk REQUEST_ACTIVE (ACTIVE_ONCE :: rest) rsize;;; skip;;; k) w = k (World (fst (activated w ACTIVE_ONCE)) (calls w ++ snd (activated w ACTIVE_ONCE) ++ fault))) as Ek.
  { intros k. by rewrite (bind_eq _ _ _ _ _ E). }
  match goal with |- context [mbind ?k (mbind ?k1 ?m) w] => assert (mbind k (mbind k1 m) w = (m;;; skip;;; execs l) w) as -> end.
  { unfold mbind, M_bind. by destruct (tun_ctl _ _ _ _ w). }
  rewrite Ek. unfold activated. change (ACTIVE_ONCE =? ACTIVE_FALSE) with false. change (ACTIVE_ONCE =? ACTIVE_TRUE) with false.
  change (ACTIVE_ONCE =? ACTIVE_ONCE) with true. cbv match. destruct (os_read _ _ _) as [n data]. destruct (0 <? n) eqn:En; cbn [fst snd].
  - set (n1 := (read_and_send w n data ++ [Select (port (tun w)) (fd (tun w)) 0]) ++ fault).
    assert (messages (port (tun w)) n1 = frames n1 /\ length (frames n1) = 1%nat) as [M1 L1].
    { subst n1. rewrite !messages_app, !frames_app, read_and_send_passes. unfold read_and_send, frames. rewrite En. cbn. rewrite En. by destruct Hf as [->| ->]. }
    destruct (passive_execs l (World (active_to ACTIVE_FALSE (tun w)) (calls w ++ n1)) Hl eq_refl) as (n2 & E2 & M2 & F2).
    { cbn [calls]. subst n1. rewrite selected_app, !fold_left_app, read_and_send_selects. by destruct Hf as [->| ->]. }
    rewrite E2. cbn [tun calls port active active_to] in *. exists (n1 ++ n2). rewrite app_assoc, messages_app, frames_app, M1, M2, F2, app_nil_r.
    split_and!; try done. lia.
  - set (n1 := (read_and_send w n data ++ [Select (port (tun w)) (fd (tun w)) 1]) ++ fault).
    assert (messages (port (tun w)) n1 = [] /\ frames n1 = []) as [M1 L1].
    { subst n1. rewrite !messages_app, !frames_app, read_and_send_passes. unfold read_and_send, frames. rewrite En. cbn. rewrite En. by destruct Hf as [->| ->]. }
    destruct (once_execs l (World (active_to ACTIVE_ONCE (tun w)) (calls w ++ n1)) Hl eq_refl) as (s' & n2 & E2 & M2 & R2).
    rewrite E2. cbn [tun calls port active active_to] in *. exists (n1 ++ n2). rewrite app_assoc, messages_app, frames_app, M1, L1, M2. cbn [app].
    split; [done|]. split; [done|]. destruct R2 as [[_ ->]|[Ha Hl2]]; [split; [cbn; lia|done]|done].
Qed.

(** * Opening *)

Lemma to_space_prefix prog rest : Forall (fun c => c <> 0 /\ c <> 32) prog -> to_space (prog ++ 32 :: rest) = Some (32 :: rest).
Proof.
  induction 1 as [|c prog [H0 H32] _ IH]; [done|]. cbn [app to_space]. by rewrite (proj2 (Z.eqb_neq c 0)), (proj2 (Z.eqb_neq c 32)).
Qed.
Lemma past_space_prefix n c rest : c <> 0 -> c <> 32 -> past_space (replicate n 32 ++ c :: rest) = Some (c :: rest).
Proof.
  intros H0 H32. induction n as [|n IH]; cbn [replicate app past_space]; [by rewrite (proj2 (Z.eqb_neq c 32)), (proj2 (Z.eqb_neq c 0))|done].
Qed.
Lemma skip_space_prefix n name : hd 0 name <> 32 -> skip_space (replicate n 32 ++ name) = name.
Proof.
  intros Hn. induction n as [|n IH]; cbn [replicate app skip_space]; [|done]. destruct name as [|c name]; [done|].
  cbn [skip_space hd] in *. by rewrite (proj2 (Z.eqb_neq c 32)).
Qed.
Lemma c_str_id s : Forall (fun c => c <> 0) s -> c_str s = s.
Proof. induction 1 as [|c s Hc _ IH]; [done|]. cbn [c_str]. rewrite (proj2 (Z.eqb_neq c 0)) by done. by rewrite IH. Qed.
Lemma c_str_terminated s rest : Forall (fun c => c <> 0) s -> c_str (s ++ 0 :: rest) = s.
Proof. induction 1 as [|c s Hc _ IH]; [done|]. cbn [app c_str]. rewrite (proj2 (Z.eqb_neq c 0)) by done. by rewrite IH. Qed.
Lemma c_str_no_nul s : Forall (fun c => c <> 0) (c_str s).
Proof. induction s as [|c s IH]; cbn [c_str]; [done|]. destruct (Z.eqb_spec c 0); [done|by constructor]. Qed.
(** [mode_name] is the word of the arguments for a mode. *)
Definition mode_name (mode : Z) : bytes := if mode =? IFF_TUN then lit "tun"%string else lit "tap"%string.
Lemma parse_args_spec prog n mode m name dev k : Forall (fun c => c <> 0 /\ c <> 32) prog -> mode = IFF_TUN \/ mode = IFF_TAP ->
  hd 0 name <> 32 -> Forall (fun c => c <> 0) name ->
  parse_args (prog ++ replicate (S n) 32 ++ mode_name mode ++ replicate m 32 ++ name) dev k =
    Some (mode, take k name ++ replicate (k - length (take k name)) 0 ++ drop k dev).
Proof.
  intros Hp Hm Hn Hz. unfold parse_args. cbn [replicate app]. rewrite to_space_prefix by done. cbn [mbind option_bind].
  assert (exists c rest, mode_name mode ++ replicate m 32 ++ name = c :: rest /\ c <> 0 /\ c <> 32) as (c & rest & E & H0 & H32).
  { destruct Hm as [->| ->]; by eexists _, _. }
  rewrite E. change (32 :: replicate n 32 ++ c :: rest) with (replicate (S n) 32 ++ c :: rest). rewrite past_space_prefix by done.
  cbn [mbind option_bind]. rewrite <-E.
  assert (length (mode_name mode) = 3%nat) as L3 by (by destruct Hm as [->| ->]).
  rewrite take_app_length', drop_app_length', skip_space_prefix by done. unfold strncpy. rewrite c_str_id by done.
  destruct Hm as [->| ->]; [rewrite bool_decide_eq_true_2 by done|rewrite bool_decide_eq_false_2, bool_decide_eq_true_2 by done]; done.
Qed.

Lemma c_str_app s rest : Forall (fun c => c <> 0) s -> c_str (s ++ rest) = s ++ c_str rest.
Proof. induction 1 as [|c s Hc _ IH]; [done|]. cbn [app c_str]. rewrite (proj2 (Z.eqb_neq c 0)) by done. by rewrite IH. Qed.
(** The name asked for. *)
Definition asked_name (dev : bytes) : bytes :=
  if hd 0 dev =? 0 then replicate IFNAMSIZ 0 else strncpy (replicate IFNAMSIZ 0) dev IFNAMSIZ.
Lemma asked_name_spec name block : Forall (fun c => c <> 0) name -> length block = IFNAMSIZ ->
  c_str (take 15 (asked_name (take 15 name ++ replicate (15 - length (take 15 name)) 0 ++ drop 15 block))) = take 15 name.
Proof.
  intros Hz Hb. assert (Forall (fun c => c <> 0) (take 15 name)) as Ht by by apply Forall_take.
  set (t := take 15 name) in *. assert (length t <= 15)%nat as Hl by (subst t; rewrite length_take; lia). clearbody t.
  unfold asked_name. destruct (Z.eqb_spec (hd 0 (t ++ replicate (15 - length t) 0 ++ drop 15 block)) 0) as [E|E].
  { destruct t as [|c t]; [done|]. cbn in E. apply Forall_cons in Ht as [Hc _]. done. }
  unfold strncpy. rewrite (c_str_app t) by done. destruct (decide (length t < 15)%nat) as [Hlt|Hge].
  - replace (15 - length t)%nat with (S (14 - length t)) by lia. cbn [replicate app c_str]. change (0 =? 0) with true. cbv match.
    rewrite app_nil_r, (take_ge t) by (unfold IFNAMSIZ; lia). rewrite take_app_ge, firstn_app by lia.
    replace (IFNAMSIZ - length t)%nat with (S (15 - length t)) by (unfold IFNAMSIZ; lia).
    replace (15 - length t)%nat with (S (14 - length t)) by lia. cbn [replicate take app]. by apply c_str_terminated.
  - replace (15 - length t)%nat with 0%nat by lia. cbn [replicate app].
    rewrite (take_app_ge t) by (unfold IFNAMSIZ; lia). rewrite <-app_assoc, (take_app_length' t) by lia. by apply c_str_id.
Qed.

(** Opening a port: "tunnel_drv tun name" or "tap" asks for an interface of that kind with the first 15 characters of the name, or with
    any name when none is given; when the kernel agrees the port has its name for it, terminated, and is passive. *)
Theorem tun_opens `{OS : !Os} `{OL : !OsLaws OS} prog n mode m name size block p :
  Forall (fun c => c <> 0 /\ c <> 32) prog -> mode = IFF_TUN \/ mode = IFF_TAP ->
  hd 0 name <> 32 -> Forall (fun c => c <> 0) name -> length block = IFNAMSIZ ->
  os_alloc [] size = true -> 0 <= os_open [] ->
  let args := prog ++ replicate (S n) 32 ++ mode_name mode ++ replicate m 32 ++ name in
  exists asked, c_str (take 15 asked) = take 15 name /\
    let '(err, ifr_name) := os_tunsetiff [Open (os_open [])] (os_open []) (Z.lor mode IFF_NO_PI) asked in
    let '(r, tr) := tun_start size block p args in
    if err <? 0 then r = inr ERL_DRV_ERROR_GENERAL /\ last tr = Some (Close (os_open []))
    else exists w, r = inl w /\ calls w = [Open (os_open []); Tunsetiff (os_open []) (Z.lor mode IFF_NO_PI) asked err; Select p (os_open []) 0] /\
      active (tun w) = ACTIVE_FALSE /\ fd (tun w) = os_open [] /\ c_str (dev (tun w)) = c_str ifr_name /\ length (dev (tun w)) = IFNAMSIZ.
Proof.
  intros Hp Hm Hn Hz Hb Ha Ho args. unfold tun_start. rewrite Ha. cbn [negb]. subst args. rewrite parse_args_spec by done.
  set (dev0 := take (IFNAMSIZ - 1) name ++ _). unfold make_if. cbv zeta. rewrite (proj2 (Z.ltb_ge _ 0)) by done.
  change (if hd 0 dev0 =? 0 then _ else _) with (asked_name dev0). exists (asked_name dev0). split; [by apply asked_name_spec|].
  cbn [app]. pose proof (os_name_law [Open (os_open [])] (os_open []) (Z.lor mode IFF_NO_PI) (asked_name dev0)) as Hname.
  destruct (os_tunsetiff _ _ _ _) as [err ifr_name]. destruct (err <? 0) eqn:Ee; [by rewrite Ee|].
  rewrite (proj2 (Z.ltb_ge (os_open []) 0)) by done. cbn. eexists. split; [reflexivity|]. cbn. split; [done|].
  assert (length dev0 = IFNAMSIZ) as Hd.
  { subst dev0. rewrite !length_app, length_replicate, length_take, length_drop, Hb. unfold IFNAMSIZ. lia. }
  split; [done|]. split; [done|]. split.
  - unfold memcpy_at. cbn [take app]. rewrite <-!app_assoc. cbn [app]. apply c_str_terminated, c_str_no_nul.
  - change (length (memcpy_at dev0 0 (c_str ifr_name ++ [0])) = IFNAMSIZ). rewrite length_memcpy_at; [done|]. rewrite length_app, Hd. cbn. lia.
Qed.

(** An input that finds no frame ends "once" too, and nothing is sent. *)
Theorem once_spent_by_empty_read `{OS : !Os} (w : world) :
  active (tun w) = ACTIVE_ONCE -> fst (os_read (calls w) (fd (tun w)) TUNNEL_BUF_SIZE) <= 0 ->
  active (tun (snd (tun_input w))) = ACTIVE_FALSE /\ messages (port (tun w)) (calls (snd (tun_input w))) = messages (port (tun w)) (calls w).
Proof.
  intros Ha Hr. destruct (tun_input_makes w) as (n & data & E & ->). rewrite E in Hr. cbn [fst] in Hr.
  rewrite Ha. change (ACTIVE_ONCE =? ACTIVE_ONCE) with true. cbn [tun calls active active_to]. split; [done|].
  rewrite messages_app. unfold read_and_send. rewrite (proj2 (Z.ltb_ge 0 n)) by done. cbn. by rewrite app_nil_r.
Qed.

(** * A device *)

Definition three_bytes : Os := {|
  os_open _ := 5;
  os_tunsetiff _ _ _ _ := (0, lit "tun0"%string ++ replicate 12 0);
  os_read _ _ _ := (3, [1; 2; 3]);
  os_write _ _ data := (Z.of_nat (length data), 0);
  os_alloc _ _ := true;
|}.
Lemma frames_delivered_witness : exists w0, fst (tun_start (OS := three_bytes) 99 (replicate 16 7) 1 (lit "tunnel_drv tun"%string)) = inl w0 /\
  let w := snd (execs (OS := three_bytes) [Ctl 0 REQUEST_ACTIVE [1] 64; In; In; Ctl 0 REQUEST_ACTIVE [0] 64; In] w0) in
  messages 1 (calls w) = [[1; 2; 3]; [1; 2; 3]] /\ messages 1 (calls w) = frames (calls w).
Proof.
  eexists. split; [reflexivity|]. split; [vm_compute; reflexivity|].
  exact (proj1 (frames_delivered (OS := three_bytes) [Ctl 0 REQUEST_ACTIVE [1] 64; In; In; Ctl 0 REQUEST_ACTIVE [0] 64; In] 99 (replicate 16 7) 1
    (lit "tunnel_drv tun"%string) _ eq_refl)).
Defined.
Lemma once_sends_one_witness : let w := World (TunState 1 5 [] ACTIVE_FALSE) [] in
  exists new, calls (snd (execs (OS := three_bytes) [Ctl 0 REQUEST_ACTIVE [2] 64; In; In] w)) = [] ++ new /\ (length (frames new) <= 1)%nat.
Proof.
  intros w. assert (Forall not_request [In; In]) as Hl by by repeat constructor.
  destruct (once_sends_one (OS := three_bytes) [In; In] 0 [] 64 w Hl) as (new & E & _ & Hn & _). by exists new.
Defined.
Lemma tun_opens_witness : exists w, fst (tun_start (OS := three_bytes) 99 (replicate 16 7) 1 (lit "tunnel_drv tap tap0"%string)) = inl w /\
  active (tun w) = ACTIVE_FALSE /\ c_str (dev (tun w)) = lit "tun0"%string.
Proof.
  assert (OsLaws three_bytes) as OL by (intros tr f fl name; vm_compute; lia).
  destruct (tun_opens (OS := three_bytes) (lit "tunnel_drv"%string) 0 IFF_TAP 1 (lit "tap0"%string) 99 (replicate 16 7) 1) as (asked & _ & w & Hw & _ & Ha & _ & Hd & _).
  - repeat constructor; done.
  - by right.
  - done.
  - repeat constructor; done.
  - done.
  - done.
  - done.
  - exists w. exact (conj Hw (conj Ha Hd)).
Defined.
