(* ===== verification/IconvDrv.v ===== *)
(** The character set driver: [iconv/c_src/iconv_drv.c] (and its copy in [esmb/c_src]).  A port command opens a conversion,
    converts a string or closes a conversion, and is answered by one message to the caller.

    The library is a parameter; a conversion descriptor is the bytes of an [iconv_t], which the owner of
    the port keeps between commands.  The library is given pointers to two [int]s for pointers to [size_t]s, whose size is a parameter. *)
From stdpp Require Import strings.
From S2P Require Import Prelude ErlTerm Erts.
#[local] Open Scope Z_scope.

Definition IV_OPEN := 111.
Definition IV_CONV := 118.
Definition IV_CLOSE := 99.
Definition INBUF_SZ := 512.
Definition OUTBUF_SZ := INBUF_SZ * 4.
Definition CODE_STR_SZ := 64.
Definition SIZEOF_INT := 4.
(** [errno.h]. *)
Definition E2BIG := 7.
Definition EINVAL := 22.
Definition EILSEQ := 84.

(** The calls of the library, and what C leaves undefined: a read beyond the command, a store outside a local array. *)
Inductive libcall :=
  | Iconv_open (tocode fromcode : bytes) | Iconv_reset (cd : bytes) | Iconv (cd input : bytes) | Iconv_close (cd : bytes)
  | Overread | Overflow.
(** The result of a conversion: [errno] of a failure, or the bytes of the input left and the output. *)
Inductive converted := Failed (errno : Z) | Converted (ileft : Z) (out : bytes).
Class Library := {
  iconv_size : Z;   (* sizeof(iconv_t) *)
  sizeof_size_t : Z;
  iconv_open : list libcall -> bytes -> bytes -> option bytes;
  iconv : list libcall -> bytes -> bytes -> converted;
}.
(** Documented: a descriptor has its size; a conversion that succeeds takes all the input and fits the room for the output. *)
Class LibraryLaws (LIB : Library) : Prop := {
  iconv_size_law : 0 <= iconv_size < 2 ^ 16;
  iconv_open_law l a b cd : iconv_open l a b = Some cd -> Z.of_nat (length cd) = iconv_size;
  iconv_law l cd input ileft out : iconv l cd input = Converted ileft out -> ileft = 0 /\ Z.of_nat (length out) <= OUTBUF_SZ;
}.

(** [digest] of the C struct is never used. *)
Record t_iconvdrv := Iconvdrv { port : Z; dport : Z }.
Record world := World { iv : t_iconvdrv; calls : log; lib : list libcall }.
#[export] Instance world_log : HasLog world := {| log_of := calls; set_log l s := World (iv s) l (lib s) |}.

Section Driver.
Context `{RT : !Runtime} `{LIB : !Library}.
Abbreviation I := (M world).

Definition iconvdrv_start (driver_mk_port : Z -> Z) (sz port : Z) : option world :=
  if alloc_ok [] sz then Some (World (Iconvdrv port (driver_mk_port port)) [] []) else None.

Definition libcalls (l : list libcall) : I unit := modify (fun w => World (iv w) (calls w) (lib w ++ l)).

Definition driver_send_bin (to : Z) (bin : bytes) (len : Z) : I Z :=
  d ← gets iv;
  let spec := LOAD_PORT [] (dport d) in
  let spec := LOAD_ATOM spec "value" in
  let spec := LOAD_BINARY spec bin 0 len in
  let spec := LOAD_TUPLE spec 3 in
  driver_send_term to spec.
Definition driver_send_ok (to : Z) : I Z :=
  d ← gets iv;
  let spec := LOAD_PORT [] (dport d) in
  let spec := LOAD_ATOM spec "ok" in
  let spec := LOAD_TUPLE spec 2 in
  driver_send_term to spec.
Definition driver_send_error (to : Z) (am : string) : I Z :=
  d ← gets iv;
  let spec := LOAD_PORT [] (dport d) in
  let spec := LOAD_ATOM spec "error" in
  let spec := LOAD_ATOM spec am in
  let spec := LOAD_TUPLE spec 3 in
  driver_send_term to spec.

Definition iv_open (to : Z) (tocode fromcode : bytes) : I unit :=
  r ← gets (fun w => iconv_open (lib w) tocode fromcode);
  libcalls [Iconv_open tocode fromcode];;;
  match r with
  | None => driver_send_error to "einval";;; skip
  | Some cd =>
      ok ← driver_alloc_ok iconv_size;
      if negb ok : bool then libcalls [Iconv_close cd];;; driver_send_error to "enomem";;; skip
      else driver_send_bin to cd iconv_size;;; skip
  end.

(** [ileft] and [oleft] are [int]s; a [size_t] that is larger is read, and written, beyond them. *)
Definition iv_conv (to : Z) (cd input : bytes) : I unit :=
  libcalls [Iconv_reset cd];;;
  (when SIZEOF_INT <? sizeof_size_t do libcalls [Overread; Overflow]);;;
  r ← gets (fun w => iconv (lib w) cd input);
  libcalls [Iconv cd input];;;
  match r with
  | Failed errno =>
      (if errno =? EILSEQ then driver_send_error to "eilseq"
       else if errno =? EINVAL then driver_send_error to "einval"
       else if errno =? E2BIG then driver_send_error to "e2big"
       else driver_send_error to "unknown");;; skip
  | Converted ileft out =>
      when ileft =? 0 do (
        let len := Z.of_nat (length out) in
        ok ← driver_alloc_ok len;
        if negb ok : bool then driver_send_error to "enomem";;; skip
        else driver_send_bin to out len;;; skip)
  end.

Definition iv_close (to : Z) (cd : bytes) : I unit := libcalls [Iconv_close cd];;; driver_send_ok to;;; skip.

(** [i = get_int16(bp); bp += 2; memcpy(dst, bp, i); bp += i]: the bytes and what follows; [room] is the size of [dst]. *)
Definition field (room : Z) (bp : bytes) : I (bytes * bytes) :=
  (when (length bp <? 2)%nat do libcalls [Overread]);;;
  let i := get_int16 bp in
  let bp := drop 2 bp in
  (when Z.of_nat (length bp) <? i do libcalls [Overread]);;;
  (when room <? i do libcalls [Overflow]);;;
  mret (take (Z.to_nat i) bp, drop (Z.to_nat i) bp).
(** A descriptor that comes with fewer bytes has the rest of [cd]. *)
Definition to_cd (junk b : bytes) : bytes := b ++ drop (length b) junk.
(** [tocode[i] = 0] needs room for it. [junk]: what the local [cd] holds. *)
Definition iconvdrv_from_erlang (junk : bytes) (to : Z) (buf : bytes) : I unit :=
  (when (length buf <? 1)%nat do libcalls [Overread]);;;
  let i := u32 (schar (byte_at buf 0)) in
  let bp := drop 1 buf in
  if i =? IV_OPEN then
    a ← field (CODE_STR_SZ - 1) bp;
    b ← field (CODE_STR_SZ - 1) (snd a);
    iv_open to (c_str (fst a)) (c_str (fst b))
  else if i =? IV_CONV then
    a ← field iconv_size bp;
    b ← field (2 ^ 16) (snd a);
    iv_conv to (to_cd junk (fst a)) (fst b)
  else if i =? IV_CLOSE then
    a ← field iconv_size bp;
    iv_close to (to_cd junk (fst a))
  else skip.
End Driver.

(** * Requests *)

(** The commands of [iconv.erl], and their format as in the comments of the driver. *)
Inductive request := Open (tocode fromcode : bytes) | Conv (cd input : bytes) | Close (cd : bytes).
Definition counted (b : bytes) : bytes := put_int16 (Z.of_nat (length b)) ++ b.
Definition command (r : request) : bytes :=
  match r with
  | Open a b => IV_OPEN :: counted a ++ counted b
  | Conv cd input => IV_CONV :: counted cd ++ counted input
  | Close cd => IV_CLOSE :: counted cd
  end.
Definition no_nul (b : bytes) : Prop := Forall (fun c => c <> 0) b.
Definition valid `{LIB : !Library} (r : request) : Prop :=
  match r with
  | Open a b => no_nul a /\ no_nul b /\ Z.of_nat (length a) < CODE_STR_SZ /\ Z.of_nat (length b) < CODE_STR_SZ
  | Conv cd input => Z.of_nat (length cd) = iconv_size /\ Z.of_nat (length input) < 2 ^ 16
  | Close cd => Z.of_nat (length cd) = iconv_size
  end.
(** The library is called so, and the caller answered so. *)
Definition lib_of `{RT : !Runtime} `{LIB : !Library} (w : world) (r : request) : list libcall :=
  match r with
  | Open a b => Iconv_open a b :: match iconv_open (lib w) a b with Some cd => if alloc_ok (calls w) iconv_size then [] else [Iconv_close cd] | None => [] end
  | Conv cd input => [Iconv_reset cd; Iconv cd input]
  | Close cd => [Iconv_close cd]
  end.
Definition error_of (errno : Z) : string :=
  if errno =? EILSEQ then "eilseq" else if errno =? EINVAL then "einval" else if errno =? E2BIG then "e2big" else "unknown".
Definition answer `{RT : !Runtime} `{LIB : !Library} (w : world) (r : request) : term :=
  let port := TPort (dport (iv w)) in
  let error e := TTuple [port; TAtom "error"; TAtom e] in
  let value b n := if alloc_ok (calls w) n then TTuple [port; TAtom "value"; TBinary b] else error "enomem" in
  match r with
  | Open a b => match iconv_open (lib w) a b with Some cd => value cd iconv_size | None => error "einval" end
  | Conv cd input =>
      match iconv (lib w ++ [Iconv_reset cd]) cd input with
      | Failed errno => error (error_of errno)
      | Converted _ out => value out (Z.of_nat (length out))
      end
  | Close cd => TTuple [port; TAtom "ok"]
  end.

Section Answers.
Context `{RT : !Runtime} `{LIB : !Library}.
Lemma get_counted b rest : Z.of_nat (length b) < 2 ^ 16 -> get_int16 (counted b ++ rest) = Z.of_nat (length b).
Proof. intros Hb. unfold counted. rewrite <-app_assoc, get_put_int16. apply wrap_small. lia. Qed.
Lemma field_counted room b rest w : Z.of_nat (length b) < 2 ^ 16 -> Z.of_nat (length b) <= room ->
  field room (counted b ++ rest) w = ((b, rest), w).
Proof.
  intros Hb Hr. unfold field. rewrite get_counted by done.
  assert (drop 2 (counted b ++ rest) = b ++ rest) as -> by done.
  assert ((length (counted b ++ rest) <? 2)%nat = false) as -> by done.
  cbv zeta. rewrite (proj2 (Z.ltb_ge (Z.of_nat (length (b ++ rest))) _)) by (rewrite length_app; lia).
  rewrite (proj2 (Z.ltb_ge room _)) by lia.
  rewrite Nat2Z.id, take_app_length, drop_app_length. done.
Qed.
Lemma field_counted_end room b w : Z.of_nat (length b) < 2 ^ 16 -> Z.of_nat (length b) <= room ->
  field room (counted b) w = ((b, []), w).
Proof. intros. rewrite <-(app_nil_r (counted b)) at 1. by apply field_counted. Qed.
Lemma c_str_whole b : no_nul b -> c_str b = b.
Proof. induction 1 as [|c b Hc _ IH]; [done|]. cbn [c_str]. rewrite (proj2 (Z.eqb_neq c 0)) by done. by rewrite IH. Qed.
Lemma to_cd_full junk cd : Z.of_nat (length cd) = iconv_size -> Z.of_nat (length junk) = iconv_size -> to_cd junk cd = cd.
Proof. intros Hc Hj. unfold to_cd. rewrite drop_ge by lia. apply app_nil_r. Qed.

(** What a command does: [m] makes the calls [l] of the library, and sends one message that denotes [t]. *)
Definition answers (m : M world unit) (to : Z) (w : world) (l : list libcall) (t : term) : Prop := exists sp,
  snd (m w) = World (iv w) (calls w ++ [SendTerm to sp]) (lib w ++ l) /\ denotes sp t.
Lemma send_error_eq to am w : exists sp, denotes sp (TTuple [TPort (dport (iv w)); TAtom "error"; TAtom am]) /\
  driver_send_error to am w = (send_rc (calls w) (SendTerm to sp), World (iv w) (calls w ++ [SendTerm to sp]) (lib w)).
Proof. eexists. split; [|unfold driver_send_error; by rewrite (bind_eq (gets iv) _ w _ w eq_refl)]. solve_spec. Qed.
Lemma send_bin_eq to bin w : exists sp, denotes sp (TTuple [TPort (dport (iv w)); TAtom "value"; TBinary bin]) /\
  driver_send_bin to bin (Z.of_nat (length bin)) w = (send_rc (calls w) (SendTerm to sp), World (iv w) (calls w ++ [SendTerm to sp]) (lib w)).
Proof.
  eexists. split; [|unfold driver_send_bin; by rewrite (bind_eq (gets iv) _ w _ w eq_refl)].
  pose proof (read_all bin). solve_spec.
Qed.
Lemma send_ok_eq to w : exists sp, denotes sp (TTuple [TPort (dport (iv w)); TAtom "ok"]) /\
  driver_send_ok to w = (send_rc (calls w) (SendTerm to sp), World (iv w) (calls w ++ [SendTerm to sp]) (lib w)).
Proof. eexists. split; [|unfold driver_send_ok; by rewrite (bind_eq (gets iv) _ w _ w eq_refl)]. solve_spec. Qed.

Context `{LL : !LibraryLaws LIB}.
Lemma iv_open_answers to a b w : answers (iv_open to a b) to w (lib_of w (Open a b)) (answer w (Open a b)).
Proof.
  unfold answers, iv_open, lib_of, answer. rewrite (bind_eq (gets _) _ w _ w eq_refl).
  set (w1 := World (iv w) (calls w) (lib w ++ [Iconv_open a b])). rewrite (bind_eq (libcalls _) _ w tt w1 eq_refl).
  destruct (iconv_open (lib w) a b) as [cd|] eqn:E.
  - rewrite (bind_eq (driver_alloc_ok iconv_size) _ w1 (alloc_ok (calls w) iconv_size) w1) by reflexivity. rewrite <-(iconv_open_law _ _ _ _ E).
    destruct (alloc_ok _ _); cbn [negb].
    + destruct (send_bin_eq to cd w1) as (sp & Hsp & Es). exists sp. by rewrite (bind_eq _ _ _ _ _ Es).
    + set (w2 := World (iv w) (calls w) ((lib w ++ [Iconv_open a b]) ++ [Iconv_close cd])). rewrite (bind_eq (libcalls _) _ w1 tt w2 eq_refl).
      destruct (send_error_eq to "enomem" w2) as (sp & Hsp & Es). exists sp. rewrite (bind_eq _ _ _ _ _ Es). cbn [skip snd lib iv calls w2].
      by rewrite <-app_assoc.
  - destruct (send_error_eq to "einval" w1) as (sp & Hsp & Es). exists sp. by rewrite (bind_eq _ _ _ _ _ Es).
Qed.
Lemma iv_conv_answers to cd input w : sizeof_size_t <= SIZEOF_INT -> answers (iv_conv to cd input) to w (lib_of w (Conv cd input)) (answer w (Conv cd input)).
Proof.
  intros Hsize. unfold answers, iv_conv, lib_of, answer. rewrite (proj2 (Z.ltb_ge _ _)) by done. set (w1 := World (iv w) (calls w) (lib w ++ [Iconv_reset cd])).
  rewrite (bind_eq (libcalls _) _ w tt w1 eq_refl), (bind_eq skip _ w1 tt w1 eq_refl), (bind_eq (gets _) _ w1 _ w1 eq_refl).
  change (lib w1) with (lib w ++ [Iconv_reset cd]). set (w2 := World (iv w) (calls w) (lib w ++ [Iconv_reset cd; Iconv cd input])).
  rewrite (bind_eq (libcalls _) _ w1 tt w2) by (unfold libcalls, modify; cbn; by rewrite <-app_assoc).
  destruct (iconv _ cd input) as [errno|ileft out] eqn:E.
  - assert (forall am, exists sp, snd ((driver_send_error to am;;; skip) w2) = World (iv w) (calls w ++ [SendTerm to sp]) (lib w ++ [Iconv_reset cd; Iconv cd input]) /\
      denotes sp (TTuple [TPort (dport (iv w)); TAtom "error"; TAtom am])) as Hs.
    { intros am. destruct (send_error_eq to am w2) as (sp & Hsp & Es). exists sp. by rewrite (bind_eq _ _ _ _ _ Es). }
    unfold error_of. destruct (errno =? EILSEQ); [apply Hs|]. destruct (errno =? EINVAL); [apply Hs|]. destruct (errno =? E2BIG); apply Hs.
  - destruct (iconv_law _ _ _ _ _ E) as [-> _]. cbn [Z.eqb]. cbv zeta.
    rewrite (bind_eq (driver_alloc_ok _) _ w2 (alloc_ok (calls w) (Z.of_nat (length out))) w2) by reflexivity. destruct (alloc_ok _ _); cbn [negb].
    + destruct (send_bin_eq to out w2) as (sp & Hsp & Es). exists sp. by rewrite (bind_eq _ _ _ _ _ Es).
    + destruct (send_error_eq to "enomem" w2) as (sp & Hsp & Es). exists sp. by rewrite (bind_eq _ _ _ _ _ Es).
Qed.
Lemma iv_close_answers to cd w : answers (iv_close to cd) to w (lib_of w (Close cd)) (answer w (Close cd)).
Proof.
  unfold answers, iv_close, lib_of, answer. set (w1 := World (iv w) (calls w) (lib w ++ [Iconv_close cd])).
  rewrite (bind_eq (libcalls _) _ w tt w1 eq_refl). destruct (send_ok_eq to w1) as (sp & Hsp & Es). exists sp. by rewrite (bind_eq _ _ _ _ _ Es).
Qed.
End Answers.

(** C36: Every command is answered by one message to its caller: where [size_t] has the size of [int], a command written in the documented format, with names of fewer
    than 64 bytes and none of them zero, makes just the calls of the library that it stands for, with the strings and the descriptor it carries, and nothing out of bounds, and the message
    has the result: the descriptor, the converted bytes or ok, or the error. Longer names, and larger [size_t]s, go out of bounds ([long_name_overflows],
    [conversion_overflows]). *)
Theorem commands_answered `{RT : !Runtime} `{LIB : !Library} `{LL : !LibraryLaws LIB} junk to (r : request) (w : world) :
  sizeof_size_t = SIZEOF_INT -> valid r -> Z.of_nat (length junk) = iconv_size ->
  exists sp, snd (iconvdrv_from_erlang junk to (command r) w) = World (iv w) (calls w ++ [SendTerm to sp]) (lib w ++ lib_of w r) /\
    denotes sp (answer w r).
Proof.
  intros Hsize Hv Hj. pose proof iconv_size_law as Hsz. unfold iconvdrv_from_erlang. destruct r as [a b|cd input|cd]; cbn [command valid] in *; cbn [length Nat.ltb Nat.leb].
  - destruct Hv as (Ha & Hb & Hla & Hlb). rewrite (bind_eq skip _ w tt w eq_refl). cbv zeta. cbn [byte_at nth drop].
    change (u32 (schar IV_OPEN) =? IV_OPEN) with true. cbv match. unfold CODE_STR_SZ in *.
    erewrite (bind_eq (field _ _) _ w) by (apply field_counted; lia). cbn [fst snd].
    erewrite (bind_eq (field _ _) _ w) by (apply field_counted_end; lia). cbn [fst snd]. rewrite !c_str_whole by done.
    apply iv_open_answers.
  - destruct Hv as (Hcd & Hin). rewrite (bind_eq skip _ w tt w eq_refl). cbv zeta. cbn [byte_at nth drop].
    change (u32 (schar IV_CONV) =? IV_OPEN) with false. change (u32 (schar IV_CONV) =? IV_CONV) with true. cbv match.
    erewrite (bind_eq (field _ _) _ w) by (apply field_counted; lia). cbn [fst snd].
    erewrite (bind_eq (field _ _) _ w) by (apply field_counted_end; lia). cbn [fst snd]. rewrite to_cd_full by done.
    apply iv_conv_answers. lia.
  - rewrite (bind_eq skip _ w tt w eq_refl). cbv zeta. cbn [byte_at nth drop].
    change (u32 (schar IV_CLOSE) =? IV_OPEN) with false. change (u32 (schar IV_CLOSE) =? IV_CONV) with false.
    change (u32 (schar IV_CLOSE) =? IV_CLOSE) with true. cbv match.
    erewrite (bind_eq (field _ _) _ w) by (apply field_counted_end; lia). cbn [fst snd]. rewrite to_cd_full by done.
    apply iv_close_answers.
Qed.

(** A library with one conversion, which copies. *)
Definition copying : Library := {|
  iconv_size := 4;
  sizeof_size_t := 4;
  iconv_open _ a b := if bool_decide (a = b) then Some [1; 2; 3; 4] else None;
  iconv _ _ input := if Z.of_nat (length input) <=? OUTBUF_SZ then Converted 0 input else Failed E2BIG;
|}.
#[export] Instance copying_laws : LibraryLaws copying.
Proof.
  split; cbn.
  - lia.
  - intros l a b cd. case_bool_decide; [|done]. by intros [= <-].
  - intros l cd input ileft out. destruct (Z.leb_spec (Z.of_nat (length input)) OUTBUF_SZ); [|done]. by intros [= <- <-].
Qed.
Lemma commands_answered_witness : exists sp,
  snd (iconvdrv_from_erlang (RT := rt_ok) (LIB := copying) [0; 0; 0; 0] 7 (command (Conv [1; 2; 3; 4] [104; 105])) (World (Iconvdrv 1 2) [] [])) =
    World (Iconvdrv 1 2) [SendTerm 7 sp] [Iconv_reset [1; 2; 3; 4]; Iconv [1; 2; 3; 4] [104; 105]] /\
  denotes sp (TTuple [TPort 2; TAtom "value"; TBinary [104; 105]]).
Proof.
  exact (commands_answered (RT := rt_ok) (LIB := copying) [0; 0; 0; 0] 7 (Conv [1; 2; 3; 4] [104; 105]) (World (Iconvdrv 1 2) [] [])
    ltac:(done) (conj eq_refl eq_refl) eq_refl).
Defined.

(** * Long names *)

Section Grows.
Context `{RT : !Runtime} `{LIB : !Library}.
Definition grows (w w' : world) : Prop := exists l, lib w' = lib w ++ l.
#[export] Instance grows_preorder : PreOrder grows.
Proof.
  split; [intros w; exists []; by rewrite app_nil_r|]. intros a b c [n1 E1] [n2 E2]. exists (n1 ++ n2). by rewrite E2, E1, app_assoc.
Qed.
Lemma grows_libcalls l : ensures grows (libcalls l).
Proof. intros w. by exists l. Qed.
Lemma grows_send to sp : ensures grows (driver_send_term to sp).
Proof. intros w. exists []. cbn. by rewrite app_nil_r. Qed.
Lemma grows_alloc n : ensures grows (driver_alloc_ok n).
Proof. intros w. exists []. cbn. by rewrite app_nil_r. Qed.
Lemma grows_iv_open to a b : ensures grows (iv_open to a b).
Proof.
  unfold iv_open, driver_send_bin, driver_send_error. walk ltac:(first [apply grows_libcalls | apply grows_send | apply grows_alloc]).
Qed.
Lemma grows_field room bp : ensures grows (field room bp).
Proof. unfold field. walk ltac:(apply grows_libcalls). Qed.
End Grows.

(** A name of 64 bytes or more is copied all the same, beyond the array for it. *)
Theorem long_name_overflows `{RT : !Runtime} `{LIB : !Library} junk to a b (w : world) :
  CODE_STR_SZ <= Z.of_nat (length a) < 2 ^ 16 ->
  exists l, lib (snd (iconvdrv_from_erlang junk to (command (Open a b)) w)) = lib w ++ Overflow :: l.
Proof.
  intros [Hlo Hhi]. unfold CODE_STR_SZ in *. unfold iconvdrv_from_erlang. cbn [command length Nat.ltb Nat.leb]. rewrite (bind_eq skip _ w tt w eq_refl). cbv zeta.
  cbn [byte_at nth drop]. change (u32 (schar IV_OPEN) =? IV_OPEN) with true. cbv match.
  set (w1 := World (iv w) (calls w) (lib w ++ [Overflow])).
  assert (exists r, field (CODE_STR_SZ - 1) (counted a ++ counted b) w = (r, w1)) as [r E].
  { eexists. unfold field. rewrite get_counted by done. assert ((length (counted a ++ counted b) <? 2)%nat = false) as -> by done.
    change (drop 2 (counted a ++ counted b)) with (a ++ counted b). cbv zeta.
    rewrite (proj2 (Z.ltb_ge (Z.of_nat (length (a ++ counted b))) _)) by (rewrite length_app; lia).
    rewrite (proj2 (Z.ltb_lt (CODE_STR_SZ - 1) _)) by (unfold CODE_STR_SZ; lia). reflexivity. }
  rewrite (bind_eq _ _ _ _ _ E).
  match goal with |- context [snd (?m w1)] => assert (ensures grows m) as Hg end.
  { apply ensures_bind; [apply _|apply grows_field|intros x; apply grows_iv_open]. }
  destruct (Hg w1) as [l El]. exists l. rewrite El. cbn [lib w1]. by rewrite <-app_assoc.
Qed.
Lemma long_name_overflows_witness : exists l, lib (snd (iconvdrv_from_erlang (RT := rt_ok) (LIB := copying) [] 7 (command (Open (replicate 64 97) [])) (World (Iconvdrv 1 2) [] []))) =
  Overflow :: l.
Proof. apply (long_name_overflows (RT := rt_ok) (LIB := copying) [] 7 (replicate 64 97) [] (World (Iconvdrv 1 2) [] [])). by vm_compute. Defined.

(** Where [size_t] is larger than [int], every conversion goes out of bounds. *)
Theorem conversion_overflows `{RT : !Runtime} `{LIB : !Library} `{LL : !LibraryLaws LIB} junk to cd input (w : world) :
  SIZEOF_INT < sizeof_size_t -> valid (Conv cd input) -> Z.of_nat (length junk) = iconv_size ->
  exists l, lib (snd (iconvdrv_from_erlang junk to (command (Conv cd input)) w)) = lib w ++ Iconv_reset cd :: Overread :: Overflow :: l.
Proof.
  intros Hsize [Hcd Hin] Hj. pose proof iconv_size_law as Hsz. unfold iconvdrv_from_erlang. cbn [command length Nat.ltb Nat.leb]. rewrite (bind_eq skip _ w tt w eq_refl). cbv zeta.
  cbn [byte_at nth drop]. change (u32 (schar IV_CONV) =? IV_OPEN) with false. change (u32 (schar IV_CONV) =? IV_CONV) with true. cbv match.
  erewrite (bind_eq (field _ _) _ w) by (apply field_counted; lia). cbn [fst snd]. erewrite (bind_eq (field _ _) _ w) by (apply field_counted_end; lia). cbn [fst snd].
  rewrite to_cd_full by done. unfold iv_conv. rewrite (proj2 (Z.ltb_lt _ _)) by done. set (w1 := World (iv w) (calls w) (lib w ++ [Iconv_reset cd])). rewrite (bind_eq (libcalls _) _ w tt w1 eq_refl).
  set (w2 := World (iv w) (calls w) ((lib w ++ [Iconv_reset cd]) ++ [Overread; Overflow])). rewrite (bind_eq (libcalls _) _ w1 tt w2 eq_refl).
  match goal with |- context [snd (?m w2)] => assert (ensures grows m) as Hg end.
  { unfold driver_send_bin, driver_send_error. walk ltac:(first [apply grows_libcalls | apply grows_send | apply grows_alloc]). }
  destruct (Hg w2) as [l El]. exists l. rewrite El. cbn [lib w2]. by rewrite <-!app_assoc.
Qed.
Definition wide : Library := {| iconv_size := 4; sizeof_size_t := 8; iconv_open := iconv_open (Library := copying); iconv := iconv (Library := copying) |}.
#[export] Instance wide_laws : LibraryLaws wide.
Proof. split; [apply (iconv_size_law (LIB := copying))|apply (iconv_open_law (LIB := copying))|apply (iconv_law (LIB := copying))]. Qed.
Lemma conversion_overflows_witness : exists l,
  lib (snd (iconvdrv_from_erlang (RT := rt_ok) (LIB := wide) [0; 0; 0; 0] 7 (command (Conv [1; 2; 3; 4] [104])) (World (Iconvdrv 1 2) [] []))) =
    Iconv_reset [1; 2; 3; 4] :: Overread :: Overflow :: l.
Proof. by apply (conversion_overflows (RT := rt_ok) (LIB := wide) [0; 0; 0; 0] 7 [1; 2; 3; 4] [104] (World (Iconvdrv 1 2) [] [])). Defined.
