(* ===== verification/IntlDrv.v ===== *)
(** The translation driver: [intl/c_src/intl_drv.c].  A control command carries the arguments of a function of [libintl] or of [setlocale],
    each with its type; the answer is the string that the function returns, or the name of the error.

    The library is a parameter.  [junk i] is what is in memory at [i], when [i] is beyond the command.  [size_t] has the width of [int]. *)
From S2P Require Import Prelude Erts.
#[local] Open Scope Z_scope.

Definition INTL_GETTEXT := 1.
Definition INTL_DGETTEXT := 2.
Definition INTL_DCGETTEXT := 3.
Definition INTL_NGETTEXT := 4.
Definition INTL_DNGETTEXT := 5.
Definition INTL_DCNGETTEXT := 6.
Definition INTL_TEXTDOMAIN := 7.
Definition INTL_BINDTEXTDOMAIN := 8.
Definition INTL_BIND_TEXTDOMAIN_CODESET := 9.
Definition INTL_SETLOCALE := 10.
Definition INTL_OK := 0.
Definition INTL_ERROR := 1.
Definition INTL_INTEGER := 2.
Definition INTL_UINTEGER := 3.
Definition INTL_STRING := 4.
Definition INTL_LC_CTYPE := 0.
Definition INTL_LC_NUMERIC := 1.
Definition INTL_LC_TIME := 2.
Definition INTL_LC_COLLATE := 3.
Definition INTL_LC_MONETARY := 4.
Definition INTL_LC_MESSAGES := 5.
Definition INTL_LC_ALL := 6.
Definition INTL_LC_PAPER := 7.
Definition INTL_LC_NAME := 8.
Definition INTL_LC_ADDRESS := 9.
Definition INTL_LC_TELEPHONE := 10.
Definition INTL_LC_MEASUREMENT := 11.
Definition INTL_LC_IDENTIFICATION := 12.
(** [errno.h]. *)
Definition EINVAL := 22.

(** The calls of the library, the blocks allocated, and what C leaves undefined: a read beyond the command, a store outside the answer. *)
Inductive libcall :=
  | Gettext (msgid : bytes) | Dgettext (domain msgid : bytes) | Dcgettext (domain msgid : bytes) (category : Z)
  | Ngettext (msgid plural : bytes) (n : Z) | Dngettext (domain msgid plural : bytes) (n : Z) | Dcngettext (domain msgid plural : bytes) (n category : Z)
  | Textdomain (domain : option bytes) | Bindtextdomain (domain dirname : bytes) | Bind_textdomain_codeset (domain codeset : bytes)
  | Setlocale (category : Z) (locale : bytes).
Inductive event := Call (c : libcall) | Driver_alloc (n : Z) | Overread | Overflow.
Abbreviation events := (list event).
(** The categories of the system are parameters, too; [lib_call] is [None] for NULL. *)
Class Libintl := {
  lib_call : events -> libcall -> option bytes;
  errno : events -> Z;
  erl_errno_id : Z -> bytes;
  alloc : events -> Z -> bool;
  junk : events -> nat -> Z;
  LC_CTYPE : Z; LC_NUMERIC : Z; LC_TIME : Z; LC_COLLATE : Z; LC_MONETARY : Z; LC_MESSAGES : Z; LC_ALL : Z;
  LC_PAPER : Z; LC_NAME : Z; LC_ADDRESS : Z; LC_TELEPHONE : Z; LC_MEASUREMENT : Z; LC_IDENTIFICATION : Z;
}.
(** An answer: none, in the buffer of the emulator, or in a block. *)
Inductive reply := NoReply | InPlace (b : bytes) | Allocated (b : bytes).

Section Driver.
Context `{LIB : !Libintl} (buf : bytes).
Abbreviation I := (M events).
Definition note (e : event) : I unit := modify (fun w => w ++ [e]).
Definition peek (i : nat) : I Z :=
  if (i <? length buf)%nat then mret (byte_at buf i)
  else j ← gets (fun w => junk w i); note Overread;;; mret j.

(** * Answers *)

Definition intl_reason (code : Z) : Z * bytes := if code =? 0 then (INTL_OK, [111; 107]) else (INTL_ERROR, erl_errno_id code).
Definition ret_code (code rlen : Z) : I (Z * reply) :=
  (when rlen <? 1 do note Overflow);;;
  let b := (intl_reason code).1 :: take (Z.to_nat (rlen - 1)) (intl_reason code).2 in
  mret (Z.of_nat (length b), InPlace b).
Definition ret_string (value : option bytes) (rlen : Z) : I (Z * reply) :=
  match value with
  | None => e ← gets errno; ret_code e rlen
  | Some value =>
      let alen := Z.of_nat (length value) + 1 in
      if u32 rlen <? u32 alen then
        ok ← gets (fun w => alloc w (int32 alen));
        note (Driver_alloc (int32 alen));;;
        mret (if ok : bool then (alen, Allocated (INTL_STRING :: value)) else (-1, NoReply))
      else mret (alen, InPlace (INTL_STRING :: value))
  end.

(** * Arguments

    [aptr] as an offset, and [alen]. *)
Definition args : Type := nat * Z.
(** The characters up to the zero, where it is and what is left of [nlen]; [None] at the end. *)
Fixpoint scan (nlen : nat) (nptr : nat) : I (option (bytes * nat * nat)) :=
  match nlen with
  | O => mret None
  | S n =>
      c ← peek nptr;
      if c =? 0 then mret (Some ([], nptr, nlen))
      else
        r ← scan n (S nptr);
        mret (match r with Some (s, p, l) => Some (c :: s, p, l) | None => None end)
  end.
Definition get_string (a : args) : I (option (bytes * args)) :=
  let '(ptr, len) := a in
  c ← peek ptr;
  if negb (c =? INTL_STRING) then mret None
  else
    r ← scan (Z.to_nat len) (S ptr);
    mret (match r with Some (s, p, nlen) => Some (s, (S p, Z.of_nat nlen - 1)) | None => None end).
Definition get_word (tag : Z) (a : args) : I (option (Z * args)) :=
  let '(ptr, len) := a in
  c ← peek ptr;
  if negb (c =? tag) || (len <? 5) then mret None
  else
    b0 ← peek (ptr + 1); b1 ← peek (ptr + 2); b2 ← peek (ptr + 3); b3 ← peek (ptr + 4);
    mret (Some (get_int32 [b0; b1; b2; b3], ((ptr + 5)%nat, len - 5))).
Definition get_integer (a : args) : I (option (Z * args)) := get_word INTL_INTEGER a.
Definition get_uinteger (a : args) : I (option (Z * args)) :=
  r ← get_word INTL_UINTEGER a; mret (match r with Some (v, a) => Some (u32 v, a) | None => None end).
Definition get_category (ecode : Z) : Z :=
  if ecode =? INTL_LC_CTYPE then LC_CTYPE
  else if ecode =? INTL_LC_NUMERIC then LC_NUMERIC
  else if ecode =? INTL_LC_TIME then LC_TIME
  else if ecode =? INTL_LC_COLLATE then LC_COLLATE
  else if ecode =? INTL_LC_MONETARY then LC_MONETARY
  else if ecode =? INTL_LC_MESSAGES then LC_MESSAGES
  else if ecode =? INTL_LC_ALL then LC_ALL
  else if ecode =? INTL_LC_PAPER then LC_PAPER
  else if ecode =? INTL_LC_NAME then LC_NAME
  else if ecode =? INTL_LC_ADDRESS then LC_ADDRESS
  else if ecode =? INTL_LC_TELEPHONE then LC_TELEPHONE
  else if ecode =? INTL_LC_MEASUREMENT then LC_MEASUREMENT
  else if ecode =? INTL_LC_IDENTIFICATION then LC_IDENTIFICATION
  else -1.

(** * Commands *)

Context (rlen : Z).
(** [if (get(&aptr, &alen, &v) < 0) return ret_code(EINVAL, rbuf, rlen);] *)
Definition arg {A} (get : args -> I (option (A * args))) (a : args) (k : A -> args -> I (Z * reply)) : I (Z * reply) :=
  r ← get a; match r with None => ret_code EINVAL rlen | Some (v, a) => k v a end.
Definition category (int1 : Z) (k : Z -> I (Z * reply)) : I (Z * reply) :=
  if get_category int1 <? 0 then ret_code EINVAL rlen else k (get_category int1).
Definition call (c : libcall) : I (Z * reply) :=
  value ← gets (fun w => lib_call w c);
  note (Call c);;;
  ret_string value rlen.
Definition intl_ctl (command : Z) : I (Z * reply) :=
  let len := Z.of_nat (length buf) in
  let a := (O, len) in
  if command =? INTL_GETTEXT then arg get_string a (fun s1 _ => call (Gettext s1))
  else if command =? INTL_NGETTEXT then
    arg get_string a (fun s1 a => arg get_string a (fun s2 a => arg get_uinteger a (fun n _ => call (Ngettext s1 s2 n))))
  else if command =? INTL_DGETTEXT then arg get_string a (fun s1 a => arg get_string a (fun s2 _ => call (Dgettext s1 s2)))
  else if command =? INTL_DNGETTEXT then
    arg get_string a (fun s1 a => arg get_string a (fun s2 a => arg get_string a (fun s3 a => arg get_uinteger a (fun n _ => call (Dngettext s1 s2 s3 n)))))
  else if command =? INTL_DCGETTEXT then
    arg get_string a (fun s1 a => arg get_string a (fun s2 a => arg get_integer a (fun i _ => category i (fun c => call (Dcgettext s1 s2 c)))))
  else if command =? INTL_DCNGETTEXT then
    arg get_string a (fun s1 a => arg get_string a (fun s2 a => arg get_string a (fun s3 a => arg get_uinteger a (fun n a => arg get_integer a (fun i _ =>
      category i (fun c => call (Dcngettext s1 s2 s3 n c)))))))
  else if command =? INTL_TEXTDOMAIN then
    if len =? 0 then call (Textdomain None) else arg get_string a (fun s1 _ => call (Textdomain (Some s1)))
  else if command =? INTL_BINDTEXTDOMAIN then
    if len =? 0 then call (Textdomain None) else arg get_string a (fun s1 a => arg get_string a (fun s2 _ => call (Bindtextdomain s1 s2)))
  else if command =? INTL_BIND_TEXTDOMAIN_CODESET then
    if len =? 0 then call (Textdomain None) else arg get_string a (fun s1 a => arg get_string a (fun s2 _ => call (Bind_textdomain_codeset s1 s2)))
  else if command =? INTL_SETLOCALE then
    arg get_integer a (fun i a => category i (fun c => arg get_string a (fun s1 _ => call (Setlocale c s1))))
  else mret (-1, NoReply).
End Driver.

(** * The client

    The functions of [intl.erl]: the number of the command and its arguments, and what the caller gets from the answer. *)
Inductive argument := String_arg (s : bytes) | Integer_arg (i : Z) | Uinteger_arg (i : Z).
Definition wire (a : argument) : bytes :=
  match a with String_arg s => INTL_STRING :: s ++ [0] | Integer_arg i => INTL_INTEGER :: put_int32 i | Uinteger_arg i => INTL_UINTEGER :: put_int32 i end.
Definition request (c : libcall) : Z * list argument :=
  match c with
  | Gettext m => (INTL_GETTEXT, [String_arg m])
  | Ngettext m p n => (INTL_NGETTEXT, [String_arg m; String_arg p; Uinteger_arg n])
  | Dgettext d m => (INTL_DGETTEXT, [String_arg d; String_arg m])
  | Dngettext d m p n => (INTL_DNGETTEXT, [String_arg d; String_arg m; String_arg p; Uinteger_arg n])
  | Dcgettext d m c => (INTL_DCGETTEXT, [String_arg d; String_arg m; Integer_arg c])
  | Dcngettext d m p n c => (INTL_DCNGETTEXT, [String_arg d; String_arg m; String_arg p; Uinteger_arg n; Integer_arg c])
  | Textdomain d => (INTL_TEXTDOMAIN, [String_arg (default [] d)])
  | Bindtextdomain d n => (INTL_BINDTEXTDOMAIN, [String_arg d; String_arg n])
  | Bind_textdomain_codeset d s => (INTL_BIND_TEXTDOMAIN_CODESET, [String_arg d; String_arg s])
  | Setlocale c l => (INTL_SETLOCALE, [Integer_arg c; String_arg l])
  end.
Definition control_data (c : libcall) : bytes := concat (map wire (request c).2).
(** What the caller gets; an atom is its name. *)
Inductive result := Ok | Ok_atom (a : bytes) | Error (reason : bytes) | Integer (i : Z) | Str (s : bytes) | Function_clause.
Definition reply_of (b : bytes) : result :=
  match b with
  | [0] => Ok
  | 0 :: s => Ok_atom s
  | 1 :: s => Error s
  | [2; a3; a2; a1; a0] => Integer (get_int32 [a3; a2; a1; a0])
  | [3; a3; a2; a1; a0] => Integer (u32 (get_int32 [a3; a2; a1; a0]))
  | 4 :: s => Str s
  | _ => Function_clause
  end.
(** Strings have no zero in them, a number has 32 bits, a category is one of the thirteen. *)
Definition no_nul (s : bytes) : Prop := Forall (fun c => c <> 0) s.
Definition valid_arg (a : argument) : Prop :=
  match a with String_arg s => no_nul s | Uinteger_arg n => 0 <= n < 2 ^ 32 | Integer_arg c => 0 <= c <= 12 end.
Definition valid (c : libcall) : Prop := c <> Textdomain None /\ Forall valid_arg (request c).2.
(** The call that is made: the categories are those of the system. *)
Definition meant `{LIB : !Libintl} (c : libcall) : libcall :=
  match c with
  | Dcgettext d m c => Dcgettext d m (get_category c)
  | Dcngettext d m p n c => Dcngettext d m p n (get_category c)
  | Setlocale c l => Setlocale (get_category c) l
  | c => c
  end.
(** Documented: the categories are not negative; a string is less than half of the memory. *)
Class LibintlLaws (LIB : Libintl) : Prop := {
  categories_law : Forall (fun c => 0 <= c) [LC_CTYPE; LC_NUMERIC; LC_TIME; LC_COLLATE; LC_MONETARY; LC_MESSAGES; LC_ALL; LC_PAPER; LC_NAME; LC_ADDRESS; LC_TELEPHONE; LC_MEASUREMENT; LC_IDENTIFICATION];
  lib_call_law w c s : lib_call w c = Some s -> Z.of_nat (length s) + 1 < 2 ^ 31;
}.

Section Arguments.
Context `{LIB : !Libintl}.
Lemma peek_in pre c post w i : i = length pre -> peek (pre ++ c :: post) i w = (c, w).
Proof.
  intros ->. unfold peek. rewrite (proj2 (Nat.ltb_lt _ _)) by (rewrite length_app; cbn; lia). unfold byte_at. by rewrite app_nth2, Nat.sub_diag by lia.
Qed.
Lemma scan_string s pre post w n : no_nul s -> (length s < n)%nat ->
  scan (pre ++ s ++ 0 :: post) n (length pre) w = (Some (s, length (pre ++ s), (n - length s)%nat), w).
Proof.
  intros Hs. revert pre n. induction Hs as [|c s Hc _ IH]; intros pre n Hn; (destruct n as [|n]; [cbn in Hn; lia|]); cbn [scan app].
  - rewrite (bind_eq _ _ w 0 w) by by apply peek_in. by rewrite app_nil_r.
  - rewrite (bind_eq _ _ w c w) by by apply peek_in. rewrite (proj2 (Z.eqb_neq c 0)) by done.
    specialize (IH (pre ++ [c]) n ltac:(cbn in Hn; lia)). rewrite <-!app_assoc in IH. cbn [app] in IH. rewrite length_app, Nat.add_1_r in IH. by rewrite (bind_eq _ _ _ _ _ IH).
Qed.
(** The arguments that are left; the count may be of more. *)
Definition at_args (buf : bytes) (a : args) (l : list argument) : Prop :=
  exists pre, buf = pre ++ concat (map wire l) /\ a.1 = length pre /\ Z.of_nat (length (concat (map wire l))) <= a.2.
Lemma string_next buf rlen a s l k w : at_args buf a (String_arg s :: l) -> no_nul s -> exists a', at_args buf a' l /\ arg rlen (get_string buf) a k w = k s a' w.
Proof.
  intros (pre & -> & Ha & Hl) Hs. destruct a as [ptr len]. cbn [fst snd map concat] in *. subst ptr. unfold wire in Hl at 1. rewrite length_app in Hl. cbn [length] in Hl. rewrite length_app in Hl. cbn [length] in Hl.
  exists (length (pre ++ wire (String_arg s)), len - Z.of_nat (length s) - 1). split.
  - exists (pre ++ wire (String_arg s)). split; [by rewrite <-app_assoc|]. split; [done|]. cbn [snd]. lia.
  - unfold arg, get_string. cbn [wire app]. rewrite <-app_assoc. set (post := concat (map wire l)) in *. cbn [app].
    rewrite (bind_eq _ _ w (Some (s, (length (pre ++ INTL_STRING :: s ++ [0]), len - Z.of_nat (length s) - 1))) w); [done|].
    rewrite (bind_eq _ _ w INTL_STRING w) by by apply peek_in. cbn [Z.eqb INTL_STRING Pos.eqb negb].
    pose proof (scan_string s (pre ++ [INTL_STRING]) post w (Z.to_nat len) Hs ltac:(lia)) as E. rewrite <-!app_assoc in E. cbn [app] in E. rewrite length_app, Nat.add_1_r in E.
    rewrite (bind_eq _ _ _ _ _ E). unfold mret, M_ret. do 4 f_equal; [rewrite !length_app; cbn; rewrite length_app; cbn; lia|lia].
Qed.
Lemma get_word_arg tag pre i post w len : 5 <= len ->
  get_word (pre ++ (tag :: put_int32 i) ++ post) tag (length pre, len) w = (Some (int32 i, ((length pre + 5)%nat, len - 5)), w).
Proof.
  intros Hl. unfold get_word. cbn [app]. rewrite (bind_eq _ _ w tag w) by by apply peek_in. rewrite Z.eqb_refl, (proj2 (Z.ltb_ge len 5)) by done. cbn [negb orb].
  pose proof (get_put_int32 i []) as E. rewrite app_nil_r in E. assert (exists b0 b1 b2 b3, put_int32 i = [b0; b1; b2; b3]) as (b0 & b1 & b2 & b3 & Eb) by by do 4 eexists.
  rewrite Eb in *. cbn [app]. rewrite <-E.
  assert (forall l b k, (pre ++ tag :: b0 :: b1 :: b2 :: b3 :: post) = (pre ++ tag :: l) ++ b :: k ->
    peek (pre ++ tag :: b0 :: b1 :: b2 :: b3 :: post) (length pre + S (length l)) w = (b, w)) as Hp.
  { intros l b k ->. apply peek_in. by rewrite length_app. }
  rewrite (bind_eq _ _ _ _ _ (Hp [] b0 (b1 :: b2 :: b3 :: post) ltac:(by rewrite <-app_assoc))), (bind_eq _ _ _ _ _ (Hp [b0] b1 (b2 :: b3 :: post) ltac:(by rewrite <-app_assoc))),
    (bind_eq _ _ _ _ _ (Hp [b0; b1] b2 (b3 :: post) ltac:(by rewrite <-app_assoc))), (bind_eq _ _ _ _ _ (Hp [b0; b1; b2] b3 post ltac:(by rewrite <-app_assoc))). done.
Qed.
Lemma word_next buf tag a i l w : (exists x, wire x = tag :: put_int32 i /\ at_args buf a (x :: l)) -> exists a', at_args buf a' l /\ get_word buf tag a w = (Some (int32 i, a'), w).
Proof.
  intros (x & Hx & pre & -> & Ha & Hl). destruct a as [ptr len]. cbn [fst snd map concat] in *. subst ptr. rewrite Hx in *. rewrite length_app in Hl. cbn in Hl.
  exists ((length pre + 5)%nat, len - 5). split; [|apply get_word_arg; lia]. exists (pre ++ tag :: put_int32 i). split; [by rewrite <-app_assoc|]. split; [by rewrite length_app|]. cbn [snd]. lia.
Qed.
Lemma integer_next buf rlen a i l k w : at_args buf a (Integer_arg i :: l) -> exists a', at_args buf a' l /\ arg rlen (get_integer buf) a k w = k (int32 i) a' w.
Proof.
  intros Ha. destruct (word_next buf INTL_INTEGER a i l w) as (a' & Ha' & E); [by exists (Integer_arg i)|]. exists a'. split; [done|]. unfold arg, get_integer. by rewrite (bind_eq _ _ _ _ _ E).
Qed.
Lemma uinteger_next buf rlen a i l k w : at_args buf a (Uinteger_arg i :: l) -> exists a', at_args buf a' l /\ arg rlen (get_uinteger buf) a k w = k (u32 i) a' w.
Proof.
  intros Ha. destruct (word_next buf INTL_UINTEGER a i l w) as (a' & Ha' & E); [by exists (Uinteger_arg i)|]. exists a'. split; [done|]. unfold arg, get_uinteger.
  rewrite (bind_eq _ _ w (Some (u32 (int32 i), a')) w) by by rewrite (bind_eq _ _ _ _ _ E). by rewrite u32_int32.
Qed.
Lemma category_next `{LL : !LibintlLaws LIB} rlen c k : 0 <= c <= 12 -> category rlen (int32 c) k = k (get_category c).
Proof.
  intros Hc. rewrite sint_small by lia. unfold category. rewrite (proj2 (Z.ltb_ge (get_category c) 0)); [done|]. pose proof categories_law as H. rewrite !Forall_cons in H.
  unfold get_category. repeat case_match; try tauto. repeat match goal with E : (_ =? _) = false |- _ => apply Z.eqb_neq in E end.
  unfold INTL_LC_CTYPE, INTL_LC_NUMERIC, INTL_LC_TIME, INTL_LC_COLLATE, INTL_LC_MONETARY, INTL_LC_MESSAGES, INTL_LC_ALL, INTL_LC_PAPER, INTL_LC_NAME, INTL_LC_ADDRESS, INTL_LC_TELEPHONE,
    INTL_LC_MEASUREMENT, INTL_LC_IDENTIFICATION in *. lia.
Qed.
(** The answer to a call. *)
Lemma call_answer `{LL : !LibintlLaws LIB} rlen c w : 1 <= rlen < 2 ^ 31 -> exists l, let '((n, r), w') := call rlen c w in
  w' = (w ++ [Call c]) ++ l /\ (l = [] \/ exists n, l = [Driver_alloc n]) /\
  match lib_call w c with
  | Some s => (r = NoReply /\ n = -1 /\ alloc (w ++ [Call c]) (Z.of_nat (length s) + 1) = false /\ rlen <= Z.of_nat (length s)) \/
      n = Z.of_nat (length s) + 1 /\ (r = InPlace (INTL_STRING :: s) /\ n <= rlen \/ r = Allocated (INTL_STRING :: s) /\ l = [Driver_alloc n])
  | None => exists b, r = InPlace b /\ n = Z.of_nat (length b) /\ n <= rlen /\
      b = let e := errno (w ++ [Call c]) in (intl_reason e).1 :: take (Z.to_nat (rlen - 1)) (intl_reason e).2
  end.
Proof.
  intros Hr. unfold call. rewrite (bind_eq (gets _) _ w (lib_call w c) w), (bind_eq (note _) _ w tt (w ++ [Call c])) by done. destruct (lib_call w c) as [s|] eqn:E; cbn [ret_string].
  - pose proof (lib_call_law w c s E). rewrite !wrap_small by lia. rewrite sint_small by lia. destruct (Z.ltb_spec rlen (Z.of_nat (length s) + 1)).
    + exists [Driver_alloc (Z.of_nat (length s) + 1)]. run. destruct (alloc _ _) eqn:Ea; (split; [done|]); (split; [right; by eexists|]); [right|left].
      * split; [done|]. by right.
      * split_and!; [done|done|done|lia].
    + exists []. run. rewrite app_nil_r. (split; [done|]). split; [by left|]. right. split; [done|]. by left.
  - exists []. rewrite (bind_eq (gets _) _ _ (errno (w ++ [Call c])) (w ++ [Call c])) by done. unfold ret_code. rewrite (proj2 (Z.ltb_ge rlen 1)) by lia.
    rewrite (bind_eq skip _ _ tt _ eq_refl). cbv zeta. unfold mret, M_ret. cbv beta match. rewrite app_nil_r. split; [done|]. split; [by left|]. eexists. split_and!; [reflexivity|reflexivity| |reflexivity].
    cbn [length]. rewrite length_take. lia.
Qed.
End Arguments.

Section Requests.
Context `{LIB : !Libintl} `{LL : !LibintlLaws LIB}.
Lemma request_start l : at_args (concat (map wire l)) (O, Z.of_nat (length (concat (map wire l)))) l.
Proof. by exists []. Qed.
(** The next argument is read. *)
Ltac next Ha := lazymatch type of Ha with
  | at_args ?buf ?a (String_arg ?s :: ?l) => lazymatch goal with |- arg ?rlen _ _ ?k ?w = _ =>
      let a' := fresh "a" in let E := fresh "E" in let H := fresh "Ha" in destruct (string_next buf rlen a s l k w Ha ltac:(assumption)) as (a' & H & E); rewrite E; clear E; cbv beta; try next H end
  | at_args ?buf ?a (Integer_arg ?i :: ?l) => lazymatch goal with |- arg ?rlen _ _ ?k ?w = _ =>
      let a' := fresh "a" in let E := fresh "E" in let H := fresh "Ha" in destruct (integer_next buf rlen a i l k w Ha) as (a' & H & E); rewrite E; clear E; cbv beta;
      rewrite category_next by assumption; try next H end
  | at_args ?buf ?a (Uinteger_arg ?i :: ?l) => lazymatch goal with |- arg ?rlen _ _ ?k ?w = _ =>
      let a' := fresh "a" in let E := fresh "E" in let H := fresh "Ha" in destruct (uinteger_next buf rlen a i l k w Ha) as (a' & H & E); rewrite E; clear E; cbv beta;
      rewrite wrap_small by assumption; try next H end
  end.
Lemma request_call c rlen w : valid c -> intl_ctl (control_data c) rlen (request c).1 w = call rlen (meant c) w.
Proof.
  intros [Hd Hv]. unfold control_data. pose proof (request_start (request c).2) as Ha.
  assert ((Z.of_nat (length (concat (map wire (request c).2))) =? 0) = false) as Hl by (destruct c; cbn; by rewrite ?length_app).
  destruct c; cbn [request fst snd] in *; repeat match goal with H : Forall valid_arg (_ :: _) |- _ => apply Forall_cons in H as [? H] end; cbn [valid_arg] in *;
    unfold intl_ctl; cbn [Z.eqb Pos.eqb INTL_GETTEXT INTL_NGETTEXT INTL_DGETTEXT INTL_DNGETTEXT INTL_DCGETTEXT INTL_DCNGETTEXT INTL_TEXTDOMAIN INTL_BINDTEXTDOMAIN
      INTL_BIND_TEXTDOMAIN_CODESET INTL_SETLOCALE]; rewrite ?Hl; cbv zeta; try (next Ha; reflexivity).
  destruct domain as [d|]; [|done]. cbn [default] in *. next Ha. done.
Qed.
End Requests.
(** C37: With a buffer of at least one byte for the answer a request of the client, its strings without zero bytes and its numbers of 32 bits, makes the call it names, with its arguments and the category of the system, reads nothing beyond the command, and is answered: the caller gets the
    string that the function returned; when it returned none, the name of what is in [errno] after the call, and [ok] where that is 0, up to what fits; the answer fits the buffer, or
    has a block of its length. Without memory for a string that does not fit the buffer there is no answer. *)
Theorem intl_request_answered `{LIB : !Libintl} `{LL : !LibintlLaws LIB} (c : libcall) (rlen : Z) (w : events) :
  valid c -> 1 <= rlen < 2 ^ 31 ->
  let '((n, r), w') := intl_ctl (control_data c) rlen (request c).1 w in
  (exists l, w' = w ++ [Call (meant c)] ++ l /\ (l = [] \/ exists n, l = [Driver_alloc n])) /\
  match r with
  | NoReply => n = -1 /\ exists s, lib_call w (meant c) = Some s /\ alloc (w ++ [Call (meant c)]) (Z.of_nat (length s) + 1) = false /\ rlen <= Z.of_nat (length s)
  | InPlace b | Allocated b => n = Z.of_nat (length b) /\ (r = InPlace b -> n <= rlen) /\
      match lib_call w (meant c) with
      | Some s => reply_of b = Str s
      | None => let e := errno (w ++ [Call (meant c)]) in let room := Z.to_nat (rlen - 1) in
          if e =? 0 then b = INTL_OK :: take room [111; 107] else reply_of b = Error (take room (erl_errno_id e))
      end
  end.
Proof.
  intros Hv Hr. rewrite request_call by done. destruct (call_answer rlen (meant c) w Hr) as (l & H). destruct (call rlen (meant c) w) as [[n r] w']. destruct H as (-> & Hl & H).
  split; [exists l; by rewrite app_assoc|]. destruct (lib_call w (meant c)) as [s|].
  - destruct H as [(-> & -> & Ha & Hs)|(-> & [[-> Hn]|[-> _]])]; [by eauto 6| .. ]; cbn [length reply_of]; split_and!; try done; lia.
  - destruct H as (b & -> & -> & Hn & ->). split_and!; [done|done|]. cbv zeta. unfold intl_reason. by destruct (_ =? 0).
Qed.

(** * Commands that end early *)

Section Overread.
Context `{LIB : !Libintl}.
Lemma scan_end s pre w : no_nul s ->
  scan (pre ++ s) (S (length s)) (length pre) w = (if junk w (length (pre ++ s)) =? 0 then Some (s, length (pre ++ s), 1%nat) else None, w ++ [Overread]).
Proof.
  intros Hs. revert pre. induction Hs as [|c s Hc _ IH]; intros pre.
  - rewrite app_nil_r. cbn [scan length]. rewrite (bind_eq _ _ w (junk w (length pre)) (w ++ [Overread])) by (unfold peek; by rewrite Nat.ltb_irrefl). by destruct (_ =? 0).
  - specialize (IH (pre ++ [c])). rewrite <-app_assoc, length_app, Nat.add_1_r in IH. cbn [app] in IH. remember (S (length s)) as n eqn:En. cbn [length]. rewrite <-En. cbn [scan].
    rewrite (bind_eq _ _ w c w) by by apply peek_in. rewrite (proj2 (Z.eqb_neq c 0)) by done. rewrite (bind_eq _ _ _ _ _ IH). by destruct (_ =? 0).
Qed.
(** The count of a string includes its type: one byte beyond a command that is not terminated is read, and if it is zero the call is made all the same. *)
Theorem unterminated_overread s rlen w : no_nul s ->
  intl_ctl (INTL_STRING :: s) rlen INTL_GETTEXT w =
    let w' := w ++ [Overread] in
    if junk w (S (length s)) =? 0 then call rlen (Gettext s) w' else ret_code EINVAL rlen w'.
Proof.
  intros Hs. unfold intl_ctl. cbn [Z.eqb INTL_GETTEXT Pos.eqb]. cbv zeta. unfold arg, get_string. pose proof (scan_end s [INTL_STRING] w Hs) as E. cbn [app length] in E.
  rewrite (bind_eq _ _ w (if junk w (S (length s)) =? 0 then Some (s, (S (S (length s)), 0)) else None) (w ++ [Overread])); [by destruct (_ =? 0)|].
  rewrite (bind_eq _ _ w INTL_STRING w) by reflexivity. cbn [Z.eqb INTL_STRING Pos.eqb negb length]. rewrite Nat2Z.id. rewrite (bind_eq _ _ _ _ _ E). by destruct (_ =? 0).
Qed.
End Overread.

(** * A library

    Without translations. *)
Definition untranslated : Libintl := {|
  lib_call _ c := match c with
    | Gettext m | Dgettext _ m | Dcgettext _ m _ => Some (take 1000 m)
    | Ngettext m p n | Dngettext _ m p n | Dcngettext _ m p n _ => Some (take 1000 (if n =? 1 then m else p))
    | _ => None
    end;
  errno _ := 2;
  erl_errno_id _ := [101; 110; 111; 101; 110; 116];
  alloc _ _ := true;
  junk _ _ := 0;
  LC_CTYPE := 0; LC_NUMERIC := 1; LC_TIME := 2; LC_COLLATE := 3; LC_MONETARY := 4; LC_MESSAGES := 5; LC_ALL := 6;
  LC_PAPER := 7; LC_NAME := 8; LC_ADDRESS := 9; LC_TELEPHONE := 10; LC_MEASUREMENT := 11; LC_IDENTIFICATION := 12;
|}.
#[export] Instance untranslated_laws : LibintlLaws untranslated.
Proof.
  split; [by repeat constructor|]. intros w c s. assert (forall m, Some (take 1000 m) = Some s -> Z.of_nat (length s) + 1 < 2 ^ 31) as H
    by (intros m [= <-]; rewrite length_take; lia). destruct c; [apply H| | | | | | | | |]; try done; apply H.
Qed.
(** [dcngettext("d", "cat", "cats", 2, messages)]. *)
Lemma intl_request_answered_witness : let c := Dcngettext [100] [99; 97; 116] [99; 97; 116; 115] 2 INTL_LC_MESSAGES in
  intl_ctl (LIB := untranslated) (control_data c) 64 (request c).1 [] = ((5, InPlace [4; 99; 97; 116; 115]), [Call c]) /\ reply_of [4; 99; 97; 116; 115] = Str [99; 97; 116; 115].
Proof.
  intros c. assert (valid c) as Hv by (split; [done|]; repeat constructor; done). split; [reflexivity|].
  pose proof (intl_request_answered (LIB := untranslated) c 64 [] Hv ltac:(lia)) as H. vm_compute (intl_ctl _ _ _ _) in H. by apply H.
Defined.
Lemma unterminated_overread_witness : snd (intl_ctl (LIB := untranslated) [INTL_STRING; 97] 64 INTL_GETTEXT []) = [Overread; Call (Gettext [97])].
Proof. by rewrite (unterminated_overread (LIB := untranslated) [97]) by by repeat constructor. Defined.
