(* ===== verification/SpreadDrv.v ===== *)
(** The hand-written part of the Spread driver: [spread_drv/c_src/my-spread.c], and [make_grouplist] of [spread_drv.erl].  What a mailbox of the group
    communication system has is read and sent to the owner of the port, and a message is sent to a list of groups.

    The library and the allocators answer as a function of the calls made; blocks and binaries are numbers. *)
From stdpp Require Import strings.
From S2P Require Import Prelude ErlTerm Erts.
#[local] Open Scope Z_scope.

Definition MAX_MULTIGROUPS : Z := 64.
Definition MAX_RETURN_TERMS : Z := 64.
(** What [SP_receive] returns and stores - the type of service is given to it and stored by it -: the names of the groups, zero-terminated, and the contents of the buffer. *)
Record received := Received {
  ret : Z; service_type : Z; sender : bytes; num_groups : Z; groups : list bytes; mess_type : Z; endian_mismatch : Z; mess : bytes }.
(** Calls of the library that have only a result. *)
Inductive sp_call :=
  | SP_connect (spread_name : bytes) (private_name : option bytes) (priority group_membership : Z) | SP_disconnect (mbox : Z)
  | SP_join (mbox : Z) (group : bytes) | SP_leave (mbox : Z) (group : bytes) | SP_multicast (mbox service : Z) (group : bytes) (mess_type len : Z) (mess : bytes)
  | SP_get_gid_offset_memb_mess | SP_get_num_vs_offset_memb_mess | SP_get_vs_set_offset_memb_mess.
(** The calls; [Overflow] is a store outside an array, [Overread] a read outside the argument, [Null] a use
    of the null pointer. The last but it are those of the generated part ([SpreadPort]). *)
Inductive event :=
  | Sys_alloc (n : Z) (p : option Z) | Sys_free (p : Z) | Alloc_binary (n : Z) (b : option Z) | Free_binary (b : Z)
  | Select (fd : Z) (on : bool) | Read_test (fd rc : Z) | Poll (mbox rc : Z) | Receive (mbox service max_groups max_mess_len rc : Z) (sender : bytes) | Disconnect (mbox : Z)
  | Multicast (mbox service : Z) (grps : list bytes) (mess_type len : Z) (mess : bytes) (rc : Z)
  | Output (port : Z) (msg : spec) | Overflow | Overread
  | Library (c : sp_call) (rc : Z) | Alloc_callstate | Free_callstate | Reference (b : Z) | Unreference (b : Z) | Driver_async | Null.
Abbreviation trace := (list event).
(** The constants of [sp.h] are parameters, too; [uninitialised] is what a variable holds that is not set. *)
Class Spread := {
  MAX_GROUP_NAME : Z;
  GROUPS_TOO_SHORT : Z;
  BUFFER_TOO_SHORT : Z;
  DROP_RECV : Z;   (* a bit of a type of service *)
  uninitialised : trace -> Z;
  sys_alloc : trace -> Z -> option Z;
  driver_alloc_binary : trace -> Z -> option Z;
  read_test : trace -> Z -> Z;   (* read(mbox, &ret, 0) *)
  SP_poll : trace -> Z -> Z;
  SP_receive : trace -> Z -> Z -> Z -> Z -> received;   (* mbox, *service_type, max_groups, max_mess_len *)
  SP_multigroup_multicast : trace -> Z -> Z -> list bytes -> Z -> Z -> bytes -> Z;
  driver_output_term : trace -> Z -> spec -> Z;
}.
(** The members of [descriptor_t]; what is in [sender] is what [SP_receive] stored last ([d_sender]). *)
Record world := World { port : Z; mbox_init_p : bool; mbox : Z; private_group : bytes; active_p : Z; calls : trace }.

Definition d_sender (tr : trace) : bytes := foldl (fun s e => match e with Receive _ _ _ _ _ sender => sender | _ => s end) [] tr.

Section Driver.
Context `{SP : !Spread}.
Abbreviation D := (M world).
Definition act (e : event) : D unit := modify (fun w => World (port w) (mbox_init_p w) (mbox w) (private_group w) (active_p w) (calls w ++ [e])).
Definition ask {A} (f : trace -> A) : D A := gets (fun w => f (calls w)).
Definition set_active_p (v : Z) : D unit := modify (fun w => World (port w) (mbox_init_p w) (mbox w) (private_group w) v (calls w)).
Definition set_mbox_init_p (v : bool) : D unit := modify (fun w => World (port w) v (mbox w) (private_group w) (active_p w) (calls w)).
Definition alloc_block (n : Z) : D (option Z) := p ← ask (fun tr => sys_alloc tr n); act (Sys_alloc n p);;; mret p.
Definition alloc_wrapper (n : Z) : D (option Z) := b ← ask (fun tr => driver_alloc_binary tr n); act (Alloc_binary n b);;; mret b.

(** * Messages to the owner *)

(** [msg] and [tofree] have room for 64. *)
Definition room (msg : spec) (tofree : list Z) : D unit :=
  when (MAX_RETURN_TERMS <? Z.of_nat (length msg)) || (MAX_RETURN_TERMS <? Z.of_nat (length tofree)) do act Overflow.
(** The loop of [make_xret_group_list]: what is in [msg] and [tofree] after it, and whether memory was enough. *)
Fixpoint push_groups (gs : list bytes) (msg : spec) (tofree : list Z) : D (spec * list Z * bool) :=
  match gs with
  | [] => mret (msg, tofree, true)
  | g :: gs =>
      let g_len := Z.of_nat (length g) in
      bufp ← alloc_wrapper g_len;
      match bufp with
      | None => mret (msg, tofree, false)
      | Some tmpbin =>
          let msg := LOAD_BINARY msg g 0 g_len in
          let tofree := tofree ++ [tmpbin] in
          room msg tofree;;;
          push_groups gs msg tofree
      end
  end.
Definition make_xret_group_list (c : received) (msg : spec) (tofree : list Z) : D (spec * list Z * Z) :=
  let gs := take (Z.to_nat (num_groups c)) (groups c) in
  r ← push_groups gs msg tofree;
  let '(msg, tofree, enough) := r in
  mret (if enough : bool then (LOAD_NIL msg, tofree, Z.of_nat (length gs) + 1) else (msg, tofree, 0)).
Fixpoint free_all (l : list Z) : D unit := match l with [] => skip | b :: l => act (Free_binary b);;; free_all l end.
(** [tmpmess] is the binary of the message. [__expect] is 1. *)
Definition my_reply_xtra_xret_receive (c : received) (tmpmess : Z) : D Z :=
  w ← get;
  let msg := LOAD_INT (LOAD_ATOM (LOAD_PORT [] (port w)) "active") (service_type c) in
  tmp ← alloc_wrapper (Z.of_nat (length (sender c)));
  match tmp with
  | None => mret (-1)
  | Some tmp =>
      r ← make_xret_group_list c (LOAD_BINARY msg (sender c) 0 (Z.of_nat (length (sender c)))) [tmp];
      let '(msg, tofree, members) := r in
      let msg := LOAD_LIST msg members in
      let msg := LOAD_INT (LOAD_INT msg (mess_type c)) (endian_mismatch c) in
      let msg := LOAD_BINARY msg (mess c) 0 (ret c) in
      let tofree := tofree ++ [tmpmess] in
      let msg := LOAD_TUPLE (LOAD_TUPLE msg 6) 3 in
      room msg tofree;;;
      res ← ask (fun tr => driver_output_term tr (port w) msg);
      act (Output (port w) msg);;;
      free_all tofree;;;
      mret res
  end.

(** * The mailbox *)

(** From [retry]; [service] is what [c.o.service_type] holds. [None]: the loop ends. *)
Fixpoint retry (fuel : nat) (groups mess : option Z) (service ngroups mess_len : Z) : D (option Z) :=
  match fuel with
  | O => mret None
  | S fuel =>
      groups ← match groups with Some g => mret (Some g) | None => alloc_block (ngroups * MAX_GROUP_NAME) end;
      match groups with
      | None => mret None
      | Some groups =>
          mess ← match mess with Some m => mret (Some m) | None => alloc_wrapper mess_len end;
          match mess with
          | None => act (Sys_free groups);;; mret None
          | Some mess =>
              w ← get;
              c ← ask (fun tr => SP_receive tr (mbox w) service ngroups mess_len);
              act (Receive (mbox w) service ngroups mess_len (ret c) (sender c));;;
              if 0 <=? ret c then
                my_reply_xtra_xret_receive c mess;;;
                act (Sys_free groups);;;
                mret (Some (service_type c))
              else if ret c =? GROUPS_TOO_SHORT then
                act (Sys_free groups);;;
                retry fuel None (Some mess) (service_type c) (-1 * num_groups c) mess_len
              else if ret c =? BUFFER_TOO_SHORT then
                act (Free_binary mess);;;
                retry fuel (Some groups) None (service_type c) ngroups (-1 * endian_mismatch c)
              else
                act (Sys_free groups);;;
                act (Free_binary mess);;;
                mret None
          end
      end
  end.
(** Each message takes as many turns of [retry] as [tries]. *)
Fixpoint receive_all (fuel tries : nat) (service : Z) : D unit :=
  match fuel with
  | O => skip
  | S fuel =>
      w ← get;
      r ← ask (fun tr => SP_poll tr (mbox w));
      act (Poll (mbox w) r);;;
      when 0 <? r do (
        again ← retry tries None None service MAX_MULTIGROUPS r;
        match again with Some service => receive_all fuel tries service | None => skip end)
  end.
(** [c.o.service_type] is not set before it is given to [SP_receive]. *)
Definition my_ready_input (fuel tries : nat) : D unit :=
  service ← ask uninitialised;
  w ← get;
  rc ← ask (fun tr => read_test tr (mbox w));
  act (Read_test (mbox w) rc);;;
  (when negb (rc =? 0) do (
    act (Select (mbox w) false);;;
    set_active_p 0;;;
    act (Disconnect (mbox w));;;
    set_mbox_init_p false));;;
  receive_all fuel tries service.
Definition my_set_active (value : Z) : D Z :=
  let value := if value =? 0 then 0 else 1 in
  w ← get;
  if value =? active_p w then mret value
  else act (Select (mbox w) (value =? 1));;; set_active_p value;;; mret value.

(** * Messages to groups *)

(** The loop over the names in [mem], which end at an empty one; [i] have been copied to [grps]. *)
Fixpoint copy_groups (fuel : nat) (mem : bytes) (grps : list bytes) : D (list bytes) :=
  match fuel with
  | O => mret grps
  | S fuel =>
      (when (length mem =? 0)%nat do act Overread);;;
      if byte_at mem 0 =? 0 then mret grps
      else
        let g := c_str mem in
        let i := Z.of_nat (length grps) in
        (when (length mem =? length g)%nat do act Overread);;;
        (when (MAX_MULTIGROUPS <=? i) || (MAX_GROUP_NAME <=? Z.of_nat (length g)) do act Overflow);;;
        if i =? MAX_MULTIGROUPS then mret grps
        else copy_groups fuel (drop (length g + 1) mem) (grps ++ [g])
  end.
Definition my_multigroup_multicast (mbox service : Z) (mem : bytes) (mess_type mess_len : Z) (mess : bytes) : D Z :=
  grps ← copy_groups (S (length mem)) mem [];
  rc ← ask (fun tr => SP_multigroup_multicast tr mbox service grps mess_type mess_len mess);
  act (Multicast mbox service grps mess_type mess_len mess rc);;;
  mret rc.
End Driver.

(** [make_grouplist]. *)
Fixpoint make_grouplist (l : list bytes) : bytes := match l with [] => [0] | h :: t => h ++ 0 :: make_grouplist t end.

(** * The library

    Documented: a mailbox has messages; [SP_poll] tells if there are any; [SP_receive] takes the first if there is room for its groups and its data, and says what is
    missing if not - unless the type of service that it is given has DROP_RECV: then it cuts the message. The bit is in no type that it stores. *)
Record message := Message { m_service : Z; m_sender : bytes; m_groups : list bytes; m_type : Z; m_endian : Z; m_data : bytes }.
Definition taken (e : event) : bool := match e with Receive _ _ _ _ rc _ => 0 <=? rc | _ => false end.
Definition keeps `{SP : !Spread} (service : Z) : Prop := Z.land service DROP_RECV = 0.
Inductive receives `{SP : !Spread} (ngroups len : Z) (m : message) : received -> Prop :=
  | receives_groups c : ret c = GROUPS_TOO_SHORT -> ngroups < Z.of_nat (length (m_groups m)) -> num_groups c = - Z.of_nat (length (m_groups m)) -> keeps (service_type c) -> receives ngroups len m c
  | receives_buffer c : ret c = BUFFER_TOO_SHORT -> len < Z.of_nat (length (m_data m)) -> endian_mismatch c = - Z.of_nat (length (m_data m)) -> keeps (service_type c) -> receives ngroups len m c
  | receives_message rest more : keeps (m_service m) -> Z.of_nat (length (m_groups m)) <= ngroups -> Z.of_nat (length (m_data m ++ rest)) = len ->
      receives ngroups len m (Received (Z.of_nat (length (m_data m))) (m_service m) (m_sender m) (Z.of_nat (length (m_groups m))) (m_groups m ++ more)
        (m_type m) (m_endian m) (m_data m ++ rest)).
Class SpreadLaws (SP : Spread) : Type := {
  queue : trace -> list message;
  queue_law tr e : queue (tr ++ [e]) = if taken e then tail (queue tr) else queue tr;
  SP_poll_law tr mbox : match queue tr with [] => SP_poll tr mbox = 0 | _ => 0 < SP_poll tr mbox end;
  SP_receive_law tr mbox service ngroups len m q : queue tr = m :: q -> keeps service -> receives ngroups len m (SP_receive tr mbox service ngroups len);
  too_short_law : GROUPS_TOO_SHORT < 0 /\ BUFFER_TOO_SHORT < 0 /\ GROUPS_TOO_SHORT <> BUFFER_TOO_SHORT;
}.
(** There is memory. *)
Definition memory `{SP : !Spread} : Prop := (forall tr n, sys_alloc tr n <> None) /\ (forall tr n, driver_alloc_binary tr n <> None).
(** What the owner of a port [p] is told. *)
Definition told (p : Z) (m : message) : term :=
  TTuple [TPort p; TAtom "active"; TTuple [TInt (m_service m); TBinary (m_sender m); TList (map TBinary (m_groups m)); TInt (m_type m); TInt (m_endian m); TBinary (m_data m)]].
Definition outputs (tr : trace) : list (Z * spec) := omap (fun e => match e with Output p s => Some (p, s) | _ => None end) tr.
Definition allocated (tr : trace) : list Z := omap (fun e => match e with Alloc_binary _ b => b | Sys_alloc _ p => p | _ => None end) tr.
Definition freed (tr : trace) : list Z := omap (fun e => match e with Free_binary b => Some b | Sys_free p => Some p | _ => None end) tr.

Section Delivery.
Context `{SP : !Spread} `{SL : !SpreadLaws SP} (Hmem : memory).
Implicit Types (w : world) (l : trace).
(** A state after more calls than those of [w], the port and its settings the same. *)
Definition after w l : world := World (port w) (mbox_init_p w) (mbox w) (private_group w) (active_p w) (calls w ++ l).
Lemma after_nil w : after w [] = w.
Proof. destruct w. unfold after. cbn. by rewrite app_nil_r. Qed.
Lemma after_app w l l' : after (after w l) l' = after w (l ++ l').
Proof. unfold after. cbn. by rewrite app_assoc. Qed.
(** Calls that leave the mailbox as it is. *)
Abbreviation untaken := (Forall (fun e => taken e = false)).
Lemma queue_untaken l tr : untaken l -> queue (tr ++ l) = queue tr.
Proof. intros Hl. revert tr. induction Hl as [|e l He _ IH]; intros tr; [by rewrite app_nil_r|]. replace (tr ++ e :: l) with ((tr ++ [e]) ++ l) by by rewrite <-app_assoc. by rewrite IH, queue_law, He. Qed.
Lemma act_eq e w : act e w = (tt, after w [e]).
Proof. done. Qed.
Lemma alloc_wrapper_eq n w : exists b, alloc_wrapper n w = (Some b, after w [Alloc_binary n (Some b)]).
Proof. destruct (driver_alloc_binary (calls w) n) as [b|] eqn:E; [|by destruct (proj2 Hmem _ _ E)]. exists b. unfold alloc_wrapper, ask, act. run. by rewrite E. Qed.
Lemma alloc_block_eq n w : exists p, alloc_block n w = (Some p, after w [Sys_alloc n (Some p)]).
Proof. destruct (sys_alloc (calls w) n) as [b|] eqn:E; [|by destruct (proj1 Hmem _ _ E)]. exists b. unfold alloc_block, ask, act. run. by rewrite E. Qed.
Lemma free_all_eq bs w : free_all bs w = (tt, after w (map Free_binary bs)).
Proof. revert w. induction bs as [|b bs IH]; intros w; cbn [free_all map]; [by rewrite after_nil|]. rewrite (bind_eq _ _ _ _ _ (act_eq _ _)), IH. by rewrite after_app. Qed.
Lemma room_eq msg tofree w : (length msg <= 64)%nat -> (length tofree <= 64)%nat -> room msg tofree w = (tt, w).
Proof. intros H1 H2. unfold room, MAX_RETURN_TERMS. rewrite !(proj2 (Z.ltb_ge _ _)) by lia. done. Qed.
(** The specification of the names of the groups. *)
Definition binaries (gs : list bytes) : spec := concat (map (fun g => [Tag ERL_DRV_BINARY; Ptr g; Val (Z.of_nat (length g)); Val 0]) gs).
Lemma binaries_runs v gs st st' : runs v st st' -> runs (v ++ binaries gs) st (rev (map TBinary gs) ++ st').
Proof.
  revert v st'. induction gs as [|g gs IH]; intros v st' Hv; [by rewrite app_nil_r|].
  change (binaries (g :: gs)) with ([Tag ERL_DRV_BINARY; Ptr g; Val (Z.of_nat (length g)); Val 0] ++ binaries gs). rewrite app_assoc. cbn [rev map].
  rewrite <-(app_assoc (rev _)). apply IH. apply (runs_binary v st st' Hv). apply read_all.
Qed.
Lemma push_groups_eq gs msg tofree w : (length msg + 4 * length gs <= 64)%nat -> (length tofree + length gs <= 64)%nat ->
  exists bs, length bs = length gs /\
  push_groups gs msg tofree w = ((msg ++ binaries gs, tofree ++ bs, true), after w (zip_with (fun g b => Alloc_binary (Z.of_nat (length g)) (Some b)) gs bs)).
Proof.
  revert msg tofree w. induction gs as [|g gs IH]; intros msg tofree w H1 H2; cbn [push_groups length] in *.
  - exists []. cbn. by rewrite !app_nil_r, after_nil.
  - destruct (alloc_wrapper_eq (Z.of_nat (length g)) w) as (b & E). rewrite (bind_eq _ _ _ _ _ E). cbv zeta match.
    rewrite (bind_eq _ _ _ _ _ (room_eq (LOAD_BINARY msg g 0 (Z.of_nat (length g))) (tofree ++ [b]) _ ltac:(unfold LOAD_BINARY; rewrite length_app; cbn; lia) ltac:(rewrite length_app; cbn; lia))).
    destruct (IH (LOAD_BINARY msg g 0 (Z.of_nat (length g))) (tofree ++ [b]) (after w [Alloc_binary (Z.of_nat (length g)) (Some b)])) as (bs & Hbs & ->);
      [unfold LOAD_BINARY; rewrite length_app; cbn; lia|rewrite length_app; cbn; lia|].
    exists (b :: bs). split; [cbn; lia|]. unfold LOAD_BINARY. rewrite <-!app_assoc, after_app. done.
Qed.
(** The specification of a message. *)
Definition active_spec (p : Z) (m : message) (rest : bytes) : spec :=
  let sp := LOAD_INT (LOAD_ATOM (LOAD_PORT [] p) "active") (m_service m) in
  let sp := LOAD_BINARY sp (m_sender m) 0 (Z.of_nat (length (m_sender m))) ++ binaries (m_groups m) in
  let sp := LOAD_LIST (LOAD_NIL sp) (Z.of_nat (length (m_groups m)) + 1) in
  let sp := LOAD_BINARY (LOAD_INT (LOAD_INT sp (m_type m)) (m_endian m)) (m_data m ++ rest) 0 (Z.of_nat (length (m_data m))) in
  LOAD_TUPLE (LOAD_TUPLE sp 6) 3.
Lemma active_spec_denotes p m rest : denotes (active_spec p m rest) (told p m).
Proof.
  apply runs_denotes. unfold active_spec, told. cbv zeta. apply runs_tuple3, runs_tuple6, runs_binary; [|apply read_app]. apply runs_int, runs_int.
  eapply runs_list; [|reflexivity|by rewrite length_map]. apply runs_nil_term, binaries_runs, runs_binary; [|apply read_all].
  apply runs_int, runs_atom, runs_port, runs_nil.
Qed.
(** What handling a message does, from blocks and binaries [had]: one message to the owner, and everything is freed. *)
Definition delivers (p : Z) (m : message) (had : list Z) (l : trace) : Prop :=
  (exists sp, outputs l = [(p, sp)] /\ denotes sp (told p m)) /\ Overflow ∉ l /\ freed l ≡ₚ had ++ allocated l.
Lemma allocs_spec (gs : list bytes) (bs : list Z) : length bs = length gs -> let l := zip_with (fun g b => Alloc_binary (Z.of_nat (length g)) (Some b)) gs bs in
  outputs l = [] /\ allocated l = bs /\ freed l = [] /\ untaken l /\ Overflow ∉ l.
Proof.
  revert bs. induction gs as [|g gs IH]; intros [|b bs] Hl; try done; cbn in *; [split_and!; [done|done|done|by constructor|by intros ?%elem_of_nil]|].
  destruct (IH bs) as (H1 & H2 & H3 & H4 & H5); [lia|]. split_and!; [done|exact (f_equal (cons b) H2)|done|by constructor|]. by intros [|]%elem_of_cons.
Qed.
Lemma frees_spec bs : outputs (map Free_binary bs) = [] /\ allocated (map Free_binary bs) = [] /\ freed (map Free_binary bs) = bs /\ untaken (map Free_binary bs) /\
  Overflow ∉ map Free_binary bs.
Proof.
  induction bs as [|b bs (H1 & H2 & H3 & H4 & H5)]; cbn; [split_and!; [done|done|done|by constructor|by intros ?%elem_of_nil]|].
  split_and!; [done|done|exact (f_equal (cons b) H3)|by constructor|]. by intros [|]%elem_of_cons.
Qed.
Lemma spread_outputs_app a b : outputs (a ++ b) = outputs a ++ outputs b.
Proof. apply omap_app. Qed.
Lemma allocated_app a b : allocated (a ++ b) = allocated a ++ allocated b.
Proof. apply omap_app. Qed.
Lemma freed_app a b : freed (a ++ b) = freed a ++ freed b.
Proof. apply omap_app. Qed.
Lemma reply_delivers m rest more tmpmess w : (length (m_groups m) <= 9)%nat -> exists res l,
  my_reply_xtra_xret_receive (Received (Z.of_nat (length (m_data m))) (m_service m) (m_sender m) (Z.of_nat (length (m_groups m))) (m_groups m ++ more)
    (m_type m) (m_endian m) (m_data m ++ rest)) tmpmess w = (res, after w l) /\ delivers (port w) m [tmpmess] l /\ untaken l.
Proof.
  intros Hg. unfold my_reply_xtra_xret_receive. rewrite (bind_eq get _ w w w eq_refl). cbn [service_type sender num_groups groups mess_type endian_mismatch mess ret].
  destruct (alloc_wrapper_eq (Z.of_nat (length (m_sender m))) w) as (tmp & E). rewrite (bind_eq _ _ _ _ _ E). cbv match zeta. set (w1 := after w _).
  set (msg := LOAD_BINARY _ _ _ _). unfold make_xret_group_list. cbn [groups num_groups]. cbv zeta. rewrite Nat2Z.id, take_app_length.
  destruct (push_groups_eq (m_groups m) msg [tmp] w1) as (bs & Hbs & Ep); [cbn; lia|cbn; lia|]. set (la := zip_with _ _ _) in Ep.
  rewrite (bind_eq (_ ← _; _) _ w1 (LOAD_NIL (msg ++ binaries (m_groups m)), [tmp] ++ bs, Z.of_nat (length (m_groups m)) + 1) (after w1 la)) by by rewrite (bind_eq _ _ _ _ _ Ep).
  change (LOAD_TUPLE (LOAD_TUPLE _ 6) 3) with (active_spec (port w) m rest). set (sp := active_spec (port w) m rest).
  assert ((length (binaries (m_groups m)) = 4 * length (m_groups m))%nat) as Hlb by (clear; induction (m_groups m) as [|g gs IH]; [done|]; unfold binaries in *; cbn; lia).
  rewrite (bind_eq (room _ _) _ (after w1 la) tt (after w1 la)).
  2: { apply room_eq; [|rewrite !length_app; cbn; lia]. unfold sp, active_spec, LOAD_TUPLE, LOAD_BINARY, LOAD_INT, LOAD_LIST, LOAD_NIL. cbv zeta. rewrite !length_app, Hlb. cbn. lia. }
  rewrite (bind_eq (ask _) _ _ (driver_output_term (calls (after w1 la)) (port w) sp) (after w1 la)), (bind_eq _ _ _ _ _ (act_eq _ _)), (bind_eq _ _ _ _ _ (free_all_eq _ _)) by reflexivity.
  eexists _, _. split; [unfold mret, M_ret, w1; by rewrite !after_app|]. destruct (allocs_spec (m_groups m) bs Hbs) as (A1 & A2 & A3 & A4 & A5). fold la in A1, A2, A3, A4, A5.
  destruct (frees_spec (([tmp] ++ bs) ++ [tmpmess])) as (F1 & F2 & F3 & F4 & F5). split; [|repeat (apply Forall_app; split); try done; by repeat constructor].
  unfold delivers. rewrite !spread_outputs_app, !freed_app, !allocated_app, A1, A2, A3, F1, F2, F3. cbn [outputs freed allocated omap list_omap app].
  split; [exists sp; split; [done|apply active_spec_denotes]|]. split; [repeat first [rewrite not_elem_of_app | rewrite not_elem_of_cons]; split_and!; try done; by intros ?%elem_of_nil|].
  rewrite app_nil_r. solve_Permutation.
Qed.
(** A block or binary that is there, or is allocated. *)
Definition held (o : option Z) : list Z := match o with Some p => [p] | None => [] end.
Definition ready (alloc : M world (option Z)) : Prop := forall o w, exists p l, (match o with Some g => mret (Some g) | None => alloc end) w = (Some p, after w l) /\
  outputs l = [] /\ freed l = [] /\ [p] = held o ++ allocated l /\ untaken l /\ Overflow ∉ l.
Lemma ready_some (p : Z) w alloc : exists q l, (match Some p with Some g => mret (Some g) | None => alloc end : M world (option Z)) w = (Some q, after w l) /\
  outputs l = [] /\ freed l = [] /\ [q] = held (Some p) ++ allocated l /\ untaken l /\ Overflow ∉ l.
Proof. exists p, []. rewrite after_nil. split_and!; [done|done|done|done|by constructor|by intros ?%elem_of_nil]. Qed.
Lemma ready_block n : ready (alloc_block n).
Proof.
  intros [g|] w; [apply (ready_some g w (alloc_block n))|]. destruct (alloc_block_eq n w) as (p & E). exists p, [Sys_alloc n (Some p)]. split_and!; [done|done|done|done|by repeat constructor|].
  by intros ?%list_elem_of_singleton.
Qed.
Lemma ready_wrapper n : ready (alloc_wrapper n).
Proof.
  intros [g|] w; [apply (ready_some g w (alloc_wrapper n))|]. destruct (alloc_wrapper_eq n w) as (p & E). exists p, [Alloc_binary n (Some p)]. split_and!; [done|done|done|done|by repeat constructor|].
  by intros ?%list_elem_of_singleton.
Qed.
(** Up to the answer of the library, once. *)
Lemma retry_step fuel g ms sv ng len w : exists gp mp l, let w1 := after w l in let c := SP_receive (calls w1) (mbox w) sv ng len in
  retry (S fuel) g ms sv ng len w = (
    act (Receive (mbox w) sv ng len (ret c) (sender c));;;
    if 0 <=? ret c then my_reply_xtra_xret_receive c mp;;; act (Sys_free gp);;; mret (Some (service_type c))
    else if ret c =? GROUPS_TOO_SHORT then act (Sys_free gp);;; retry fuel None (Some mp) (service_type c) (-1 * num_groups c) len
    else if ret c =? BUFFER_TOO_SHORT then act (Free_binary mp);;; retry fuel (Some gp) None (service_type c) ng (-1 * endian_mismatch c)
    else act (Sys_free gp);;; act (Free_binary mp);;; mret None) w1 /\
  outputs l = [] /\ freed l = [] /\ [gp; mp] ≡ₚ held g ++ held ms ++ allocated l /\ untaken l /\ Overflow ∉ l.
Proof.
  destruct (ready_block (ng * MAX_GROUP_NAME) g w) as (gp & l1 & E1 & O1 & F1 & A1 & U1 & V1).
  destruct (ready_wrapper len ms (after w l1)) as (mp & l2 & E2 & O2 & F2 & A2 & U2 & V2). exists gp, mp, (l1 ++ l2). cbv zeta. split.
  - cbn [retry]. rewrite (bind_eq _ _ _ _ _ E1). cbv match. rewrite (bind_eq _ _ _ _ _ E2). cbv match. rewrite after_app. by rewrite (bind_eq get _ _ _ _ eq_refl).
  - rewrite spread_outputs_app, freed_app, allocated_app, O1, O2, F1, F2. split_and!; [done|done| |by apply Forall_app|by rewrite not_elem_of_app].
    change [gp; mp] with ([gp] ++ [mp]). rewrite A1, A2. solve_Permutation.
Qed.
Lemma retry_delivers fuel g ms sv len w m q : queue (calls w) = m :: q -> keeps sv -> (length (m_groups m) <= 9)%nat -> ((if (len <? Z.of_nat (length (m_data m)))%Z then 2 else 1) <= fuel)%nat ->
  exists l sv', retry fuel g ms sv MAX_MULTIGROUPS len w = (Some sv', after w l) /\ keeps sv' /\ delivers (port w) m (held g ++ held ms) l /\ queue (calls w ++ l) = q.
Proof.
  revert g ms sv len w. induction fuel as [|fuel IH]; intros g ms sv len w Hq Hk Hg Hf; [by destruct (_ <? _); lia|].
  destruct (retry_step fuel g ms sv MAX_MULTIGROUPS len w) as (gp & mp & l & E & O & F & A & U & V). cbv zeta in E. rewrite E. clear E.
  destruct too_short_law as (T1 & T2 & T3). pose proof (SP_receive_law (calls (after w l)) (mbox w) sv MAX_MULTIGROUPS len m q) as Hr. cbn [calls after] in Hr. rewrite queue_untaken in Hr by done.
  specialize (Hr Hq Hk). change (calls (after w l)) with (calls w ++ l). revert Hr. generalize (SP_receive (calls w ++ l) (mbox w) sv MAX_MULTIGROUPS len). intros r Hr.
  destruct Hr as [c Hc Hs _ _|c Hc Hs He Hv|rest more Hv Hs Hl].
  - unfold MAX_MULTIGROUPS in Hs. lia.
  - rewrite Hc, (proj2 (Z.leb_gt 0 BUFFER_TOO_SHORT)), (proj2 (Z.eqb_neq BUFFER_TOO_SHORT GROUPS_TOO_SHORT)), Z.eqb_refl by first [done|congruence]. rewrite !(bind_eq _ _ _ _ _ (act_eq _ _)), !after_app.
    rewrite He. replace (-1 * - Z.of_nat (length (m_data m))) with (Z.of_nat (length (m_data m))) by lia. set (l' := l ++ _).
    assert (untaken l') as U'.
    { unfold l'. apply Forall_app. split; [done|]. constructor; [|by repeat constructor]. cbn [taken]. by apply Z.leb_gt. }
    destruct (IH (Some gp) None (service_type c) (Z.of_nat (length (m_data m))) (after w l')) as (k & sv' & Ek & Kk & (Ok & Vk & Fk) & Qk).
    + cbn [calls after]. by rewrite queue_untaken.
    + done.
    + done.
    + rewrite Z.ltb_irrefl. destruct (Z.ltb_spec len (Z.of_nat (length (m_data m)))); lia.
    + exists (l' ++ k), sv'. rewrite Ek, after_app. split; [done|]. split; [done|]. split; [|by rewrite app_assoc]. cbn [port after] in *. unfold delivers. rewrite spread_outputs_app, freed_app, allocated_app.
      unfold l' in *. rewrite !spread_outputs_app, !freed_app, !allocated_app, O, F. cbn. split; [done|]. split; [|cbn in Fk; rewrite Fk, app_nil_r; rewrite app_assoc, <-(app_assoc (held g) (held ms) (allocated l)), <-A; apply (perm_swap gp mp)].
      rewrite !not_elem_of_app. split; [|done]. split; [done|]. by intros [|[|?%elem_of_nil]%elem_of_cons]%elem_of_cons.
  - cbn [ret]. rewrite (proj2 (Z.leb_le 0 (Z.of_nat (length (m_data m))))) by lia. rewrite (bind_eq _ _ _ _ _ (act_eq _ _)), after_app. set (l' := l ++ _).
    destruct (reply_delivers m rest more mp (after w l') Hg) as (res & k & Ek & (Ok & Vk & Fk) & Uk). rewrite (bind_eq _ _ _ _ _ Ek), (bind_eq _ _ _ _ _ (act_eq _ _)), !after_app.
    eexists _, _. split; [reflexivity|]. split; [done|]. split.
    + unfold delivers, l'. rewrite !spread_outputs_app, !freed_app, !allocated_app, O, F. cbn [outputs freed allocated omap list_omap app]. rewrite !app_nil_r. split; [exact Ok|]. split.
      * rewrite !not_elem_of_app. split_and!; try done; by intros ?%list_elem_of_singleton.
      * rewrite Fk. rewrite app_assoc, <-(app_assoc (held g) (held ms) (allocated l)), <-A. cbn. solve_Permutation.
    + unfold l'. rewrite !app_assoc. rewrite queue_law. cbn [taken]. rewrite queue_untaken by done. rewrite queue_law. cbn [taken]. rewrite (proj2 (Z.leb_le 0 _)) by lia. by rewrite queue_untaken, Hq by done.
Qed.
(** The loop. *)
Lemma receive_all_delivers fuel tries sv q w : queue (calls w) = q -> keeps sv -> Forall (fun m => (length (m_groups m) <= 9)%nat) q -> (length q < fuel)%nat -> (2 <= tries)%nat ->
  exists l, snd (receive_all fuel tries sv w) = after w l /\ queue (calls w ++ l) = [] /\ Forall2 (fun o m => o.1 = port w /\ denotes o.2 (told (port w) m)) (outputs l) q /\
  Overflow ∉ l /\ freed l ≡ₚ allocated l.
Proof.
  revert sv q w. induction fuel as [|fuel IH]; intros sv q w Hq Hk Hg Hf Ht; [lia|]. cbn [receive_all]. rewrite (bind_eq get _ w w w eq_refl). set (r := SP_poll (calls w) (mbox w)).
  rewrite (bind_eq (ask _) _ w r w), (bind_eq _ _ _ _ _ (act_eq _ _)) by done. pose proof (SP_poll_law (calls w) (mbox w)) as Hp. rewrite Hq in Hp. fold r in Hp.
  destruct q as [|m q].
  - rewrite Hp. cbn [Z.ltb Z.compare]. exists [Poll (mbox w) r]. rewrite Hp. split; [done|]. split; [by rewrite queue_law, Hq|]. split; [constructor|]. split; [|done]. by intros ?%list_elem_of_singleton.
  - rewrite (proj2 (Z.ltb_lt 0 r)) by done. set (w1 := after w [Poll (mbox w) r]). apply Forall_cons in Hg as [Hm Hg]. cbn in Hf.
    destruct (retry_delivers tries None None sv r w1 m q) as (l & sv' & E & Kk & ((sp & O & Hsp) & V & F) & Q); [cbn; by rewrite queue_law|done|done|by destruct (_ <? _); lia|].
    rewrite (bind_eq _ _ _ _ _ E). cbv match. destruct (IH sv' q (after w1 l)) as (k & Ek & Qk & Ok & Vk & Fk); [exact Q|done|done|lia|done|].
    exists ([Poll (mbox w) r] ++ l ++ k). unfold w1 in *. rewrite Ek, !after_app. split; [done|]. cbn [calls after] in Qk. split; [by rewrite !app_assoc in *|].
    rewrite !spread_outputs_app, !freed_app, !allocated_app, O. cbn [outputs freed allocated omap list_omap app]. split; [by constructor|]. split; [by rewrite not_elem_of_cons, not_elem_of_app|].
    rewrite F, Fk. done.
Qed.
Lemma push_groups_some gs msg tofree w : exists bs l, push_groups gs msg tofree w = ((msg ++ binaries gs, tofree ++ bs, true), after w l).
Proof.
  revert msg tofree w. induction gs as [|g gs IH]; intros msg tofree w; cbn [push_groups]; [exists [], []; by rewrite !app_nil_r, after_nil|].
  destruct (alloc_wrapper_eq (Z.of_nat (length g)) w) as (b & E). rewrite (bind_eq _ _ _ _ _ E). cbv zeta match.
  assert (exists k, room (LOAD_BINARY msg g 0 (Z.of_nat (length g))) (tofree ++ [b]) (after w [Alloc_binary (Z.of_nat (length g)) (Some b)]) = (tt, after w k)) as (k & Ek).
  { unfold room. destruct (_ || _); [rewrite act_eq, after_app|]; by eexists. }
  rewrite (bind_eq _ _ _ _ _ Ek). destruct (IH (LOAD_BINARY msg g 0 (Z.of_nat (length g))) (tofree ++ [b]) (after w k)) as (bs & l & ->).
  exists (b :: bs), (k ++ l). unfold LOAD_BINARY. by rewrite <-!app_assoc, after_app.
Qed.
(** A message with ten groups or more has more terms than [msg] has room for. *)
Lemma many_groups_overflow m rest more tmpmess w : (9 < length (m_groups m))%nat -> exists res l,
  my_reply_xtra_xret_receive (Received (Z.of_nat (length (m_data m))) (m_service m) (m_sender m) (Z.of_nat (length (m_groups m))) (m_groups m ++ more)
    (m_type m) (m_endian m) (m_data m ++ rest)) tmpmess w = (res, after w l) /\ Overflow ∈ l.
Proof.
  intros Hg. unfold my_reply_xtra_xret_receive. rewrite (bind_eq get _ w w w eq_refl). cbn [service_type sender num_groups groups mess_type endian_mismatch mess ret].
  destruct (alloc_wrapper_eq (Z.of_nat (length (m_sender m))) w) as (tmp & E). rewrite (bind_eq _ _ _ _ _ E). cbv match zeta. set (w1 := after w _).
  set (msg := LOAD_BINARY _ _ _ _). unfold make_xret_group_list. cbn [groups num_groups]. cbv zeta. rewrite Nat2Z.id, take_app_length.
  destruct (push_groups_some (m_groups m) msg [tmp] w1) as (bs & la & Ep).
  rewrite (bind_eq (_ ← _; _) _ w1 (LOAD_NIL (msg ++ binaries (m_groups m)), [tmp] ++ bs, Z.of_nat (length (m_groups m)) + 1) (after w1 la)) by by rewrite (bind_eq _ _ _ _ _ Ep).
  change (LOAD_TUPLE (LOAD_TUPLE _ 6) 3) with (active_spec (port w) m rest). set (sp := active_spec (port w) m rest).
  assert ((length (binaries (m_groups m)) = 4 * length (m_groups m))%nat) as Hlb by (clear; induction (m_groups m) as [|g gs IH]; [done|]; unfold binaries in *; cbn; lia).
  rewrite (bind_eq (room _ _) _ (after w1 la) tt (after (after w1 la) [Overflow])).
  2: { unfold room. rewrite (proj2 (Z.ltb_lt _ _)); [done|]. unfold sp, active_spec, LOAD_TUPLE, LOAD_BINARY, LOAD_INT, LOAD_LIST, LOAD_NIL, MAX_RETURN_TERMS. cbv zeta. rewrite !length_app, Hlb. cbn. lia. }
  rewrite (bind_eq (ask _) _ _ (driver_output_term (calls (after (after w1 la) [Overflow])) (port w) sp) (after (after w1 la) [Overflow])),
    (bind_eq _ _ _ _ _ (act_eq _ _)), (bind_eq _ _ _ _ _ (free_all_eq _ _)) by reflexivity.
  eexists _, _. split; [unfold mret, M_ret, w1; by rewrite !after_app|]. rewrite !elem_of_app, (list_elem_of_singleton Overflow Overflow). tauto.
Qed.
End Delivery.

(** C26: With memory, when the read test of the socket does not fail, and if [my_ready_input]'s type of service, which it gives to [SP_receive] and never sets, happens not to have DROP_RECV, all the messages
    that a mailbox has are told to the owner of its port when the socket is ready, each by one [{Port, active, {Service, Sender, Groups, Type, Endian,
    Message}}], whole and in order, if none has more than nine groups: the loop ends with the mailbox empty, nothing is stored outside an array, and what is
    allocated is freed, once. With that bit a message is cut ([uninitialised_cuts]), with ten groups [msg] is too small ([many_groups_overflow]). *)
Theorem mailbox_delivered `{SP : !Spread} `{SL : !SpreadLaws SP} fuel tries (w : world) :
  memory -> keeps (uninitialised (calls w)) -> read_test (calls w) (mbox w) = 0 -> Forall (fun m => (length (m_groups m) <= 9)%nat) (queue (calls w)) ->
  (length (queue (calls w)) < fuel)%nat -> (2 <= tries)%nat ->
  exists l, snd (my_ready_input fuel tries w) = after w l /\ queue (calls w ++ l) = [] /\
  Forall2 (fun o m => o.1 = port w /\ denotes o.2 (told (port w) m)) (outputs l) (queue (calls w)) /\ Overflow ∉ l /\ freed l ≡ₚ allocated l.
Proof.
  intros Hm Hk Hr Hg Hf Ht. unfold my_ready_input. rewrite (bind_eq (ask _) _ w (uninitialised (calls w)) w eq_refl), (bind_eq get _ w w w eq_refl), (bind_eq (ask _) _ w 0 w), (bind_eq _ _ _ _ _ (act_eq _ _))
    by (unfold ask, gets; by rewrite Hr).
  cbn [Z.eqb negb]. rewrite (bind_eq skip _ _ tt _ eq_refl). set (w1 := after w [Read_test (mbox w) 0]).
  assert (queue (calls w1) = queue (calls w)) as Hq by (cbn; by rewrite queue_law).
  destruct (receive_all_delivers Hm fuel tries _ (queue (calls w)) w1 Hq Hk Hg Hf Ht) as (l & E & Q & O & V & F). exists ([Read_test (mbox w) 0] ++ l).
  unfold w1 in *. rewrite E, after_app. cbn [calls after port] in *. split; [done|]. split; [by rewrite app_assoc|]. split; [exact O|]. split; [|exact F].
  rewrite not_elem_of_app. split; [by intros ?%list_elem_of_singleton|done].
Qed.

(** * Groups *)

Definition group_name `{SP : !Spread} (g : bytes) : Prop := g <> [] /\ Forall (fun c => c <> 0) g /\ Z.of_nat (length g) < MAX_GROUP_NAME.
Lemma c_str_group g rest : Forall (fun c => c <> 0) g -> c_str (g ++ 0 :: rest) = g.
Proof. induction 1 as [|c g Hc _ IH]; [done|]. cbn [c_str app]. by rewrite (proj2 (Z.eqb_neq c 0)), IH. Qed.
Lemma copy_groups_list `{SP : !Spread} fuel l grps w : (length (make_grouplist l) <= fuel)%nat -> Forall group_name l -> (length grps + length l <= 64)%nat ->
  copy_groups fuel (make_grouplist l) grps w = (grps ++ l, w).
Proof.
  revert l grps. induction fuel as [|fuel IH]; intros l grps Hf Hl Hn; [destruct l; cbn in Hf; [lia|rewrite length_app in Hf; cbn in Hf; lia]|]. destruct Hl as [|g l (Hne & Hg & Hlen) Hl]; cbn [copy_groups make_grouplist].
  - by rewrite app_nil_r.
  - destruct g as [|c g]; [done|]. cbn [make_grouplist app length Nat.eqb] in *. rewrite (bind_eq skip _ w tt w eq_refl). unfold byte_at at 1. cbn [nth].
    rewrite (proj2 (Z.eqb_neq c 0)) by by apply Forall_cons in Hg as [? _]. change (c :: g ++ 0 :: make_grouplist l) with ((c :: g) ++ 0 :: make_grouplist l). rewrite (c_str_group (c :: g)) by done. cbv zeta. cbn [length app].
    rewrite (proj2 (Nat.eqb_neq (length (g ++ 0 :: make_grouplist l)) (length g))) by (rewrite length_app; cbn; lia). rewrite (bind_eq skip _ w tt w eq_refl). cbn [length] in Hlen, Hn. unfold MAX_MULTIGROUPS.
    rewrite (proj2 (Z.leb_gt 64 _)), (proj2 (Z.leb_gt MAX_GROUP_NAME _)) by lia. cbn [orb]. rewrite (bind_eq skip _ w tt w eq_refl). rewrite (proj2 (Z.eqb_neq _ 64)) by lia.
    replace (drop (S (length g) + 1) (c :: g ++ 0 :: make_grouplist l)) with (make_grouplist l).
    + rewrite length_app in Hf. cbn in Hf. rewrite IH; [by rewrite <-app_assoc|lia|done|rewrite length_app; cbn; lia].
    + replace (c :: g ++ 0 :: make_grouplist l) with ((c :: g ++ [0]) ++ make_grouplist l) by (cbn; by rewrite <-app_assoc).
      rewrite drop_app_length'; [done|]. cbn. rewrite length_app. cbn. lia.
Qed.
(** The groups that the client lists are those that the message is sent to, up to 64. *)
Theorem groups_round_trip `{SP : !Spread} mbox service l mess_type mess_len mess (w : world) : Forall group_name l -> (length l <= 64)%nat ->
  let rc := SP_multigroup_multicast (calls w) mbox service l mess_type mess_len mess in
  my_multigroup_multicast mbox service (make_grouplist l) mess_type mess_len mess w = (rc, after w [Multicast mbox service l mess_type mess_len mess rc]).
Proof. intros Hl Hn rc. unfold my_multigroup_multicast. rewrite (bind_eq _ _ w l w); [done|]. apply (copy_groups_list _ l []); [lia|done|done]. Qed.
Lemma groups_round_trip_witness : let sp := {| MAX_GROUP_NAME := 32; GROUPS_TOO_SHORT := -14; BUFFER_TOO_SHORT := -15; DROP_RECV := 2 ^ 24; uninitialised _ := 0; sys_alloc _ _ := None; driver_alloc_binary _ _ := None; read_test _ _ := 0;
    SP_poll _ _ := 0; SP_receive _ _ _ _ _ := Received (-1) 0 [] 0 [] 0 0 []; SP_multigroup_multicast _ _ _ _ _ n _ := n; driver_output_term _ _ _ := 1 |} in
  calls (snd (my_multigroup_multicast (SP := sp) 3 2 (make_grouplist [[97]; [98; 99]]) 7 1 [5] (World 1 true 3 [] 0 []))) = [Multicast 3 2 [[97]; [98; 99]] 7 1 [5] 1].
Proof.
  intros sp. rewrite (groups_round_trip (SP := sp) 3 2 [[97]; [98; 99]]); [done| |cbn; lia]. repeat constructor; done.
Defined.

(** * A mailbox with messages *)

Definition received_of (tr : trace) : nat := length (List.filter taken tr).
Definition small_receive (msgs : list message) (tr : trace) (mbox service ngroups len : Z) : received :=
  let drop_recv := negb (Z.land service (2 ^ 24) =? 0) in
  match drop (received_of tr) msgs with
  | [] => Received (-1) 0 [] 0 [] 0 0 []
  | m :: _ =>
      let groups := if drop_recv then take (Z.to_nat ngroups) (m_groups m) else m_groups m in
      let data := if drop_recv then take (Z.to_nat len) (m_data m) else m_data m in
      if ngroups <? Z.of_nat (length groups) then Received (-14) 0 [] (- Z.of_nat (length groups)) [] 0 0 []
      else if len <? Z.of_nat (length data) then Received (-15) 0 [] 0 [] 0 (- Z.of_nat (length data)) []
      else Received (Z.of_nat (length data)) (Z.land (m_service m) (2 ^ 24 - 1)) (m_sender m) (Z.of_nat (length groups)) (groups ++ []) (m_type m) (m_endian m)
        (data ++ replicate (Z.to_nat len - length data) 170)
  end.
(** [junk] is what the stack holds; the types of the messages have 24 bits. *)
Definition small_spread (junk : Z) (msgs : list message) : Spread := {|
  MAX_GROUP_NAME := 32; GROUPS_TOO_SHORT := -14; BUFFER_TOO_SHORT := -15; DROP_RECV := 2 ^ 24; uninitialised _ := junk;
  sys_alloc tr _ := Some (Z.of_nat (length tr));
  driver_alloc_binary tr _ := Some (Z.of_nat (length tr));
  read_test _ _ := 0;
  SP_poll tr _ := match drop (received_of tr) msgs with [] => 0 | _ => 1 end;
  SP_receive := small_receive msgs;
  SP_multigroup_multicast _ _ _ _ _ n _ := n;
  driver_output_term _ _ _ := 1;
|}.
Definition cut_service (m : message) : message := Message (Z.land (m_service m) (2 ^ 24 - 1)) (m_sender m) (m_groups m) (m_type m) (m_endian m) (m_data m).
#[export] Instance small_spread_laws junk msgs : SpreadLaws (small_spread junk msgs).
Proof.
  refine {| queue := fun tr => map cut_service (drop (received_of tr) msgs) |}.
  - intros tr e. unfold received_of. rewrite List.filter_app, length_app. cbn [List.filter]. destruct (taken e); cbn [length]; [|by rewrite Nat.add_0_r].
    rewrite <-drop_drop. by destruct (drop _ msgs).
  - intros tr mbox. cbn. by destruct (drop _ msgs).
  - intros tr mbox service ngroups len m q Hq Hk. cbn. unfold small_receive. destruct (drop (received_of tr) msgs) as [|m0 q0]; [done|]. injection Hq as <- _.
    unfold keeps in Hk. cbn [DROP_RECV small_spread] in Hk. rewrite Hk. cbn [Z.eqb negb]. cbv zeta. cbn [m_groups m_data cut_service].
    destruct (Z.ltb_spec ngroups (Z.of_nat (length (m_groups m0)))); [by apply receives_groups|].
    destruct (Z.ltb_spec len (Z.of_nat (length (m_data m0)))); [by apply receives_buffer|].
    apply (receives_message (SP := small_spread junk msgs) ngroups len (cut_service m0) (replicate (Z.to_nat len - length (m_data m0)) 170) []); [|done|].
    + unfold keeps. cbn [m_service cut_service DROP_RECV small_spread]. rewrite <-Z.land_assoc. change (Z.land (2 ^ 24 - 1) (2 ^ 24)) with 0. apply Z.land_0_r.
    + cbn [m_data cut_service]. rewrite length_app, length_replicate. lia.
  - cbn. lia.
Defined.
(** Two messages, the data longer than [SP_poll] tells. *)
Definition small_messages : list message := [Message 2 [97] [[98]; [99; 100]] 1 0 [1; 2; 3]; Message 4 [97; 98] [] 5 0 []].
Lemma mailbox_delivered_witness : exists l, snd (my_ready_input (SP := small_spread 0 small_messages) 3 2 (World 1 true 3 [] 1 [])) = World 1 true 3 [] 1 l /\
  Forall2 (fun o m => o.1 = 1 /\ denotes o.2 (told 1 m)) (outputs l) small_messages.
Proof.
  destruct (mailbox_delivered (SP := small_spread 0 small_messages) 3 2 (World 1 true 3 [] 1 [])) as (l & E & _ & O & _).
  - done.
  - reflexivity.
  - reflexivity.
  - repeat constructor; cbn; lia.
  - cbn. lia.
  - lia.
  - exists l. by split.
Defined.
(** The stack happens to have the bit: of the first message, of three bytes, the owner is told one. *)
Lemma uninitialised_cuts : exists sp rest, outputs (calls (snd (my_ready_input (SP := small_spread (2 ^ 24) small_messages) 3 2 (World 1 true 3 [] 1 [])))) = (1, sp) :: rest /\
  denotes sp (told 1 (Message 2 [97] [[98]; [99; 100]] 1 0 [1])).
Proof. eexists _, _. split; [vm_compute; reflexivity|reflexivity]. Qed.
