(* ===== verification/FdLib.v ===== *)
(** What the programs that pass descriptors share: [fd_server/c_src/fdlib.c] and [fdlib.h], and the specifications of addresses
    that [fd_server/src/fdsrv.erl] writes and [fd_parse_addr] reads.

    The operating system is a parameter: what a call answers is a function of the calls made so far, the trace.  [Fault] is what C
    leaves undefined.  What is printed to standard error is left out.  Built with [HAVE_MSGHDR_MSG_CONTROL]. *)
From stdpp Require Import strings.
From S2P Require Import Prelude Erts.
#[local] Open Scope Z_scope.

Definition AF_UNIX := 1.
Definition AF_INET := 2.
Definition SOCK_STREAM := 1.
Definition SOCK_DGRAM := 2.
Definition SOL_SOCKET := 1.
Definition SCM_RIGHTS := 1.
(** [sizeof(addr.sun_path)]. *)
Definition SUN_PATH : Z := 108.
Definition BUFSIZ : Z := 8192.
Definition INADDR_NONE : bytes := [255; 255; 255; 255].
Definition INADDR_ANY : bytes := [0; 0; 0; 0].

(** Fields in network order are the bytes in memory. *)
Record sockaddr_in := SockaddrIn { sin_family : Z; sin_port : bytes; sin_addr : bytes }.
Inductive sockaddr := Un (sun_path : bytes) | In (a : sockaddr_in).
(** The first control message: [cmsg_len], [cmsg_level], [cmsg_type] and the descriptor in its data. *)
Record cmsg := Cmsg { cmsg_len : Z; cmsg_level : Z; cmsg_type : Z; cmsg_fd : Z }.
Inductive io :=
  | Socket (domain type fd : Z) | Setsockopt (fd : Z) | Bind (fd : Z) (a : sockaddr) (rc : Z) | Chmod (path : bytes) | Chown (path : bytes)
  | Listen (fd : Z) | Accept (fd c : Z) | Unlink (path : bytes) | Connect (fd : Z) (path : bytes) (rc : Z)
  | Sendmsg (sock fd rc : Z) | Recvmsg (sock res : Z) (c : option cmsg) | Close (fd : Z)
  | Read (fd n r : Z) (data : bytes) | Write (fd : Z) (data : bytes)
  | Output (port : Z) (data : bytes) | Select (port fd flag : Z) | Alloc (p : option Z) | Free (p : option Z) | Exit | Fault.
Abbreviation trace := (list io).
Class Os := {
  os_socket : trace -> Z -> Z -> Z;
  os_bind : trace -> Z -> sockaddr -> Z;
  os_accept : trace -> Z -> Z;
  os_connect : trace -> Z -> bytes -> Z;
  os_sendmsg : trace -> Z -> Z -> Z;
  os_recvmsg : trace -> Z -> Z * option cmsg;
  os_read : trace -> Z -> Z -> Z * bytes;
  os_strerror : trace -> bytes;   (* of errno *)
  os_alloc : trace -> Z -> option Z;   (* a block is a number *)
  os_getservbyname : bytes -> bytes -> option bytes;   (* s_port *)
  os_inet_addr : bytes -> bytes;
  os_gethostbyname : trace -> bytes -> option bytes;   (* the first address *)
  CMSG_LEN : Z -> Z;
}.

(** * Descriptors and blocks in use *)

Definition open_fd (l : list Z) (e : io) : list Z :=
  match e with
  | Socket _ _ fd | Accept _ fd => if 0 <=? fd then fd :: l else l
  | Close fd => filter (fun x => x <> fd) l
  | _ => l
  end.
Definition open_fds (tr : trace) : list Z := fold_left open_fd tr [].
Definition block (l : list Z) (e : io) : list Z :=
  match e with
  | Alloc (Some p) => p :: l
  | Free (Some p) => filter (fun x => x <> p) l
  | _ => l
  end.
Definition blocks (tr : trace) : list Z := fold_left block tr [].
(** Only what is in use is closed or freed; -1 is no descriptor. *)
Definition closes_ok (tr : trace) : Prop := forall a fd b, tr = a ++ Close fd :: b -> fd = -1 \/ fd ∈ open_fds a.
Definition frees_ok (tr : trace) : Prop := forall a p b, tr = a ++ Free (Some p) :: b -> p ∈ blocks a.
(** Documented: what is new is not in use. *)
Class OsLaws (OS : Os) : Prop := {
  os_socket_law tr d t : os_socket tr d t ∉ open_fds tr;
  os_accept_law tr fd : os_accept tr fd ∉ open_fds tr;
  os_alloc_law tr n p : os_alloc tr n = Some p -> p ∉ blocks tr;
}.

Lemma open_fds_snoc tr e : open_fds (tr ++ [e]) = open_fd (open_fds tr) e.
Proof. unfold open_fds. by rewrite fold_left_app. Qed.
Lemma blocks_snoc tr e : blocks (tr ++ [e]) = block (blocks tr) e.
Proof. unfold blocks. by rewrite fold_left_app. Qed.
Lemma snoc_split {A} (l a b : list A) x y : l ++ [x] = a ++ y :: b -> (b = [] /\ l = a /\ x = y) \/ exists b', b = b' ++ [x] /\ l = a ++ y :: b'.
Proof.
  destruct b as [|z b _] using rev_ind; intros E.
  - apply app_inj_tail in E as [-> ->]. by left.
  - rewrite app_comm_cons, app_assoc in E. apply app_inj_tail in E as [-> ->]. right. by exists b.
Qed.
Lemma closes_ok_snoc tr e : closes_ok tr -> (forall fd, e = Close fd -> fd = -1 \/ fd ∈ open_fds tr) -> closes_ok (tr ++ [e]).
Proof. intros Hc He a fd b [(-> & <- & ->)|(b' & -> & ->)]%snoc_split; [by apply He|by eapply Hc]. Qed.
Lemma frees_ok_snoc tr e : frees_ok tr -> (forall p, e = Free (Some p) -> p ∈ blocks tr) -> frees_ok (tr ++ [e]).
Proof. intros Hc He a p b [(-> & <- & ->)|(b' & -> & ->)]%snoc_split; [by apply He|by eapply Hc]. Qed.
Lemma open_fds_pos tr : Forall (fun x => 0 <= x) (open_fds tr).
Proof.
  induction tr as [|e tr IH] using rev_ind; [constructor|]. rewrite open_fds_snoc. destruct e; cbn [open_fd]; try done.
  - destruct (Z.leb_spec 0 fd); [by constructor|done].
  - destruct (Z.leb_spec 0 c); [by constructor|done].
  - rewrite Forall_forall in IH |- *. intros x [_ Hx]%list_elem_of_filter. by apply IH.
Qed.

(** * Calls *)

(** A state that carries its trace. *)
Class HasTrace (S : Type) := { trace_of : S -> trace; set_trace : trace -> S -> S }.
#[export] Instance trace_trace : HasTrace trace := {| trace_of tr := tr; set_trace tr _ := tr |}.

Section Lib.
Context `{OS : !Os} {S : Type} `{HT : !HasTrace S}.
Definition sys {A} (answer : trace -> A) (e : A -> io) : M S A := fun s =>
  let a := answer (trace_of s) in (a, set_trace (trace_of s ++ [e a]) s).
Definition act (e : io) : M S unit := sys (fun _ => tt) (fun _ => e).
Definition socket (domain type : Z) : M S Z := sys (fun tr => os_socket tr domain type) (Socket domain type).
Definition bind (fd : Z) (a : sockaddr) : M S Z := sys (fun tr => os_bind tr fd a) (Bind fd a).
Definition accept (fd : Z) : M S Z := sys (fun tr => os_accept tr fd) (Accept fd).
Definition connect (fd : Z) (path : bytes) : M S Z := sys (fun tr => os_connect tr fd path) (Connect fd path).
Definition recvmsg (fd : Z) : M S (Z * option cmsg) := sys (fun tr => os_recvmsg tr fd) (fun r => Recvmsg fd (fst r) (snd r)).
Definition read (fd n : Z) : M S (Z * bytes) := sys (fun tr => os_read tr fd n) (fun r => Read fd n (fst r) (snd r)).
Definition driver_alloc (n : Z) : M S (option Z) := sys (fun tr => os_alloc tr n) Alloc.
Definition driver_output (port : Z) (b : bytes) : M S unit := act (Output port b).

(** * Replies *)

Definition reply_int (port i : Z) : M S unit := driver_output port (1 :: put_int32 i).
Definition reply_ok (port : Z) : M S unit := driver_output port [1].
Definition reply_err (port : Z) : M S unit := driver_output port [0].
(** [strncpy(buf+1, s, BUFSIZ-1)]: a string of that length is not terminated, and [strlen] reads on. *)
Definition reply_err_string (port : Z) (s : bytes) : M S unit :=
  let s := c_str s in
  (when BUFSIZ - 1 <=? Z.of_nat (length s) do act Fault);;;
  driver_output port (0 :: take (Z.to_nat (BUFSIZ - 1)) s).
Definition reply_err_errno (port : Z) : M S unit :=
  s ← gets (fun s => os_strerror (trace_of s));
  reply_err_string port s.

(** * Sockets

    [reply_err_errno] is [reply] of the driver, and prints in the program. *)
Definition fd_listen_path (reply : Z -> M S unit) (port : Z) (path : bytes) : M S Z :=
  s ← socket AF_UNIX SOCK_STREAM;
  if Z.of_nat (length path) >? SUN_PATH + 1 then mret (-1)
  else
    (when SUN_PATH <=? Z.of_nat (length path) do act Fault);;;
    rc ← bind s (Un path);
    if rc <? 0 then reply port;;; mret (-1)
    else
      act (Chmod path);;;
      act (Chown path);;;
      act (Listen s);;;
      mret s.
Definition fd_accept_path (reply : Z -> M S unit) (port s : Z) (path : option Z) : M S Z :=
  c ← accept s;
  if c <? 0 then reply port;;; mret (-1) else mret c.
Definition send_fd (fd sock_fd : Z) : M S Z :=
  rc ← sys (fun tr => os_sendmsg tr sock_fd fd) (Sendmsg sock_fd fd);
  if rc <? 0 then mret (-1) else mret 1.
(** The descriptor that leads to the other process, or -1. *)
Definition fd_establish_communication (reply : Z -> M S unit) (port : Z) (path : bytes) : M S Z :=
  fd ← fd_listen_path reply port path;
  if fd =? -1 then mret (-1)
  else
    act (Write 1 [2; 111; 107]);;;
    ret ← fd_accept_path reply port fd None;
    act (Close fd);;;
    act (Unlink path);;;
    mret ret.

(** * Addresses *)

(** [strrchr(s, c)]: the string in front of the last [c] and the one after it. *)
Fixpoint strrchr (c : Z) (s : bytes) : option (bytes * bytes) :=
  match s with
  | [] => None
  | x :: s =>
      match strrchr c s with
      | Some (a, b) => Some (x :: a, b)
      | None => if x =? c then Some ([], s) else None
      end
  end.
(** [(int) strtol(s, NULL, 10)] of a string that begins with a digit; [long] has 64 bits. *)
Definition atoi (s : bytes) : Z := int32 (Z.min (numeral_value 0 s) (2 ^ 63 - 1)).
Definition port_of (cp : bytes) : option Z :=
  if negb (isdigit (hd 0 cp)) then s_port ← os_getservbyname cp (lit "tcp"); Some (get_int16 s_port)
  else Some (atoi cp).
Definition fd_parse_addr (tr : trace) (str : bytes) : option sockaddr_in :=
  let (str, cp) := match strrchr 58 str with Some (a, b) => (a, Some b) | None => (str, None) end in
  port ← match cp with Some cp => port_of cp | None => Some 0 end;
  if (port <? 0) || (port >? 0xffff) then None
  else
    let sin_port := put_int16 port in
    match str with
    | [] => Some (SockaddrIn AF_INET sin_port INADDR_ANY)
    | _ =>
        let a := os_inet_addr str in
        if bool_decide (a = INADDR_NONE) then
          h ← os_gethostbyname tr str;
          Some (SockaddrIn AF_INET sin_port (memcpy_at INADDR_NONE 0 h))
        else Some (SockaddrIn AF_INET sin_port a)
    end.
End Lib.

(** * Specifications of addresses

    [create_spec] of [fdsrv.erl]: ":port", or "a.b.c.d:port". *)
(** [integer_to_list] of a natural number. *)
Definition integer_to_list (n : Z) : bytes := numeral (Z.to_nat n + 1) n.
Inductive ip_port := AnyPort (port : Z) | IpPort (a b c d port : Z).
Definition dotted (a b c d : Z) : bytes :=
  integer_to_list a ++ [46] ++ integer_to_list b ++ [46] ++ integer_to_list c ++ [46] ++ integer_to_list d.
Definition create_spec (p : ip_port) : bytes :=
  match p with
  | AnyPort port => 58 :: integer_to_list port
  | IpPort a b c d port => dotted a b c d ++ [58] ++ integer_to_list port
  end.
(** Documented: a dotted address is read. *)
Class InetLaws (OS : Os) : Prop :=
  os_inet_addr_law a b c d : is_byte a -> is_byte b -> is_byte c -> is_byte d -> os_inet_addr (dotted a b c d) = [a; b; c; d].

Lemma integer_to_list_spec n : 0 <= n ->
  Forall (fun c => isdigit c = true) (integer_to_list n) /\ numeral_value 0 (integer_to_list n) = n /\ integer_to_list n <> [].
Proof.
  intros Hn. apply numeral_spec; [lia|]. split; [done|]. rewrite Nat2Z.inj_add, Z2Nat.id by lia.
  apply Z.lt_trans with (10 ^ n); [by apply Z.pow_gt_lin_r|apply Z.pow_lt_mono_r; lia].
Qed.
Lemma digits_integer n : 0 <= n -> numeral_value 0 (integer_to_list n) = n.
Proof. intros Hn. by destruct (integer_to_list_spec n Hn) as (_ & E & _). Qed.
Lemma strrchr_none c s : Forall (fun x => x <> c) s -> strrchr c s = None.
Proof. induction 1 as [|x s Hx _ IH]; [done|]. cbn [strrchr]. rewrite IH. by rewrite (proj2 (Z.eqb_neq x c)). Qed.
Lemma strrchr_last c a b : Forall (fun x => x <> c) b -> strrchr c (a ++ c :: b) = Some (a, b).
Proof.
  intros Hb. induction a as [|x a IH]; cbn [app strrchr]; [|by rewrite IH]. rewrite strrchr_none by done. by rewrite Z.eqb_refl.
Qed.
Lemma no_colon n : 0 <= n -> Forall (fun x => x <> 58) (integer_to_list n).
Proof.
  intros Hn. eapply Forall_impl; [apply integer_to_list_spec, Hn|]. cbn. unfold isdigit. intros x Hx. lia.
Qed.
Lemma port_of_decimal `{OS : !Os} n : 0 <= n < 2 ^ 31 -> port_of (integer_to_list n) = Some n.
Proof.
  intros Hn. destruct (integer_to_list_spec n) as (Hd & Hv & Hne); [lia|]. unfold port_of, atoi.
  destruct (integer_to_list n) as [|c s]; [done|]. cbn [hd]. apply Forall_cons in Hd as [Hc Hs]. rewrite Hc. cbn [negb]. cbv match.
  rewrite Hv, Z.min_l by lia. f_equal. apply sint_small; lia.
Qed.
(** What a specification means. *)
Definition port_num (p : ip_port) : Z := match p with AnyPort port => port | IpPort _ _ _ _ port => port end.
Definition address (p : ip_port) : bytes := match p with AnyPort _ => INADDR_ANY | IpPort a b c d _ => [a; b; c; d] end.

(** Addresses round trip: a specification that fdsrv.erl writes, a port or an address and a port, is read as the address with that port in network
    order; a port beyond 65535 is refused. The address 255.255.255.255 is left out: the code takes it for an error. *)
Theorem spec_parsed `{OS : !Os} `{IL : !InetLaws OS} tr (p : ip_port) :
  0 <= port_num p < 2 ^ 31 -> all_bytes (address p) -> address p <> INADDR_NONE ->
  fd_parse_addr tr (create_spec p) =
    if port_num p <=? 65535 then Some (SockaddrIn AF_INET (put_int16 (port_num p)) (address p)) else None.
Proof.
  intros Hp Ha Hn. assert (exists host, create_spec p = host ++ 58 :: integer_to_list (port_num p) /\
    match host with [] => address p = INADDR_ANY | _ => os_inet_addr host = address p end) as (host & -> & Hh).
  { destruct p as [port|a b c d port]; cbn [create_spec port_num address] in *; [by exists []|].
    unfold all_bytes in Ha. rewrite !Forall_cons in Ha. destruct Ha as (Ha & Hb & Hc & Hd & _).
    exists (dotted a b c d). split; [done|]. rewrite os_inet_addr_law by done. by destruct (dotted a b c d) eqn:E;
      [exfalso; revert E; unfold dotted; destruct (integer_to_list_spec a) as (_ & _ & H); [unfold is_byte in *; lia|]; by destruct (integer_to_list a)|]. }
  unfold fd_parse_addr. rewrite strrchr_last by (apply no_colon; lia). rewrite port_of_decimal by done. cbn [mbind option_bind].
  assert (((port_num p <? 0) || (port_num p >? 0xffff))%bool = negb (port_num p <=? 65535)) as -> by lia.
  destruct (port_num p <=? 65535); cbn [negb]; [|done]. destruct host as [|x host]; [by rewrite Hh|].
  rewrite Hh. by rewrite bool_decide_eq_false_2.
Qed.

(** ** An operating system

    Descriptors count up, connections bring no descriptor, input is a list of reads, nothing fails. *)
Definition inet_addr (s : bytes) : bytes :=
  match strrchr 46 s with
  | Some (abc, d) =>
      match strrchr 46 abc with
      | Some (ab, c) => match strrchr 46 ab with Some (a, b) => map (numeral_value 0) [a; b; c; d] | None => INADDR_NONE end
      | None => INADDR_NONE
      end
  | None => INADDR_NONE
  end.
Definition above (l : list Z) : Z := fold_right Z.max 2 l + 1.
Definition is_read (e : io) : bool := match e with Read _ _ _ _ => true | _ => false end.
Definition sample_os (input : list (Z * bytes)) : Os := {|
  os_socket tr _ _ := above (open_fds tr);
  os_bind _ _ _ := 0;
  os_accept tr _ := above (open_fds tr);
  os_connect _ _ _ := 0;
  os_sendmsg _ _ _ := 1;
  os_recvmsg _ _ := (1, Some (Cmsg 20 SOL_SOCKET SCM_RIGHTS 9));
  os_read tr _ _ := nth (length (List.filter is_read tr)) input (0, []);
  os_strerror _ := lit "error";
  os_alloc tr _ := Some (above (blocks tr));
  os_getservbyname _ _ := None;
  os_inet_addr := inet_addr;
  os_gethostbyname _ _ := None;
  CMSG_LEN n := 16 + n;
|}.
Lemma above_fresh l : above l ∉ l.
Proof.
  assert (forall x, x ∈ l -> x < above l) as H; [|intros Hin%H; lia].
  unfold above. induction l as [|y l IH]; intros x; [by intros ?%elem_of_nil|]. cbn [fold_right]. intros [->|Hx]%elem_of_cons; [lia|].
  specialize (IH x Hx). lia.
Qed.
#[export] Instance sample_os_laws input : OsLaws (sample_os input).
Proof. split; cbn; intros; try apply above_fresh. simplify_eq. apply above_fresh. Qed.
Lemma no_dot n : 0 <= n -> Forall (fun x => x <> 46) (integer_to_list n).
Proof.
  intros Hn. eapply Forall_impl; [apply integer_to_list_spec, Hn|]. cbn. unfold isdigit. intros x Hx. lia.
Qed.
#[export] Instance sample_inet_laws input : InetLaws (sample_os input).
Proof.
  intros a b c d Ha Hb Hc Hd. cbn. unfold is_byte in *. unfold inet_addr, dotted. cbn [app].
  assert (forall x y z : bytes, x ++ 46 :: y ++ z = (x ++ 46 :: y) ++ z) as assoc by (intros; by rewrite <-app_assoc).
  rewrite (assoc (integer_to_list a)), (assoc (integer_to_list a ++ _)), strrchr_last by (apply no_dot; lia).
  rewrite !strrchr_last by (apply no_dot; lia). cbn [map].
  by rewrite !digits_integer by lia.
Qed.
(** 127.0.0.1:8080. *)
Lemma spec_parsed_witness :
  fd_parse_addr (OS := sample_os []) [] (create_spec (IpPort 127 0 0 1 8080)) = Some (SockaddrIn AF_INET [31; 144] [127; 0; 0; 1]).
Proof.
  apply (spec_parsed (OS := sample_os []) [] (IpPort 127 0 0 1 8080)); [by vm_compute|by repeat constructor|done].
Defined.
