(* ===== verification/FdSend.v ===== *)
(** The driver that sends descriptors: [fd_server/c_src/fdsend_drv.c].  It keeps the Unix sockets it opened, those that listen and
    those that were accepted, in a table of [MAXSLAVES] entries, and passes descriptors over them.

    The path of a listening socket is a block of its own; entries that were accepted point to the block of the socket that listens. *)
From S2P Require Import Prelude Erts FdLib.
#[local] Open Scope Z_scope.

Definition MAXSLAVES : nat := 64.
Definition LISTEN : Z := 76.
Definition ACCEPT : Z := 65.
Record slave := Slave { fd : Z; path : option Z; type : Z }.
Record world := World { instance : Z; slaves : list slave; calls : trace }.
#[export] Instance world_trace : HasTrace world := {| trace_of := calls; set_trace tr w := World (instance w) (slaves w) tr |}.

Section Driver.
Context `{OS : !Os}.
Abbreviation F := (M world).

Definition set_slaves (l : list slave) : F unit := modify (fun w => World (instance w) l (calls w)).
Definition set_slave (i : nat) (s : slave) : F unit := modify (fun w => World (instance w) (<[i := s]> (slaves w)) (calls w)).
Definition slave_at (i : nat) (l : list slave) : slave := default (Slave (-1) None 0) (l !! i).
(** The first entry with a descriptor. *)
Definition find_slave (x : Z) (l : list slave) : option nat := fst <$> list_find (fun s => fd s = x) l.
Definition find_free_slave (l : list slave) : option nat := find_slave (-1) l.

Definition start (port : Z) : F (option Z) :=
  w ← get;
  if negb (instance w =? -1) then mret None
  else
    set_slaves (map (fun s => Slave (-1) None (type s)) (slaves w));;;
    mret (Some port).

(** [get_int32(buf + k)] of a command that may be too short. *)
Definition int_arg (k : nat) (buf : bytes) : F Z :=
  (when (length buf <? k + 4)%nat do act Fault);;; mret (get_int32 (drop k buf)).
Definition terminated (buf : bytes) : bool := existsb (fun c => c =? 0) buf.

(** ** Commands *)

(** [buf] is what follows the opcode, and [n] the length of the whole command. *)
Definition from_L (port : Z) (buf : bytes) (n : Z) : F unit :=
  (when negb (terminated buf) do act Fault);;;
  fd ← fd_listen_path reply_err_errno port (c_str buf);
  l ← gets slaves;
  match find_free_slave l with
  | None => reply_err port
  | Some i =>
      if fd >? 0 then
        tp ← driver_alloc n;
        match tp with
        | Some tp => set_slave i (Slave fd (Some tp) LISTEN);;; reply_int port fd
        | None => reply_err port
        end
      else reply_err port
  end.
Definition from_A (port : Z) (buf : bytes) : F unit :=
  fd ← int_arg 0 buf;
  l ← gets slaves;
  match find_slave fd l with
  | None => reply_err port
  | Some i =>
      match find_free_slave l with
      | None => reply_err port
      | Some j =>
          let tp := path (slave_at i l) in
          afd ← fd_accept_path reply_err_errno port fd tp;
          if afd >? 0 then set_slave j (Slave afd tp ACCEPT);;; reply_int port afd
          else reply_err port
      end
  end.
Definition from_S (port : Z) (buf : bytes) : F unit :=
  fd ← int_arg 0 buf;
  slavefd ← int_arg 4 buf;
  rc ← send_fd fd slavefd;
  if rc =? -1 then reply_err port else reply_ok port.
Definition from_C (port : Z) (buf : bytes) : F unit :=
  fd ← int_arg 0 buf;
  l ← gets slaves;
  match find_slave fd l with
  | None => reply_err port
  | Some i =>
      let s := slave_at i l in
      (when bool_decide (path s <> None) && (type s =? LISTEN) do act (Free (path s)));;;
      act (Close fd);;;
      set_slave i (Slave (-1) None (type s));;;
      reply_ok port
  end.
(** [junk] is read as the opcode of a command without bytes. *)
Definition from_erlang (junk : Z) (port : Z) (command : bytes) : F unit :=
  let n := Z.of_nat (length command) in
  let op := hd junk command in
  let buf := tail command in
  if op =? 76 then from_L port buf n
  else if op =? 65 then from_A port buf
  else if (op =? 108) || (op =? 83) then from_S port buf
  else if op =? 67 then from_C port buf
  else skip.

Fixpoint stop_slaves (l : list slave) : F (list slave) :=
  match l with
  | [] => mret []
  | s :: l =>
      s' ← (if fd s >? 0 then
              (when type s =? LISTEN do act (Free (path s)));;;
              act (Close (fd s));;;
              mret (Slave (fd s) None (type s))
            else mret s);
      l' ← stop_slaves l;
      mret (s' :: l')
  end.
Definition stop : F unit :=
  w ← get;
  l ← stop_slaves (slaves w);
  modify (fun w => World (-1) l (calls w)).
End Driver.

(** * Ownership

    The descriptors and the blocks that an entry of the table holds. *)
Definition own_fd (s : slave) : list Z := if fd s =? -1 then [] else [fd s].
Definition own_path (s : slave) : list Z :=
  if (fd s =? -1) || negb (type s =? LISTEN) then [] else match path s with Some p => [p] | None => [] end.
Definition owned (l : list slave) : list Z := concat (map own_fd l).
Definition owned_paths (l : list slave) : list Z := concat (map own_path l).
Definition wf_slave (s : slave) : Prop :=
  (fd s = -1 /\ path s = None) \/ (0 < fd s /\ (type s = LISTEN -> path s <> None)).
(** [lost] and [spare] are in use and in no entry. *)
Record owns (l : list slave) (tr : trace) (lost spare : list Z) : Prop := Owns {
  ow_fds : open_fds tr ≡ₚ owned l ++ lost;
  ow_blocks : blocks tr ≡ₚ owned_paths l ++ spare;
  ow_fds_nodup : NoDup (open_fds tr);
  ow_blocks_nodup : NoDup (blocks tr);
  ow_closes : closes_ok tr;
  ow_frees : frees_ok tr;
  ow_wf : Forall wf_slave l;
}.
(** Nothing is opened, closed, allocated or freed. *)
Definition mild (e : io) : Prop :=
  match e with
  | Socket _ _ fd | Accept _ fd => fd < 0
  | Close _ => False
  | Alloc (Some _) | Free (Some _) => False
  | _ => True
  end.
(** Error answers. *)
Definition is_error (e : io) : bool := match e with Output _ b => bool_decide (b = [0]) | _ => false end.
Definition errors (tr : trace) : nat := length (List.filter is_error tr).

(** ** One call *)

(** What one call does to descriptors and blocks. *)
Lemma owns_step l tr lost spare lost' spare' e : owns l tr lost spare ->
  open_fd (open_fds tr) e ≡ₚ owned l ++ lost' -> block (blocks tr) e ≡ₚ owned_paths l ++ spare' ->
  NoDup (open_fd (open_fds tr) e) -> NoDup (block (blocks tr) e) ->
  (forall fd, e = Close fd -> fd = -1 \/ fd ∈ open_fds tr) -> (forall p, e = Free (Some p) -> p ∈ blocks tr) ->
  owns l (tr ++ [e]) lost' spare'.
Proof.
  intros [] Hf Hb Hn Hm Hc Hp. split; rewrite ?open_fds_snoc, ?blocks_snoc; try done; [by apply closes_ok_snoc|by apply frees_ok_snoc].
Qed.
Lemma owns_mild l tr lost spare e : mild e -> owns l tr lost spare -> owns l (tr ++ [e]) lost spare.
Proof.
  intros He Ho. pose proof Ho as []. eapply owns_step; [done| ..]; destruct e; cbn [open_fd block mild] in *; repeat case_match; try done; try lia;
    intros ? [= ->]; done.
Qed.
Lemma owns_milds l tr lost spare new : Forall mild new -> owns l tr lost spare -> owns l (tr ++ new) lost spare.
Proof.
  intros Hn. induction new as [|e new IH] using rev_ind; [by rewrite app_nil_r|]. apply Forall_app in Hn as [Hn He].
  inversion He; subst. intros Ho. rewrite app_assoc. by apply owns_mild, IH.
Qed.
(** Opening, closing, allocating, freeing. *)
Lemma owns_opened l tr y lost spare e : (exists x, e = Accept x y) \/ (exists d t, e = Socket d t y) -> 0 <= y -> y ∉ open_fds tr ->
  owns l tr lost spare -> owns l (tr ++ [e]) (y :: lost) spare.
Proof.
  intros He H0 Hn Ho. pose proof Ho as [].
  assert (open_fd (open_fds tr) e = y :: open_fds tr /\ block (blocks tr) e = blocks tr) as [E1 E2].
  { destruct He as [(x & ->)|(d & t & ->)]; cbn [open_fd block]; by rewrite (proj2 (Z.leb_le 0 y)). }
  eapply owns_step; [done| ..]; rewrite ?E1, ?E2; try done.
  - rewrite ow_fds0. apply Permutation_middle.
  - by constructor.
  - intros z ->. by destruct He as [[]|(? & ? & ?)].
  - intros z ->. by destruct He as [[]|(? & ? & ?)].
Qed.
Lemma owns_closed l tr lost spare x : owns l tr (x :: lost) spare -> owns l (tr ++ [Close x]) lost spare.
Proof.
  intros Ho. pose proof Ho as []. assert (open_fds tr ≡ₚ x :: owned l ++ lost) as Hp by by rewrite ow_fds0, Permutation_middle.
  eapply owns_step; cbn [open_fd block]; try done.
  - by apply filter_others.
  - by apply NoDup_filter.
  - intros y [= <-]. right. rewrite Hp. by left.
Qed.
(** Closing no descriptor. *)
Lemma owns_close_none l tr lost spare : owns l tr lost spare -> Forall (fun x => 0 <= x) (open_fds tr) -> owns l (tr ++ [Close (-1)]) lost spare.
Proof.
  intros Ho Hpos. pose proof Ho as []. assert (filter (fun x => x <> -1) (open_fds tr) = open_fds tr) as E.
  { clear -Hpos. induction Hpos as [|x r Hx _ IH]; [done|]. rewrite filter_cons_True by lia. by rewrite IH. }
  eapply owns_step; cbn [open_fd block]; rewrite ?E; try done. intros y [= <-]. by left.
Qed.
Lemma owns_alloc l tr lost spare p : p ∉ blocks tr -> owns l tr lost spare -> owns l (tr ++ [Alloc (Some p)]) lost (p :: spare).
Proof.
  intros Hp Ho. pose proof Ho as []. eapply owns_step; cbn [open_fd block]; try done.
  - rewrite ow_blocks0. apply Permutation_middle.
  - by constructor.
Qed.
Lemma owns_free l tr lost spare p : owns l tr lost (p :: spare) -> owns l (tr ++ [Free (Some p)]) lost spare.
Proof.
  intros Ho. pose proof Ho as []. assert (blocks tr ≡ₚ p :: owned_paths l ++ spare) as Hp by by rewrite ow_blocks0, Permutation_middle.
  eapply owns_step; cbn [open_fd block]; try done.
  - by apply filter_others.
  - by apply NoDup_filter.
  - intros y [= <-]. rewrite Hp. by left.
Qed.
(** ** The table *)

Lemma concat_insert {A} (f : A -> list Z) l i s s' : l !! i = Some s -> concat (map f (<[i := s']> l)) ++ f s ≡ₚ concat (map f l) ++ f s'.
Proof.
  revert i. induction l as [|x l IH]; intros [|i] Hi; try done; cbn in Hi |- *.
  - injection Hi as ->. rewrite (Permutation_app_comm (f s' ++ _)), (Permutation_app_comm (f s ++ _)). apply Permutation_app_swap_app.
  - rewrite <-!app_assoc. by rewrite IH.
Qed.
(** An entry results up what it holds, or takes what no entry holds. *)
Lemma owns_exchange l tr lost spare i s s' lost' spare' : l !! i = Some s -> wf_slave s' ->
  own_fd s ++ lost ≡ₚ own_fd s' ++ lost' -> own_path s ++ spare ≡ₚ own_path s' ++ spare' ->
  owns l tr lost spare -> owns (<[i := s']> l) tr lost' spare'.
Proof.
  intros Hi Hw Hf Hp []. split; try done.
  - rewrite ow_fds0. apply (Permutation_app_inv_r (own_fd s)). rewrite <-!app_assoc, (Permutation_app_comm lost), Hf.
    rewrite (Permutation_app_comm lost' _), !app_assoc. apply Permutation_app_tail. symmetry. by apply concat_insert.
  - rewrite ow_blocks0. apply (Permutation_app_inv_r (own_path s)). rewrite <-!app_assoc, (Permutation_app_comm spare), Hp.
    rewrite (Permutation_app_comm spare' _), !app_assoc. apply Permutation_app_tail. symmetry. by apply concat_insert.
  - by apply Forall_insert.
Qed.
Lemma find_slave_spec x l i : find_slave x l = Some i -> exists s, l !! i = Some s /\ fd s = x /\ slave_at i l = s.
Proof.
  unfold find_slave. destruct (list_find _ l) as [[j s]|] eqn:E; [|done]. intros [= ->].
  apply list_find_Some in E as (Hi & Hx & _). exists s. unfold slave_at. by rewrite Hi.
Qed.
Lemma own_fd_free s : fd s = -1 -> own_fd s = [] /\ own_path s = [].
Proof. intros E. unfold own_fd, own_path. by rewrite E. Qed.
Lemma own_fd_used s : fd s <> -1 -> own_fd s = [fd s].
Proof. intros E. unfold own_fd. by rewrite (proj2 (Z.eqb_neq _ _)). Qed.

(** What an entry is released with. *)
Definition frees (s : slave) : trace := if bool_decide (path s <> None) && (type s =? LISTEN) then [Free (path s)] else [].
Lemma owns_release l tr lost i s : l !! i = Some s -> owns l tr lost [] ->
  owns (<[i := Slave (-1) None (type s)]> l) (tr ++ frees s ++ [Close (fd s)]) lost [].
Proof.
  intros Hi Ho. pose proof (ow_wf _ _ _ _ Ho) as Hw. rewrite Forall_lookup in Hw. specialize (Hw i s Hi). unfold frees. destruct Hw as [[Hf Hp]|[Hf Hp]].
  - rewrite Hp, bool_decide_eq_false_2, Hf by tauto. cbn [andb app]. apply owns_close_none; [|apply open_fds_pos].
    destruct (own_fd_free s Hf) as [E1 E2]. eapply owns_exchange; [done|by left| ..|exact Ho]; by rewrite ?E1, ?E2.
  - assert (fd s <> -1) as Hne by lia. rewrite app_assoc. apply owns_closed.
    assert (owns (<[i:=Slave (-1) None (type s)]> l) tr (fd s :: lost) (own_path s)) as H1.
    { eapply owns_exchange; [done|by left| ..|exact Ho]; [by rewrite own_fd_used|by rewrite app_nil_r]. }
    unfold own_path in H1. rewrite (proj2 (Z.eqb_neq _ _) Hne) in H1. cbn [orb] in H1. destruct (Z.eqb_spec (type s) LISTEN) as [Ht|Ht]; cbn [negb] in H1.
    + specialize (Hp Ht). destruct (path s) as [p|]; [|done]. rewrite bool_decide_eq_true_2 by done. by apply owns_free.
    + rewrite andb_false_r. by rewrite app_nil_r.
Qed.
Lemma owns_tail s l tr lost : fd s = -1 -> owns (s :: l) tr lost [] -> owns l tr lost [].
Proof.
  intros Hf []. destruct (own_fd_free s Hf) as [E1 E2]. split; try done.
  - rewrite ow_fds0. unfold owned. cbn [map concat]. by rewrite E1.
  - rewrite ow_blocks0. unfold owned_paths. cbn [map concat]. by rewrite E2.
  - by apply Forall_cons in ow_wf0 as [_ ?].
Qed.

(** ** Commands *)

Section Keeps.
Context `{OS : !Os}.
Implicit Types (w : world).
(** The calls of [w'] are those of [w] and others that touch no descriptor and no block. *)
Definition adds w w' : Prop := exists new, w' = World (instance w) (slaves w) (calls w ++ new) /\ Forall mild new.
#[export] Instance adds_preorder : PreOrder adds.
Proof.
  split; [intros []; exists []; by rewrite app_nil_r|]. intros a b c (n1 & -> & H1) (n2 & -> & H2). exists (n1 ++ n2). cbn.
  rewrite app_assoc. split; [done|by apply Forall_app].
Qed.
(** What is lost is made up for by errors told. *)
Definition keeps w w' : Prop := forall lost, owns (slaves w) (calls w) lost [] ->
  exists more, owns (slaves w') (calls w') (more ++ lost) [] /\ (length more + errors (calls w) <= errors (calls w'))%nat.
#[export] Instance keeps_preorder : PreOrder keeps.
Proof.
  split; [intros w lost Hw; by exists []|]. intros a b c H1 H2 lost (m1 & Ho1 & E1)%H1. destruct (H2 _ Ho1) as (m2 & Ho2 & E2).
  exists (m2 ++ m1). rewrite length_app, <-app_assoc. split; [done|lia].
Qed.
Lemma errors_app a b : errors (a ++ b) = (errors a + errors b)%nat.
Proof. unfold errors. by rewrite List.filter_app, length_app. Qed.
Lemma adds_keeps w w' : adds w w' -> keeps w w'.
Proof.
  intros (new & -> & Hn) lost Ho. exists []. cbn [slaves calls app length]. split; [by apply owns_milds|]. rewrite errors_app. lia.
Qed.
Lemma adds_act e : mild e -> ensures adds (act e).
Proof. intros He w. exists [e]. split; [done|by constructor]. Qed.
Lemma adds_error port s : ensures adds (reply_err_string port s).
Proof. unfold reply_err_string, driver_output. walk ltac:(by apply adds_act). Qed.
Lemma adds_errno port : ensures adds (reply_err_errno port).
Proof. unfold reply_err_errno. walk ltac:(apply adds_error). Qed.
Lemma adds_sys {A} (answer : trace -> A) (e : A -> io) : (forall a, mild (e a)) -> ensures adds (sys answer e).
Proof. intros He w. exists [e (answer (calls w))]. split; [done|by constructor]. Qed.

(** Also of the result. *)
Definition results {A} (P : A -> Prop) (m : M world A) : Prop := forall w, adds w (snd (m w)) /\ P (fst (m w)).
Lemma results_ret {A} (P : A -> Prop) a : P a -> results P (mret a).
Proof. intros Ha w. split; [reflexivity|done]. Qed.
Lemma results_bind {A B} (P : B -> Prop) (m : M world A) (f : A -> M world B) : ensures adds m -> (forall a, results P (f a)) -> results P (mbind f m).
Proof.
  intros Hm Hf w. unfold mbind, M_bind. specialize (Hm w). destruct (m w) as [a w1]. destruct (Hf a w1) as [H1 H2]. split; [|done].
  etransitivity; [exact Hm|done].
Qed.
Lemma results_if {A} (P : A -> Prop) (b : bool) (m n : M world A) : results P m -> results P n -> results P (if b then m else n).
Proof. by destruct b. Qed.
Lemma adds_when (b : bool) e : mild e -> ensures adds (when b do act e).
Proof. intros He. destruct b; [by apply adds_act|apply ensures_skip, _]. Qed.

(** A socket is opened; the result is that socket, or -1. *)
Lemma fd_listen_path_eq port path w : exists r w', fd_listen_path reply_err_errno port path w = (r, w') /\
  (r = os_socket (calls w) AF_UNIX SOCK_STREAM \/ r = -1) /\
  adds (World (instance w) (slaves w) (calls w ++ [Socket AF_UNIX SOCK_STREAM (os_socket (calls w) AF_UNIX SOCK_STREAM)])) w'.
Proof.
  unfold fd_listen_path. set (fd := os_socket (calls w) AF_UNIX SOCK_STREAM).
  set (w1 := World (instance w) (slaves w) (calls w ++ [Socket AF_UNIX SOCK_STREAM fd])). rewrite (bind_eq (socket AF_UNIX SOCK_STREAM) _ w fd w1) by reflexivity.
  match goal with |- context [?m w1] => assert (results (fun r => r = fd \/ r = -1) m) as H end.
  { apply results_if; [apply results_ret; auto|]. apply results_bind; [by apply adds_when|intros _].
    apply results_bind; [by apply adds_sys|intros rc]. apply results_if.
    - apply results_bind; [apply adds_errno|intros _]. apply results_ret; auto.
    - do 3 (apply results_bind; [by apply adds_act|intros _]). apply results_ret; auto. }
  destruct (H w1) as [Ha Hr]. eexists _, _. split; [apply surjective_pairing|done].
Qed.
Context `{OL : !OsLaws OS}.
(** An error answer makes up for what was lost. *)
Lemma owns_error port w lost more : owns (slaves w) (calls w) (more ++ lost) [] -> (length more <= 1)%nat -> forall w0, (errors (calls w0) <= errors (calls w))%nat ->
  exists more, owns (slaves (snd (reply_err port w))) (calls (snd (reply_err port w))) (more ++ lost) [] /\
    (length more + errors (calls w0) <= errors (calls (snd (reply_err port w))))%nat.
Proof.
  intros Ho Hl w0 Hw. exists more. change (snd (reply_err port w)) with (World (instance w) (slaves w) (calls w ++ [Output port [0]])).
  cbn [slaves calls]. split; [by apply owns_mild|]. rewrite errors_app. change (errors [Output port [0]]) with 1%nat. lia.
Qed.
Lemma owns_adds w w' lost spare : adds w w' -> owns (slaves w) (calls w) lost spare ->
  owns (slaves w') (calls w') lost spare /\ (errors (calls w) <= errors (calls w'))%nat /\ slaves w' = slaves w /\ instance w' = instance w.
Proof.
  intros (new & -> & Hn) Ho. cbn [slaves calls instance]. split_and!; try done; [by apply owns_milds|]. rewrite errors_app. lia.
Qed.
Lemma keeps_L port buf n : ensures keeps (from_L port buf n).
Proof.
  intros w0 lost Ho0. unfold from_L. destruct (owns_adds _ _ _ _ (adds_when (negb (terminated buf)) Fault I w0) Ho0) as (Ho & He0 & _).
  destruct ((when negb (terminated buf) do act Fault) w0) as [[] w] eqn:E0. rewrite (bind_eq _ _ _ _ _ E0). cbn [snd] in *. clear E0 Ho0.
  destruct (fd_listen_path_eq port (c_str buf) w) as (r & w2 & E & Hr & Ha). rewrite (bind_eq _ _ _ _ _ E). clear E.
  set (sk := os_socket (calls w) AF_UNIX SOCK_STREAM) in *.
  assert (exists more, owns (slaves w) (calls w ++ [Socket AF_UNIX SOCK_STREAM sk]) (more ++ lost) [] /\ (length more <= 1)%nat /\ (0 < r -> more = [r])) as (more & Ho1 & Hl & Hm).
  { destruct (Z.leb_spec 0 sk).
    - exists [sk]. split_and!; [|done|intros ?; destruct Hr; [by subst|lia]]. apply owns_opened; [right; by eexists _, _|done|apply os_socket_law|done].
    - exists []. split_and!; [|cbn; lia|lia]. by apply owns_mild. }
  destruct (owns_adds _ w2 (more ++ lost) [] Ha Ho1) as (Ho2 & He2 & Es & _). cbn [calls slaves] in He2, Es. rewrite errors_app in He2.
  rewrite (bind_eq (gets _) _ w2 (slaves w2) w2 eq_refl). destruct (find_free_slave (slaves w2)) as [i|] eqn:Ei; [|eapply owns_error; [exact Ho2|done|lia]].
  destruct (Z.gtb_spec r 0) as [Hr0|_]; [|eapply owns_error; [exact Ho2|done|lia]].
  unfold driver_alloc. set (tp := os_alloc (calls w2) n).
  set (w3 := World (instance w2) (slaves w2) (calls w2 ++ [Alloc tp])). rewrite (bind_eq (sys _ Alloc) _ w2 tp w3) by reflexivity.
  destruct tp as [p|] eqn:Et.
  - rewrite Hm in Ho2 by lia. exists []. cbn [app length].
    destruct (find_slave_spec _ _ _ Ei) as (s & Hi & Hs & _). destruct (own_fd_free s Hs) as [Ef Ep].
    assert (owns (<[i := Slave r (Some p) LISTEN]> (slaves w2)) (calls w3) lost []) as Ho3.
    { eapply owns_exchange; [done| ..|apply owns_alloc, Ho2; by apply os_alloc_law with n].
      - right. cbn. split; [lia|done].
      - rewrite Ef, own_fd_used by (cbn; lia). done.
      - rewrite Ep. unfold own_path. cbn [fd type path]. by rewrite (proj2 (Z.eqb_neq r (-1))) by lia. }
    match goal with |- context [snd ?x] => change (snd x) with (World (instance w3) (<[i:=Slave r (Some p) LISTEN]> (slaves w2)) (calls w3 ++ [Output port (1 :: put_int32 r)])) end.
    cbn [slaves calls]. split; [by apply owns_mild|]. unfold w3. cbn [calls]. rewrite !errors_app. lia.
  - assert (owns (slaves w3) (calls w3) (more ++ lost) []) as Ho3 by by apply owns_mild.
    eapply owns_error; [exact Ho3|done|]. subst w3. cbn [calls]. rewrite errors_app. lia.
Qed.
Lemma keeps_error port : ensures keeps (reply_err port).
Proof. intros w. apply adds_keeps, adds_act, I. Qed.
Lemma keeps_int_arg k buf : ensures keeps (int_arg k buf).
Proof. unfold int_arg. walk ltac:(by intros w; apply adds_keeps, adds_act). Qed.
Lemma keeps_A port buf : ensures keeps (from_A port buf).
Proof.
  unfold from_A. apply ensures_bind; [apply _|apply keeps_int_arg|]. intros a w. rewrite (bind_eq (gets slaves) _ w (slaves w) w eq_refl).
  destruct (find_slave a (slaves w)) as [i|]; [|apply keeps_error]. destruct (find_free_slave (slaves w)) as [j|] eqn:Ej; [|apply keeps_error].
  set (tp := path _). intros lost Ho. unfold fd_accept_path, accept. set (c := os_accept (calls w) a).
  set (w1 := World (instance w) (slaves w) (calls w ++ [Accept a c])).
  assert (forall m, (c < 0 -> m = []) -> (0 <= c -> m = [c]) -> owns (slaves w1) (calls w1) (m ++ lost) [] /\ (length m <= 1)%nat) as Ho1.
  { intros m Hn Hp. destruct (Z.leb_spec 0 c); [rewrite Hp by done|rewrite Hn by done]; (split; [|cbn; lia]).
    - apply owns_opened; [left; by eexists|done|apply os_accept_law|done].
    - by apply owns_mild. }
  match goal with |- context [mbind ?f (mbind ?g (sys ?x ?y)) w] => assert (exists r w2, mbind g (sys x y) w = (r, w2) /\ adds w1 w2 /\ r = (if c <? 0 then -1 else c)) as (r & w2 & E & Ha & Er) end.
  { rewrite (bind_eq (sys _ _) _ w c w1) by reflexivity. destruct (c <? 0).
    - pose proof (adds_errno port w1) as H. destruct (reply_err_errno port w1) as [[] w2] eqn:E. rewrite (bind_eq _ _ _ _ _ E). by exists (-1), w2.
    - exists c, w1. split_and!; [done|reflexivity|done]. }
  rewrite (bind_eq _ _ _ _ _ E). clear E. destruct (Z.gtb_spec r 0) as [Hr|Hr].
  - destruct (Z.ltb_spec c 0) as [Hc|Hc]; [lia|]. subst r. destruct (Ho1 [c]) as [Ho2 _]; [lia|done|].
    destruct (owns_adds _ _ _ _ Ha Ho2) as (Ho3 & He & Es & Ei). exists []. destruct (find_slave_spec _ _ _ Ej) as (s & Hi & Hs & _).
    destruct (own_fd_free s Hs) as [Ef Ep].
    match goal with |- context [snd ?x] => change (snd x) with (World (instance w2) (<[j:=Slave c tp ACCEPT]> (slaves w2)) (calls w2 ++ [Output port (1 :: put_int32 c)])) end.
    cbn [slaves calls app length]. split; [|rewrite errors_app; unfold w1 in He; cbn [calls] in He; rewrite errors_app in He; lia]. apply owns_mild; [done|]. eapply owns_exchange; [by rewrite Es| ..|exact Ho3].
    + right. cbn. split; [lia|done].
    + rewrite Ef, own_fd_used by (cbn; lia). done.
    + rewrite Ep. unfold own_path. cbn [fd type path]. by rewrite orb_true_r.
  - destruct (Ho1 (if c <? 0 then [] else [c])) as [Ho2 Hl]; [by intros ?%Z.ltb_lt; case_match|intros ?%Z.ltb_ge; by case_match|].
    destruct (owns_adds _ _ _ _ Ha Ho2) as (Ho3 & He & _). eapply owns_error; [exact Ho3|done|]. unfold w1 in He. cbn [calls] in He. rewrite errors_app in He. lia.
Qed.
Lemma keeps_S port buf : ensures keeps (from_S port buf).
Proof.
  unfold from_S, send_fd. walk ltac:(first [apply keeps_int_arg|apply keeps_error|by intros w; apply adds_keeps, adds_sys|by intros w; apply adds_keeps, adds_act]).
Qed.
Lemma keeps_C port buf : ensures keeps (from_C port buf).
Proof.
  unfold from_C. apply ensures_bind; [apply _|apply keeps_int_arg|]. intros a w. rewrite (bind_eq (gets slaves) _ w (slaves w) w eq_refl).
  destruct (find_slave a (slaves w)) as [i|] eqn:Ei; [|apply keeps_error]. destruct (find_slave_spec _ _ _ Ei) as (s & Hi & <- & ->).
  intros lost Ho. exists [].
  match goal with |- context [snd ?x] => assert (snd x = World (instance w) (<[i:=Slave (-1) None (type s)]> (slaves w)) ((calls w ++ frees s ++ [Close (fd s)]) ++ [Output port [1]])) as -> end.
  { unfold frees. unfold act, sys, reply_ok, driver_output, act, sys, set_slave. destruct (bool_decide _ && _); run; by rewrite <-?app_assoc. }
  cbn [slaves calls app length]. split; [|rewrite !errors_app; lia]. apply owns_mild; [done|]. by apply owns_release.
Qed.
Lemma keeps_from_erlang junk port command : ensures keeps (from_erlang junk port command).
Proof.
  unfold from_erlang. walk ltac:(first [apply keeps_L|apply keeps_A|apply keeps_S|apply keeps_C]).
Qed.
(** Stopping releases the entries one by one. *)
Lemma stop_slaves_owns l w lost : owns l (calls w) lost [] ->
  owns [] (calls (snd (stop_slaves l w))) lost [] /\ errors (calls (snd (stop_slaves l w))) = errors (calls w).
Proof.
  revert w. induction l as [|s l IH]; intros w Ho; [done|]. cbn [stop_slaves]. pose proof (ow_wf _ _ _ _ Ho) as Hw. apply Forall_cons in Hw as [Hw _].
  match goal with |- context [mbind _ ?x] => set (m := x) end.
  assert (exists s' new, m w = (s', World (instance w) (slaves w) (calls w ++ new)) /\ owns l (calls w ++ new) lost [] /\ errors new = 0%nat) as (s' & new & E & Ho1 & He).
  { subst m. destruct (Z.gtb_spec (fd s) 0) as [Hf|Hf].
    - exists (Slave (fd s) None (type s)), (frees s ++ [Close (fd s)]). split_and!.
      + unfold frees. destruct Hw as [[Hw _]|[_ Hp]]; [lia|]. destruct (Z.eqb_spec (type s) LISTEN) as [Ht|Ht].
        * rewrite bool_decide_eq_true_2 by auto. unfold act, sys. run. by rewrite <-app_assoc.
        * rewrite andb_false_r. done.
      + apply owns_tail with (Slave (-1) None (type s)); [done|]. exact (owns_release (s :: l) _ _ 0 s eq_refl Ho).
      + unfold frees. by destruct (bool_decide _ && _).
    - exists s, []. rewrite app_nil_r. split_and!; [by destruct w| |done]. apply owns_tail with s; [|done]. destruct Hw as [[Hw _]|[Hw _]]; [done|lia]. }
  rewrite (bind_eq _ _ _ _ _ E). specialize (IH (World (instance w) (slaves w) (calls w ++ new)) Ho1).
  destruct (stop_slaves l _) as [l' w2] eqn:E2. rewrite (bind_eq _ _ _ _ _ E2). cbn [snd mret M_ret] in *. destruct IH as [H1 H2]. split; [done|].
  rewrite H2. cbn [calls]. rewrite errors_app. lia.
Qed.
End Keeps.

(** * Answers *)

Section Answers.
Context `{OS : !Os}.
Implicit Types (w : world).
(** Nothing is told but texts of errors, which begin with a zero. *)
Definition text_only (e : io) : Prop := match e with Output _ b => hd 1 b = 0 | _ => True end.
Definition mutters w w' : Prop := exists new, w' = World (instance w) (slaves w) (calls w ++ new) /\ Forall text_only new.
#[export] Instance mutters_preorder : PreOrder mutters.
Proof.
  split; [intros []; exists []; by rewrite app_nil_r|]. intros a b c (n1 & -> & H1) (n2 & -> & H2). exists (n1 ++ n2). cbn.
  rewrite app_assoc. split; [done|by apply Forall_app].
Qed.
Lemma mutters_sys {A} (answer : trace -> A) (e : A -> io) : (forall a, text_only (e a)) -> ensures mutters (sys answer e).
Proof. intros He w. exists [e (answer (calls w))]. split; [done|by constructor]. Qed.
Lemma mutters_act e : text_only e -> ensures mutters (act e).
Proof. intros He. by apply mutters_sys. Qed.
Lemma mutters_errno port : ensures mutters (reply_err_errno port).
Proof. unfold reply_err_errno, reply_err_string, driver_output. walk ltac:(by apply mutters_act). Qed.
Lemma mutters_listen port path : ensures mutters (fd_listen_path reply_err_errno port path).
Proof.
  unfold fd_listen_path, socket, bind. walk ltac:(first [apply mutters_errno | by apply mutters_act | by apply mutters_sys]).
Qed.
Lemma mutters_accept port s path : ensures mutters (fd_accept_path reply_err_errno port s path).
Proof. unfold fd_accept_path, accept. walk ltac:(first [apply mutters_errno | by apply mutters_sys]). Qed.
Lemma mutters_int_arg k buf : ensures mutters (int_arg k buf).
Proof. unfold int_arg. walk ltac:(by apply mutters_act). Qed.
Lemma mutters_send fd s : ensures mutters (send_fd fd s).
Proof. unfold send_fd. walk ltac:(by apply mutters_sys). Qed.

(** What a command does to the table when it is answered by [r]. *)
Inductive told (op : Z) (l : list slave) : bytes -> list slave -> Prop :=
  | told_error : told op l [0] l
  | told_opened i s s0 : op = LISTEN \/ op = ACCEPT -> l !! i = Some s0 -> fd s0 = -1 -> 0 < fd s -> type s = op ->
      told op l (1 :: put_int32 (fd s)) (<[i := s]> l)
  | told_sent : op = 108 \/ op = 83 -> told op l [1] l
  | told_closed i s : op = 67 -> l !! i = Some s -> told op l [1] (<[i := Slave (-1) None (type s)]> l).
(** Started with the table [t], the code [m] mutters, and ends with one answer. *)
Definition tells (t : list slave) (op port : Z) (m : M world unit) : Prop := forall w, slaves w = t -> exists new r l,
  snd (m w) = World (instance w) l (calls w ++ new ++ [Output port r]) /\ Forall text_only new /\ told op t r l.
Lemma tells_bind {A} t op port (m : M world A) f : ensures mutters m -> (forall a, tells t op port (f a)) -> tells t op port (mbind f m).
Proof.
  intros Hm Hf w Hw. unfold mbind, M_bind. specialize (Hm w). destruct (m w) as [a w1]. destruct Hm as (n1 & E1 & H1). cbn [snd] in E1. subst w1.
  destruct (Hf a (World (instance w) (slaves w) (calls w ++ n1)) Hw) as (n2 & r & l & E & H2 & Ht). exists (n1 ++ n2), r, l.
  rewrite E. cbn [instance slaves calls] in *. rewrite <-!app_assoc. split_and!; [done|by apply Forall_app|done].
Qed.
Lemma tells_slaves t op port f : tells t op port (f t) -> tells t op port (mbind f (gets slaves)).
Proof. intros Hf w Hw. rewrite (bind_eq (gets slaves) f w t w) by (by rewrite <-Hw). by apply Hf. Qed.
Lemma tells_error t op port : tells t op port (reply_err port).
Proof. intros w <-. exists [], [0], (slaves w). split_and!; [done|done|constructor]. Qed.
Lemma tells_set t op port i s r : told op t r (<[i := s]> t) -> tells t op port (set_slave i s;;; driver_output port r).
Proof. intros Ht w <-. exists [], r, (<[i := s]> (slaves w)). split_and!; done. Qed.
Lemma tells_L port buf n t : tells t LISTEN port (from_L port buf n).
Proof.
  apply tells_bind; [destruct (negb _); [by apply mutters_act|apply ensures_skip, _]|intros _]. apply tells_bind; [apply mutters_listen|intros r].
  apply tells_slaves. destruct (find_free_slave t) as [i|] eqn:Ei; [|apply tells_error]. destruct (Z.gtb_spec r 0); [|apply tells_error].
  apply tells_bind; [by apply mutters_sys|intros [p|]]; [|apply tells_error]. destruct (find_slave_spec _ _ _ Ei) as (s & Hi & Hs & _).
  apply tells_set. apply (told_opened LISTEN t i (Slave r (Some p) LISTEN) s); auto with lia.
Qed.
Lemma tells_A port buf t : tells t ACCEPT port (from_A port buf).
Proof.
  apply tells_bind; [apply mutters_int_arg|intros a]. apply tells_slaves. destruct (find_slave a t) as [j|]; [|apply tells_error].
  destruct (find_free_slave t) as [i|] eqn:Ei; [|apply tells_error]. apply tells_bind; [apply mutters_accept|intros r].
  destruct (Z.gtb_spec r 0); [|apply tells_error]. destruct (find_slave_spec _ _ _ Ei) as (s & Hi & Hs & _).
  apply tells_set. apply (told_opened ACCEPT t i (Slave r _ ACCEPT) s); auto with lia.
Qed.
Lemma tells_S port buf t op : op = 108 \/ op = 83 -> tells t op port (from_S port buf).
Proof.
  intros Hop. apply tells_bind; [apply mutters_int_arg|intros a]. apply tells_bind; [apply mutters_int_arg|intros b].
  apply tells_bind; [apply mutters_send|intros rc]. destruct (rc =? -1); [apply tells_error|]. intros w <-. exists [], [1], (slaves w).
  split_and!; [done|done|by constructor].
Qed.
Lemma tells_C port buf t : tells t 67 port (from_C port buf).
Proof.
  apply tells_bind; [apply mutters_int_arg|intros a]. apply tells_slaves. destruct (find_slave a t) as [i|] eqn:Ei; [|apply tells_error].
  destruct (find_slave_spec _ _ _ Ei) as (s & Hi & Hs & ->). apply tells_bind; [destruct (_ && _); [by apply mutters_act|apply ensures_skip, _]|intros _].
  apply tells_bind; [by apply mutters_act|intros _]. apply tells_set. by constructor.
Qed.
End Answers.

(** Every command is answered once, last, after at most texts of an error; answered with an error it leaves the table alone; answered with a
    descriptor, that is in a free entry, with the type asked for; and closing frees the entry. *)
Theorem slave_commands `{OS : !Os} junk port op buf w : op ∈ [LISTEN; ACCEPT; 108; 83; 67] ->
  exists new r l, snd (from_erlang junk port (op :: buf) w) = World (instance w) l (calls w ++ new ++ [Output port r]) /\
    Forall text_only new /\ told op (slaves w) r l.
Proof.
  intros Hop. unfold from_erlang. cbn [hd tail]. cbv zeta. rewrite !elem_of_cons in Hop.
  destruct Hop as [->|[->|[->|[->|[->|[]%elem_of_nil]]]]]; [exact (tells_L _ _ _ _ w eq_refl)|exact (tells_A _ _ _ w eq_refl)| ..];
    [refine (tells_S _ _ _ _ _ w eq_refl); by auto|refine (tells_S _ _ _ _ _ w eq_refl); by auto|exact (tells_C _ _ _ w eq_refl)].
Qed.

(** * Sessions *)

Section Sessions.
Context `{OS : !Os} (port : Z).
(** The commands of a port, each with what is read as the opcode of an empty one. *)
Fixpoint commands (l : list (Z * bytes)) : M world unit :=
  match l with [] => skip | (junk, c) :: l => from_erlang junk port c;;; commands l end.
Definition session (l : list (Z * bytes)) : M world unit := start port;;; commands l.
Lemma keeps_commands `{OL : !OsLaws OS} l : ensures keeps (commands l).
Proof.
  induction l as [|[junk c] l IH]; cbn [commands]; [apply ensures_skip, _|]. apply ensures_bind; [apply _|apply keeps_from_erlang|intros _; exact IH].
Qed.
End Sessions.
Lemma owns_reset (l : list slave) : owns (map (fun s => Slave (-1) None (type s)) l) [] [] [].
Proof.
  assert (owned (map (fun s => Slave (-1) None (type s)) l) = [] /\ owned_paths (map (fun s => Slave (-1) None (type s)) l) = []) as [E1 E2].
  { unfold owned, owned_paths. split; induction l; done. }
  split; rewrite ?E1, ?E2; try done; try apply NoDup_nil_2.
  - intros a x b E. by destruct a.
  - intros a x b E. by destruct a.
  - apply Forall_map, Forall_true. intros s. by left.
Qed.

(** C19: After any commands in any order, the descriptors opened and not closed are those of the table and no more others than errors were told, and the blocks in
    use are the paths of the sockets that listen; stopping the port closes and frees all that is in the table; nothing is closed or
    freed twice. *)
Theorem slaves_owned `{OS : !Os} `{OL : !OsLaws OS} port (l : list (Z * bytes)) (table : list slave) :
  let w := snd (session port l (World (-1) table [])) in
  let w' := snd (stop w) in
  exists lost, (length lost <= errors (calls w))%nat /\
    open_fds (calls w) ≡ₚ owned (slaves w) ++ lost /\ blocks (calls w) ≡ₚ owned_paths (slaves w) /\ NoDup (open_fds (calls w)) /\
    open_fds (calls w') ≡ₚ lost /\ blocks (calls w') = [] /\ closes_ok (calls w') /\ frees_ok (calls w').
Proof.
  intros w w'. destruct (keeps_commands port l (World (-1) (map (fun s => Slave (-1) None (type s)) table) []) [] (owns_reset table)) as (lost & Ho & He).
  change (snd (commands port l _)) with w in Ho, He. rewrite app_nil_r in Ho. exists lost. destruct (stop_slaves_owns _ _ _ Ho) as [[] _].
  assert (calls w' = calls (snd (stop_slaves (slaves w) w))) as ->.
  { unfold w', stop. rewrite (bind_eq get _ w w w eq_refl). destruct (stop_slaves (slaves w) w) as [l' w2] eqn:E. by rewrite (bind_eq _ _ _ _ _ E). }
  destruct Ho. rewrite !app_nil_r in *. cbn in *. split_and!; try done; [lia|by apply Permutation_nil_r].
Qed.
(** Opening a Unix socket, accepting a connection on it, sending a descriptor over that, closing the socket. *)
Definition sample_session : list (Z * bytes) :=
  [(0, [76; 47; 120; 0]); (0, 65 :: put_int32 3); (0, 83 :: put_int32 9 ++ put_int32 4); (0, 67 :: put_int32 3)].
Lemma slaves_owned_witness : let w := snd (session (OS := sample_os []) 1 sample_session (World (-1) (replicate MAXSLAVES (Slave 0 None 0)) [])) in
  open_fds (calls w) = [4] /\ errors (calls w) = 0%nat /\ open_fds (calls (snd (stop w))) = [] /\ blocks (calls (snd (stop w))) = [].
Proof.
  destruct (slaves_owned (OS := sample_os []) 1 sample_session (replicate MAXSLAVES (Slave 0 None 0))) as (lost & Hl & _ & _ & _ & Ho & Hb & _).
  assert (length lost = 0%nat) as ->%nil_length_inv by (apply Nat.le_0_r; exact Hl).
  split_and!; [by vm_compute|by vm_compute|by apply Permutation_nil_r|exact Hb].
Defined.
Lemma slave_commands_witness : let w := World (-1) (replicate 2 (Slave (-1) None 0)) [] in exists new r l,
  snd (from_erlang (OS := sample_os []) 0 1 [76; 47; 120; 0] w) = World (-1) l (new ++ [Output 1 r]) /\
  Forall text_only new /\ told LISTEN (slaves w) r l.
Proof. intros w. apply (slave_commands (OS := sample_os []) 0 1 LISTEN [47; 120; 0] w). by left. Defined.

(** ** A second port *)

Definition same_instance (w w' : world) : Prop := instance w' = instance w.
#[export] Instance same_instance_preorder : PreOrder same_instance.
Proof. split; [done|]. intros a b c. unfold same_instance. congruence. Qed.
Lemma same_instance_commands `{OS : !Os} port l : ensures same_instance (commands port l).
Proof.
  induction l as [|[junk c] l IH]; cbn [commands]; [apply ensures_skip, _|]. apply ensures_bind; [apply _| |intros _; exact IH].
  unfold from_erlang, from_L, from_A, from_S, from_C, int_arg, fd_listen_path, fd_accept_path, send_fd, reply_err_errno, reply_err_string.
  walk ltac:(by intros w).
Qed.
(** It is not refused, as [instance] is never set: it forgets what is in the table, and leaves it open. *)
Theorem second_copy_forgets `{OS : !Os} port port' l table : let w := snd (session port l (World (-1) table [])) in
  let '(r, w') := start port' w in r = Some port' /\ owned (slaves w') = [] /\ calls w' = calls w.
Proof.
  intros w. assert (instance w = -1) as Hi by exact (same_instance_commands port l (World (-1) _ [])).
  unfold start. rewrite (bind_eq get _ w w w eq_refl), Hi. cbn [Z.eqb negb]. change (-1 =? -1) with true. cbn. split_and!; try done.
  unfold owned. induction (slaves w); done.
Qed.
