(* ===== verification/FdSrv.v ===== *)
(** The program that opens sockets for others and passes their descriptors, [fd_server/c_src/fdsrv.c], the driver that receives them,
    [fdsrv_drv.c], and what they are for: [bind_socket] of [fdsrv.erl], which asks the program and waits for a message of one of the two.

    The program reads requests, a byte of length and as many bytes, from descriptor 0; it answers on descriptor 1 or passes a descriptor
    over the Unix socket.  [size_t] has 64 bits. *)
From stdpp Require Import strings.
From S2P Require Import Prelude Erts FdLib.
#[local] Open Scope Z_scope.

(** * The program *)

Section Program.
Context `{OS : !Os}.
Abbreviation P := (M trace).

(** [None]: the text of errno. *)
Definition report_error (msg : option bytes) : P unit :=
  tr ← get;
  let msg := match msg with Some m => m | None => os_strerror tr end in
  let c := if Z.of_nat (length msg) >? 255 then 255 else Z.of_nat (length msg) in
  act (Write 1 [c]);;;
  act (Write 1 (take (Z.to_nat c) msg)).
(** A request that was read: its opcode and the string that follows. *)
Definition handle (fd op : Z) (spec : bytes) : P unit :=
  tr ← get;
  match fd_parse_addr tr spec with
  | None => report_error (Some (lit "Couldn't parse address"))
  | Some addr =>
      s ← socket AF_INET (if op =? 0 then SOCK_STREAM else SOCK_DGRAM);
      if s <? 0 then report_error None
      else
        (when op =? 0 do act (Setsockopt s));;;
        r ← bind s (In addr);
        if r <? 0 then report_error None;;; act (Close s)
        else send_fd s fd;;; act (Close s)
  end.
(** [None]: out of fuel. A length of 255 is -1: when the read of as many bytes fails its result is that length, and [buf[-1]] is
    written; what follows is undefined. *)
Fixpoint loop (fuel : nat) (fd : Z) : P (option unit) :=
  match fuel with
  | O => mret None
  | Datatypes.S fuel =>
      r ← read 0 1;
      if fst r =? 0 then mret (Some tt)
      else if negb (fst r =? 1) then act Exit;;; mret (Some tt)
      else
        let i := schar (byte_at (snd r) 0) in
        r ← read 0 (wrap 64 i);
        if fst r =? 0 then mret (Some tt)
        else if negb (fst r =? i) then act Exit;;; mret (Some tt)
        else if i <? 0 then act Fault;;; mret (Some tt)
        else
          handle fd (byte_at (snd r) 0) (c_str (drop 1 (snd r)));;;
          loop fuel fd
  end.
(** [perror] is what [reply_err_errno] of the program does. *)
Definition main (fuel : nat) (argv1 : bytes) : P (option unit) :=
  fd ← fd_establish_communication (fun _ => skip) 0 argv1;
  loop fuel fd.
End Program.

(** * The driver *)

Record world := World { instance : Z; fdsrv : Z; calls : trace }.
#[export] Instance srv_trace : HasTrace world := {| trace_of := calls; set_trace tr w := World (instance w) (fdsrv w) tr |}.

Section Driver.
Context `{OS : !Os}.
Abbreviation D := (M world).
Definition set_instance (i : Z) : D unit := modify (fun w => World i (fdsrv w) (calls w)).
Definition set_fdsrv (s : Z) : D unit := modify (fun w => World (instance w) s (calls w)).

Definition start (port : Z) (buf : bytes) : D (option Z) :=
  w ← get;
  if negb (instance w =? -1) then mret None
  else if Z.of_nat (length buf) >? SUN_PATH + 1 then mret None
  else
    set_instance port;;;
    let path := match strrchr 32 buf with None => buf | Some (_, path) => path end in
    s ← socket AF_UNIX SOCK_STREAM;
    (when SUN_PATH <=? Z.of_nat (length path) do act Fault);;;
    rc ← connect s path;
    if rc <? 0 then set_instance (-1);;; mret None
    else
      set_fdsrv s;;;
      act (Select port s 1);;;
      mret (Some port).
(** The descriptor received, or -1. *)
Definition recv_fd (port sock_fd : Z) : D Z :=
  r ← recvmsg sock_fd;
  if fst r <? 0 then reply_err_errno port;;; mret (-1)
  else if negb (fst r =? 1) then reply_err_string port (lit "recvmsg() unexpected return value");;; mret (-1)
  else
    match snd r with
    | Some cm =>
        if cmsg_len cm =? CMSG_LEN 4 then
          if negb (cmsg_level cm =? SOL_SOCKET) || negb (cmsg_type cm =? SCM_RIGHTS) then
            reply_err_string port (lit "level or controle type error!" ++ [10]);;; mret (-1)
          else mret (cmsg_fd cm)
        else reply_err_string port (lit "error in received fd");;; mret (-1)
    | None => reply_err_string port (lit "error in received fd");;; mret (-1)
    end.
Definition fd_is_ready (port event : Z) : D unit :=
  w ← get;
  if negb (port =? instance w) then skip
  else if negb (event =? fdsrv w) then skip
  else
    received_fd ← recv_fd port (fdsrv w);
    if received_fd <? 0 then
      act (Close (fdsrv w));;;
      act (Select port (fdsrv w) 0);;;
      reply_err port
    else reply_int port received_fd.
Definition stop : D unit :=
  w ← get;
  act (Select (instance w) (fdsrv w) 0);;;
  act (Close (fdsrv w));;;
  set_instance (-1).
End Driver.

(** * The client

    [recv_port] of [fdsrv.erl] over the messages in order: [Dp] from the driver, [Sp] from the program. The result is the descriptor or
    an error, [None] for [unknown]; [None] while it waits. *)
Inductive message := Dp (data : bytes) | Sp (data : bytes).
Definition u32_of (x3 x2 x1 x0 : Z) : Z := (x3 << 24 |. x2 << 16 |. x1 << 8 |. x0)%C.
Fixpoint recv_port (last : option bytes) (ms : list message) : option (Z + option bytes) :=
  match ms with
  | [] => None
  | Dp [1; x1; x2; x3; x4] :: _ => Some (inl (u32_of x1 x2 x3 x4))
  | Dp [0] :: _ => Some (inr last)
  | Dp (0 :: chars) :: ms => recv_port (Some chars) ms
  | Sp error :: _ => Some (inr (Some error))
  | _ :: ms => recv_port last ms
  end.

(** * Requests *)

(** What is written to descriptor 1, and its packets of one byte of length. *)
Definition written (tr : trace) : bytes := concat (omap (fun e => match e with Write 1 b => Some b | _ => None end) tr).
Fixpoint unpack (fuel : nat) (s : bytes) : list bytes :=
  match fuel, s with
  | Datatypes.S fuel, c :: s => take (Z.to_nat c) s :: unpack fuel (drop (Z.to_nat c) s)
  | _, _ => []
  end.
Definition packets (tr : trace) : list bytes := unpack (length (written tr)) (written tr).
(** Descriptors sent, with the result. *)
Definition sent (tr : trace) : list (Z * Z * Z) := omap (fun e => match e with Sendmsg sock fd rc => Some (sock, fd, rc) | _ => None end) tr.

Section Requests.
Context `{OS : !Os}.
(** The calls [new] made after [tr] serve a request: one error is reported and nothing sent, or a socket, bound to the address, is
    sent over [fd] and nothing reported. *)
Inductive served (fd op : Z) (spec : bytes) (tr new : trace) : Prop :=
  | served_error msg : packets new = [take 255 msg] -> sent new = [] -> served fd op spec tr new
  | served_sent s addr b rc : fd_parse_addr tr spec = Some addr -> 0 <= b -> 0 <= s ->
      Socket AF_INET (if op =? 0 then SOCK_STREAM else SOCK_DGRAM) s ∈ new -> Bind s (In addr) b ∈ new ->
      sent new = [(fd, s, rc)] -> written new = [] -> served fd op spec tr new.
Lemma report_error_eq msg tr : exists text, report_error msg tr = (tt, tr ++ [Write 1 [Z.of_nat (min (length text) 255)]; Write 1 (take 255 text)]) /\
  text = match msg with Some m => m | None => os_strerror tr end.
Proof.
  unfold report_error. rewrite (bind_eq get _ tr tr tr eq_refl). set (text := match msg with Some m => m | None => os_strerror tr end).
  exists text. split; [|done]. cbv zeta. destruct (Z.gtb_spec (Z.of_nat (length text)) 255) as [Hl|Hl].
  - rewrite Nat.min_r by lia. unfold act, sys. run. by rewrite <-app_assoc.
  - rewrite Nat.min_l by lia. rewrite Nat2Z.id, (take_ge text (length text)), (take_ge text 255) by lia. unfold act, sys. run. by rewrite <-app_assoc.
Qed.
Lemma packets_report text a b : written a = [] -> written b = [] ->
  packets (a ++ [Write 1 [Z.of_nat (min (length text) 255)]; Write 1 (take 255 text)] ++ b) = [take 255 text].
Proof.
  intros Ha Hb. unfold packets. assert (written (a ++ [Write 1 [Z.of_nat (min (length text) 255)]; Write 1 (take 255 text)] ++ b) =
    Z.of_nat (min (length text) 255) :: take 255 text) as ->.
  { unfold written in *. rewrite !omap_app, !concat_app, Ha, Hb. cbn. by rewrite !app_nil_r. }
  cbn [length unpack]. rewrite Nat2Z.id. rewrite take_take, drop_ge by (rewrite length_take; lia).
  replace (min (min (length text) 255) 255) with (min (length text) 255)%nat by lia.
  assert (take (min (length text) 255) text = take 255 text) as ->.
  { destruct (Nat.le_ge_cases (length text) 255); [rewrite Nat.min_l by lia; rewrite !take_ge by lia; done|by rewrite Nat.min_r by lia]. }
  f_equal. by destruct (length (take 255 text)).
Qed.
(** Calls that open and close nothing. *)
Definition neutral (e : io) : Prop := match e with Socket _ _ _ | Accept _ _ | Close _ => False | _ => True end.
Lemma open_fds_neutral tr new : Forall neutral new -> open_fds (tr ++ new) = open_fds tr.
Proof.
  intros Hn. induction new as [|e new IH] using rev_ind; [by rewrite app_nil_r|]. apply Forall_app in Hn as [Hn He]. inversion He; subst.
  rewrite app_assoc, open_fds_snoc, IH by done. by destruct e.
Qed.
Lemma closes_ok_neutral tr new : Forall neutral new -> closes_ok tr -> closes_ok (tr ++ new).
Proof.
  intros Hn Ht. induction new as [|e new IH] using rev_ind; [by rewrite app_nil_r|]. apply Forall_app in Hn as [Hn He]. inversion He; subst.
  rewrite app_assoc. apply closes_ok_snoc; [by apply IH|]. by intros x ->.
Qed.
(** What is opened is closed again. *)
Definition clean (tr new : trace) : Prop := open_fds (tr ++ new) = open_fds tr /\ (closes_ok tr -> closes_ok (tr ++ new)).
Lemma clean_neutral tr new : Forall neutral new -> clean tr new.
Proof. intros Hn. split; [by apply open_fds_neutral|by apply closes_ok_neutral]. Qed.
Lemma clean_app tr a b : clean tr a -> clean (tr ++ a) b -> clean tr (a ++ b).
Proof. unfold clean. rewrite app_assoc. intros [H1 H2] [H3 H4]. split; [congruence|auto]. Qed.
Lemma filter_fresh (x : Z) (l : list Z) : x ∉ l -> filter (fun y => y <> x) l = l.
Proof.
  induction l as [|y l IH]; [done|]. rewrite not_elem_of_cons. intros [Hne Hx]. rewrite filter_cons_True by done. by rewrite IH.
Qed.
Lemma clean_socket tr d t s mid : Forall neutral mid -> 0 <= s -> s ∉ open_fds tr -> clean tr (Socket d t s :: mid ++ [Close s]).
Proof.
  intros Hm Hs Hf. assert (open_fds (tr ++ Socket d t s :: mid) = s :: open_fds tr) as E.
  { rewrite cons_middle, app_assoc, open_fds_neutral, open_fds_snoc by done. cbn [open_fd]. by rewrite (proj2 (Z.leb_le 0 s)). }
  rewrite app_comm_cons. unfold clean. rewrite app_assoc. split.
  - rewrite open_fds_snoc, E. cbn [open_fd]. rewrite filter_cons_False by naive_solver. by apply filter_fresh.
  - intros Ht. apply closes_ok_snoc; [|intros x [= <-]; right; rewrite E; by left].
    rewrite cons_middle, app_assoc. apply closes_ok_neutral; [done|]. by apply closes_ok_snoc.
Qed.
(** ** One request *)

Context `{OL : !OsLaws OS}.
Lemma handle_served fd op spec tr : exists new, handle fd op spec tr = (tt, tr ++ new) /\ served fd op spec tr new /\ clean tr new /\
  List.filter is_read new = [].
Proof.
  unfold handle. rewrite (bind_eq get _ tr tr tr eq_refl). destruct (fd_parse_addr tr spec) as [addr|] eqn:Ea.
  2: { destruct (report_error_eq (Some (lit "Couldn't parse address")) tr) as (text & -> & _). eexists. split; [reflexivity|].
    split_and!; [eapply served_error; [by apply (packets_report text [] [])|done]|apply clean_neutral; by repeat constructor|done]. }
  set (ty := if op =? 0 then SOCK_STREAM else SOCK_DGRAM). set (s := os_socket tr AF_INET ty).
  rewrite (bind_eq (socket AF_INET ty) _ tr s (tr ++ [Socket AF_INET ty s])) by reflexivity. destruct (Z.ltb_spec s 0) as [Hs|Hs].
  { destruct (report_error_eq None (tr ++ [Socket AF_INET ty s])) as (text & -> & _). eexists. rewrite <-app_assoc. split; [reflexivity|].
    split_and!; [|split|done].
    - eapply served_error; [by apply (packets_report text [_] [])|done].
    - rewrite app_assoc, open_fds_neutral, open_fds_snoc by by repeat constructor. cbn [open_fd]. by rewrite (proj2 (Z.leb_gt 0 s)).
    - intros Ht. rewrite app_assoc. apply closes_ok_neutral; [by repeat constructor|]. by apply closes_ok_snoc. }
  pose proof (os_socket_law tr AF_INET ty) as Hf. fold s in Hf.
  set (opts := if op =? 0 then [Setsockopt s] else []). set (tr1 := tr ++ [Socket AF_INET ty s] ++ opts).
  rewrite (bind_eq _ _ (tr ++ [Socket AF_INET ty s]) tt tr1)
    by (unfold tr1, opts; destruct (op =? 0); [by unfold act, sys; run; rewrite <-app_assoc|by rewrite app_nil_r]).
  set (b := os_bind tr1 s (In addr)). rewrite (bind_eq (bind s (In addr)) _ tr1 b (tr1 ++ [Bind s (In addr) b])) by reflexivity.
  assert (Forall neutral opts /\ written opts = [] /\ sent opts = [] /\ List.filter is_read opts = []) as (Ho & Hw & Hx & Hr)
    by (unfold opts; destruct (op =? 0); split_and!; try done; by repeat constructor).
  destruct (Z.ltb_spec b 0) as [Hb|Hb].
  - destruct (report_error_eq None (tr1 ++ [Bind s (In addr) b])) as (text & E & _). rewrite (bind_eq _ _ _ _ _ E).
    exists (Socket AF_INET ty s :: (opts ++ Bind s (In addr) b :: [Write 1 [Z.of_nat (min (length text) 255)]; Write 1 (take 255 text)]) ++ [Close s]).
    split_and!.
    + unfold act, sys, tr1. run. by rewrite <-!app_assoc.
    + eapply served_error.
      * match goal with |- packets ?n = _ => replace n with ((Socket AF_INET ty s :: opts ++ [Bind s (In addr) b]) ++
          [Write 1 [Z.of_nat (min (length text) 255)]; Write 1 (take 255 text)] ++ [Close s]) by (cbn [app]; by rewrite <-!app_assoc) end.
        apply packets_report; [|done].
        unfold written in *. cbn [app omap list_omap]. by rewrite omap_app, concat_app, Hw.
      * unfold sent in *. cbn [app omap list_omap]. by rewrite !omap_app, Hx.
    + apply clean_socket; [|done|done]. apply Forall_app. split; [done|by repeat constructor].
    + cbn [List.filter is_read]. by rewrite !List.filter_app, Hr.
  - unfold send_fd. set (tr2 := tr1 ++ [Bind s (In addr) b]). set (rc := os_sendmsg tr2 fd s).
    exists (Socket AF_INET ty s :: (opts ++ [Bind s (In addr) b; Sendmsg fd s rc]) ++ [Close s]). split_and!.
    + match goal with |- mbind _ ?m _ = _ => assert (exists r, m tr2 = (r, tr2 ++ [Sendmsg fd s rc])) as [r E] end.
      { rewrite (bind_eq (sys _ _) _ tr2 rc (tr2 ++ [Sendmsg fd s rc])) by reflexivity. destruct (rc <? 0); by eexists. }
      rewrite (bind_eq _ _ _ _ _ E). unfold act, sys, tr2, tr1. run. by rewrite <-!app_assoc.
    + apply (served_sent fd op spec tr _ s addr b rc); try done.
      * by left.
      * right. rewrite <-!app_assoc. apply elem_of_app. right. by left.
      * unfold sent in *. cbn [app omap list_omap]. by rewrite !omap_app, Hx.
      * unfold written in *. cbn [app omap list_omap]. by rewrite !omap_app, !concat_app, Hw.
    + apply clean_socket; [|done|done]. apply Forall_app. split; [done|by repeat constructor].
    + cbn [List.filter is_read]. by rewrite !List.filter_app, Hr.
Qed.
(** ** All requests *)

Definition input (e : io) : option bytes := match e with Read 0 _ _ data => Some data | _ => None end.
Definition consumed (tr : trace) : nat := length (concat (omap input tr)).
(** Descriptor 0 is [stream]: a read fails, or gives some of what is left, which is not more than it asks for, and nothing only when nothing is left. *)
Class Input (stream : bytes) : Prop := os_read_law tr n : 0 <= n < 2 ^ 63 ->
  os_read tr 0 n = (-1, []) \/ exists k, (k <= Z.to_nat n)%nat /\ (0 < n -> drop (consumed tr) stream <> [] -> (0 < k)%nat) /\
    let data := take k (drop (consumed tr) stream) in os_read tr 0 n = (Z.of_nat (length data), data).
Lemma consumed_app a b : consumed (a ++ b) = (consumed a + consumed b)%nat.
Proof. unfold consumed. by rewrite omap_app, concat_app, length_app. Qed.
Lemma consumed_no_read new : List.filter is_read new = [] -> consumed new = 0%nat.
Proof.
  induction new as [|e new IH]; [done|]. cbn [List.filter]. destruct (is_read e) eqn:Ee; [done|]. intros H. change (e :: new) with ([e] ++ new).
  rewrite consumed_app, IH by done. by destruct e.
Qed.
Lemma read_eq stream `{!Input stream} tr n : 0 <= n < 2 ^ 63 -> read 0 n tr = ((-1, []), tr ++ [Read 0 n (-1) []]) \/
  exists k, (k <= Z.to_nat n)%nat /\ (0 < n -> drop (consumed tr) stream <> [] -> (0 < k)%nat) /\
  let data := take k (drop (consumed tr) stream) in read 0 n tr = ((Z.of_nat (length data), data), tr ++ [Read 0 n (Z.of_nat (length data)) data]).
Proof.
  intros Hn. unfold read, sys. cbn [trace_of set_trace trace_trace]. destruct (os_read_law (stream := stream) tr n Hn) as [->|(k & H1 & H2 & E)]; [by left|right].
  exists k. split; [done|]. split; [done|]. cbv zeta in *. by rewrite E.
Qed.

(** What one turn of the loop does with the rest [c :: rest] of the input. *)
Lemma loop_turn stream `{!Input stream} fuel fd tr c rest : drop (consumed tr) stream = c :: rest ->
  let i := schar c in let tr1 := tr ++ [Read 0 1 1 [c]] in
  loop (Datatypes.S fuel) fd tr = (Some tt, tr ++ [Read 0 1 (-1) []; Exit]) \/
  (exists k data, k <> i /\ k <> 0 /\ loop (Datatypes.S fuel) fd tr = (Some tt, tr1 ++ [Read 0 i k data; Exit])) \/
  ((i <= 0 \/ rest = []) /\ exists tr2, loop (Datatypes.S fuel) fd tr = (Some tt, tr2)) \/
  exists op spec, 0 < i /\ take (Z.to_nat i) rest = op :: spec /\ length (op :: spec) = Z.to_nat i /\
    loop (Datatypes.S fuel) fd tr = (handle fd op (c_str spec);;; loop fuel fd) (tr1 ++ [Read 0 i i (op :: spec)]).
Proof.
  intros Hd i tr1. cbn [loop]. destruct (read_eq stream tr 1 ltac:(lia)) as [E|(k & Hk & Hk0 & E)]; cbv zeta in E; rewrite (bind_eq _ _ _ _ _ E).
  { left. cbn [fst Z.eqb negb]. unfold act, sys. run. by rewrite <-app_assoc. }
  right. rewrite Hd in *. assert (k = 1%nat) as -> by (specialize (Hk0 ltac:(lia) ltac:(done)); lia).
  change (take 1 (c :: rest)) with [c]. cbn [length fst snd]. change (Z.of_nat 1) with 1. change (1 =? 0) with false.
  change (negb (1 =? 1)) with false. cbv match zeta. change (byte_at [c] 0) with c. fold i. fold tr1.
  pose proof (sint_range 8 c ltac:(lia)) as Hi. change (sint 8 c) with i in Hi. cbn in Hi.
  destruct (Z.ltb_spec i 0) as [Hneg|Hpos].
  - right. left. split; [left; lia|]. destruct (read 0 (wrap 64 i) tr1) as [r tr2] eqn:E2. rewrite (bind_eq _ _ _ _ _ E2).
    destruct (fst r =? 0); [by eexists|]. destruct (negb _); by eexists.
  - rewrite wrap_small by lia. assert (drop (consumed tr1) stream = rest) as Hd1 by (unfold tr1; rewrite consumed_app, <-drop_drop, Hd; done).
    destruct (Z.eqb_spec i 0) as [Hi0|Hi0].
    { right. left. split; [left; lia|]. destruct (read 0 i tr1) as [r tr2] eqn:E2. rewrite (bind_eq _ _ _ _ _ E2). destruct (Z.eqb_spec (fst r) 0); [by eexists|].
      rewrite (proj2 (Z.eqb_neq (fst r) i)) by lia. by eexists. }
    destruct (read_eq stream tr1 i ltac:(lia)) as [E2|(k & Hk1 & Hk2 & E2)]; cbv zeta in E2; rewrite (bind_eq _ _ _ _ _ E2).
    { left. exists (-1), []. split; [lia|]. split; [done|]. cbv match beta delta [fst]. change (-1 =? 0) with false. cbv match. rewrite (proj2 (Z.eqb_neq (-1) i)) by lia. cbn [negb]. unfold act, sys. run. by rewrite <-app_assoc. }
    rewrite Hd1 in *. set (data := take k rest). cbn [fst snd]. pose proof (length_take rest k) as Hlen. fold data in Hlen.
    destruct (Z.eqb_spec (Z.of_nat (length data)) 0) as [H0|H0].
    { right. left. split; [|by eexists]. right. destruct rest; [done|]. specialize (Hk2 ltac:(lia) ltac:(done)). cbn [length] in *. lia. }
    destruct (Z.eqb_spec (Z.of_nat (length data)) i) as [Hl|Hl]; cbn [negb].
    2: { left. eexists _, data. split; [exact Hl|]. split; [done|]. unfold act, sys. run. by rewrite <-app_assoc. }
    right. right. assert (data = take (Z.to_nat i) rest) as Edata.
    { unfold data. replace (Z.to_nat i) with (length data) by lia. unfold data. rewrite length_take. destruct (Nat.le_ge_cases k (length rest)); [by rewrite Nat.min_l by lia|].
      rewrite Nat.min_r by lia. by rewrite !take_ge by lia. }
    rewrite <-Edata. destruct data as [|op spec] eqn:Ed; [done|]. exists op, spec. split_and!; [cbn [length] in *; lia|done|cbn [length] in *; lia|].
    by rewrite Hl.
Qed.
End Requests.

(** The program ends: whatever comes in, when the input ends, so does the loop; as many turns as there are bytes, and one, are enough. *)
Theorem program_returns `{OS : !Os} `{OL : !OsLaws OS} stream `{INP : !Input stream} fuel fd tr :
  (length stream < fuel)%nat -> exists tr', loop fuel fd tr = (Some tt, tr').
Proof.
  intros Hf. assert (length (drop (consumed tr) stream) < fuel)%nat as Hr by (rewrite length_drop; lia). clear Hf. revert tr Hr.
  induction fuel as [|fuel IH]; intros tr Hr; [lia|]. destruct (drop (consumed tr) stream) as [|c rest] eqn:Hd.
  - cbn [loop]. destruct (read_eq stream tr 1 ltac:(lia)) as [E|(k & _ & _ & E)]; cbv zeta in E; rewrite (bind_eq _ _ _ _ _ E); [by eexists|]. rewrite Hd, take_nil. by eexists.
  - destruct (loop_turn stream fuel fd tr c rest Hd) as [->|[(k & data & _ & _ & ->)|[[_ ?]|(op & spec & Hi & Ht & Hl & ->)]]]; [by eexists|by eexists|done|].
    destruct (handle_served fd op (c_str spec) ((tr ++ [Read 0 1 1 [c]]) ++ [Read 0 (schar c) (schar c) (op :: spec)])) as (new & E & _ & _ & Hn).
    rewrite (bind_eq _ _ _ _ _ E). apply IH. rewrite !consumed_app, (consumed_no_read new) by done.
    unfold consumed at 2 3. cbn [omap list_omap input concat app length]. rewrite app_nil_r. cbn [length].
    assert (length (drop (consumed tr) stream) = S (length rest)) as El by by rewrite Hd. rewrite length_drop in *. cbn [length] in Hr. lia.
Qed.

(** A request as the port of the client writes it, and the requests of a stream served in turn. *)
Definition frame (r : Z * bytes) : bytes := Z.of_nat (length (snd r)) + 1 :: fst r :: snd r.
Inductive serves `{OS : !Os} (fd : Z) : list (Z * bytes) -> trace -> trace -> Prop :=
  | serves_end tr : serves fd [] tr [Read 0 1 0 []]
  | serves_failed rs tr : serves fd rs tr [Read 0 1 (-1) []; Exit]
  | serves_short op spec rs tr k data :
      let n := Z.of_nat (length spec) + 1 in k <> n -> k <> 0 -> serves fd ((op, spec) :: rs) tr [Read 0 1 1 [n]; Read 0 n k data; Exit]
  | serves_request op spec rs tr new rest :
      let n := Z.of_nat (length spec) + 1 in
      let tr1 := tr ++ [Read 0 1 1 [n]; Read 0 n n (op :: spec)] in
      served fd op (c_str spec) tr1 new -> clean tr1 new -> serves fd rs (tr1 ++ new) rest ->
      serves fd ((op, spec) :: rs) tr (Read 0 1 1 [n] :: Read 0 n n (op :: spec) :: new ++ rest).

(** C23: Requests are served: from a stream of requests of at most 127 bytes each the loop serves one after the other - an error is reported, or
    a socket bound to the address asked for is sent, or the kernel refuses to send it, and then nothing is reported - and closes the socket of each. It ends with the
    stream, or by an exit at a read that fails or that gives less than a whole request. *)
Theorem requests_served `{OS : !Os} `{OL : !OsLaws OS} (rs : list (Z * bytes)) `{INP : !Input (concat (map frame rs))} fuel fd :
  Forall (fun r => (length (snd r) < 127)%nat) rs -> (length rs < fuel)%nat ->
  exists new, loop fuel fd [] = (Some tt, new) /\ serves fd rs [] new /\ open_fds new = [] /\ closes_ok new.
Proof.
  intros Hrs Hf. assert (forall rs0 tr, concat (map frame rs0) = drop (consumed tr) (concat (map frame rs)) -> Forall (fun r => (length (snd r) < 127)%nat) rs0 ->
    forall fuel, (length rs0 < fuel)%nat -> exists new, loop fuel fd tr = (Some tt, tr ++ new) /\ serves fd rs0 tr new /\ clean tr new) as H.
  { clear fuel Hf Hrs. intros rs0. induction rs0 as [|[op spec] rs0 IH]; intros tr Hs Hrs fuel Hf; (destruct fuel as [|fuel]; [cbn in Hf; lia|]).
    - cbn [map concat] in Hs. cbn [loop]. destruct (read_eq _ tr 1 ltac:(lia)) as [E|(k & _ & _ & E)]; cbv zeta in E; rewrite (bind_eq _ _ _ _ _ E).
      + exists [Read 0 1 (-1) []; Exit]. split_and!; [unfold act, sys; run; by rewrite <-app_assoc|constructor|apply clean_neutral; by repeat constructor].
      + rewrite <-Hs, take_nil. exists [Read 0 1 0 []]. split_and!; [done|constructor|apply clean_neutral; by repeat constructor].
    - apply Forall_cons in Hrs as [Hl Hrs]. cbn [snd map concat] in *. unfold frame at 1 in Hs. cbn [fst snd app] in Hs.
      set (n := Z.of_nat (length spec) + 1) in *.
      assert (schar n = n) as En by (apply sint_small; lia).
      destruct (loop_turn _ fuel fd tr n (op :: spec ++ concat (map frame rs0)) (eq_sym Hs)) as [->|[(k & data & H1 & H2 & ->)|[[Hbad _]|(op' & spec' & _ & Ht & _ & ->)]]];
        try rewrite En in *.
      { eexists. split; [reflexivity|]. split; [constructor|]. apply clean_neutral. by repeat constructor. }
      { exists [Read 0 1 1 [n]; Read 0 n k data; Exit]. split; [by rewrite <-app_assoc|]. split; [by apply serves_short|]. apply clean_neutral. by repeat constructor. }
      { destruct Hbad; [lia|done]. }
      replace (Z.to_nat n) with (S (length spec)) in Ht by lia. cbn [take] in Ht. rewrite take_app_length in Ht. injection Ht as <- <-.
      rewrite <-app_assoc. cbn [app]. set (tr1 := tr ++ [Read 0 1 1 [n]; Read 0 n n (op :: spec)]).
      destruct (handle_served fd op (c_str spec) tr1) as (new & E & Hsv & Hcl & Hn). rewrite (bind_eq _ _ _ _ _ E).
      destruct (IH (tr1 ++ new)) with (fuel := fuel) as (more & -> & Hsm & Hcm); [|done|cbn in Hf; lia|].
      { rewrite consumed_app, (consumed_no_read new), Nat.add_0_r by done. unfold tr1. rewrite consumed_app, <-drop_drop, <-Hs.
        change (consumed [_; _]) with (S (S (length (spec ++ [])))). cbn [drop]. by rewrite app_nil_r, drop_app_length. }
      exists (Read 0 1 1 [n] :: Read 0 n n (op :: spec) :: new ++ more). split_and!.
      + unfold tr1. by rewrite <-!app_assoc.
      + by constructor.
      + apply (clean_app tr [_; _] (new ++ more)); [apply clean_neutral; by repeat constructor|]. by apply clean_app. }
  destruct (H rs [] eq_refl Hrs fuel Hf) as (new & E & Hs & Ho & Hc). exists new. split_and!; try done. apply Hc. intros a x b Ea. by destruct a.
Qed.

(** * Answers *)

(** The messages to the owner of a port. *)
Definition messages (port : Z) (tr : trace) : list message := omap (fun e => match e with Output p b => if p =? port then Some (Dp b) else None | _ => None end) tr.
(** A descriptor came. *)
Definition fd_of `{OS : !Os} (r : Z * option cmsg) : option Z :=
  match r with
  | (res, Some cm) =>
      if (res =? 1) && (cmsg_len cm =? CMSG_LEN 4) && (cmsg_level cm =? SOL_SOCKET) && (cmsg_type cm =? SCM_RIGHTS) then Some (cmsg_fd cm) else None
  | _ => None
  end.
(** Documented: the text of an error is not empty, and short. *)
Class Strerror (OS : Os) : Prop := os_strerror_law tr : (0 < length (c_str (os_strerror tr)) < Z.to_nat (BUFSIZ - 1))%nat.
(** Documented: a descriptor received is not negative. *)
Class Received (OS : Os) : Prop := os_received_law tr s fd : fd_of (os_recvmsg tr s) = Some fd -> 0 <= fd < 2 ^ 31.

Section Answers.
Context `{OS : !Os} `{ST : !Strerror OS} `{RC : !Received OS}.
Lemma u32_put_int32 i : 0 <= i < 2 ^ 32 -> match put_int32 i with [a; b; c; d] => u32_of a b c d = i | _ => False end.
Proof.
  intros Hi. cbn [put_int32]. unfold u32_of. rewrite lor4_value; [|unfold is_byte; rewrite land_0xff; apply Z.mod_pos_bound; lia ..]. to_lin. divmod.
Qed.
Lemma recv_port_int last i ms : 0 <= i < 2 ^ 32 -> recv_port last (Dp (1 :: put_int32 i) :: ms) = Some (inl i).
Proof. intros Hi. exact (f_equal (fun x => Some (inl x)) (u32_put_int32 i Hi)). Qed.
Lemma recv_port_text last text ms : text <> [] -> recv_port last (Dp (0 :: text) :: ms) = recv_port (Some text) ms.
Proof. by destruct text. Qed.
(** A text, told before the error. *)
Lemma reply_err_string_eq port s w : (0 < length (c_str s) < Z.to_nat (BUFSIZ - 1))%nat ->
  reply_err_string port s w = (tt, World (instance w) (fdsrv w) (calls w ++ [Output port (0 :: c_str s)])).
Proof.
  intros Hs. unfold reply_err_string. rewrite (proj2 (Z.leb_gt (BUFSIZ - 1) _)) by (unfold BUFSIZ in *; lia).
  rewrite take_ge by lia. done.
Qed.
Lemma recv_fd_eq port s w : exists texts, recv_fd port s w =
    (default (-1) (fd_of (os_recvmsg (calls w) s)), World (instance w) (fdsrv w) (calls w ++ Recvmsg s (fst (os_recvmsg (calls w) s)) (snd (os_recvmsg (calls w) s)) :: texts)) /\
  match fd_of (os_recvmsg (calls w) s) with Some _ => texts = [] | None => exists text, text <> [] /\ texts = [Output port (0 :: text)] end.
Proof.
  unfold recv_fd. set (r := os_recvmsg (calls w) s). set (w1 := World (instance w) (fdsrv w) (calls w ++ [Recvmsg s (fst r) (snd r)])).
  rewrite (bind_eq (recvmsg s) _ w r w1) by reflexivity.
  assert (forall text, (0 < length (c_str text) < Z.to_nat (BUFSIZ - 1))%nat -> fd_of r = None -> exists texts, (reply_err_string port text;;; mret (-1)) w1 =
    (default (-1) (fd_of r), World (instance w) (fdsrv w) (calls w ++ Recvmsg s (fst r) (snd r) :: texts)) /\
    match fd_of r with Some _ => texts = [] | None => exists text, text <> [] /\ texts = [Output port (0 :: text)] end) as Herr.
  { intros text Ht Hr. rewrite Hr. exists [Output port (0 :: c_str text)]. rewrite (bind_eq _ _ _ _ _ (reply_err_string_eq port text w1 Ht)). split.
    - unfold w1. run. by rewrite <-app_assoc.
    - exists (c_str text). split; [|done]. intros E. rewrite E in Ht. cbn in Ht. lia. }
  assert (forall text, 0 < Z.of_nat (length (c_str text)) < BUFSIZ - 1 -> (0 < length (c_str text) < Z.to_nat (BUFSIZ - 1))%nat) as Hlit by (intros; lia).
  destruct r as [res c] eqn:Er. cbn [fst snd fd_of] in *. destruct (Z.ltb_spec res 0) as [Hneg|Hpos].
  { unfold reply_err_errno. apply (Herr (os_strerror (calls w1))); [apply os_strerror_law|]. destruct c; [|done]. by rewrite (proj2 (Z.eqb_neq res 1)) by lia. }
  destruct (Z.eqb_spec res 1) as [H1|H1]; cbn [negb]; [|apply Herr; [by apply Hlit; split; vm_compute|by destruct c]].
  destruct c as [cm|]; [|apply Herr; [by apply Hlit; split; vm_compute|done]]. cbn [andb] in *.
  destruct (cmsg_len cm =? CMSG_LEN 4); cbn [andb] in *; [|apply Herr; [by apply Hlit; split; vm_compute|done]].
  destruct (cmsg_level cm =? SOL_SOCKET); cbn [negb orb andb] in *; [|apply Herr; [by apply Hlit; split; vm_compute|done]].
  destruct (cmsg_type cm =? SCM_RIGHTS); cbn [negb] in *; [|apply Herr; [by apply Hlit; split; vm_compute|done]].
  exists []. done.
Qed.
(** An event of the driver's socket. *)
Lemma fd_is_ready_eq w : exists rest, snd (fd_is_ready (instance w) (fdsrv w) w) = World (instance w) (fdsrv w) (calls w ++ rest) /\
  match fd_of (os_recvmsg (calls w) (fdsrv w)) with
  | Some fd => messages (instance w) rest = [Dp (1 :: put_int32 fd)]
  | None => exists text, text <> [] /\ messages (instance w) rest = [Dp (0 :: text); Dp [0]] /\
      exists a, rest = a ++ [Close (fdsrv w); Select (instance w) (fdsrv w) 0; Output (instance w) [0]]
  end.
Proof.
  unfold fd_is_ready. rewrite (bind_eq get _ w w w eq_refl), !Z.eqb_refl. cbn [negb].
  destruct (recv_fd_eq (instance w) (fdsrv w) w) as (texts & E & Ht). rewrite (bind_eq _ _ _ _ _ E).
  set (r := os_recvmsg (calls w) (fdsrv w)) in *. destruct (fd_of r) as [fd|] eqn:Ef; cbn [from_option id].
  - destruct (os_received_law _ _ _ Ef) as [H0 _]. rewrite (proj2 (Z.ltb_ge fd 0)) by done. subst texts. exists [Recvmsg (fdsrv w) (fst r) (snd r); Output (instance w) (1 :: put_int32 fd)].
    split; [unfold reply_int, driver_output, act, sys; run; by rewrite <-app_assoc|]. cbn. by rewrite Z.eqb_refl.
  - destruct Ht as (text & Hne & ->). change (-1 <? 0) with true. cbv match.
    exists ([Recvmsg (fdsrv w) (fst r) (snd r); Output (instance w) (0 :: text)] ++ [Close (fdsrv w); Select (instance w) (fdsrv w) 0; Output (instance w) [0]]).
    split; [unfold reply_err, driver_output, act, sys; run; by rewrite <-!app_assoc|]. exists text. split; [done|]. split; [cbn; by rewrite Z.eqb_refl|].
    by eexists.
Qed.
End Answers.

(** C24: A request is answered: after the program served it, and the driver the descriptor sent if one was, the client has its answer among the messages of the two - the
    descriptor that the driver received, or an error - unless the kernel refused to send the descriptor: then nobody tells the client,
    which waits. Messages that come later make no difference. *)
Theorem bind_socket_answered (OP OD : Os) {OL : OsLaws OP} {ST : Strerror OD} {RC : Received OD} fd op spec tr (w : world) (later : list message) :
  exists new rest, handle (OS := OP) fd op spec tr = (tt, tr ++ new) /\ calls (snd (fd_is_ready (OS := OD) (instance w) (fdsrv w) w)) = calls w ++ rest /\
    match sent new with
    | [] => exists msg, recv_port None (map Sp (packets new) ++ later) = Some (inr (Some msg))
    | (_, _, rc) :: _ =>
        if rc <? 0 then packets new = []
        else recv_port None (map Sp (packets new) ++ messages (instance w) rest ++ later) =
          Some (match fd_of (OS := OD) (os_recvmsg (Os := OD) (calls w) (fdsrv w)) with
                | Some fd => inl fd
                | None => inr (match messages (instance w) rest with Dp (_ :: text) :: _ => Some text | _ => None end)
                end)
    end.
Proof.
  destruct (handle_served (OS := OP) fd op spec tr) as (new & E & Hs & _). destruct (fd_is_ready_eq (OS := OD) w) as (rest & Ew & Hr).
  exists new, rest. split; [done|]. split; [by rewrite Ew|]. destruct Hs as [msg Hp Hx|s addr b rc _ _ _ _ _ Hx Hw].
  - rewrite Hx, Hp. by exists (take 255 msg).
  - rewrite Hx. assert (packets new = []) as -> by (unfold packets; by rewrite Hw). destruct (rc <? 0); [done|]. cbn [map app].
    destruct (fd_of _) as [x|] eqn:Ef.
    + rewrite Hr. apply recv_port_int. destruct (os_received_law _ _ _ Ef). lia.
    + destruct Hr as (text & Hne & -> & _). cbn [app]. by rewrite recv_port_text.
Qed.
(** Port 80: the descriptor received is 9. *)
#[export] Instance sample_strerror input : Strerror (sample_os input).
Proof. intros tr. change (length (c_str (os_strerror tr))) with 5%nat. unfold BUFSIZ. lia. Qed.
#[export] Instance sample_received input : Received (sample_os input).
Proof. intros tr s fd H. vm_compute in H. injection H as <-. lia. Qed.
Lemma bind_socket_answered_witness : exists new rest,
  handle (OS := sample_os []) 5 0 (create_spec (AnyPort 80)) [] = (tt, new) /\
  calls (snd (fd_is_ready (OS := sample_os []) 1 7 (World 1 7 []))) = rest /\ sent new = [(5, 3, 1)] /\
  recv_port None (map Sp (packets new) ++ messages 1 rest ++ []) = Some (inl 9).
Proof.
  destruct (bind_socket_answered (sample_os []) (sample_os []) 5 0 (create_spec (AnyPort 80)) [] (World 1 7 []) []) as (new & rest & E1 & E2 & H).
  exists new, rest. split; [exact E1|]. split; [exact E2|]. apply (f_equal (fun x => sent (snd x))) in E1. vm_compute in E1.
  change (sent ([] ++ new)) with (sent new) in E1. assert (sent new = [(5, 3, 1)]) as E by (symmetry; exact E1). split; [exact E|]. rewrite E in H. exact H.
Defined.

(** ** The end of the driver *)

(** When no descriptor comes, the socket is closed, and stopping the port closes that descriptor again. *)
Theorem closed_twice `{OS : !Os} `{ST : !Strerror OS} `{RC : !Received OS} w : fd_of (os_recvmsg (calls w) (fdsrv w)) = None -> 0 <= fdsrv w ->
  let w' := snd (fd_is_ready (instance w) (fdsrv w) w) in ~ closes_ok (calls (snd (stop w'))).
Proof.
  intros Hn H0 w'. destruct (fd_is_ready_eq w) as (rest & E & Hr). rewrite Hn in Hr. destruct Hr as (text & _ & _ & a & ->).
  unfold w'. rewrite E. set (x := fdsrv w). set (tr := calls w ++ a ++ [Close x]). intros Hc.
  assert (x = -1 \/ x ∈ open_fds (tr ++ [Select (instance w) x 0; Output (instance w) [0]; Select (instance w) x 0])) as [Hx|Hx]; [|lia|].
  - apply (Hc _ x []). unfold tr, stop, act, sys. run. by rewrite <-!app_assoc.
  - rewrite open_fds_neutral in Hx by by repeat constructor. unfold tr in Hx. rewrite app_assoc, open_fds_snoc in Hx. cbn [open_fd] in Hx.
    by apply list_elem_of_filter in Hx as [? _].
Qed.
Lemma closed_twice_witness : let os := sample_os [] in let nothing : Os := {| os_recvmsg _ _ := (1, None); os_strerror := os_strerror (Os := os);
    os_socket := os_socket (Os := os); os_bind := os_bind (Os := os); os_accept := os_accept (Os := os); os_connect := os_connect (Os := os); os_sendmsg := os_sendmsg (Os := os);
    os_read := os_read (Os := os); os_alloc := os_alloc (Os := os); os_getservbyname := os_getservbyname (Os := os); os_inet_addr := os_inet_addr (Os := os);
    os_gethostbyname := os_gethostbyname (Os := os); CMSG_LEN := CMSG_LEN (Os := os) |} in
  ~ closes_ok (calls (snd (stop (snd (fd_is_ready (OS := nothing) 1 7 (World 1 7 [])))))).
Proof.
  intros os nothing. assert (Strerror nothing) as ST by exact (sample_strerror []). assert (Received nothing) as RC by by intros tr s fd H.
  exact (closed_twice (OS := nothing) (World 1 7 []) eq_refl ltac:(done)).
Defined.

(** * The program with requests *)

(** The reads a stream gives. *)
Definition reads (stream : bytes) : Os := {|
  os_socket := os_socket (Os := sample_os []); os_bind _ _ _ := 0; os_accept := os_accept (Os := sample_os []); os_connect _ _ _ := 0;
  os_sendmsg _ _ _ := 1; os_recvmsg := os_recvmsg (Os := sample_os []);
  os_read tr fd n := let data := take (Z.to_nat n) (drop (consumed tr) stream) in (Z.of_nat (length data), data);
  os_strerror := os_strerror (Os := sample_os []); os_alloc := os_alloc (Os := sample_os []); os_getservbyname _ _ := None; os_inet_addr := inet_addr;
  os_gethostbyname _ _ := None; CMSG_LEN n := 16 + n;
|}.
#[export] Instance reads_input stream : Input (OS := reads stream) stream.
Proof. intros tr n Hn. right. exists (Z.to_nat n). split; [done|]. split; [lia|done]. Qed.
#[export] Instance reads_laws stream : OsLaws (reads stream).
Proof. split; cbn; intros; try apply above_fresh. simplify_eq. apply above_fresh. Qed.
Definition two_requests : list (Z * bytes) := [(0, create_spec (AnyPort 80)); (1, lit "x:y")].
Lemma requests_served_witness : exists new, loop (OS := reads (concat (map frame two_requests))) 3 5 [] = (Some tt, new) /\
  serves (OS := reads (concat (map frame two_requests))) 5 two_requests [] new /\ open_fds new = [] /\ sent new = [(5, 3, 1)].
Proof.
  destruct (requests_served (OS := reads (concat (map frame two_requests))) two_requests 3 5) as (new & E & Hs & Ho & _).
  - repeat constructor; apply Nat.ltb_lt; by vm_compute.
  - cbn. lia.
  - exists new. split; [exact E|]. split; [exact Hs|]. split; [exact Ho|]. apply (f_equal (fun x => sent (snd x))) in E. vm_compute in E. symmetry. exact E.
Defined.
Lemma program_returns_witness : exists tr', loop (OS := reads [200; 1; 2]) 4 5 [] = (Some tt, tr').
Proof. apply (program_returns (OS := reads [200; 1; 2]) [200; 1; 2]). cbn. lia. Defined.
