(* ===== verification/GtkMarshal.v ===== *)
(** The marshalling of the GTK node: [gtkNode/src/gtkNode_marshal.c], and [gn_check_widget_name] of [gtkNode_glade.c].  Terms come in through [ei_decode_*] and go out through [ei_x_encode_*]; objects, structs, enumerations and flags
    of GTK are named by atoms.

    [ei] and GLib are parameters.  A buffer that is written is the list of the things encoded; of one that is read the position is in a type
    of the library.  What GLib answers is a function of the calls made so far.  A pointer is a number, 0 is NULL; [Fault] is what C
    leaves undefined, or an assertion that fails.  [long] has 64 bits.  Strings are values: [malloc] and [free] of them are left out.  The constructors
    of structs ([gtkNode_structs.c]) are found by their name, as the functions of GTK are; [gn_get_arg_gfloat] and [gn_get_arg_char] are not modelled. *)
From stdpp Require Import strings gmap.
From S2P Require Import Prelude Erts.
#[local] Open Scope Z_scope.

Definition MAXATOMLEN : Z := 255.

(** * The libraries *)

Inductive enc :=
  | Version | TupleHeader (n : Z) | ListHeader (n : Z) | EmptyList | Atom (a : bytes) | Pid (p : Z) | Boolean (b : Z) | Double (d : Z)
  | Longlong (l : Z) | Ulonglong (l : Z) | Long (l : Z) | Str (s : bytes).
(** [None]: an error, and the position is not changed. A double is its bits. *)
Class Ei (In : Type) := {
  ei_decode_atom : In -> option (bytes * In);
  ei_decode_pid : In -> option (Z * In);
  ei_decode_boolean : In -> option (Z * In);
  ei_decode_longlong : In -> option (Z * In);
  ei_decode_ulonglong : In -> option (Z * In);
  ei_decode_double : In -> option (Z * In);
  ei_get_type : In -> option Z;   (* the size *)
  ei_decode_string : In -> option (bytes * In);
  ei_decode_list_header : In -> option (Z * In);
  ei_decode_tuple_header : In -> option (Z * In);
}.
Inductive io :=
  | RegSend (m : list enc) (rc : Z) | GetType (func : bytes) (t : Z) | Construct (func : bytes) (p : Z) | GladeInit (file : bytes) (ok : bool)
  | NewGValue (p t : Z) | SetText (layout : Z) (font text : bytes) | Exit | Fault.
Abbreviation trace := (list io).
Class GLib := {
  self : Z;
  g_type_from_name : trace -> bytes -> Z;
  g_module_type : trace -> bytes -> option Z;   (* a function that returns a type *)
  g_module_constr : trace -> bytes -> option Z;   (* one that returns a new struct *)
  is_flags : Z -> bool;
  is_enum : Z -> bool;
  is_value : Z -> bool;
  g_flags_get_value_by_name : Z -> bytes -> option Z;
  g_flags_get_first_value : Z -> Z -> option (Z * bytes);
  g_enum_get_value_by_name : Z -> bytes -> option Z;
  g_enum_get_value : Z -> Z -> option bytes;
  glade_xml_get_widget : trace -> bytes -> Z;
  g_type_from_instance : trace -> Z -> Z;
  g_type_is_a : Z -> Z -> bool;
  g_type_name : Z -> bytes;
  reg_send : trace -> Z;
}.
(** The hash table from strings to pointers. *)
Class Hash (T : Type) := {
  g_hash_table_new : T;
  g_hash_table_insert : bytes -> Z -> T -> T;
  g_hash_table_lookup : bytes -> T -> Z;   (* 0 for none *)
}.
Class HashLaws (T : Type) `{Hash T} : Prop := {
  hash_lookup_new k : g_hash_table_lookup k g_hash_table_new = 0;
  hash_lookup_insert k v t : g_hash_table_lookup k (g_hash_table_insert k v t) = v;
  hash_lookup_insert_ne k k' v t : k <> k' -> g_hash_table_lookup k' (g_hash_table_insert k v t) = g_hash_table_lookup k' t;
}.
#[export] Instance gmap_hash : Hash (gmap (list Z) Z) := {|
  g_hash_table_new := ∅;
  g_hash_table_insert k v t := <[k := v]> t;
  g_hash_table_lookup k t := default 0 (t !! k);
|}.
#[export] Instance gmap_hash_laws : HashLaws (gmap (list Z) Z).
Proof.
  split; cbn; intros; [by rewrite lookup_empty|by rewrite lookup_insert_eq|by rewrite lookup_insert_ne].
Qed.

(** * Names *)

Definition isupper (c : Z) : bool := (65 <=? c) && (c <=? 90).
Definition tolower (c : Z) : Z := if isupper c then c + 32 else c.
Definition underscored (c : Z) : bytes := if isupper c then [95; tolower c] else [c].
(** [None]: the name is empty, and [name[1]] is beyond its end. *)
Definition get_type_name (name : bytes) : option bytes :=
  match name with
  | [] => None
  | c :: name => Some (tolower c :: concat (map underscored name) ++ lit "_get_type")
  end.
(** [sprintf("%d")] of a [long]: the value as an [int]. *)
Definition percent_d (p : Z) : bytes :=
  let n := int32 p in if n <? 0 then 45 :: numeral 10 (- n) else numeral 10 n.

(** * State *)

Record world (In HT : Type) := World { xbuf : list enc; inp : In; ghash : HT; calls : trace }.
Arguments World {_ _}. Arguments xbuf {_ _}. Arguments inp {_ _}. Arguments ghash {_ _}. Arguments calls {_ _}.

Section Marshal.
Context {In HT : Type} `{EI : !Ei In} `{HA : !Hash HT} `{GL : !GLib}.
Abbreviation G := (M (world In HT)).
Definition put (l : list enc) : G unit := modify (fun w => World (xbuf w ++ l) (inp w) (ghash w) (calls w)).
Definition act (e : io) : G unit := modify (fun w => World (xbuf w) (inp w) (ghash w) (calls w ++ [e])).
Definition g_assert (b : bool) : G unit := when negb b do act Fault.
(** [ei_decode_*]: the value, and the position moves on. *)
Definition decode {A} (f : In -> option (A * In)) : G (option A) := fun w =>
  match f (inp w) with
  | Some (a, i) => (Some a, World (xbuf w) i (ghash w) (calls w))
  | None => (None, w)
  end.
Definition hash_insert (key : bytes) (value : Z) : G unit :=
  modify (fun w => World (xbuf w) (inp w) (g_hash_table_insert key value (ghash w)) (calls w)).
Definition hash_lookup (key : bytes) : G Z := gets (fun w => g_hash_table_lookup key (ghash w)).

Definition gn_GType_from_name (name : bytes) : G Z :=
  gtp ← gets (fun w => g_type_from_name (calls w) name);
  if negb (gtp =? 0) then mret gtp
  else
    match get_type_name name with
    | None => act Fault;;; mret 0
    | Some tname =>
        (when 100 <=? Z.of_nat (length tname) do act Fault);;;
        r ← gets (fun w => g_module_type (calls w) tname);
        match r with
        | Some gtp => act (GetType tname gtp);;; mret gtp
        | None => mret 0
        end
    end.

(** ** Answers *)

Definition gn_wrap_ans (tag : bytes) : G unit := put [TupleHeader 2; TupleHeader 2; Pid self; Atom tag].
Definition gn_wrap_reply (tag : bytes) : G unit := put [TupleHeader 2; Atom tag].
Definition gn_enc_2_error (err : bytes) : G unit := gn_wrap_reply (lit "error");;; put [TupleHeader 2; Atom err].
Definition gn_enc_1_error (err : bytes) : G unit := gn_wrap_reply (lit "error");;; put [Atom err].
(** [ei_x_encode_*] do not fail. *)
Definition gn_put (e : enc) : G unit := gn_wrap_reply (lit "ok");;; put [e].
Definition gn_put_tuple (N : Z) : G unit := gn_put (TupleHeader N).
Definition gn_put_void : G unit := gn_put (Atom (lit "void")).
Definition gn_put_pid (p : Z) : G unit := gn_put (Pid p).
Definition gn_put_boolean (i : Z) : G unit := gn_put (Boolean i).
Definition gn_put_double (d : Z) : G unit := gn_put (Double d).
Definition gn_put_longlong (l : Z) : G unit := gn_put (Longlong l).
Definition gn_put_ulonglong (l : Z) : G unit := gn_put (Ulonglong l).
Definition gn_put_string (p : bytes) : G unit := gn_put (Str p).
Definition gn_put_object (w : Z) : G unit :=
  let bf := percent_d w in
  g_assert (Z.of_nat (length bf) <? 24);;;
  hash_insert bf w;;;
  gn_wrap_reply (lit "ok");;;
  put [Atom bf].
Definition gn_put_struct (type : bytes) (struct_p : Z) : G unit :=
  let name := percent_d struct_p in
  g_assert (Z.of_nat (length name) <? 24);;;
  g_assert (Z.of_nat (length type) + 24 + 4 <? 200);;;
  let key := type ++ lit "-" ++ name in
  old ← hash_lookup key;
  g_assert (old =? 0);;;
  hash_insert key struct_p;;;
  gn_wrap_reply (lit "ok");;;
  put [Atom name].
(** ** Enumerations and flags *)

(** The class, [None] when the name is of no enumeration. *)
Definition get_enum_class (type_name : bytes) : G (option Z) :=
  gtyp ← gn_GType_from_name type_name;
  if gtyp =? 0 then mret None else if negb (is_enum gtyp) then mret None else mret (Some gtyp).
Definition gn_get_enum_val (type_name enum_name : bytes) : G (option Z) :=
  eclass ← get_enum_class type_name;
  match eclass with
  | None => gn_enc_2_error (lit "bad_enum_type");;; put [Atom type_name];;; mret None
  | Some eclass =>
      match g_enum_get_value_by_name eclass enum_name with
      | None => gn_enc_2_error (lit "bad_enum_name");;; put [Atom enum_name];;; mret None
      | Some i => mret (Some i)
      end
  end.
Definition gn_get_enum_name (type_name : bytes) (i : Z) : G (option bytes) :=
  eclass ← get_enum_class type_name;
  match eclass with
  | None => mret None
  | Some eclass => mret (g_enum_get_value eclass i)
  end.
(** [buf] has room for 100 bytes; the name is undefined when there is none. *)
Definition gn_put_enum (type_name : bytes) (enum_val : Z) : G unit :=
  gn_wrap_reply (lit "ok");;;
  name ← gn_get_enum_name type_name enum_val;
  match name with
  | None => g_assert false
  | Some buf =>
      (when 100 <=? Z.of_nat (length buf) do act Fault);;;
      put [Atom buf]
  end.
(** [while (flags)]; [fval] may be NULL. *)
Fixpoint put_flags_loop (fuel : nat) (fclass flags : Z) : G bool :=
  if flags =? 0 then mret true
  else
    match fuel with
    | O => mret false
    | S fuel =>
        match g_flags_get_first_value fclass flags with
        | None => act Fault;;; mret true
        | Some (value, value_name) =>
            put [ListHeader 1];;;
            put [Atom value_name];;;
            put_flags_loop fuel fclass (Z.land flags (u32 (Z.lnot value)))
        end
    end.
(** [false]: out of fuel. *)
Definition gn_put_flags (fuel : nat) (type_name : bytes) (flags : Z) : G bool :=
  gn_wrap_reply (lit "ok");;;
  gtyp ← gn_GType_from_name type_name;
  g_assert (negb (gtyp =? 0));;;
  g_assert (is_flags gtyp);;;
  b ← put_flags_loop fuel gtyp flags;
  put [EmptyList];;;
  mret b.

(** ** Arguments

    [None] is FALSE: an error was written. *)

Definition gn_get_list : G (option Z) :=
  ari ← decode ei_decode_list_header;
  match ari with Some ari => mret (Some ari) | None => gn_enc_1_error (lit "bad_list");;; mret None end.
Definition gn_get_tuple : G (option Z) :=
  ari ← decode ei_decode_tuple_header;
  match ari with Some ari => mret (Some ari) | None => gn_enc_1_error (lit "bad_tuple");;; mret None end.
Definition gn_check_arity (a1 a2 : Z) : G (option unit) :=
  if a1 =? a2 then mret (Some tt)
  else gn_enc_2_error (lit "bad_arity");;; put [Long a2];;; mret None.
(** A value of the library, or an error. *)
Definition get_arg {A} (f : In -> option (A * In)) (err : bytes) : G (option A) :=
  a ← decode f;
  match a with Some a => mret (Some a) | None => gn_enc_1_error err;;; mret None end.
Definition gn_get_arg_pid : G (option Z) := get_arg ei_decode_pid (lit "bad_pid").
Definition gn_get_arg_gboolean : G (option Z) := get_arg ei_decode_boolean (lit "bad_boolean").
Definition gn_get_arg_gchar_fix : G (option bytes) := get_arg ei_decode_atom (lit "bad_atom").
Definition gn_get_arg_gchar : G (option bytes) :=
  size ← gets (fun w => ei_get_type (inp w));
  match size with
  | None => gn_enc_1_error (lit "bad_type");;; mret None
  | Some size => get_arg ei_decode_string (lit "bad_string")
  end.
Definition convert (f : Z -> Z) (m : G (option Z)) : G (option Z) :=
  a ← m; match a with Some a => mret (Some (f a)) | None => mret None end.
Definition gn_get_arg_gint64 : G (option Z) := get_arg ei_decode_longlong (lit "bad_longlong").
Definition gn_get_arg_int : G (option Z) := convert int32 gn_get_arg_gint64.
Definition gn_get_arg_gint : G (option Z) := convert int32 gn_get_arg_gint64.
Definition gn_get_arg_glong : G (option Z) := convert (fun ll => ll) gn_get_arg_gint64.
Definition gn_get_arg_guint : G (option Z) := convert u32 (get_arg ei_decode_ulonglong (lit "bad_uint")).
Definition gn_get_arg_guint16 : G (option Z) := convert u16 gn_get_arg_guint.
Definition gn_get_arg_guint32 : G (option Z) := convert u32 gn_get_arg_guint.
Definition gn_get_arg_gdouble : G (option Z) := get_arg ei_decode_double (lit "bad_double").
Definition gn_get_arg_enum (ec : bytes) : G (option Z) :=
  enum_name ← gn_get_arg_gchar_fix;
  match enum_name with Some enum_name => gn_get_enum_val ec enum_name | None => mret None end.
(** [while (list_len--)]; [fval] may be NULL. The value of a flag is unsigned. *)
Fixpoint get_flags_loop (list_len : nat) (type_name : bytes) (fclass flags : Z) : G (option Z) :=
  match list_len with
  | O => mret (Some flags)
  | S list_len =>
      flag_name ← decode ei_decode_atom;
      match flag_name with
      | None => gn_enc_2_error (lit "bad_flag_atom");;; put [Atom type_name];;; mret None
      | Some flag_name =>
          match g_flags_get_value_by_name fclass flag_name with
          | None => act Fault;;; mret (Some flags)
          | Some value => get_flags_loop list_len type_name fclass (int32 (Z.lor (u32 flags) value))
          end
      end
  end.
Definition gn_get_arg_flags (type_name : bytes) : G (option Z) :=
  list_len ← gn_get_list;
  match list_len with
  | None => mret None
  | Some list_len =>
      gtyp ← gn_GType_from_name type_name;
      if gtyp =? 0 then gn_enc_2_error (lit "bad_flag_type");;; put [Atom type_name];;; mret None
      else if negb (is_flags gtyp) then gn_enc_2_error (lit "bad_type_flag");;; put [Atom type_name];;; mret None
      else get_flags_loop (Z.to_nat list_len) type_name gtyp 0
  end.
Fixpoint get_list_loop (n : nat) : G (option (list Z)) :=
  match n with
  | O => mret (Some [])
  | S n =>
      tname ← decode ei_decode_atom;
      match tname with
      | None => gn_enc_1_error (lit "bad_type_atom");;; mret None
      | Some tname =>
          gtyp ← gn_GType_from_name tname;
          if gtyp =? 0 then gn_enc_2_error (lit "bad_type");;; put [Atom tname];;; mret None
          else
            l ← get_list_loop n;
            match l with Some l => mret (Some (gtyp :: l)) | None => mret None end
      end
  end.
Definition gn_get_arg_list (type_name : bytes) : G (option (list Z)) :=
  if bool_decide (type_name <> lit "GType") then gn_enc_1_error (lit "bad_list_type");;; mret None
  else
    list_len ← gn_get_list;
    match list_len with Some list_len => get_list_loop (Z.to_nat list_len) | None => mret None end.

(** *** Objects and structs *)

Definition gn_check_widget_name (widget_name : bytes) : G Z := gets (fun w => glade_xml_get_widget (calls w) widget_name).
Definition gn_check_object (object_name : bytes) (type : Z) : G (option Z) :=
  vp ← hash_lookup object_name;
  vp ← (if negb (vp =? 0) then mret vp else gn_check_widget_name object_name);
  if vp =? 0 then gn_enc_2_error (lit "bad_object");;; put [Atom object_name];;; mret None
  else
    GT ← gets (fun w => g_type_from_instance (calls w) vp);
    if g_type_is_a GT type then mret (Some vp)
    else gn_enc_2_error (lit "bad_type");;; put [Atom (g_type_name GT)];;; mret None.
Definition gn_get_arg_object (type : Z) : G (option Z) :=
  object_name ← decode ei_decode_atom;
  match object_name with
  | None => gn_enc_1_error (lit "bad_object_atom");;; mret None
  | Some object_name =>
      if bool_decide (object_name = lit "NULL") then mret (Some 0) else gn_check_object object_name type
  end.
(** [key] and [con_str] have room for 200 bytes. *)
Definition gn_check_struct (struct_name struct_type : bytes) : G (option Z) :=
  let key := struct_type ++ lit "-" ++ struct_name in
  (when 200 <=? Z.of_nat (length key) do act Fault);;;
  pp ← hash_lookup key;
  if negb (pp =? 0) then mret (Some pp)
  else
    let con_str := lit "gn_construct_" ++ struct_type in
    (when 200 <=? Z.of_nat (length con_str) do act Fault);;;
    constr ← gets (fun w => g_module_constr (calls w) con_str);
    match constr with
    | None => gn_enc_2_error (lit "bad_constructor");;; put [Atom con_str];;; mret None
    | Some pp => act (Construct con_str pp);;; hash_insert key pp;;; mret (Some pp)
    end.
Definition gn_get_arg_struct (type : bytes) : G (option Z) :=
  str_name ← decode ei_decode_atom;
  match str_name with
  | None => gn_enc_1_error (lit "bad_struct_atom");;; mret None
  | Some str_name =>
      if bool_decide (str_name = lit "NULL") then mret (Some 0) else gn_check_struct str_name type
  end.
End Marshal.
