(* ===== verification/GtkNode.v ===== *)
(** The GTK node: [gtkNode/src/gtkNode_cnode.c], [gtkNode_internal.c] and the signals of [gtkNode_glade.c].  A message from the Erlang node is a list
    of commands, each a tuple of a name and the list of its arguments; the functions of these names are looked up in the program, run in order up to the
    first that fails, and one message with their results goes back.

    The wrappers of the functions of GTK are generated; here they are a parameter, with the contract that those of [gtkNode_internal.c] are shown to meet. *)
From stdpp Require Import strings gmap.
From S2P Require Import Prelude Erts GtkMarshal.
#[local] Open Scope Z_scope.

(** What [ei_xreceive_msg] returns. *)
Inductive received (In : Type) := ERL_TICK | ERL_SEND (buff : In) | ERL_LINK | ERL_EXIT | ERL_ERROR.
Arguments ERL_TICK {_}. Arguments ERL_SEND {_}. Arguments ERL_LINK {_}. Arguments ERL_EXIT {_}. Arguments ERL_ERROR {_}.
(** GTK as [gtkNode_internal.c] uses it. *)
Class Gtk := {
  glade_xml_new : trace -> bytes -> bool;
  g_new0 : trace -> Z;
  widget_window : trace -> Z -> Z;
  allocation : trace -> Z -> bytes -> Z;   (* x, y, width, height *)
  GTK_TYPE_WIDGET : Z;
  gtk_event_type : trace -> option Z;   (* of the current event *)
}.

Section Node.
Context {In HT : Type} `{EI : !Ei In} `{HA : !Hash HT} `{GL : !GLib} `{GTK : !Gtk}.
Abbreviation G := (M (world In HT)).

(** * Commands *)

(** A function of the program: [gboolean f(int arity, ...)]. *)
Context (g_module_symbol : bytes -> option (Z -> G bool)).
Definition ei_x_new_with_version : G unit := modify (fun w => World [Version] (inp w) (ghash w) (calls w)).
Definition gn_send : G unit :=
  w ← get;
  let rc := reg_send (calls w) in
  act (RegSend (xbuf w) rc);;;
  when negb (rc =? 0) do act Exit.
Definition get_fpointer (cmd : bytes) : G (option (Z -> G bool)) :=
  match g_module_symbol cmd with
  | Some poi => mret (Some poi)
  | None => gn_enc_2_error (lit "no_such_function");;; put [Atom cmd];;; mret None
  end.
(** The condition of [make_reply]: [None] when an error was written. *)
Definition command_header : G (option (bytes * Z)) :=
  arity ← gn_get_tuple;
  match arity with
  | None => mret None
  | Some arity =>
      c ← gn_check_arity 2 arity;
      match c with
      | None => mret None
      | Some _ =>
          cmd ← gn_get_arg_gchar_fix;
          match cmd with
          | None => mret None
          | Some cmd => arity ← gn_get_list; match arity with None => mret None | Some arity => mret (Some (cmd, arity)) end
          end
      end
  end.
Definition make_reply : G bool :=
  h ← command_header;
  match h with
  | None => mret false
  | Some (cmd, arity) =>
      funcp ← get_fpointer cmd;
      match funcp with
      | None => mret false
      | Some funcp =>
          ok ← funcp arity;
          if (ok : bool) then
            k ← decode ei_decode_list_header;
            g_assert (bool_decide (k <> None));;;
            g_assert (bool_decide (k = Some 0));;;
            mret true
          else mret false
      end
  end.
Fixpoint reply_loop (n : nat) : G unit :=
  match n with
  | O => skip
  | S n =>
      put [ListHeader 1];;;
      ok ← make_reply;
      when (ok : bool) do reply_loop n
  end.
Definition make_reply_list : G unit :=
  arity ← gn_get_list;
  match arity with
  | None => skip
  | Some arity =>
      gn_wrap_ans (lit "reply");;;
      reply_loop (Z.to_nat arity);;;
      put [EmptyList]
  end.
(** [buff] is what follows the version. *)
Definition reply (buff : In) : G unit :=
  modify (fun w => World (xbuf w) buff (ghash w) (calls w));;;
  ei_x_new_with_version;;;
  make_reply_list;;;
  gn_send.
(** The result is FALSE when the node stops. *)
Definition gn_handle_read (r : received In) : G bool :=
  match r with
  | ERL_TICK | ERL_LINK => mret true
  | ERL_SEND buff => reply buff;;; mret true
  | ERL_EXIT | ERL_ERROR => mret false
  end.
(** The message at the start. *)
Definition handshake : G unit :=
  ei_x_new_with_version;;;
  gn_wrap_ans (lit "handshake");;;
  put [EmptyList];;;
  gn_send.

(** * Signals *)

Definition gn_send_signal (widgetname evtyp : bytes) : G unit :=
  ei_x_new_with_version;;;
  gn_wrap_ans (lit "signal");;;
  put [TupleHeader 2];;;
  put [Atom widgetname];;;
  put [Atom evtyp];;;
  gn_send.
(** [widgetname] is the name of the widget, if it has one; [evtype] has room for 100 bytes. *)
Definition gn_sighandler (widgetname : option bytes) : G unit :=
  t ← gn_GType_from_name (lit "GdkEventType");
  g_assert (negb (t =? 0));;;
  let widgetname := default (lit "UNKNOWN") widgetname in
  e ← gets (fun w => gtk_event_type (calls w));
  match e with
  | None => gn_send_signal widgetname (lit "NONE")
  | Some type =>
      name ← gn_get_enum_name (lit "GdkEventType") type;
      match name with
      | None => g_assert false
      | Some evtype =>
          (when 100 <=? Z.of_nat (length evtype) do act Fault);;;
          gn_send_signal widgetname evtype
      end
  end.

(** * Functions of the node *)

Definition GN_glade_init (arity : Z) : G bool :=
  c ← gn_check_arity 1 arity;
  match c with
  | None => mret false
  | Some _ =>
      xml_filename ← gn_get_arg_gchar;
      match xml_filename with
      | None => mret false
      | Some xml_filename =>
          ok ← gets (fun w => glade_xml_new (calls w) xml_filename);
          act (GladeInit xml_filename ok);;;
          if (ok : bool) then gn_put_void;;; mret true
          else gn_enc_1_error (lit "glade_init_failed");;; mret false
      end
  end.
(** [key] has room for 200 bytes. *)
Definition GN_new_gvalue (arity : Z) : G bool :=
  c ← gn_check_arity 2 arity;
  match c with
  | None => mret false
  | Some _ =>
      name ← gn_get_arg_gchar_fix;
      match name with
      | None => mret false
      | Some name =>
          gtype ← gn_get_arg_gchar_fix;
          match gtype with
          | None => mret false
          | Some gtype =>
              let key := lit "GValue-" ++ name in
              (when 200 <=? Z.of_nat (length key) do act Fault);;;
              old ← hash_lookup key;
              if negb (old =? 0) then gn_enc_2_error (lit "already_exists");;; put [Atom key];;; mret false
              else
                gtyp ← gn_GType_from_name gtype;
                if (gtyp =? 0) || negb (is_value gtyp) then gn_enc_2_error (lit "not_value_type");;; put [Atom gtype];;; mret false
                else
                  gval ← gets (fun w => g_new0 (calls w));
                  hash_insert key gval;;;
                  act (NewGValue gval gtyp);;;
                  gn_put_void;;;
                  mret true
          end
      end
  end.
(** A critical message is fatal ([gtkNode.c]), and [pango_layout_set_font_description] of NULL is one. *)
Definition GN_pango_layout_set_text (ARI : Z) : G bool :=
  c ← gn_check_arity 3 ARI;
  match c with
  | None => mret false
  | Some _ =>
      layout ← gn_get_arg_struct (lit "PangoLayout");
      match layout with
      | None => mret false
      | Some layout =>
          text ← gn_get_arg_gchar;
          match text with
          | None => mret false
          | Some text =>
              descr_str ← gn_get_arg_gchar;
              match descr_str with
              | None => mret false
              | Some descr_str => (when layout =? 0 do act Fault);;; act (SetText layout descr_str text);;; gn_put_void;;; mret true
              end
          end
      end
  end.
(** [widget] may be NULL. *)
Definition GN_widget_get_attr (ARI : Z) : G bool :=
  c ← gn_check_arity 2 ARI;
  match c with
  | None => mret false
  | Some _ =>
      widget ← gn_get_arg_object GTK_TYPE_WIDGET;
      match widget with
      | None => mret false
      | Some widget =>
          attr ← gn_get_arg_gchar_fix;
          match attr with
          | None => mret false
          | Some attr =>
              let field := bool_decide (attr ∈ map lit ["window"; "x"; "y"; "width"; "height"]%string) in
              (when field && (widget =? 0) do act Fault);;;
              if bool_decide (attr = lit "window") then
                win ← gets (fun w => widget_window (calls w) widget);
                gn_put_object win;;; mret true
              else if field then
                a ← gets (fun w => allocation (calls w) widget attr);
                gn_put_longlong a;;; mret true
              else gn_enc_2_error (lit "no_such_attr");;; put [Atom attr];;; mret false
          end
      end
  end.
End Node.
