(* ===== verification/GtkReply.v ===== *)
(** The replies of the GTK node: what the encoder writes as terms, the contracts of arguments and of commands, and that every list of commands is
    answered by one message, a list of results of which only the last is an error. *)
From stdpp Require Import strings gmap.
From S2P Require Import Prelude Erts GtkMarshal GtkNode.
#[local] Open Scope Z_scope.

Create HintDb silent.
Create HintDb arg.

(** * Terms *)

Inductive eterm :=
  | EAtom (a : bytes) | EPid (p : Z) | EBool (b : Z) | EDouble (d : Z) | EInt (z : Z) | EString (s : bytes) | ETuple (l : list eterm)
  | ENil | ECons (h t : eterm).
(** Documented ([ei]): what a sequence of calls of the encoder writes. A list header of one element is followed by the element and the tail. *)
Inductive writes : list enc -> eterm -> Prop :=
  | w_atom a : writes [Atom a] (EAtom a)
  | w_pid p : writes [Pid p] (EPid p)
  | w_boolean b : writes [Boolean b] (EBool b)
  | w_double d : writes [Double d] (EDouble d)
  | w_longlong z : writes [Longlong z] (EInt z)
  | w_ulonglong z : writes [Ulonglong z] (EInt z)
  | w_long z : writes [Long z] (EInt z)
  | w_string s : writes [Str s] (EString s)
  | w_tuple l ts : writes_all l ts -> writes (TupleHeader (Z.of_nat (length ts)) :: l) (ETuple ts)
  | w_nil : writes [EmptyList] ENil
  | w_cons a b h t : writes a h -> writes b t -> writes (ListHeader 1 :: a ++ b) (ECons h t)
with writes_all : list enc -> list eterm -> Prop :=
  | w_none : writes_all [] []
  | w_some a b t ts : writes a t -> writes_all b ts -> writes_all (a ++ b) (t :: ts).
Definition leaf (e : enc) : bool := match e with Version | TupleHeader _ | ListHeader _ => false | _ => true end.
Lemma writes_leaf e : leaf e = true -> exists t, writes [e] t.
Proof. destruct e; try done; intros _; by eexists; constructor. Qed.
Lemma writes_pair a b s t : writes a s -> writes b t -> writes (TupleHeader 2 :: a ++ b) (ETuple [s; t]).
Proof.
  intros Ha Hb. apply (w_tuple _ [s; t]). constructor; [done|]. rewrite <-(app_nil_r b). constructor; [done|constructor].
Qed.
(** [{Tag, X}]. *)
Definition tagged (tag : bytes) (l : list enc) : Prop := exists x, writes l (ETuple [EAtom tag; x]).
Abbreviation error_written := (tagged (lit "error")).
Abbreviation ok_written := (tagged (lit "ok")).
Lemma tagged_1 tag l t : writes l t -> tagged tag ([TupleHeader 2; Atom tag] ++ l).
Proof. intros H. exists t. apply (writes_pair [Atom tag]); [constructor|done]. Qed.
Lemma tagged_leaf tag e : leaf e = true -> tagged tag ([TupleHeader 2; Atom tag] ++ [e]).
Proof. intros [t H]%writes_leaf. by apply tagged_1 with t. Qed.
Lemma tagged_error_2 err e : leaf e = true -> error_written (([TupleHeader 2; Atom (lit "error")] ++ [TupleHeader 2; Atom err]) ++ [e]).
Proof.
  intros [t H]%writes_leaf. rewrite <-app_assoc. apply tagged_1 with (ETuple [EAtom err; t]). apply (writes_pair [Atom err]); [constructor|done].
Qed.

(** * Contracts *)

Section Contracts.
Context {In HT : Type} `{EI : !Ei In} `{HA : !Hash HT} `{GL : !GLib} `{GTK : !Gtk}.
Abbreviation G := (M (world In HT)).
Implicit Types (w : world In HT).
(** [new] is written, and calls are made. *)
Definition extends w w' (new : list enc) : Prop := xbuf w' = xbuf w ++ new /\ exists more, calls w' = calls w ++ more.
Lemma extension_refl w : extends w w [].
Proof. split; [by rewrite app_nil_r|exists []; by rewrite app_nil_r]. Qed.
Lemma extension_trans w1 w2 w3 a b : extends w1 w2 a -> extends w2 w3 b -> extends w1 w3 (a ++ b).
Proof.
  intros [E1 [m1 H1]] [E2 [m2 H2]]. split; [by rewrite E2, E1, app_assoc|]. exists (m1 ++ m2). by rewrite H2, H1, app_assoc.
Qed.
Definition silent {A} (m : G A) : Prop := forall w, extends w (snd (m w)) [].
(** An argument that is good writes nothing, a bad one an error. *)
Definition arg {A} (m : G (option A)) : Prop := forall w, exists new, extends w (snd (m w)) new /\
  match fst (m w) with Some _ => new = [] | None => error_written new end.
(** A command writes its result, or an error, unless something undefined happens. *)
Definition command (m : G bool) : Prop := forall w, exists new more, xbuf (snd (m w)) = xbuf w ++ new /\ calls (snd (m w)) = calls w ++ more /\
  (Fault ∉ more -> if fst (m w) then ok_written new else error_written new).

Lemma silent_ret {A} (a : A) : silent (mret a).
Proof. intros w. apply extension_refl. Qed.
Lemma silent_gets {A} (f : world In HT -> A) : silent (gets f).
Proof. intros w. apply extension_refl. Qed.
Lemma silent_act e : silent (act e).
Proof. intros w. split; cbn; [by rewrite app_nil_r|by eexists]. Qed.
Lemma silent_skip : silent skip.
Proof. intros w. apply extension_refl. Qed.
Lemma silent_insert k v : silent (hash_insert k v).
Proof. intros w. split; cbn; [by rewrite app_nil_r|exists []; by rewrite app_nil_r]. Qed.
Lemma silent_decode {A} (f : In -> option (A * In)) : silent (decode f).
Proof. intros w. unfold decode. destruct (f (inp w)) as [[a i]|]; [|apply extension_refl]. split; cbn; [by rewrite app_nil_r|exists []; by rewrite app_nil_r]. Qed.
Lemma silent_bind {A B} (m : G A) (f : A -> G B) : silent m -> (forall a, silent (f a)) -> silent (mbind f m).
Proof.
  intros Hm Hf w. unfold mbind, M_bind. specialize (Hm w). destruct (m w) as [a w1]. exact (extension_trans _ _ _ [] [] Hm (Hf a w1)).
Qed.
Lemma silent_if {A} (b : bool) (m n : G A) : silent m -> silent n -> silent (if b then m else n).
Proof. by destruct b. Qed.
#[local] Hint Resolve silent_ret silent_gets silent_act silent_skip silent_insert silent_decode silent_bind silent_if : silent.
Lemma silent_type name : silent (gn_GType_from_name name).
Proof.
  unfold gn_GType_from_name. apply silent_bind; [auto with silent|intros t]. apply silent_if; [auto with silent|].
  destruct (get_type_name name); [|auto with silent]. apply silent_bind; [auto with silent|intros _]. apply silent_bind; [auto with silent|intros [?|]]; auto with silent.
Qed.
#[local] Hint Resolve silent_type : silent.
Lemma silent_lookup k : silent (hash_lookup k).
Proof. apply silent_gets. Qed.
Lemma silent_widget k : silent (gn_check_widget_name k).
Proof. apply silent_gets. Qed.
Lemma silent_assert b : silent (g_assert b).
Proof. unfold g_assert. auto with silent. Qed.
Lemma silent_enum_class name : silent (get_enum_class name).
Proof. unfold get_enum_class. auto with silent. Qed.
#[local] Hint Resolve silent_lookup silent_widget silent_assert silent_enum_class : silent.
Lemma silent_enum_name name i : silent (gn_get_enum_name name i).
Proof. unfold gn_get_enum_name. apply silent_bind; [auto with silent|intros [?|]; auto with silent]. Qed.
#[local] Hint Resolve silent_enum_name : silent.

(** ** Arguments *)

Lemma arg_ret {A} (a : A) : arg (mret (Some a)).
Proof. intros w. exists []. split; [apply extension_refl|done]. Qed.
Lemma arg_bind {A B} (m : G (option A)) (f : A -> G (option B)) : arg m -> (forall a, arg (f a)) ->
  arg (mbind (fun o => match o with Some a => f a | None => mret None end) m).
Proof.
  intros Hm Hf w. unfold mbind, M_bind. specialize (Hm w). destruct (m w) as [[a|] w1]; cbn [fst snd] in *.
  - destruct Hm as (n1 & E1 & ->). destruct (Hf a w1) as (n2 & E2 & H2). exists n2. split; [exact (extension_trans _ _ _ [] _ E1 E2)|done].
  - exact Hm.
Qed.
Lemma arg_silent {A B} (m : G A) (f : A -> G (option B)) : silent m -> (forall a, arg (f a)) -> arg (mbind f m).
Proof.
  intros Hm Hf w. unfold mbind, M_bind. specialize (Hm w). destruct (m w) as [a w1]; cbn [fst snd] in *.
  destruct (Hf a w1) as (n2 & E2 & H2). exists n2. split; [exact (extension_trans _ _ _ [] _ Hm E2)|done].
Qed.
Lemma extends_put w l : extends w (World (xbuf w ++ l) (inp w) (ghash w) (calls w)) l.
Proof. split; [done|exists []; by rewrite app_nil_r]. Qed.
Lemma arg_error_1 {A} err : arg (A := A) (gn_enc_1_error err;;; mret None).
Proof.
  intros w. exists ([TupleHeader 2; Atom (lit "error")] ++ [Atom err]). split; [|by apply tagged_leaf].
  eapply extension_trans; [apply extends_put|]. exact (extends_put (World _ _ _ _) _).
Qed.
Lemma arg_error_2 {A} err e : leaf e = true -> arg (A := A) (gn_enc_2_error err;;; put [e];;; mret None).
Proof.
  intros He w. exists (([TupleHeader 2; Atom (lit "error")] ++ [TupleHeader 2; Atom err]) ++ [e]). split; [|by apply tagged_error_2].
  eapply extension_trans; [eapply extension_trans; [apply extends_put|]|]; exact (extends_put (World _ _ _ _) _).
Qed.
#[local] Hint Resolve arg_ret arg_error_1 : arg.
#[local] Hint Extern 2 (arg (mbind _ (gn_enc_2_error _))) => apply arg_error_2; reflexivity : arg.
(** The code of an argument, statement by statement. *)
Ltac args :=
  repeat (cbv zeta; lazymatch goal with
  | |- arg (mret (Some _)) => apply arg_ret
  | |- arg (mbind _ (gn_enc_1_error _)) => apply arg_error_1
  | |- arg (mbind _ (gn_enc_2_error _)) => apply arg_error_2; reflexivity
  | |- arg (match ?x with _ => _ end) => destruct x
  | |- arg (mbind _ _) => first [apply arg_bind; [solve [auto with arg]|intros ?] | apply arg_silent; [solve [auto with silent]|intros ?]]
  | |- arg _ => solve [auto with arg]
  end).
Lemma arg_get {A} (f : In -> option (A * In)) err : arg (get_arg f err).
Proof. unfold get_arg. args. Qed.
#[local] Hint Resolve arg_get : arg.
Lemma arg_convert f m : arg m -> arg (convert f m).
Proof. intros Hm. apply arg_bind; [done|intros a; apply arg_ret]. Qed.
#[local] Hint Resolve arg_convert : arg.
Lemma arg_list : arg gn_get_list.
Proof. unfold gn_get_list. args. Qed.
Lemma arg_tuple : arg gn_get_tuple.
Proof. unfold gn_get_tuple. args. Qed.
Lemma arg_arity a1 a2 : arg (gn_check_arity a1 a2).
Proof. unfold gn_check_arity. args. Qed.
Lemma arg_atom : arg gn_get_arg_gchar_fix.
Proof. apply arg_get. Qed.
Lemma arg_string : arg gn_get_arg_gchar.
Proof. unfold gn_get_arg_gchar. args. Qed.
#[local] Hint Resolve arg_list arg_tuple arg_arity arg_atom arg_string : arg.
Lemma arg_enum_val ty name : arg (gn_get_enum_val ty name).
Proof. unfold gn_get_enum_val. args. Qed.
#[local] Hint Resolve arg_enum_val : arg.
Lemma arg_enum ec : arg (gn_get_arg_enum ec).
Proof. unfold gn_get_arg_enum. args. Qed.
Lemma arg_flags_loop n ty c flags : arg (get_flags_loop n ty c flags).
Proof. revert flags. induction n as [|n IH]; intros flags; cbn [get_flags_loop]; args. Qed.
#[local] Hint Resolve arg_flags_loop : arg.
Lemma arg_flags ty : arg (gn_get_arg_flags ty).
Proof. unfold gn_get_arg_flags. args. Qed.
Lemma arg_list_loop n : arg (get_list_loop n).
Proof. induction n as [|n IH]; cbn [get_list_loop]; args. Qed.
#[local] Hint Resolve arg_list_loop : arg.
Lemma arg_types ty : arg (gn_get_arg_list ty).
Proof. unfold gn_get_arg_list. args. Qed.
Lemma arg_check_object name ty : arg (gn_check_object name ty).
Proof. unfold gn_check_object. args. Qed.
#[local] Hint Resolve arg_check_object : arg.
Lemma arg_object ty : arg (gn_get_arg_object ty).
Proof. unfold gn_get_arg_object. args. Qed.
Lemma arg_check_struct name ty : arg (gn_check_struct name ty).
Proof. unfold gn_check_struct. args. Qed.
#[local] Hint Resolve arg_check_struct : arg.
Lemma arg_struct ty : arg (gn_get_arg_struct ty).
Proof. unfold gn_get_arg_struct. args. Qed.
#[local] Hint Resolve arg_object arg_struct : arg.

(** ** Commands *)

Lemma command_bind {A} (m : G (option A)) (f : A -> G bool) : arg m -> (forall a, command (f a)) ->
  command (mbind (fun o => match o with Some a => f a | None => mret false end) m).
Proof.
  intros Hm Hf w. unfold mbind, M_bind. destruct (Hm w) as (n1 & [E1 [m1 H1]] & Hr). destruct (m w) as [[a|] w1]; cbn [fst snd] in *.
  - subst n1. rewrite app_nil_r in E1. destruct (Hf a w1) as (n2 & m2 & E2 & H2 & Hc). exists n2, (m1 ++ m2). rewrite E2, H2, E1, H1, app_assoc.
    split_and!; [done|done|]. intros Hn. apply Hc. intros ?. apply Hn, elem_of_app. by right.
  - by exists n1, m1.
Qed.
Lemma command_silent {A} (m : G A) (f : A -> G bool) : silent m -> (forall a, command (f a)) -> command (mbind f m).
Proof.
  intros Hm Hf w. unfold mbind, M_bind. destruct (Hm w) as [E1 [m1 H1]]. destruct (m w) as [a w1]; cbn [fst snd] in *. rewrite app_nil_r in E1.
  destruct (Hf a w1) as (n2 & m2 & E2 & H2 & Hc). exists n2, (m1 ++ m2). rewrite E2, H2, E1, H1, app_assoc.
  split_and!; [done|done|]. intros Hn. apply Hc. intros ?. apply Hn, elem_of_app. by right.
Qed.
Lemma command_error_1 err : command (gn_enc_1_error err;;; mret false).
Proof.
  intros w. exists ([TupleHeader 2; Atom (lit "error")] ++ [Atom err]), []. rewrite app_nil_r.
  split_and!; [unfold gn_enc_1_error, gn_wrap_reply, put; run; by rewrite <-app_assoc|done|]. intros _. by apply tagged_leaf.
Qed.
Lemma command_error_2 err e : leaf e = true -> command (gn_enc_2_error err;;; put [e];;; mret false).
Proof.
  intros He w. exists (([TupleHeader 2; Atom (lit "error")] ++ [TupleHeader 2; Atom err]) ++ [e]), []. rewrite app_nil_r.
  split_and!; [unfold gn_enc_2_error, gn_wrap_reply, put; run; by rewrite <-!app_assoc|done|]. intros _. by apply tagged_error_2.
Qed.
Lemma command_put e : leaf e = true -> command (gn_put e;;; mret true).
Proof.
  intros He w. exists ([TupleHeader 2; Atom (lit "ok")] ++ [e]), []. rewrite app_nil_r. split_and!; [unfold gn_put, gn_wrap_reply, put; run; by rewrite <-app_assoc|done|].
  intros _. by apply tagged_leaf.
Qed.
Lemma command_object p : command (gn_put_object p;;; mret true).
Proof.
  intros w. unfold gn_put_object, g_assert. destruct (negb _); [exists ([TupleHeader 2; Atom (lit "ok")] ++ [Atom (percent_d p)]), [Fault]|
    exists ([TupleHeader 2; Atom (lit "ok")] ++ [Atom (percent_d p)]), []; rewrite app_nil_r]; (split_and!; [unfold hash_insert, gn_wrap_reply, put, act; run; by rewrite <-app_assoc|done|]);
    intros _; by apply tagged_leaf.
Qed.
#[local] Hint Resolve command_error_1 command_put command_object : arg.
(** The code of a command, statement by statement. *)
Ltac commands :=
  repeat (cbv zeta; lazymatch goal with
  | |- command (mbind _ (gn_enc_1_error _)) => apply command_error_1
  | |- command (mbind _ (gn_enc_2_error _)) => apply command_error_2; reflexivity
  | |- command (mbind _ (gn_put_object _)) => apply command_object
  | |- command (mbind _ (gn_put _)) => apply command_put; reflexivity
  | |- command (mbind _ gn_put_void) => apply command_put; reflexivity
  | |- command (mbind _ (gn_put_longlong _)) => apply command_put; reflexivity
  | |- command (match ?x with _ => _ end) => destruct x
  | |- command (mbind _ _) => first [apply command_bind; [solve [auto with arg]|intros ?] | apply command_silent; [solve [auto with silent]|intros ?]]
  | |- command _ => solve [auto with arg]
  end).
Lemma command_glade_init arity : command (GN_glade_init arity).
Proof. unfold GN_glade_init. commands. Qed.
Lemma command_new_gvalue arity : command (GN_new_gvalue arity).
Proof. unfold GN_new_gvalue. commands. Qed.
Lemma command_set_text arity : command (GN_pango_layout_set_text arity).
Proof. unfold GN_pango_layout_set_text. commands. Qed.
Lemma command_get_attr arity : command (GN_widget_get_attr arity).
Proof. unfold GN_widget_get_attr. commands. Qed.
(** Wrappers that answer with an enumeration or with flags. *)
Lemma command_enum ty v : command (gn_put_enum ty v;;; mret true).
Proof.
  intros w. unfold gn_put_enum. set (w1 := snd (gn_wrap_reply (lit "ok") w)). assert (extends w w1 [TupleHeader 2; Atom (lit "ok")]) as [E1 [m1 H1]] by apply extends_put.
  destruct (silent_enum_name ty v w1) as [E2 [m2 H2]]. rewrite app_nil_r in E2. destruct (gn_get_enum_name ty v w1) as [name w2] eqn:En. cbn [snd] in *.
  assert (gn_wrap_reply (lit "ok") w = (tt, w1)) as E0 by done. unfold mbind, M_bind. rewrite E0, En. destruct name as [buf|].
  - exists ([TupleHeader 2; Atom (lit "ok")] ++ [Atom buf]), (m1 ++ m2 ++ if 100 <=? Z.of_nat (length buf) then [Fault] else []).
    destruct (100 <=? _); cbn; rewrite E2, E1, H2, H1, ?app_nil_r, <-!app_assoc; (split_and!; [done|done|]); intros _; by apply tagged_leaf.
  - exists [TupleHeader 2; Atom (lit "ok")], (m1 ++ m2 ++ [Fault]). cbn. rewrite E2, E1, H2, H1, <-!app_assoc. split_and!; [done|done|].
    intros Hf. exfalso. apply Hf. rewrite !elem_of_app. right. right. by left.
Qed.

(** * Replies *)

Definition is_tagged (tag : bytes) (t : eterm) : Prop := exists x, t = ETuple [EAtom tag; x].
(** The results of [n] commands: all are good, or the last one is an error and the rest was not run. *)
Inductive results : nat -> list eterm -> Prop :=
  | results_end : results 0 []
  | results_error n t : is_tagged (lit "error") t -> results (S n) [t]
  | results_ok n t ts : is_tagged (lit "ok") t -> results n ts -> results (S n) (t :: ts).
Definition elist (ts : list eterm) (tail : eterm) : eterm := foldr ECons tail ts.
Lemma tagged_term tag l : tagged tag l -> exists t, writes l t /\ is_tagged tag t.
Proof. intros [x H]. eexists. split; [exact H|by exists x]. Qed.

Context (symbol : bytes -> option (Z -> G bool)) (Hsymbol : forall cmd f, symbol cmd = Some f -> forall n, command (f n)).
Lemma command_then {A} (m : G bool) (s : G A) : command m -> silent s ->
  command (ok ← m; if ok : bool then s;;; mret true else mret false).
Proof.
  intros Hm Hs w. unfold mbind, M_bind. destruct (Hm w) as (n1 & m1 & E1 & H1 & Hr). destruct (m w) as [[|] w1]; cbn [fst snd] in *.
  - destruct (Hs w1) as [E2 [m2 H2]]. destruct (s w1) as [a w2]. cbn [fst snd mret M_ret] in *. rewrite app_nil_r in E2.
    exists n1, (m1 ++ m2). rewrite E2, H2, E1, H1, app_assoc. split_and!; [done|done|]. intros Hn. apply Hr. intros ?. apply Hn, elem_of_app. by left.
  - by exists n1, m1.
Qed.
Lemma arg_header : arg command_header.
Proof.
  apply arg_bind; [apply arg_tuple|intros n]. apply arg_bind; [apply arg_arity|intros _]. apply arg_bind; [apply arg_atom|intros cmd].
  apply arg_bind; [apply arg_list|intros k]. apply arg_ret.
Qed.
Lemma command_make_reply : command (make_reply symbol).
Proof.
  unfold make_reply. apply (command_bind (A := bytes * Z)); [apply arg_header|intros [cmd n]]. unfold get_fpointer. destruct (symbol cmd) as [f|] eqn:Ef.
  - assert (silent (k ← decode (In := In) (HT := HT) ei_decode_list_header; g_assert (bool_decide (k <> None));;; g_assert (bool_decide (k = Some 0)))) as Hs.
    { apply silent_bind; [apply silent_decode|intros k]. apply silent_bind; [apply silent_assert|intros _; apply silent_assert]. }
    intros w. destruct (command_then (f n) _ (Hsymbol cmd f Ef n) Hs w) as (new & more & E). exists new, more. revert E.
    unfold mbind, M_bind. cbn [mret M_ret]. destruct (f n w) as [[|] w1]; [|done]. destruct (decode ei_decode_list_header w1) as [k w2].
    by destruct (g_assert (bool_decide (k <> None)) w2).
  - exact (command_error_2 (lit "no_such_function") (Atom cmd) eq_refl).
Qed.
Lemma reply_loop_spec n w : exists l more, xbuf (snd (reply_loop symbol n w)) = xbuf w ++ l /\ calls (snd (reply_loop symbol n w)) = calls w ++ more /\
  (Fault ∉ more -> exists rs, results n rs /\ forall b t, writes b t -> writes (l ++ b) (elist rs t)).
Proof.
  revert w. induction n as [|n IH]; intros w; cbn [reply_loop].
  { exists [], []. cbn. rewrite !app_nil_r. split_and!; [done|done|]. intros _. exists []. split; [constructor|done]. }
  set (w1 := World (xbuf w ++ [ListHeader 1]) (inp w) (ghash w) (calls w)). rewrite (bind_eq (put [ListHeader 1]) _ w tt w1) by reflexivity.
  destruct (command_make_reply w1) as (n1 & m1 & E1 & H1 & Hr). destruct (make_reply symbol w1) as [ok w2] eqn:E. rewrite (bind_eq _ _ _ _ _ E). cbn [fst snd] in *.
  destruct ok.
  - destruct (IH w2) as (l & m2 & E2 & H2 & Hl). exists (ListHeader 1 :: n1 ++ l), (m1 ++ m2). rewrite E2, H2, E1, H1. cbn [xbuf calls w1]. rewrite <-!app_assoc.
    split_and!; [done|done|]. intros Hf. destruct Hl as (rs & Hrs & Hw); [intros ?; apply Hf, elem_of_app; by right|].
    destruct (tagged_term _ _ (Hr (fun H => Hf (proj2 (elem_of_app _ _ _) (or_introl H))))) as (t & Ht & Hk). exists (t :: rs). split; [by constructor|].
    intros b t' Hb. cbn [app]. rewrite <-app_assoc. apply w_cons; [done|by apply Hw].
  - exists (ListHeader 1 :: n1), m1. cbn [skip snd]. rewrite E1, H1. cbn [xbuf calls w1]. rewrite <-!app_assoc. split_and!; [done|done|].
    intros Hf. destruct (tagged_term _ _ (Hr Hf)) as (t & Ht & Hk). exists [t]. split; [by constructor|]. intros b t' Hb. by apply w_cons.
Qed.
(** What a message is answered with, after what is in the buffer. *)
Definition answer (w : world In HT) (more : trace) (body : list enc) : Prop :=
  match ei_decode_list_header (inp w) with
  | Some (n, _) => Fault ∉ more -> exists rs, results (Z.to_nat n) rs /\ writes body (ETuple [ETuple [EPid self; EAtom (lit "reply")]; elist rs ENil])
  | None => more = [] /\ writes body (ETuple [EAtom (lit "error"); EAtom (lit "bad_list")])
  end.
Lemma make_reply_list_spec w : exists body more, xbuf (snd (make_reply_list symbol w)) = xbuf w ++ body /\
  calls (snd (make_reply_list symbol w)) = calls w ++ more /\ answer w more body.
Proof.
  unfold answer, make_reply_list, gn_get_list, decode. unfold mbind, M_bind. destruct (ei_decode_list_header (inp w)) as [[n i]|].
  - set (hdr := [TupleHeader 2; TupleHeader 2; Pid self; Atom (lit "reply")]). set (w1 := World (xbuf w ++ hdr) i (ghash w) (calls w)).
    destruct (reply_loop_spec (Z.to_nat n) w1) as (l & more & E1 & H1 & Hl). exists (hdr ++ l ++ [EmptyList]), more.
    cbn [mret M_ret]. unfold gn_wrap_ans. fold hdr. change (put hdr (World (xbuf w) i (ghash w) (calls w))) with (tt, w1).
    cbv match.
    destruct (reply_loop symbol (Z.to_nat n) w1) as [[] w2]. cbn [snd] in *. unfold put, modify. cbn [snd xbuf calls]. rewrite E1, H1. cbn [xbuf calls w1].
    split_and!; [by rewrite <-!app_assoc|done|]. intros Hf. destruct (Hl Hf) as (rs & Hrs & Hw).
    exists rs. split; [done|]. apply (writes_pair [TupleHeader 2; Pid self; Atom (lit "reply")]); [|apply Hw; constructor].
    apply (writes_pair [Pid self] [Atom (lit "reply")]); constructor.
  - exists [TupleHeader 2; Atom (lit "error"); Atom (lit "bad_list")], [].
    split_and!; [unfold gn_enc_1_error, gn_wrap_reply, put; run; by rewrite <-app_assoc|cbn; by rewrite app_nil_r|done|].
    apply (writes_pair [Atom (lit "error")] [Atom (lit "bad_list")]); constructor.
Qed.
End Contracts.

(** What [get_fpointer] finds: the functions of [gtkNode_internal.c], those of [wrappers], and - the module is the whole program, [g_module_open(NULL)] - what
    else has a name in it, [others], of which a call as a function of the node is undefined. *)
Definition node_symbol {In HT} `{EI : !Ei In} `{HA : !Hash HT} `{GL : !GLib} `{GTK : !Gtk} (wrappers : bytes -> option (Z -> M (world In HT) bool)) (others : bytes -> bool)
    (cmd : bytes) : option (Z -> M (world In HT) bool) :=
  if bool_decide (cmd = lit "GN_glade_init") then Some GN_glade_init
  else if bool_decide (cmd = lit "GN_new_gvalue") then Some GN_new_gvalue
  else if bool_decide (cmd = lit "GN_pango_layout_set_text") then Some GN_pango_layout_set_text
  else if bool_decide (cmd = lit "GN_widget_get_attr") then Some GN_widget_get_attr
  else match wrappers cmd with
  | Some f => Some f
  | None => if others cmd then Some (fun _ => act Fault;;; mret false) else None
  end.

Lemma command_undefined {In HT} : command (In := In) (HT := HT) (act Fault;;; mret false).
Proof. intros w. exists [], [Fault]. rewrite app_nil_r. split_and!; [done|done|]. intros Hf. exfalso. apply Hf. by left. Qed.
Lemma command_node_symbol {In HT} `{EI : !Ei In} `{HA : !Hash HT} `{GL : !GLib} `{GTK : !Gtk} (wrappers : bytes -> option (Z -> M (world In HT) bool)) others :
  (forall cmd f, wrappers cmd = Some f -> forall n, command (f n)) -> forall cmd f, node_symbol wrappers others cmd = Some f -> forall n, command (f n).
Proof.
  intros Hw cmd f. unfold node_symbol. repeat case_bool_decide; [intros [= <-]..|];
    [apply command_glade_init|apply command_new_gvalue|apply command_set_text|apply command_get_attr|].
  destruct (wrappers cmd) eqn:E; [intros [= <-]; by apply Hw with cmd|]. destruct (others cmd); [|done]. intros [= <-] _. apply command_undefined.
Qed.


(** * A node

    What is read is what would have been written; GTK has one flags class, in which nothing fails. *)
#[export] Instance tokens : Ei (list enc) := {|
  ei_decode_atom i := match i with Atom a :: i => Some (a, i) | _ => None end;
  ei_decode_pid i := match i with Pid p :: i => Some (p, i) | _ => None end;
  ei_decode_boolean i := match i with Boolean b :: i => Some (b, i) | _ => None end;
  ei_decode_longlong i := match i with Longlong z :: i => Some (z, i) | _ => None end;
  ei_decode_ulonglong i := match i with Ulonglong z :: i => Some (z, i) | _ => None end;
  ei_decode_double i := match i with Double d :: i => Some (d, i) | _ => None end;
  ei_get_type i := match i with Str s :: _ => Some (Z.of_nat (length s)) | [] => None | _ => Some 0 end;
  ei_decode_string i := match i with Str s :: i => Some (s, i) | EmptyList :: i => Some ([], i) | _ => None end;
  ei_decode_list_header i := match i with ListHeader n :: i => Some (n, i) | EmptyList :: i => Some (0, i) | _ => None end;
  ei_decode_tuple_header i := match i with TupleHeader n :: i => Some (n, i) | _ => None end;
|}.
Definition sample_flags : list (Z * bytes) := [(1, lit "A"); (2, lit "B"); (4, lit "C")].
Definition sample_glib : GLib := {|
  self := 1;
  g_type_from_name _ name := if bool_decide (name = lit "Flags") then 5 else 0;
  g_module_type _ _ := None;
  g_module_constr _ _ := Some 77;
  is_flags t := t =? 5;
  is_enum _ := false;
  is_value _ := true;
  g_flags_get_value_by_name _ name := fst <$> (snd <$> list_find (fun v => snd v = name) sample_flags);
  g_flags_get_first_value _ f := snd <$> list_find (fun v => fst v <> 0 /\ Z.land (fst v) f = fst v) sample_flags;
  g_enum_get_value_by_name _ _ := None;
  g_enum_get_value _ _ := None;
  glade_xml_get_widget _ _ := 0;
  g_type_from_instance _ _ := 9;
  g_type_is_a a b := a =? b;
  g_type_name _ := lit "Type";
  reg_send _ := 0;
|}.
Definition sample_gtk : Gtk := {|
  glade_xml_new _ _ := true; g_new0 _ := 50; widget_window _ _ := 51; allocation _ _ _ := 3; GTK_TYPE_WIDGET := 9; gtk_event_type _ := None;
|}.
Definition no_wrappers : bytes -> option (Z -> M (world (list enc) (gmap (list Z) Z)) bool) := fun _ => None.
Definition no_others (cmd : bytes) : bool := false.
Definition node : world (list enc) (gmap (list Z) Z) := World [] [] ∅ [].
Definition is_fault (e : io) : bool := match e with Fault => true | _ => false end.
Lemma no_fault l : existsb is_fault l = false -> Fault ∉ l.
Proof. intros E Hf%list_elem_of_In. assert (existsb is_fault l = true) as H by (apply existsb_exists; by exists Fault). by rewrite H in E. Qed.
(** NULL is a layout, and [exit] a function of the program. *)
Lemma undefined_commands : let run cmd args := calls (snd (reply (GL := sample_glib) (node_symbol (GL := sample_glib) (GTK := sample_gtk) no_wrappers (fun c => bool_decide (c = lit "exit")))
    ([ListHeader 1; TupleHeader 2; Atom (lit cmd)] ++ args ++ [EmptyList]) node)) in
  Fault ∈ run "GN_pango_layout_set_text"%string [ListHeader 3; Atom (lit "NULL"); Str (lit "text"); Str (lit "Sans"); EmptyList] /\
  Fault ∈ run "exit"%string [ListHeader 1; Long 0; EmptyList].
Proof. split; vm_compute; left. Qed.
(** [gtkNode:cmd([{GN_glade_init,["f"]},{nope,[x]}])]. *)
Definition two_commands : list enc :=
  [ListHeader 2; TupleHeader 2; Atom (lit "GN_glade_init"); ListHeader 1; Str (lit "f"); EmptyList;
   TupleHeader 2; Atom (lit "nope"); ListHeader 1; Atom (lit "x"); EmptyList; EmptyList].
