(* ===== verification/GtkNames.v ===== *)
(** Names at the GTK node: objects, flags and types by their names, and commands without arguments. *)
From stdpp Require Import strings gmap.
From S2P Require Import Prelude Erts GtkMarshal GtkNode GtkReply.
#[local] Open Scope Z_scope.

(** * Objects *)

Lemma numeral_digits n : 0 <= n < 10 ^ 10 -> Forall (fun c => isdigit c = true) (numeral 10 n) /\ numeral_value 0 (numeral 10 n) = n /\ numeral 10 n <> [].
Proof. intros Hn. apply numeral_spec; [lia|exact Hn]. Qed.
(** The name of an object is that of the low 32 bits of its address. *)
Lemma percent_d_inj p q : percent_d p = percent_d q -> int32 p = int32 q.
Proof.
  unfold percent_d. pose proof (sint_range 32 p ltac:(lia)). pose proof (sint_range 32 q ltac:(lia)).
  set (m := int32 p) in *. set (n := int32 q) in *. change (2 ^ (32 - 1)) with 2147483648 in *.
  assert (forall k l, 0 <= k < 10 ^ 10 -> numeral 10 k <> 45 :: l) as Hne.
  { intros k l Hk E. destruct (numeral_digits k Hk) as (Hd & _ & _). rewrite E in Hd. apply Forall_cons in Hd as [Hd _]. done. }
  destruct (Z.ltb_spec m 0), (Z.ltb_spec n 0).
  - intros E0. assert (numeral 10 (- m) = numeral 10 (- n)) as E by exact (f_equal tail E0).
    destruct (numeral_digits (- m)) as (_ & E1 & _); [lia|]. destruct (numeral_digits (- n)) as (_ & E2 & _); [lia|]. rewrite E in E1. lia.
  - intros E. symmetry in E. by apply Hne in E; [|lia].
  - intros E. by apply Hne in E; [|lia].
  - intros E. destruct (numeral_digits m) as (_ & E1 & _); [lia|]. destruct (numeral_digits n) as (_ & E2 & _); [lia|]. rewrite E in E1. lia.
Qed.
Lemma percent_d_not_null p : percent_d p <> lit "NULL".
Proof.
  unfold percent_d. pose proof (sint_range 32 p ltac:(lia)). set (m := int32 p) in *. change (2 ^ (32 - 1)) with 2147483648 in *.
  destruct (Z.ltb_spec m 0); [done|]. intros E. destruct (numeral_digits m) as (Hd & _ & _); [lia|]. rewrite E in Hd. by apply Forall_cons in Hd as [Hd _].
Qed.

Section Names.
Context {In HT : Type} `{EI : !Ei In} `{HA : !Hash HT} `{HL : !HashLaws HT} `{GL : !GLib}.
Abbreviation G := (M (world In HT)).
Implicit Types (w : world In HT).
(** Objects given out, one after the other. *)
Fixpoint put_objects (ps : list Z) : G unit := match ps with [] => skip | p :: ps => gn_put_object p;;; put_objects ps end.
(** The last one whose address has the same low 32 bits. *)
Definition last_alike (p : Z) (ps : list Z) (default : Z) : Z := fold_left (fun last q => if int32 q =? int32 p then q else last) ps default.
Lemma last_alike_nonzero p ps d : d <> 0 -> Forall (fun x => x <> 0) ps -> last_alike p ps d <> 0.
Proof.
  intros Hd Hps. revert d Hd. unfold last_alike. induction Hps as [|x ps Hx _ IH]; intros d Hd; [done|]. cbn [fold_left]. apply IH. by destruct (_ =? _).
Qed.
Lemma percent_d_eq p q : int32 p = int32 q -> percent_d p = percent_d q.
Proof. unfold percent_d. by intros ->. Qed.
Lemma put_object_hash p w : ghash (snd (gn_put_object p w)) = g_hash_table_insert (percent_d p) p (ghash w) /\ inp (snd (gn_put_object p w)) = inp w.
Proof. unfold gn_put_object, g_assert. by destruct (negb _). Qed.
Lemma put_objects_hash p ps w : g_hash_table_lookup (percent_d p) (ghash (snd (put_objects ps w))) =
    last_alike p ps (g_hash_table_lookup (percent_d p) (ghash w)) /\ inp (snd (put_objects ps w)) = inp w.
Proof.
  revert w. induction ps as [|q ps IH]; intros w; [done|]. cbn [put_objects]. destruct (put_object_hash q w) as [Eh Ei].
  destruct (gn_put_object q w) as [[] w1] eqn:E. rewrite (bind_eq _ _ _ _ _ E). cbn [snd] in *. destruct (IH w1) as [-> ->]. split; [|done].
  unfold last_alike. cbn [fold_left]. f_equal. rewrite Eh. destruct (Z.eqb_spec (int32 q) (int32 p)) as [Eq|Eq].
  - rewrite (percent_d_eq _ _ Eq). apply hash_lookup_insert.
  - apply hash_lookup_insert_ne. intros H. by apply Eq, percent_d_inj.
Qed.
End Names.


(** * Flags

    A flags class and its values with their names, in the order of the class; documented: the first value that is set in a number, and the value of a name. *)
Class FlagsClass (GL : GLib) (c : Z) (vs : list (Z * bytes)) : Prop := {
  first_value_some f v n : g_flags_get_first_value c f = Some (v, n) -> (v, n) ∈ vs /\ v <> 0 /\ Z.land v f = v;
  first_value_none f : g_flags_get_first_value c f = None -> forall v n, (v, n) ∈ vs -> v <> 0 -> Z.land v f <> v;
  value_by_name v n : (v, n) ∈ vs -> g_flags_get_value_by_name c n = Some v;
  values_range v n : (v, n) ∈ vs -> 0 <= v < 2 ^ 32;
}.
(** Atoms in a row. *)
Inductive reads {In} `{EI : !Ei In} : list bytes -> In -> In -> Prop :=
  | reads_nil i : reads [] i i
  | reads_cons a l i i' i'' : ei_decode_atom i = Some (a, i') -> reads l i' i'' -> reads (a :: l) i i''.
Definition names (ns : list bytes) : list enc := concat (map (fun n => [ListHeader 1; Atom n]) ns).

Lemma land_lnot32 f v : 0 <= f < 2 ^ 32 -> Z.land f (u32 (Z.lnot v)) = Z.ldiff f v.
Proof.
  intros Hf. unfold wrap. apply Z.bits_inj'. intros k Hk. rewrite Z.land_spec, Z.ldiff_spec. destruct (Z.lt_ge_cases k 32).
  - rewrite Z.mod_pow2_bits_low by lia. by rewrite Z.lnot_spec.
  - rewrite <-(Z.mod_small f (2 ^ 32) Hf), Z.mod_pow2_bits_high by lia. done.
Qed.
Lemma lor_range a b : 0 <= a < 2 ^ 32 -> 0 <= b < 2 ^ 32 -> 0 <= Z.lor a b < 2 ^ 32.
Proof.
  intros Ha Hb. assert (Z.lor a b = Z.lor a b mod 2 ^ 32) as ->; [|by apply Z.mod_pos_bound]. apply Z.bits_inj'. intros k Hk. destruct (Z.lt_ge_cases k 32).
  - by rewrite Z.mod_pow2_bits_low by lia.
  - rewrite Z.lor_spec, Z.mod_pow2_bits_high, <-(Z.mod_small a _ Ha), <-(Z.mod_small b _ Hb), !Z.mod_pow2_bits_high by lia. done.
Qed.
Lemma ldiff_sub f v : Z.land v f = v -> Z.ldiff f v = f - v /\ Z.lor v (Z.ldiff f v) = f.
Proof.
  intros Hv. split.
  - rewrite Z.sub_nocarry_ldiff; [done|]. apply Z.bits_inj'. intros k Hk. rewrite Z.ldiff_spec, Z.bits_0.
    apply (f_equal (fun x => Z.testbit x k)) in Hv. rewrite Z.land_spec in Hv. by destruct (Z.testbit v k), (Z.testbit f k).
  - apply Z.bits_inj'. intros k Hk. rewrite Z.lor_spec, Z.ldiff_spec.
    apply (f_equal (fun x => Z.testbit x k)) in Hv. rewrite Z.land_spec in Hv. by destruct (Z.testbit v k), (Z.testbit f k).
Qed.

Section Flags.
Context {In HT : Type} `{EI : !Ei In} `{HA : !Hash HT} `{GL : !GLib} (c : Z) (vs : list (Z * bytes)) `{FC : !FlagsClass GL c vs}.
Implicit Types (w : world In HT).
(** Every bit of the flags is a flag. *)
Definition covered (f : Z) : Prop := forall k, 0 <= k -> Z.testbit f k = true -> exists n, (2 ^ k, n) ∈ vs.
Lemma covered_ldiff f v : covered f -> covered (Z.ldiff f v).
Proof. intros Hc k Hk. rewrite Z.ldiff_spec. intros [H _]%andb_prop. by apply Hc. Qed.
Lemma covered_first f : 0 < f < 2 ^ 32 -> covered f -> exists v n, g_flags_get_first_value c f = Some (v, n).
Proof.
  intros Hf Hc. destruct (g_flags_get_first_value c f) as [[v n]|] eqn:E; [by exists v, n|]. exfalso.
  assert (Z.testbit f (Z.log2 f) = true) as Hb by (apply Z.bit_log2; lia). destruct (Hc (Z.log2 f)) as [n Hn]; [apply Z.log2_nonneg|done|].
  apply (first_value_none f E _ n Hn); [apply Z.pow_nonzero; [done|apply Z.log2_nonneg]|].
  apply Z.bits_inj'. intros k Hk. rewrite Z.land_spec, Z.pow2_bits_eqb by apply Z.log2_nonneg. destruct (Z.eqb_spec (Z.log2 f) k) as [<-|]; [by rewrite Hb|done].
Qed.
Lemma put_flags_spec fuel f w : 0 <= f < 2 ^ 32 -> covered f -> f <= Z.of_nat fuel -> exists vns,
  put_flags_loop fuel c f w = (true, World (xbuf w ++ names (map snd vns)) (inp w) (ghash w) (calls w)) /\
  Forall (fun vn => vn ∈ vs) vns /\ foldr Z.lor 0 (map fst vns) = f.
Proof.
  revert f w. induction fuel as [|fuel IH]; intros f w Hf Hc Hfu; (destruct (Z.eqb_spec f 0) as [->|H0]; [exists []; cbn; rewrite app_nil_r; by destruct w|]); [lia|].
  cbn [put_flags_loop]. rewrite (proj2 (Z.eqb_neq f 0)) by done. destruct (covered_first f) as (v & n & E); [lia|done|]. rewrite E.
  destruct (first_value_some f v n E) as (Hin & Hv & Hl). rewrite land_lnot32 by done. destruct (ldiff_sub f v Hl) as [Ed Eo].
  pose proof (values_range v n Hin). set (w1 := World (xbuf w ++ [ListHeader 1]) (inp w) (ghash w) (calls w)).
  rewrite (bind_eq (put [ListHeader 1]) _ w tt w1) by reflexivity. rewrite (bind_eq (put [Atom n]) _ w1 tt (World (xbuf w1 ++ [Atom n]) (inp w) (ghash w) (calls w))) by reflexivity.
  assert (0 <= Z.ldiff f v) as Hd by (apply Z.ldiff_nonneg; lia).
  destruct (IH (Z.ldiff f v) (World (xbuf w1 ++ [Atom n]) (inp w) (ghash w) (calls w))) as (vns & Ep & Hall & Hor); [lia|by apply covered_ldiff|lia|].
  exists ((v, n) :: vns). rewrite Ep. cbn [xbuf inp ghash calls w1 map fst snd foldr names concat]. rewrite <-!app_assoc. split_and!; [done|by constructor|by rewrite Hor].
Qed.
Lemma get_flags_spec ty vns : forall acc w i, 0 <= acc < 2 ^ 32 -> Forall (fun vn => vn ∈ vs) vns -> reads (map snd vns) (inp w) i ->
  get_flags_loop (length vns) ty c (int32 acc) w = (Some (int32 (Z.lor acc (foldr Z.lor 0 (map fst vns)))), World (xbuf w) i (ghash w) (calls w)).
Proof.
  induction vns as [|[v n] vns IH]; intros acc w i Ha Hall Hr.
  { inversion Hr; subst. cbn. rewrite Z.lor_0_r. by destruct w. }
  apply Forall_cons in Hall as [Hv Hall]. cbn [length get_flags_loop].
  inversion Hr as [|a l i0 i' i'' Hd Hr']; subst. rewrite (bind_eq (decode _) _ w (Some n) (World (xbuf w) i' (ghash w) (calls w))) by (unfold decode; by rewrite Hd).
  rewrite (value_by_name v n Hv), u32_int32, wrap_small by lia. rewrite (IH _ _ i) by (try apply lor_range; try apply (values_range v n); done).
  cbn [map fst foldr xbuf ghash calls]. by rewrite Z.lor_assoc.
Qed.
End Flags.
Lemma writes_names ns : writes (names ns ++ [EmptyList]) (elist (map EAtom ns) ENil).
Proof. induction ns as [|n ns IH]; [constructor|]. cbn. apply (w_cons [Atom n]); [constructor|exact IH]. Qed.

(** Flags round trip: flags of which every bit is a flag of the class are written, in as many turns as their value, as the list of names of which the union is the flags: when
    the list comes back it is read as the same flags, a signed number - up to its end, which is not read. *)
Theorem flags_round_trip {In HT} `{EI : !Ei In} `{HA : !Hash HT} `{GL : !GLib} (c : Z) vs `{FC : !FlagsClass GL c vs} type_name flags fuel (w : world In HT) :
  (forall tr, g_type_from_name tr type_name = c) -> c <> 0 -> is_flags c = true ->
  0 <= flags < 2 ^ 32 -> covered vs flags -> flags <= Z.of_nat fuel ->
  exists ns, gn_put_flags fuel type_name flags w = (true, World (xbuf w ++ [TupleHeader 2; Atom (lit "ok")] ++ names ns ++ [EmptyList]) (inp w) (ghash w) (calls w)) /\
    writes (names ns ++ [EmptyList]) (elist (map EAtom ns) ENil) /\
    forall (w2 : world In HT) i1 i2, ei_decode_list_header (inp w2) = Some (Z.of_nat (length ns), i1) -> reads ns i1 i2 ->
      gn_get_arg_flags type_name w2 = (Some (int32 flags), World (xbuf w2) i2 (ghash w2) (calls w2)).
Proof.
  intros Ht Hc Hi Hf Hcov Hfu. set (w1 := World (xbuf w ++ [TupleHeader 2; Atom (lit "ok")]) (inp w) (ghash w) (calls w)).
  destruct (put_flags_spec c vs fuel flags w1) as (vns & E & Hall & Hor); [done|done|done|]. exists (map snd vns).
  assert (forall w, gn_GType_from_name (In := In) (HT := HT) type_name w = (c, w)) as Et.
  { intros w0. unfold gn_GType_from_name, mbind, M_bind, gets. rewrite Ht, (proj2 (Z.eqb_neq c 0)) by done. done. }
  split; [|split; [apply writes_names|]].
  - unfold gn_put_flags. rewrite (bind_eq (gn_wrap_reply _) _ w tt w1) by reflexivity. rewrite (bind_eq _ _ _ _ _ (Et w1)), (proj2 (Z.eqb_neq c 0)), Hi by done.
    cbn [negb]. rewrite (bind_eq (g_assert true) _ w1 tt w1), (bind_eq (g_assert true) _ w1 tt w1), (bind_eq _ _ _ _ _ E) by reflexivity.
    unfold put, w1. run. by rewrite <-!app_assoc.
  - intros w2 i1 i2 Hl Hr. set (w3 := World (xbuf w2) i1 (ghash w2) (calls w2)).
    assert (decode ei_decode_list_header w2 = (Some (Z.of_nat (length (map snd vns))), w3)) as Ed by (unfold decode; by rewrite Hl).
    unfold gn_get_arg_flags, gn_get_list, mbind, M_bind. rewrite Ed. cbn [mret M_ret]. rewrite (Et w3), (proj2 (Z.eqb_neq c 0)), Hi by done. cbn [negb].
    rewrite Nat2Z.id, length_map. change 0 with (int32 0) at 1. rewrite (get_flags_spec c vs type_name vns 0 w3 i2) by done. by rewrite Hor.
Qed.
(** The class of the sample. *)
#[export] Instance sample_class : FlagsClass sample_glib 5 sample_flags.
Proof.
  split.
  - intros f v n E. cbn [g_flags_get_first_value sample_glib] in E. apply fmap_Some in E as ([i [v0 n0]] & E & [= -> ->]). apply list_find_Some in E as (E & [H1 H2] & _). cbn [snd fst] in *.
    split; [by eapply list_elem_of_lookup_2|done].
  - intros f E v n Hin H0 Hl. cbn [g_flags_get_first_value sample_glib] in E. apply fmap_None in E. apply list_find_None in E. rewrite Forall_forall in E. by apply (E _ Hin).
  - intros v n Hin. repeat (apply elem_of_cons in Hin as [[= -> ->]|Hin]; [reflexivity|]). by apply elem_of_nil in Hin.
  - intros v n Hin. repeat (apply elem_of_cons in Hin as [[= -> ->]|Hin]; [lia|]). by apply elem_of_nil in Hin.
Qed.
Lemma flags_round_trip_witness : let w : world (list enc) (gmap (list Z) Z) := World [] [ListHeader 2; Atom (lit "A"); Atom (lit "C"); EmptyList] ∅ [] in
  gn_get_arg_flags (GL := sample_glib) (lit "Flags") w = (Some 5, World [] [EmptyList] ∅ []) /\
  exists ns, gn_put_flags (GL := sample_glib) 5 (lit "Flags") 5 node = (true, World ([TupleHeader 2; Atom (lit "ok")] ++ names ns ++ [EmptyList]) [] ∅ []).
Proof.
  intros w. destruct (flags_round_trip (GL := sample_glib) 5 sample_flags (lit "Flags") 5 5 node) as (ns & E & _ & Hr); [by intros|done|done|lia| |lia|].
  - intros k Hk Hb. assert (k < 3) as Hk3.
    { destruct (Z.lt_ge_cases k 3); [done|]. rewrite Z.bits_above_log2 in Hb; [done|done|]. change (Z.log2 5) with 2. lia. }
    assert (k = 0 \/ k = 1 \/ k = 2) as [->|[->| ->]] by lia; [exists (lit "A"); by left|done|exists (lit "C"); right; right; by left].
  - split; [|exists ns; exact E]. assert (ns = [lit "A"; lit "C"]) as ->.
    { assert (gn_put_flags (GL := sample_glib) 5 (lit "Flags") 5 node =
        (true, World ([TupleHeader 2; Atom (lit "ok")] ++ names [lit "A"; lit "C"] ++ [EmptyList]) [] ∅ [])) as E2 by by vm_compute.
      rewrite E2 in E. apply (f_equal (fun r => xbuf (snd r))) in E. cbn [snd xbuf node app] in E. apply (f_equal (fun l => tail (tail l))) in E. cbn [tail] in E.
      destruct ns as [|n1 [|n2 [|n3 ns]]]; [done..|by injection E as <- <-|done]. }
    apply (Hr w [Atom (lit "A"); Atom (lit "C"); EmptyList] [EmptyList]); [done|]. repeat econstructor.
Defined.

(** * Messages that get out of step

    [gn_get_list] reads an empty list of arguments to its end; [make_reply] then looks for the end again. The end of a list of flags is not read. *)
Theorem end_is_read_twice {In HT} `{EI : !Ei In} `{HA : !Hash HT} `{GL : !GLib} (symbol : bytes -> option (Z -> M (world In HT) bool)) (w w1 w2 : world In HT) cmd arity f :
  command_header w = (Some (cmd, arity), w1) -> symbol cmd = Some f -> f arity w1 = (true, w2) -> ei_decode_list_header (inp w2) = None ->
  make_reply symbol w = (true, World (xbuf w2) (inp w2) (ghash w2) (calls w2 ++ [Fault; Fault])).
Proof.
  intros Eh Es Ef Ed. unfold make_reply. rewrite (bind_eq _ _ _ _ _ Eh). unfold get_fpointer. rewrite Es.
  rewrite (bind_eq (mret (Some f)) _ w1 (Some f) w1), (bind_eq _ _ _ _ _ Ef) by reflexivity. cbv match.
  rewrite (bind_eq (decode _) _ w2 None w2) by (unfold decode; by rewrite Ed). unfold g_assert, act. run. rewrite (bool_decide_eq_false_2 (None = Some 0)) by done. run. by rewrite <-app_assoc.
Qed.
(** A wrapper without arguments, and one of a list of flags. *)
Definition sample_wrappers (cmd : bytes) : option (Z -> M (world (list enc) (gmap (list Z) Z)) bool) :=
  if bool_decide (cmd = lit "quit") then Some (fun arity => c ← gn_check_arity 0 arity; match c with None => mret false | Some _ => gn_put_void;;; mret true end)
  else if bool_decide (cmd = lit "flags") then
    Some (fun arity => c ← gn_check_arity 1 arity;
      match c with
      | None => mret false
      | Some _ => f ← gn_get_arg_flags (GL := sample_glib) (lit "Flags"); match f with None => mret false | Some f => gn_put_longlong f;;; mret true end
      end)
  else None.
Definition sample_node : bytes -> option (Z -> M (world (list enc) (gmap (list Z) Z)) bool) := node_symbol (GL := sample_glib) (GTK := sample_gtk) sample_wrappers no_others.
(** [{quit,[]}], then [{GN_glade_init,["f"]}]. *)
Theorem empty_arguments_fault : let rest := [TupleHeader 2; Atom (lit "GN_glade_init"); ListHeader 1; Str (lit "f"); EmptyList; EmptyList] in
  Fault ∈ calls (snd (reply (GL := sample_glib) sample_node ([ListHeader 2; TupleHeader 2; Atom (lit "quit"); EmptyList] ++ rest) node)).
Proof. vm_compute. left. Qed.
(** [{flags,[['A','C']]}], then [{GN_glade_init,["f"]}]. *)
Theorem flags_out_of_step : let rest := [TupleHeader 2; Atom (lit "GN_glade_init"); ListHeader 1; Str (lit "f"); EmptyList; EmptyList] in
  let w := snd (reply (GL := sample_glib) sample_node
    ([ListHeader 2; TupleHeader 2; Atom (lit "flags"); ListHeader 1; ListHeader 2; Atom (lit "A"); Atom (lit "C"); EmptyList; EmptyList] ++ rest) node) in
  calls w = [RegSend ([Version; TupleHeader 2; TupleHeader 2; Pid 1; Atom (lit "reply"); ListHeader 1; TupleHeader 2; Atom (lit "ok"); Longlong 5] ++
    [ListHeader 1; TupleHeader 2; Atom (lit "error"); Atom (lit "bad_tuple"); EmptyList]) 0].
Proof. by vm_compute. Qed.
