(* ===== verification/Proc.v ===== *)
(** Programs that are processes of their own: a monad over the trace of the system calls made, in which a call may end the program ([Exited]), C may leave
    undefined what follows ([Undefined]) and a loop may be out of fuel; and the weakest preconditions of such programs. *)
From S2P Require Import Prelude Erts.
#[local] Open Scope Z_scope.

Inductive res (A : Type) := Val (a : A) | Exited | Undefined | OutOfFuel.
Arguments Val {_}. Arguments Exited {_}. Arguments Undefined {_}. Arguments OutOfFuel {_}.
Definition Prog (io A : Type) : Type := list io -> res A * list io.
#[export] Instance Prog_ret io : MRet (Prog io) := fun A a tr => (Val a, tr).
#[export] Instance Prog_bind io : MBind (Prog io) := fun A B f m tr =>
  match m tr with
  | (Val a, tr) => f a tr
  | (Exited, tr) => (Exited, tr)
  | (Undefined, tr) => (Undefined, tr)
  | (OutOfFuel, tr) => (OutOfFuel, tr)
  end.
Arguments Prog_ret _ _ _ _ /. Arguments Prog_bind _ _ _ _ _ _ /.
Section Prog.
Context {io : Type}.
Definition exit {A} : Prog io A := fun tr => (Exited, tr).
Definition undefined {A} : Prog io A := fun tr => (Undefined, tr).
Definition out_of_fuel {A} : Prog io A := fun tr => (OutOfFuel, tr).
(** A system call: what it answers, and what is noted of it. *)
Definition sys {A} (ask : list io -> A) (note : A -> io) : Prog io A := fun tr => let a := ask tr in (Val a, tr ++ [note a]).
Definition note (e : io) : Prog io unit := fun tr => (Val tt, tr ++ [e]).
Definition require (b : bool) : Prog io unit := if b then mret tt else exit.

(** * Reasoning about programs

    [wp m Q X tr]: run after the calls [tr], [m] is never undefined; when it returns [Q] holds, when it exits or is out of fuel [X] does. *)
Definition wp {A} (m : Prog io A) (Q : A -> list io -> Prop) (X : bool -> list io -> Prop) (tr : list io) : Prop :=
  match m tr with
  | (Val a, tr') => Q a tr'
  | (Exited, tr') => X false tr'
  | (OutOfFuel, tr') => X true tr'
  | (Undefined, _) => False
  end.
Lemma wp_ret {A} (a : A) Q X tr : Q a tr -> wp (mret a) Q X tr.
Proof. done. Qed.
Lemma wp_exit {A} Q X tr : X false tr -> wp (@exit A) Q X tr.
Proof. done. Qed.
Lemma wp_fuel {A} Q X tr : X true tr -> wp (@out_of_fuel A) Q X tr.
Proof. done. Qed.
Lemma wp_sys {A} (ask : list io -> A) note Q X tr : Q (ask tr) (tr ++ [note (ask tr)]) -> wp (sys ask note) Q X tr.
Proof. done. Qed.
Lemma wp_note e (Q : unit -> list io -> Prop) X tr : Q tt (tr ++ [e]) -> wp (note e) Q X tr.
Proof. done. Qed.
Lemma wp_bind {A B} (m : Prog io A) (f : A -> Prog io B) Q X tr : wp m (fun a => wp (f a) Q X) X tr -> wp (mbind f m) Q X tr.
Proof. unfold wp, mbind, Prog_bind. by destruct (m tr) as [[a| | |] tr']. Qed.
Lemma wp_mono {A} (m : Prog io A) (Q Q' : A -> list io -> Prop) (X X' : bool -> list io -> Prop) tr :
  wp m Q X tr -> (forall a tr', Q a tr' -> Q' a tr') -> (forall b tr', X b tr' -> X' b tr') -> wp m Q' X' tr.
Proof. unfold wp. intros H HQ HX. destruct (m tr) as [[a| | |] tr']; auto. Qed.
Lemma wp_require b Q (X : bool -> list io -> Prop) tr : (b = true -> Q tt tr) -> (b = false -> X false tr) -> wp (require b) Q X tr.
Proof. destruct b; intros; [apply wp_ret|apply wp_exit]; auto. Qed.
End Prog.
