(* ===== verification/Psocket.v ===== *)
(** The port program for packet sockets, [psocket/c_src/psocket_srv.c]: frames of a network interface go to Erlang, on descriptor 1, as packets with two bytes of
    length; packets from Erlang, on descriptor 0, are frames to be sent, or multicast addresses to join or to leave.

    The operating system answers as a function of the calls made so far.  The fuel of a loop measures how often
    its calls are interrupted. *)
From S2P Require Import Prelude Erts Proc.
#[local] Open Scope Z_scope.

Definition ETHADDR_SIZE : Z := 6.
Definition BUFSIZE : Z := 2048.
Definition CMD_WRITE : Z := 0.
Definition CMD_JOIN : Z := 1.
Definition CMD_DROP : Z := 2.
Inductive membership := PACKET_ADD_MEMBERSHIP | PACKET_DROP_MEMBERSHIP.
(** What a system call answers: -1 with [EINTR], or with another error. *)
Inductive answer (A : Type) := Got (a : A) | Eintr | Failed.
Arguments Got {_}. Arguments Eintr {_}. Arguments Failed {_}.
Inductive io :=
  | Socket (ok : bool) | Ifindex (device : bytes) (i : option Z) | Bind (ifindex : Z) (ok : bool) | Peek (ok : bool) | Getsockname (mac : option bytes)
  | Select (socket input : bool)
  | Read (n : Z) (a : answer bytes) | Recv (a : answer bytes)
  | Write (data : bytes) (a : answer Z) | Sendto (ifindex : Z) (data : bytes) (a : answer unit)
  | Setsockopt (option : membership) (ifindex : Z) (address : bytes) (ok : bool).
Abbreviation trace := (list io).
Class Os := {
  os_socket : trace -> bool;
  os_ifindex : trace -> bytes -> option Z;
  os_bind : trace -> bool;
  os_peek : trace -> bool;
  os_getsockname : trace -> option bytes;   (* sll_addr, 8 bytes *)
  os_select : trace -> bool * bool;
  os_read : trace -> Z -> answer bytes;
  os_recv : trace -> answer bytes;
  os_write : trace -> bytes -> answer Z;
  os_sendto : trace -> answer unit;
  os_setsockopt : trace -> bool;
}.

Abbreviation E := (Prog io).

Section Program.
Context `{OS : !Os}.
Definition read (n : Z) : E (answer bytes) := sys (fun tr => os_read tr n) (Read n).
Definition write (data : bytes) : E (answer Z) := sys (fun tr => os_write tr data) (Write data).

(** * Reading and writing *)

(** [got] bytes are in the buffer. The result is their number and the buffer. *)
Fixpoint read_fill (fuel : nat) (buf : bytes) (got len : nat) : E (nat * bytes) :=
  match fuel with
  | O => out_of_fuel
  | S fuel =>
      a ← read (Z.of_nat (len - got));
      match a with
      | Got [] => exit
      | Failed => mret (got, buf)
      | Eintr => if (got <? len)%nat then read_fill fuel buf got len else mret (len, buf)
      | Got data =>
          if (length buf <? got + length data)%nat then undefined
          else
            let buf := memcpy_at buf got data in
            let got := (got + length data)%nat in
            if (got <? len)%nat then read_fill fuel buf got len else mret (len, buf)
      end
  end.
Fixpoint write_fill (fuel : nat) (buf : bytes) (done : nat) : E unit :=
  match fuel with
  | O => out_of_fuel
  | S fuel =>
      a ← write (drop done buf);
      i ← match a with Got i => mret (Z.to_nat i) | Eintr => mret 0%nat | Failed => exit end;
      let done := (done + i)%nat in
      if (done <? length buf)%nat then write_fill fuel buf done else mret tt
  end.
Definition iface_get_id (device : bytes) : E (option Z) := sys (fun tr => os_ifindex tr (take 16 device)) (Ifindex (take 16 device)).
(** The results of [read_fill] are not looked at. *)
Definition read_from_erlang (fuel : nat) (buffer : bytes) : E (Z * bytes) :=
  r ← read_fill fuel buffer 0 2;
  let buffer := r.2 in
  let len := get_int16 buffer in
  require (0 <? len);;;
  r ← read_fill fuel buffer 0 (Z.to_nat len);
  mret (len, r.2).
Definition read_from_socket (buffer : bytes) : E (Z * bytes) :=
  a ← sys os_recv Recv;
  match a with
  | Got data =>
      let len := Z.of_nat (length data) in
      require (0 <? len);;;
      mret (len, memcpy_at buffer 0 data)
  | _ => exit
  end.
Definition write_to_erlang (fuel : nat) (buffer : bytes) (len : Z) : E unit :=
  write_fill fuel (put_int16 len) 0;;;
  write_fill fuel (take (Z.to_nat len) buffer) 0.
Fixpoint write_to_socket (fuel : nat) (ifindex : Z) (data : bytes) : E unit :=
  match fuel with
  | O => out_of_fuel
  | S fuel =>
      a ← sys os_sendto (Sendto ifindex data);
      match a with Got _ => mret tt | Eintr => write_to_socket fuel ifindex data | Failed => exit end
  end.

(** * The loop *)

(** A packet from Erlang, of [bytes] bytes at the start of the buffer. *)
Definition command (fuel : nat) (ifindex bytes : Z) (buffer : list Z) : E unit :=
  let control := schar (byte_at buffer 0) in
  let data := drop 1 buffer in
  if control =? CMD_WRITE then
    if Z.of_nat (length data) <? bytes - 1 then undefined
    else write_to_socket fuel ifindex (take (Z.to_nat (bytes - 1)) data)
  else
    let mr_address := take (Z.to_nat ETHADDR_SIZE) data in
    option ← (if control =? CMD_JOIN then mret PACKET_ADD_MEMBERSHIP
              else if control =? CMD_DROP then mret PACKET_DROP_MEMBERSHIP
              else exit);
    ok ← sys os_setsockopt (Setsockopt option ifindex mr_address);
    require ok.
(** One turn of the loop: the buffer that it leaves. *)
Definition turn (fuel : nat) (ifindex : Z) (buffer : list Z) : E (list Z) :=
  rfds ← sys os_select (fun r => Select r.1 r.2);
  buffer ← (if rfds.1 : bool then
              r ← read_from_socket buffer;
              write_to_erlang fuel r.2 r.1;;;
              mret r.2
            else mret buffer);
  if rfds.2 : bool then
    r ← read_from_erlang fuel buffer;
    command fuel ifindex r.1 r.2;;;
    mret r.2
  else mret buffer.
(** [while (1)], [turns] times. *)
Fixpoint select_loop (turns fuel : nat) (ifindex : Z) (buffer : list Z) : E (list Z) :=
  match turns with
  | O => mret buffer
  | S turns => buffer ← turn fuel ifindex buffer; select_loop turns fuel ifindex buffer
  end.
Definition setup (fuel : nat) : E unit :=
  ok ← sys os_peek Peek;
  require ok;;;
  addr ← sys os_getsockname Getsockname;
  match addr with
  | None => exit
  | Some sll_addr => write_to_erlang fuel sll_addr ETHADDR_SIZE
  end.
(** What is printed is left out. *)
Definition main (turns fuel : nat) (argv : list (list Z)) (buffer : list Z) : E (list Z) :=
  match argv with
  | [device] =>
      ok ← sys os_socket Socket;
      require ok;;;
      index ← iface_get_id device;
      match index with
      | None => exit
      | Some index =>
          if index =? -1 then exit
          else
            ok ← sys os_bind (Bind index);
            require ok;;;
            setup fuel;;;
            select_loop turns fuel index buffer
      end
  | _ => exit
  end.
End Program.

Create Rewrite HintDb psocket.
(** * What goes out, and what comes in *)

(** Bytes written to Erlang, frames received to be written there, the first being the address of the interface. *)
Definition output1 (e : io) : bytes := match e with Write data (Got n) => take (Z.to_nat n) data | _ => [] end.
Definition output (tr : trace) : bytes := concat (map output1 tr).
Definition frame1 (e : io) : option bytes :=
  match e with Getsockname (Some a) => Some (take (Z.to_nat ETHADDR_SIZE) a) | Recv (Got (c :: d)) => Some (c :: d) | _ => None end.
Definition frames (tr : trace) : list bytes := omap frame1 tr.
Definition packet (d : bytes) : bytes := put_int16 (Z.of_nat (length d)) ++ d.
(** Bytes read from Erlang, and what was done. *)
Definition input1 (e : io) : bytes := match e with Read _ (Got data) => data | _ => [] end.
Definition consumed (tr : trace) : nat := length (concat (map input1 tr)).
Inductive effect := Sent (ifindex : Z) (data : bytes) | Member (option : membership) (ifindex : Z) (address : bytes).
Definition effect1 (e : io) : option effect :=
  match e with Sendto i d (Got _) => Some (Sent i d) | Setsockopt o i a true => Some (Member o i a) | _ => None end.
Definition effects (tr : trace) : list effect := omap effect1 tr.
(** Turns with input from Erlang, and calls that were interrupted. *)
Definition inputs (tr : trace) : nat := length (List.filter (fun e => match e with Select _ true => true | _ => false end) tr).
Definition interrupted1 (e : io) : bool :=
  match e with Read _ Eintr | Write _ Eintr | Sendto _ _ Eintr => true | _ => false end.
Definition interrupted (tr : trace) : nat := length (List.filter interrupted1 tr).
Lemma output_snoc tr e : output (tr ++ [e]) = output tr ++ output1 e.
Proof. unfold output. rewrite map_app, concat_app. cbn. by rewrite app_nil_r. Qed.
Lemma consumed_snoc tr e : consumed (tr ++ [e]) = (consumed tr + length (input1 e))%nat.
Proof. unfold consumed. rewrite map_app, concat_app, length_app. cbn. by rewrite app_nil_r. Qed.
Lemma frames_snoc tr e : frames (tr ++ [e]) = frames tr ++ option_list (frame1 e).
Proof. unfold frames. by rewrite omap_app. Qed.
Lemma effects_snoc tr e : effects (tr ++ [e]) = effects tr ++ option_list (effect1 e).
Proof. unfold effects. by rewrite omap_app. Qed.
Lemma inputs_snoc tr e : inputs (tr ++ [e]) = (inputs tr + match e with Select _ true => 1 | _ => 0 end)%nat.
Proof. unfold inputs. rewrite List.filter_app, length_app. by destruct e as [| | | | |? []| | | | |]. Qed.
Lemma interrupted_snoc tr e : interrupted (tr ++ [e]) = (interrupted tr + if interrupted1 e then 1 else 0)%nat.
Proof. unfold interrupted. rewrite List.filter_app, length_app. cbn. by destruct (interrupted1 e). Qed.
#[export] Hint Rewrite output_snoc consumed_snoc frames_snoc effects_snoc inputs_snoc interrupted_snoc : psocket.
(** All that is observed of a trace. *)
Record seen := Seen { s_out : bytes; s_frames : list bytes; s_consumed : nat; s_effects : list effect; s_inputs : nat }.
Definition see (tr : trace) : seen := Seen (output tr) (frames tr) (consumed tr) (effects tr) (inputs tr).

(** Documented: a read gives at most what it is asked for, a write takes some of what it is given. *)
Class OsLaws (OS : Os) : Prop := {
  read_law tr n d : 0 <= n -> os_read tr n = Got d -> Z.of_nat (length d) <= n;
  recv_law tr d : os_recv tr = Got d -> Z.of_nat (length d) <= BUFSIZE;
  write_law tr d n : os_write tr d = Got n -> d <> [] -> 0 < n <= Z.of_nat (length d);
  getsockname_law tr a : os_getsockname tr = Some a -> length a = 8%nat;
}.
(** Descriptor 0 is [stream], and no read of it fails. *)
Class Input (OS : Os) (stream : bytes) : Prop := {
  input_law tr n d : os_read tr n = Got d -> exists rest, drop (consumed tr) stream = d ++ rest;
  input_ok tr n : os_read tr n <> Failed;
}.

Section Specs.
Context `{OS : !Os} `{OL : !OsLaws OS}.
Ltac seen := unfold see; autorewrite with psocket; cbn [output1 frame1 input1 effect1 interrupted1 option_list length app]; rewrite ?app_nil_r, ?Nat.add_0_r; cbn.
(** A loop that runs out of fuel, of which [need] turns make progress: all others are interrupted. *)
Definition stuck (b : bool) (fuel need : nat) (tr tr' : trace) : Prop := b = true -> (interrupted tr + fuel <= interrupted tr' + need)%nat.
Lemma write_fill_spec fuel : forall buf done (Q : unit -> trace -> Prop) (X : bool -> trace -> Prop) tr, (done < length buf)%nat ->
  (forall tr', (interrupted tr <= interrupted tr')%nat -> see tr' = Seen (output tr ++ drop done buf) (frames tr) (consumed tr) (effects tr) (inputs tr) -> Q tt tr') ->
  (forall b tr' part, part `prefix_of` drop done buf -> see tr' = Seen (output tr ++ part) (frames tr) (consumed tr) (effects tr) (inputs tr) ->
    stuck b fuel (length buf - done) tr tr' -> X b tr') ->
  wp (write_fill fuel buf done) Q X tr.
Proof.
  induction fuel as [|fuel IH]; intros buf done Q X tr Hd HQ HX; cbn [write_fill].
  { apply wp_fuel, (HX true tr []); [apply prefix_nil|unfold see; by rewrite app_nil_r|intros _; lia]. }
  apply wp_bind, wp_sys. destruct (os_write tr (drop done buf)) as [n| |] eqn:Ea.
  - destruct (write_law _ _ _ Ea) as [Hn Hm]; [intros H; apply (f_equal length) in H; rewrite length_drop in H; cbn in H; lia|]. rewrite length_drop in Hm.
    apply wp_bind, wp_ret. set (i := Z.to_nat n). set (tr1 := tr ++ _). assert (see tr1 = Seen (output tr ++ take i (drop done buf)) (frames tr) (consumed tr) (effects tr) (inputs tr)) as E1
      by (unfold tr1; by seen). assert (interrupted tr1 = interrupted tr) as Ei by (unfold tr1; seen; lia). injection E1 as Eo Ef Ec Ee En.
    assert (take i (drop done buf) ++ drop (done + i) buf = drop done buf) as Ecut by (by rewrite <-drop_drop, take_drop).
    destruct (Nat.ltb_spec (done + i) (length buf)) as [Hl|Hl].
    + apply IH; [done| |].
      * intros tr' Hi E'. apply HQ; [lia|]. by rewrite E', Eo, Ef, Ec, Ee, En, <-app_assoc, Ecut.
      * intros b tr' part Hp E' Hs. apply (HX b tr' (take i (drop done buf) ++ part)); [rewrite <-Ecut at 2; by apply prefix_app| |].
        -- by rewrite E', Eo, Ef, Ec, Ee, En, <-app_assoc.
        -- intros Hb. specialize (Hs Hb). lia.
    + apply wp_ret, HQ; [lia|]. unfold see. rewrite Eo, Ef, Ec, Ee, En. rewrite <-Ecut at 2. by rewrite (drop_ge buf (done + i)), app_nil_r by lia.
  - apply wp_bind, wp_ret. set (tr1 := tr ++ _). assert (see tr1 = see tr) as E1 by (unfold tr1; by seen). injection E1 as Eo Ef Ec Ee En.
    assert (interrupted tr1 = interrupted tr + 1)%nat as Ei by (unfold tr1; by seen). rewrite Nat.add_0_r. rewrite (proj2 (Nat.ltb_lt _ _) Hd). apply IH; [done| |].
    + intros tr' Hi E'. apply HQ; [lia|]. by rewrite E', Eo, Ef, Ec, Ee, En.
    + intros b tr' part Hp E' Hs. apply (HX b tr' part Hp); [by rewrite E', Eo, Ef, Ec, Ee, En|]. intros Hb. specialize (Hs Hb). lia.
  - apply wp_bind, wp_exit, (HX false _ []); [apply prefix_nil|by seen|done].
Qed.
Lemma write_to_erlang_spec fuel buffer (d : bytes) (Q : unit -> trace -> Prop) (X : bool -> trace -> Prop) tr : take (length d) buffer = d -> d <> [] -> Z.of_nat (length d) <= BUFSIZE ->
  (forall tr', (interrupted tr <= interrupted tr')%nat -> see tr' = Seen (output tr ++ packet d) (frames tr) (consumed tr) (effects tr) (inputs tr) -> Q tt tr') ->
  (forall b tr' part, part `prefix_of` packet d -> see tr' = Seen (output tr ++ part) (frames tr) (consumed tr) (effects tr) (inputs tr) ->
    stuck b fuel 2048 tr tr' -> X b tr') ->
  wp (write_to_erlang fuel buffer (Z.of_nat (length d))) Q X tr.
Proof.
  intros Hb Hd Hl HQ HX. unfold BUFSIZE in *. unfold write_to_erlang. rewrite Nat2Z.id, Hb. apply wp_bind, write_fill_spec; [cbn; lia| |].
  - intros tr1 Hi1 E1. rewrite drop_0 in E1. injection E1 as Eo Ef Ec Ee En. apply write_fill_spec; [by destruct d; [|cbn; lia]| |].
    + intros tr2 Hi2 E2. apply HQ; [lia|]. unfold packet. by rewrite E2, Eo, Ef, Ec, Ee, En, drop_0, app_assoc.
    + intros b tr2 part Hp E2 Hs. rewrite drop_0 in Hp. apply (HX b tr2 (put_int16 (Z.of_nat (length d)) ++ part)); [by apply prefix_app| |].
      * by rewrite E2, Eo, Ef, Ec, Ee, En, app_assoc.
      * intros H. specialize (Hs H). lia.
  - intros b tr1 part Hp E1 Hs. rewrite drop_0 in Hp. apply (HX b tr1 part); [by apply prefix_app_r|done|]. intros H. specialize (Hs H). cbn in Hs. lia.
Qed.
Lemma write_to_socket_spec fuel : forall ifindex data (Q : unit -> trace -> Prop) (X : bool -> trace -> Prop) tr,
  (forall tr', (interrupted tr <= interrupted tr')%nat -> see tr' = Seen (output tr) (frames tr) (consumed tr) (effects tr ++ [Sent ifindex data]) (inputs tr) -> Q tt tr') ->
  (forall b tr', see tr' = see tr -> stuck b fuel 0 tr tr' -> X b tr') ->
  wp (write_to_socket fuel ifindex data) Q X tr.
Proof.
  induction fuel as [|fuel IH]; intros ifindex data Q X tr HQ HX; cbn [write_to_socket]; [apply wp_fuel, HX; [done|intros _; lia]|].
  apply wp_bind, wp_sys. destruct (os_sendto tr) as [[]| |].
  - apply wp_ret, HQ; [seen; lia|by seen].
  - assert (interrupted (tr ++ [Sendto ifindex data Eintr]) = interrupted tr + 1)%nat as Ei by by seen.
    assert (see (tr ++ [Sendto ifindex data Eintr]) = see tr) as E1 by by seen. injection E1 as Eo Ef Ec Ee En. apply IH.
    + intros tr' Hi E'. apply HQ; [lia|]. by rewrite E', Eo, Ef, Ec, Ee, En.
    + intros b tr' E' Hs. apply HX; [by rewrite E'; unfold see; rewrite Eo, Ef, Ec, Ee, En|]. intros H. specialize (Hs H). lia.
  - apply wp_exit, HX; [by seen|done].
Qed.
End Specs.

(** * The bridge

    A request is a command and its data, as [psocket.erl] and the framing of the emulator write them. *)
Definition request (r : Z * bytes) : bytes := packet (r.1 :: r.2).
Definition op (ifindex : Z) (r : Z * bytes) : effect :=
  if r.1 =? CMD_WRITE then Sent ifindex r.2
  else Member (if r.1 =? CMD_JOIN then PACKET_ADD_MEMBERSHIP else PACKET_DROP_MEMBERSHIP) ifindex (take (Z.to_nat ETHADDR_SIZE) r.2).
(** The buffer has room for the request, and an address to join or to leave is complete. *)
Definition request_ok (r : Z * bytes) : Prop :=
  0 <= r.1 <= 2 /\ Z.of_nat (length r.2) < BUFSIZE /\ (r.1 <> CMD_WRITE -> ETHADDR_SIZE <= Z.of_nat (length r.2)).
Lemma memcpy_at_app (b : bytes) o x y : (o + length x <= length b)%nat -> memcpy_at (memcpy_at b o x) (o + length x) y = memcpy_at b o (x ++ y).
Proof.
  intros Hl. unfold memcpy_at at 1. rewrite take_memcpy_at by lia. unfold memcpy_at. rewrite <-!app_assoc. do 3 f_equal.
  rewrite app_assoc, drop_app_ge by (rewrite length_app, length_take; lia). rewrite drop_drop, length_app, length_app, length_take. f_equal. lia.
Qed.
Lemma take_memcpy_at_0 (b x : bytes) : take (length x) (memcpy_at b 0 x) = x.
Proof. unfold memcpy_at. by rewrite take_0; cbn [app]; rewrite take_app_length. Qed.

Section Bridge.
Context `{OS : !Os} `{OL : !OsLaws OS} (reqs : list (Z * bytes)) `{IN : !Input OS (concat (map request reqs))}.
Ltac seen := unfold see; autorewrite with psocket; cbn [output1 frame1 input1 effect1 interrupted1 option_list length app]; rewrite ?app_nil_r, ?Nat.add_0_r; cbn.
Abbreviation stream := (concat (map request reqs)).
Lemma consumed_rest tr a b : drop (consumed tr) stream = a ++ b -> drop (consumed tr + length a) stream = b.
Proof. intros H. by rewrite <-drop_drop, H, drop_app_length. Qed.
Lemma read_fill_spec fuel : forall buf got len want rest (Q : nat * bytes -> trace -> Prop) (X : bool -> trace -> Prop) tr,
  (got < len <= length buf)%nat -> length want = (len - got)%nat -> drop (consumed tr) stream = want ++ rest ->
  (forall tr', (interrupted tr <= interrupted tr')%nat -> see tr' = Seen (output tr) (frames tr) (consumed tr + length want) (effects tr) (inputs tr) ->
    Q (len, memcpy_at buf got want) tr') ->
  (forall b tr' n, see tr' = Seen (output tr) (frames tr) n (effects tr) (inputs tr) -> stuck b fuel (len - got) tr tr' -> X b tr') ->
  wp (read_fill fuel buf got len) Q X tr.
Proof.
  induction fuel as [|fuel IH]; intros buf got len want rest Q X tr Hg Hw Hd HQ HX; cbn [read_fill]; [apply wp_fuel, (HX true tr (consumed tr)); [done|intros _; lia]|].
  apply wp_bind, wp_sys. set (n := Z.of_nat (len - got)). destruct (os_read tr n) as [d| |] eqn:Ea.
  - set (tr1 := tr ++ _). assert (see tr1 = Seen (output tr) (frames tr) (consumed tr + length d) (effects tr) (inputs tr)) as E1 by (unfold tr1; by seen).
    assert (interrupted tr1 = interrupted tr) as Ei by (unfold tr1; seen; lia).
    destruct d as [|c d]; [apply wp_exit, (HX false _ _ E1); done|]. remember (c :: d) as data eqn:Edata. assert (0 < length data)%nat as H0 by (subst; cbn; lia). clear Edata c d.
    pose proof (read_law _ _ _ (Nat2Z.is_nonneg _) Ea) as Hl. destruct (input_law _ _ _ Ea) as [more Hm]. rewrite Hd in Hm.
    assert (take (length data) want = data) as Ht.
    { apply (f_equal (take (length data))) in Hm. rewrite take_app_length, take_app_le in Hm by lia. done. }
    rewrite (proj2 (Nat.ltb_ge _ _)) by lia. injection E1 as Eo Ef Ec Ee En. destruct (Nat.ltb_spec (got + length data) len) as [Hlt|Hge].
    + assert (want = data ++ drop (length data) want) as Ew by (rewrite <-Ht at 1; by rewrite take_drop).
      apply (IH _ _ _ (drop (length data) want) rest).
      * rewrite length_memcpy_at by lia. lia.
      * rewrite length_drop. lia.
      * rewrite Ec. apply consumed_rest. by rewrite Hd, app_assoc, <-Ew.
      * intros tr' Hi E'. rewrite memcpy_at_app, <-Ew by lia. apply HQ; [lia|]. rewrite E', Eo, Ef, Ec, Ee, En. f_equal. rewrite length_drop. lia.
      * intros b tr' m E' Hs. apply (HX b tr' m); [by rewrite E', Eo, Ef, Ee, En|]. intros H. specialize (Hs H). lia.
    + assert (data = want) as -> by (rewrite <-Ht; apply take_ge; lia). apply wp_ret, HQ; [lia|]. unfold see. by rewrite Eo, Ef, Ec, Ee, En.
  - set (tr1 := tr ++ _). assert (see tr1 = see tr) as E1 by (unfold tr1; by seen). injection E1 as Eo Ef Ec Ee En.
    assert (interrupted tr1 = interrupted tr + 1)%nat as Ei by (unfold tr1; by seen). rewrite (proj2 (Nat.ltb_lt _ _)) by lia. apply (IH _ _ _ want rest); [lia|done|by rewrite Ec| |].
    + intros tr' Hi E'. apply HQ; [lia|]. by rewrite E', Eo, Ef, Ec, Ee, En.
    + intros b tr' m E' Hs. apply (HX b tr' m); [by rewrite E', Eo, Ef, Ee, En|]. intros H. specialize (Hs H). lia.
  - by apply input_ok in Ea.
Qed.
(** At the end of the stream. *)
Lemma read_fill_end fuel : forall buf len (Q : nat * bytes -> trace -> Prop) (X : bool -> trace -> Prop) tr,
  (0 < len)%nat -> drop (consumed tr) stream = [] -> (forall b tr', see tr' = see tr -> stuck b fuel 0 tr tr' -> X b tr') -> wp (read_fill fuel buf 0 len) Q X tr.
Proof.
  induction fuel as [|fuel IH]; intros buf len Q X tr Hl Hd HX; cbn [read_fill]; [apply wp_fuel, HX; [done|intros _; lia]|].
  apply wp_bind, wp_sys. destruct (os_read tr _) as [d| |] eqn:Ea.
  - destruct (input_law _ _ _ Ea) as [more Hm]. rewrite Hd in Hm. symmetry in Hm. apply app_nil in Hm as [-> _]. apply wp_exit, HX; [by seen|done].
  - set (tr1 := tr ++ _). assert (see tr1 = see tr) as E1 by (unfold tr1; by seen). assert (interrupted tr1 = interrupted tr + 1)%nat as Ei by (unfold tr1; by seen).
    rewrite (proj2 (Nat.ltb_lt _ _)) by lia. apply IH; [done| |].
    + injection E1 as _ _ Ec _ _. by rewrite Ec.
    + intros b tr' E' Hs. apply HX; [by rewrite E'|]. intros H. specialize (Hs H). lia.
  - by apply input_ok in Ea.
Qed.
(** ** One turn *)

Lemma read_from_erlang_spec fuel buffer r rest (Q : Z * bytes -> trace -> Prop) (X : bool -> trace -> Prop) tr :
  length buffer = Z.to_nat BUFSIZE -> request_ok r -> drop (consumed tr) stream = request r ++ rest ->
  (forall tr' b, (interrupted tr <= interrupted tr')%nat -> see tr' = Seen (output tr) (frames tr) (consumed tr + length (request r)) (effects tr) (inputs tr) ->
    length b = Z.to_nat BUFSIZE -> take (length (r.1 :: r.2)) b = r.1 :: r.2 -> Q (Z.of_nat (length (r.1 :: r.2)), b) tr') ->
  (forall b tr' n, see tr' = Seen (output tr) (frames tr) n (effects tr) (inputs tr) -> stuck b fuel 2048 tr tr' -> X b tr') ->
  wp (read_from_erlang fuel buffer) Q X tr.
Proof.
  intros Hb (Hc & Hl & _) Hd HQ HX. unfold BUFSIZE in *. set (body := r.1 :: r.2) in *. assert (0 < length body <= 2048)%nat as Hn by (subst body; cbn; lia).
  unfold request in *. fold body in Hd, HQ. unfold packet in *. rewrite <-app_assoc in Hd. set (hdr := put_int16 (Z.of_nat (length body))) in *. assert (length hdr = 2%nat) as Hh by done.
  apply wp_bind, (read_fill_spec _ _ _ _ hdr (body ++ rest)); [lia|done|done| |].
  - intros tr1 Hi1 E1. injection E1 as Eo Ef Ec Ee En. cbn [snd].
    assert (get_int16 (memcpy_at buffer 0 hdr) = Z.of_nat (length body)) as ->.
    { unfold memcpy_at. rewrite take_0. cbn [app]. unfold hdr. rewrite get_put_int16. apply wrap_small. lia. }
    apply wp_bind, wp_require; [|intros; lia]. intros _. rewrite Nat2Z.id. apply wp_bind, (read_fill_spec _ _ _ _ body rest).
    + rewrite length_memcpy_at by lia. lia.
    + lia.
    + rewrite Ec. exact (consumed_rest tr hdr _ Hd).
    + intros tr2 Hi2 E2. apply wp_ret, HQ; [lia| |cbn [snd]; by rewrite !length_memcpy_at by (rewrite ?length_memcpy_at; lia)|apply take_memcpy_at_0].
      rewrite E2, Eo, Ef, Ec, Ee, En. f_equal. rewrite length_app. lia.
    + intros b tr2 n E2 Hs. apply (HX b tr2 n); [by rewrite E2, Eo, Ef, Ee, En|]. intros H. specialize (Hs H). lia.
  - intros b tr1 n E1 Hs. apply (HX b tr1 n E1). intros H. specialize (Hs H). lia.
Qed.
Lemma command_spec fuel ifindex r buffer (Q : unit -> trace -> Prop) (X : bool -> trace -> Prop) tr :
  length buffer = Z.to_nat BUFSIZE -> request_ok r -> take (length (r.1 :: r.2)) buffer = r.1 :: r.2 ->
  (forall tr', (interrupted tr <= interrupted tr')%nat -> see tr' = Seen (output tr) (frames tr) (consumed tr) (effects tr ++ [op ifindex r]) (inputs tr) -> Q tt tr') ->
  (forall b tr', see tr' = see tr -> stuck b fuel 0 tr tr' -> X b tr') ->
  wp (command fuel ifindex (Z.of_nat (length (r.1 :: r.2))) buffer) Q X tr.
Proof.
  destruct r as [cmd data]. cbn [fst snd]. intros Hb (Hc & Hl & Ha) Ht HQ HX. cbn [fst snd] in *. unfold BUFSIZE in *.
  destruct buffer as [|x buffer]; [done|]. cbn [length take] in Ht. injection Ht as -> Ht. unfold command. change (byte_at (cmd :: buffer) 0) with cmd. change (drop 1 (cmd :: buffer)) with buffer.
  unfold schar. rewrite sint_small by lia. cbv zeta. unfold op in HQ. cbn [fst snd length] in *. unfold CMD_WRITE, CMD_JOIN, CMD_DROP in *. destruct (Z.eqb_spec cmd 0) as [->|H0].
  - rewrite (proj2 (Z.ltb_ge _ _)) by lia. replace (Z.to_nat (Z.of_nat (S (length data)) - 1)) with (length data) by lia. rewrite Ht. by apply write_to_socket_spec.
  - assert (take (Z.to_nat ETHADDR_SIZE) buffer = take (Z.to_nat ETHADDR_SIZE) data) as ->.
    { rewrite <-Ht, take_take. f_equal. specialize (Ha H0). lia. }
    assert (forall o, wp (ok ← sys os_setsockopt (Setsockopt o ifindex (take (Z.to_nat ETHADDR_SIZE) data)); require ok)
      (fun u tr' => (interrupted tr <= interrupted tr')%nat /\
        see tr' = Seen (output tr) (frames tr) (consumed tr) (effects tr ++ [Member o ifindex (take (Z.to_nat ETHADDR_SIZE) data)]) (inputs tr))
      (fun b tr' => see tr' = see tr /\ b = false) tr) as Hs.
    { intros o. apply wp_bind, wp_sys, wp_require.
      - intros ->. split; [seen; lia|by seen].
      - intros ->. split; [by seen|done]. }
    assert (cmd = 1 \/ cmd = 2) as [-> | ->] by lia; cbn [Z.eqb Pos.eqb] in *; apply wp_bind, wp_ret.
    all: apply (wp_mono _ _ _ _ _ _ (Hs _)); [intros [] tr' [H1 H2]; by apply HQ|intros b tr' [H1 ->]; by apply HX].
Qed.
(** After [n] requests; [ifindex] is the interface. *)
Record ready (ifindex : Z) (n : nat) (s : seen) : Prop := {
  ready_out : s_out s = concat (map packet (s_frames s));
  ready_in : s_consumed s = length (concat (map request (take n reqs)));
  ready_done : s_effects s = map (op ifindex) (take n reqs);
  ready_max : (n <= length reqs)%nat;
}.
Record stopped (fuel : nat) (ifindex : Z) (b : bool) (tr : trace) : Prop := {
  stopped_out : output tr `prefix_of` concat (map packet (frames tr));
  stopped_done : effects tr `prefix_of` map (op ifindex) reqs;
  stopped_why : b = true -> (fuel <= interrupted tr + 2048)%nat;
}.
Lemma done_prefix ifindex n : map (op ifindex) (take n reqs) `prefix_of` map (op ifindex) reqs.
Proof. rewrite <-(take_drop n reqs) at 2. rewrite map_app. by apply prefix_app_r. Qed.
Lemma stopped_intro fuel ifindex n b tr tr' : ready ifindex n (see tr) -> output tr' = output tr -> frames tr' = frames tr -> effects tr' = effects tr ->
  stuck b fuel 2048 tr tr' -> stopped fuel ifindex b tr'.
Proof.
  intros [Ho _ Hd _] Eo Ef Ee Hs. cbn in *. split; [by rewrite Eo, Ef, Ho|rewrite Ee, Hd; apply done_prefix|]. intros H. specialize (Hs H). lia.
Qed.
Lemma read_from_socket_spec buffer (Q : Z * bytes -> trace -> Prop) (X : bool -> trace -> Prop) tr : length buffer = Z.to_nat BUFSIZE ->
  (forall tr' d b, interrupted tr' = interrupted tr -> see tr' = Seen (output tr) (frames tr ++ [d]) (consumed tr) (effects tr) (inputs tr) ->
    d <> [] -> Z.of_nat (length d) <= BUFSIZE -> length b = Z.to_nat BUFSIZE -> take (length d) b = d -> Q (Z.of_nat (length d), b) tr') ->
  (forall tr', see tr' = see tr -> X false tr') ->
  wp (read_from_socket buffer) Q X tr.
Proof.
  intros Hb HQ HX. apply wp_bind, wp_sys. destruct (os_recv tr) as [d| |] eqn:Ea; [|apply wp_exit, HX; by seen..].
  pose proof (recv_law _ _ Ea) as Hl. destruct d as [|c d]; apply wp_bind, wp_require; [done|intros _; apply HX; by seen| |done].
  intros _. apply wp_ret, HQ; [seen; lia|by seen|done|done|rewrite length_memcpy_at; [done|unfold BUFSIZE in *; lia]|apply take_memcpy_at_0].
Qed.
Lemma turn_spec fuel ifindex buffer n tr : Forall request_ok reqs -> length buffer = Z.to_nat BUFSIZE -> ready ifindex n (see tr) -> inputs tr = n ->
  wp (turn fuel ifindex buffer) (fun b tr' => length b = Z.to_nat BUFSIZE /\ ready ifindex (inputs tr') (see tr')) (stopped fuel ifindex) tr.
Proof.
  intros Hok Hb Hr Hn. apply wp_bind, wp_sys. destruct (os_select tr) as [s i]. cbn [fst snd]. set (tr0 := tr ++ _).
  assert (see tr0 = Seen (output tr) (frames tr) (consumed tr) (effects tr) (inputs tr + if i then 1 else 0)) as E0 by (unfold tr0; by destruct i; seen).
  assert (ready ifindex n (see tr0)) as Hr0 by (rewrite E0; by destruct Hr). assert (inputs tr0 = n + if i then 1 else 0)%nat as Hn0 by (injection E0 as _ _ _ _ ->; by rewrite Hn).
  clearbody tr0. clear E0 Hr Hn tr. apply wp_bind, (wp_mono _ (fun b tr' => length b = Z.to_nat BUFSIZE /\ ready ifindex n (see tr') /\ inputs tr' = inputs tr0) _ (stopped fuel ifindex)); [|clear Hb|done].
  - destruct s; [|by apply wp_ret]. apply wp_bind, read_from_socket_spec; [done| |].
    + intros tr1 d b Hi1 E1 Hd Hl Hb1 Ht. injection E1 as Eo Ef Ec Ee En. destruct Hr0 as [Ho Hin Hdone Hmax]. cbn in *. apply wp_bind, write_to_erlang_spec; [done|done|done| |].
      * intros tr2 Hi2 E2. apply wp_ret. split; [done|]. split; [|injection E2 as _ _ _ _ ->; done]. rewrite E2, Eo, Ef, Ec, Ee. split; cbn; [|done..].
        rewrite map_app, concat_app, Ho. cbn. by rewrite app_nil_r.
      * intros b' tr2 part Hp E2 Hs. injection E2 as Eo2 Ef2 _ Ee2 _. split.
        -- rewrite Eo2, Ef2, Eo, Ef, map_app, concat_app, Ho. apply prefix_app. cbn. by rewrite app_nil_r.
        -- rewrite Ee2, Ee, Hdone. apply done_prefix.
        -- intros H. specialize (Hs H). lia.
    + intros tr1 E1. injection E1 as Eo Ef Ec Ee En. by apply (stopped_intro _ _ n _ tr0).
  - clear Hr0. intros b tr1 (Hb & Hr & Hn). rewrite Hn0 in Hn. clear Hn0 tr0. destruct i; [|apply wp_ret; rewrite Hn, Nat.add_0_r; done].
    destruct Hr as [Ho Hin Hdone Hmax] eqn:Er. cbn in Hin. destruct (drop n reqs) as [|r rs] eqn:Ed.
    + assert (drop (consumed tr1) stream = []) as Hend.
      { rewrite Hin. rewrite <-(take_drop n reqs) at 2. by rewrite Ed, app_nil_r, drop_all. }
      apply wp_bind, wp_bind, read_fill_end; [lia|done|]. intros b' tr2 E2 Hs. injection E2 as Eo Ef _ Ee _. apply (stopped_intro _ _ n _ tr1); try done. intros H. specialize (Hs H). lia.
    + assert (drop (consumed tr1) stream = request r ++ concat (map request rs)) as Hd.
      { rewrite Hin. rewrite <-(take_drop n reqs) at 2. by rewrite map_app, concat_app, drop_app_length, Ed. }
      assert (request_ok r) as Hro by (apply (Forall_drop _ n) in Hok; rewrite Ed in Hok; by apply Forall_cons in Hok as [? _]).
      assert (take (S n) reqs = take n reqs ++ [r]) as Et by (apply take_S_r; by rewrite <-(Nat.add_0_r n), <-lookup_drop, Ed).
      apply wp_bind, (read_from_erlang_spec _ _ r (concat (map request rs))); [done|done|done| |].
      * intros tr2 b2 Hi2 E2 Hb2 Ht2. injection E2 as Eo Ef Ec Ee En. apply wp_bind, command_spec; [done|done|done| |].
        -- intros tr3 Hi3 E3. apply wp_ret. split; [done|]. assert (inputs tr3 = S n) as -> by (injection E3 as _ _ _ _ ->; lia). rewrite E3, Eo, Ef, Ec, Ee. cbn in *. split; cbn.
           ++ done.
           ++ rewrite Et, map_app, concat_app, length_app, <-Hin. cbn. by rewrite app_nil_r.
           ++ by rewrite Et, map_app, Hdone.
           ++ apply (f_equal length) in Ed. rewrite length_drop in Ed. cbn in Ed. lia.
        -- intros b' tr3 E3 Hs. injection E3 as Eo3 Ef3 _ Ee3 _. apply (stopped_intro _ _ n _ tr1); [by split|congruence..|intros H; specialize (Hs H); lia].
      * intros b' tr2 m E2 Hs. injection E2 as Eo Ef _ Ee _. by apply (stopped_intro _ _ n _ tr1).
Qed.
Lemma select_loop_spec turns fuel ifindex : forall buffer tr, Forall request_ok reqs -> length buffer = Z.to_nat BUFSIZE -> ready ifindex (inputs tr) (see tr) ->
  wp (select_loop turns fuel ifindex buffer) (fun _ tr' => ready ifindex (inputs tr') (see tr')) (stopped fuel ifindex) tr.
Proof.
  induction turns as [|turns IH]; intros buffer tr Hok Hb Hr; cbn [select_loop]; [by apply wp_ret|].
  apply wp_bind. eapply wp_mono; [by apply (turn_spec fuel ifindex buffer (inputs tr))| |done]. intros b tr' [Hb' Hr']. by apply IH.
Qed.
(** Nothing has been done yet. *)
Definition idle (tr : trace) : Prop := see tr = Seen [] [] 0 [] 0.
Lemma stopped_idle fuel ifindex tr : idle tr -> stopped fuel ifindex false tr.
Proof. intros E. injection E as Eo Ef Ec Ee En. split; [rewrite Eo|rewrite Ee|done]; apply prefix_nil. Qed.
Lemma setup_spec fuel ifindex tr : idle tr ->
  wp (setup fuel) (fun _ tr' => inputs tr' = 0%nat /\ ready ifindex 0 (see tr')) (stopped fuel ifindex) tr.
Proof.
  intros Hi. injection Hi as Eo Ef Ec Ee En.
  apply wp_bind, wp_sys, wp_bind, wp_require; intros Hp; rewrite Hp; [|by apply stopped_idle; unfold idle; seen; rewrite Eo, Ef, Ec, Ee, En].
  set (tr1 := tr ++ _). apply wp_bind, wp_sys. destruct (os_getsockname tr1) as [a|] eqn:Ea;
    [|by apply wp_exit, stopped_idle; unfold idle, tr1; seen; rewrite Eo, Ef, Ec, Ee, En].
  set (tr2 := tr1 ++ _). set (mac := take (Z.to_nat ETHADDR_SIZE) a). assert (length mac = 6%nat) as Hm by (unfold mac; rewrite length_take, (getsockname_law _ _ Ea); done).
  assert (see tr2 = Seen [] [mac] 0 [] 0) as E2 by (unfold tr2, tr1; seen; by rewrite Eo, Ef, Ec, Ee, En). injection E2 as Eo2 Ef2 Ec2 Ee2 En2.
  change ETHADDR_SIZE with (Z.of_nat 6). rewrite <-Hm. apply write_to_erlang_spec; [by rewrite Hm|by intros ->|by rewrite Hm| |].
  - intros tr3 _ E3. rewrite E3, Eo2, Ef2, Ec2, Ee2. injection E3 as _ _ _ _ ->. rewrite En2. split; [done|]. split; cbn; [by rewrite app_nil_r|done|done|lia].
  - intros b tr3 part Hp3 E3 Hs. injection E3 as Eo3 Ef3 _ Ee3 _. split; [|rewrite Ee3, Ee2; apply prefix_nil|intros H; specialize (Hs H); lia].
    rewrite Eo3, Ef3, Eo2, Ef2. cbn. by rewrite app_nil_r.
Qed.
End Bridge.

(** C28: Frames are bridged: when requests that fit the buffer come in on descriptor 0, in pieces and with interrupted calls, nothing is ever undefined; the
    program writes to Erlang the address of the interface and every frame it received, one packet each, in order, and sends or carries out every request, one
    for each time it finds input, in order. When a call ends the program, what was written and done is the beginning of that; no loop runs longer than there are interrupted calls, and 2048. *)
Theorem frames_bridged `{OS : !Os} `{OL : !OsLaws OS} (reqs : list (Z * bytes)) `{IN : !Input OS (concat (map request reqs))} turns fuel device buffer :
  Forall request_ok reqs -> length buffer = Z.to_nat BUFSIZE ->
  let ifindex := default 0 (os_ifindex [Socket true] (take 16 device)) in
  wp (main turns fuel [device] buffer)
    (fun _ tr => output tr = concat (map packet (frames tr)) /\ effects tr = map (op ifindex) (take (inputs tr) reqs))
    (fun out_of_fuel tr => output tr `prefix_of` concat (map packet (frames tr)) /\ effects tr `prefix_of` map (op ifindex) reqs /\
      (out_of_fuel = true -> (fuel <= interrupted tr + 2048)%nat)) [].
Proof.
  intros Hok Hb ifindex. apply (wp_mono _ (fun _ tr => ready reqs ifindex (inputs tr) (see tr)) _ (stopped reqs fuel ifindex)); [|intros _ tr [? _ ? _]; done|intros b tr [? ? ?]; done].
  apply wp_bind, wp_sys, wp_bind, wp_require; intros Hs; rewrite Hs; [|by apply stopped_idle].
  apply wp_bind, wp_sys. fold ([] ++ [Socket true]). cbn [app]. destruct (os_ifindex [Socket true] (take 16 device)) as [i|] eqn:Ei; [|by apply wp_exit, stopped_idle].
  change ifindex with i. destruct (i =? -1); [by apply wp_exit, stopped_idle|]. apply wp_bind, wp_sys, wp_bind, wp_require; intros Hbd; [|by apply stopped_idle].
  apply wp_bind. eapply wp_mono; [by apply (setup_spec reqs fuel i)| |done]. intros [] tr [Hin Hr]. apply (select_loop_spec reqs); [done|done|by rewrite Hin].
Qed.

(** * A run

    The first call of each kind is interrupted, two bytes are read or written at a time. *)
Definition sample_requests : list (Z * bytes) := [(0, [1; 2; 3]); (1, [1; 0; 94; 0; 0; 9])].
Definition sample_os : Os := {|
  os_socket _ := true; os_ifindex _ _ := Some 3; os_bind _ := true; os_peek _ := true; os_getsockname _ := Some [10; 11; 12; 13; 14; 15; 0; 0];
  os_select tr := (negb (1 <? Z.of_nat (inputs tr)), true);
  os_read tr n := if Nat.eqb (interrupted tr) 1 then Eintr else Got (take (Nat.min 2 (Z.to_nat n)) (drop (consumed tr) (concat (map request sample_requests))));
  os_recv _ := Got [7; 8; 9];
  os_write tr d := if Nat.eqb (interrupted tr) 0 then Eintr else Got (Z.min 2 (Z.of_nat (length d)));
  os_sendto tr := if Nat.eqb (interrupted tr) 2 then Eintr else Got tt;
  os_setsockopt _ := true;
|}.
#[export] Instance sample_laws : OsLaws sample_os.
Proof.
  split.
  - intros tr n d Hn. cbn [os_read sample_os]. destruct (Nat.eqb _ _); [done|]. intros H. set (l := drop (consumed tr) (concat (map request sample_requests))) in H. assert (d = take (Nat.min 2 (Z.to_nat n)) l) as -> by congruence.
    rewrite length_take. lia.
  - by intros tr d [= <-].
  - intros tr d n. cbn [os_write sample_os]. destruct (Nat.eqb _ _); [done|]. intros [= <-] Hd. destruct d; [done|]. cbn. lia.
  - by intros tr a [= <-].
Qed.
#[export] Instance sample_input : Input sample_os (concat (map request sample_requests)).
Proof.
  split; cbn [os_read sample_os]; intros tr n; [intros d|]; (destruct (Nat.eqb _ _); [done|]); [intros [= <-]|done]. eexists. by rewrite take_drop.
Qed.
Lemma frames_bridged_witness : let tr := snd (main (OS := sample_os) 2 100 [[101; 116; 104; 48]] (replicate 2048 0) []) in
  output tr = concat (map packet [[10; 11; 12; 13; 14; 15]; [7; 8; 9]; [7; 8; 9]]) /\ effects tr = [Sent 3 [1; 2; 3]; Member PACKET_ADD_MEMBERSHIP 3 [1; 0; 94; 0; 0; 9]].
Proof.
  pose proof (frames_bridged (OS := sample_os) sample_requests 2 100 [101; 116; 104; 48] (replicate 2048 0)) as H.
  assert (exists b tr, main (OS := sample_os) 2 100 [[101; 116; 104; 48]] (replicate 2048 0) [] = (Val b, tr) /\
    frames tr = [[10; 11; 12; 13; 14; 15]; [7; 8; 9]; [7; 8; 9]] /\ inputs tr = 2%nat) as (b & tr & E & Ef & En)
    by (eexists _, _; split; [vm_compute; reflexivity|]; split; reflexivity).
  unfold wp in H. rewrite E in H |- *. cbn [snd]. destruct H as [Ho He]; [|by rewrite length_replicate|].
  - by repeat (apply Forall_cons; split; [unfold request_ok, CMD_WRITE, BUFSIZE, ETHADDR_SIZE; cbn; lia|]).
  - rewrite Ho, He, Ef, En. split; reflexivity.
Defined.
