(* ===== verification/EspCat.v ===== *)
(** A CGI program, [erl_cgi/c_src/esp_cat.c]: it sends its environment to a server in an Erlang node, then copies its input to the
    server and what the server answers to its output; and the server's side of the environment, [load_env] of [erl_cgi/src/erl_cgi_srv.erl].

    The operating system answers as a function of the calls made so far. What is printed to standard error is left out. *)
From stdpp Require Import gmap.
From S2P Require Import Prelude Erts Proc.
#[local] Open Scope Z_scope.

Definition DEFAULT_CGI_PORT : Z := 3344.
Definition ENV_DATA : Z := 1.
Definition ENV_END : Z := 0.
Inductive io :=
  | Socket (fd : Z) | Bind (rc : Z) | Connect (port rc : Z) | Read (fd : Z) (r : option bytes) | Write (fd : Z) (data : bytes) (n : Z)
  | Poll (events0 : bool) (k : Z) (in0 in1 : bool) | Shutdown (fd : Z) | Close (fd : Z) | Exit (code : Z).
Abbreviation trace := (list io).
Abbreviation E := (Prog io).
Class Os := {
  os_socket : trace -> Z;
  os_bind : trace -> Z;
  os_connect : trace -> Z;
  os_read : trace -> Z -> option bytes;   (* at most 2048 bytes *)
  os_write : trace -> Z -> bytes -> Z;
  os_poll : trace -> bool -> Z * (bool * bool);   (* whether POLLIN is asked for of descriptor 0; whether it is there *)
}.

(** * The program *)

Section Program.
Context `{OS : !Os}.
Definition exit_code {A} (code : Z) : E A := note (Exit code);;; exit.
Definition write (fd : Z) (data : bytes) : E Z := sys (fun tr => os_write tr fd data) (Write fd data).
Definition read_write (rfd wfd : Z) : E Z :=
  n ← sys (fun tr => os_read tr rfd) (Read rfd);
  match n with
  | None => mret (-1)
  | Some [] => mret 0
  | Some buffer => n ← write wfd buffer; if n <? 0 then mret (-1) else mret n
  end.
(** [strtol], then the conversion to [int]. *)
Fixpoint skip_space (s : bytes) : bytes :=
  match s with c :: s' => if (c =? 32) || ((9 <=? c) && (c <=? 13)) then skip_space s' else s | [] => [] end.
Definition atoi (s : bytes) : Z :=
  match skip_space s with
  | 45 :: s => int32 (Z.max (- numeral_value 0 s) (- 2 ^ 63))
  | 43 :: s => int32 (Z.min (numeral_value 0 s) (2 ^ 63 - 1))
  | s => int32 (Z.min (numeral_value 0 s) (2 ^ 63 - 1))
  end.
(** The results of these writes are not looked at. *)
Fixpoint send_env (fd : Z) (environ : list bytes) : E unit :=
  match environ with
  | [] => mret tt
  | e :: environ =>
      let hlen := int32 (int32 (Z.of_nat (length e)) + 1) in
      write fd (put_int32 hlen ++ [ENV_DATA]);;;
      write fd e;;;
      send_env fd environ
  end.
(** [while (1)], [turns] times; [events0] is whether the end of the input has not been seen. *)
Fixpoint loop (turns : nat) (fd : Z) (events0 : bool) : E bool :=
  match turns with
  | O => mret events0
  | S turns =>
      p ← sys (fun tr => os_poll tr events0) (fun p => Poll events0 p.1 p.2.1 p.2.2);
      if p.1 <? 0 then exit_code 1
      else
        events0 ← (if p.2.1 : bool then
                     n ← read_write 0 fd;
                     if n <? 0 then exit_code 1
                     else if n =? 0 then note (Shutdown fd);;; mret false
                     else mret events0
                   else mret events0);
        (if p.2.2 : bool then
           n ← read_write fd 1;
           if n <? 0 then exit_code 1
           else if n =? 0 then note (Close fd);;; exit_code 0
           else mret tt
         else mret tt);;;
        loop turns fd events0
  end.
(** [argv] is without the name of the program. *)
Definition main (turns : nat) (argv environ : list bytes) : E bool :=
  let sin_port := match argv with [p] => u16 (atoi p) | _ => DEFAULT_CGI_PORT end in
  fd ← sys os_socket Socket;
  if fd <? 0 then exit_code 1
  else
    rc ← sys os_bind Bind;
    if rc <? 0 then exit_code 1
    else
      rc ← sys os_connect (Connect sin_port);
      if rc <? 0 then exit_code 1
      else
        send_env fd environ;;;
        write fd [0; 0; 0; 1; ENV_END];;;
        loop turns fd true.
End Program.

(** * The server

    [load_env]: packets with four bytes of length, one by one, up to [ENV_END]. The result is the table and what follows; [None] while it waits, or
    when a packet is neither. *)
Definition split_env (kv : bytes) : bytes * bytes :=
  match list_find (fun c => c = 61) kv with
  | None => (kv, [])
  | Some (i, _) => (take i kv, drop (S i) kv)
  end.
Fixpoint load_env1 (fuel : nat) (tab : gmap (list Z) bytes) (s : bytes) : option (gmap (list Z) bytes * bytes) :=
  match fuel with
  | O => None
  | S fuel =>
      if (length s <? 4)%nat then None
      else
        let n := Z.to_nat (u32 (get_int32 s)) in
        let p := take n (drop 4 s) in
        let s := drop (4 + n) s in
        if (length p <? n)%nat then None
        else
          match p with
          | 1 :: kv => let '(key, val) := split_env kv in load_env1 fuel (<[key := val]> tab) s
          | [0] => Some (tab, s)
          | _ => None
          end
  end.
Definition load_env (s : bytes) : option (gmap (list Z) bytes * bytes) := load_env1 (length s) ∅ s.

(** * Streams *)

(** What is given to be written to a descriptor, what of it is written, and what is read. *)
Definition offered1 (fd : Z) (e : io) : bytes := match e with Write f data _ => if f =? fd then data else [] | _ => [] end.
Definition offered (fd : Z) (tr : trace) : bytes := concat (map (offered1 fd) tr).
Definition written1 (fd : Z) (e : io) : bytes := match e with Write f data n => if f =? fd then take (Z.to_nat n) data else [] | _ => [] end.
Definition written (fd : Z) (tr : trace) : bytes := concat (map (written1 fd) tr).
Definition received1 (fd : Z) (e : io) : bytes := match e with Read f (Some data) => if f =? fd then data else [] | _ => [] end.
Definition received (fd : Z) (tr : trace) : bytes := concat (map (received1 fd) tr).
Definition at_end1 (fd : Z) (e : io) : bool := match e with Read f (Some []) => f =? fd | _ => false end.
Definition at_end (fd : Z) (tr : trace) : bool := existsb (at_end1 fd) tr.
Definition shutdowns (tr : trace) : list Z := omap (fun e => match e with Shutdown fd => Some fd | _ => None end) tr.
(** A write that took all it was given. *)
Definition whole (e : io) : Prop := match e with Write _ data n => n = Z.of_nat (length data) | _ => True end.
Lemma written_offered fd tr : Forall whole tr -> written fd tr = offered fd tr.
Proof.
  unfold written, offered. induction 1 as [|e tr He _ IH]; [done|]. cbn [map concat]. rewrite IH. f_equal. destruct e; try done. cbn in *. subst. by rewrite Nat2Z.id, take_ge.
Qed.
Lemma offered_snoc fd tr e : offered fd (tr ++ [e]) = offered fd tr ++ offered1 fd e.
Proof. unfold offered. rewrite map_app, concat_app. cbn. by rewrite app_nil_r. Qed.
Lemma received_snoc fd tr e : received fd (tr ++ [e]) = received fd tr ++ received1 fd e.
Proof. unfold received. rewrite map_app, concat_app. cbn. by rewrite app_nil_r. Qed.
Lemma at_end_snoc fd tr e : at_end fd (tr ++ [e]) = at_end fd tr || at_end1 fd e.
Proof. unfold at_end. rewrite existsb_app. cbn. by rewrite orb_false_r. Qed.
Lemma shutdowns_snoc tr e : shutdowns (tr ++ [e]) = shutdowns tr ++ match e with Shutdown fd => [fd] | _ => [] end.
Proof. unfold shutdowns. rewrite omap_app. by destruct e. Qed.
Create Rewrite HintDb espcat.
#[export] Hint Rewrite offered_snoc received_snoc at_end_snoc shutdowns_snoc : espcat.
(** The environment as it is sent. *)
Definition env_packet (e : bytes) : bytes := put_int32 (Z.of_nat (length e) + 1) ++ ENV_DATA :: e.
Definition prelude (environ : list bytes) : bytes := concat (map env_packet environ) ++ [0; 0; 0; 1; ENV_END].
(** Descriptors: the socket is none of the standard ones. A write of something that does not fail takes something. Input is not
    reported when it is not asked for. *)
Class OsLaws (OS : Os) : Prop := {
  socket_law tr : os_socket tr < 0 \/ 2 < os_socket tr;
  write_law tr fd data : data <> [] -> os_write tr fd data <> 0;
  poll_law tr : (os_poll tr false).2.1 = false;
}.

Section Streams.
Context `{OS : !Os} `{OL : !OsLaws OS} (environ : list bytes).
(** Copied so far: [fd] is the socket; the end of the input is passed on once. What a short write does not take is lost. *)
Record copied (fd : Z) (tr : trace) : Prop := {
  to_server : offered fd tr = prelude environ ++ received 0 tr;
  to_output : offered 1 tr = received fd tr;
  end_passed : shutdowns tr = if at_end 0 tr then [fd] else [];
  all_written : Forall whole tr -> written fd tr = prelude environ ++ received 0 tr /\ written 1 tr = received fd tr;
}.
Lemma copied_intro fd tr : offered fd tr = prelude environ ++ received 0 tr -> offered 1 tr = received fd tr -> shutdowns tr = (if at_end 0 tr then [fd] else []) -> copied fd tr.
Proof. intros H1 H2 H3. split; [done..|]. intros Hw. by rewrite !written_offered. Qed.
(** The program has ended: with 0 after the end of the answer, with 1 after an error. *)
Definition ended (fd : Z) (tr : trace) : Prop := exists tr0, copied fd tr0 /\
  ((tr = tr0 ++ [Close fd; Exit 0] /\ at_end fd tr0 = true) \/ tr = tr0 ++ [Exit 1]).
Ltac look := autorewrite with espcat; cbn [offered1 received1 at_end1]; rewrite ?Z.eqb_refl, ?app_nil_r, ?orb_false_r, ?orb_true_r.
Lemma read_write_spec rfd wfd (Q : Z -> trace -> Prop) X tr :
  (forall tr', tr' = tr ++ [Read rfd None] -> Q (-1) tr') ->
  (forall tr', tr' = tr ++ [Read rfd (Some [])] -> Q 0 tr') ->
  (forall tr' d n, tr' = tr ++ [Read rfd (Some d); Write wfd d n] -> d <> [] -> n <> 0 -> Q (if n <? 0 then -1 else n) tr') ->
  wp (read_write rfd wfd) Q X tr.
Proof.
  intros H1 H2 H3. apply wp_bind, wp_sys. destruct (os_read tr rfd) as [[|c d]|]; [by apply wp_ret, H2| |by apply wp_ret, H1].
  apply wp_bind, wp_sys. set (n := os_write _ _ _). assert (n <> 0) as Hn by by apply write_law. rewrite <-app_assoc. specialize (H3 _ (c :: d) n eq_refl ltac:(done) Hn).
  destruct (n <? 0); apply wp_ret, H3.
Qed.
Lemma copied_error fd tr rfd : copied fd tr -> copied fd (tr ++ [Read rfd None]).
Proof. intros [H1 H2 H3 _]. by apply copied_intro; look. Qed.
Lemma exit_ended {A} fd tr (Q : A -> trace -> Prop) : copied fd tr -> wp (exit_code 1) Q (fun b tr' => b = false /\ ended fd tr') tr.
Proof. intros H. apply wp_bind, wp_note, wp_exit. split; [done|]. exists tr. split; [done|by right]. Qed.
Lemma input_spec fd ev tr : 2 < fd -> copied fd tr -> ev = negb (at_end 0 tr) -> ev = true ->
  wp (n ← read_write 0 fd; if n <? 0 then exit_code 1 else if n =? 0 then note (Shutdown fd);;; mret false else mret ev)
    (fun ev' tr' => copied fd tr' /\ ev' = negb (at_end 0 tr')) (fun b tr' => b = false /\ ended fd tr') tr.
Proof.
  intros Hfd Hc Hev ->. assert (at_end 0 tr = false) as He by by destruct (at_end 0 tr). pose proof Hc as [H1 H2 H3 _]. rewrite He in H3. apply wp_bind, read_write_spec.
  - intros tr' ->. by apply exit_ended, copied_error.
  - intros tr' ->. cbn [Z.ltb Z.eqb Z.compare]. apply wp_bind, wp_note, wp_ret. split; [|by look]. apply copied_intro; look; [done|by rewrite (proj2 (Z.eqb_neq 0 fd)), app_nil_r by lia|by rewrite H3].
  - intros tr' d n -> Hd Hn. destruct d as [|c d]; [done|].
    replace (tr ++ _) with ((tr ++ [Read 0 (Some (c :: d))]) ++ [Write fd (c :: d) n]) by by rewrite <-app_assoc. set (tr' := (tr ++ _) ++ _).
    assert (copied fd tr') as Hc'.
    { unfold tr'. apply copied_intro; look.
      - rewrite H1. by rewrite <-app_assoc.
      - rewrite (proj2 (Z.eqb_neq fd 1)), (proj2 (Z.eqb_neq 0 fd)), app_nil_r by lia. by rewrite app_nil_r, H2.
      - by rewrite H3, He. }
    destruct (Z.ltb_spec n 0); [by apply exit_ended|]. rewrite (proj2 (Z.ltb_ge _ _)), (proj2 (Z.eqb_neq _ _)) by lia. apply wp_ret. split; [done|]. unfold tr'. by look; rewrite He.
Qed.
Lemma answer_spec fd tr : 2 < fd -> copied fd tr ->
  wp (n ← read_write fd 1; if n <? 0 then exit_code 1 else if n =? 0 then note (Close fd);;; exit_code 0 else mret tt)
    (fun _ tr' => copied fd tr' /\ at_end 0 tr' = at_end 0 tr) (fun b tr' => b = false /\ ended fd tr') tr.
Proof.
  intros Hfd Hc. pose proof Hc as [H1 H2 H3 _]. apply wp_bind, read_write_spec.
  - intros tr' ->. by apply exit_ended, copied_error.
  - intros tr' ->. cbn [Z.ltb Z.eqb Z.compare]. apply wp_bind, wp_note, wp_bind, wp_note, wp_exit. split; [done|]. exists (tr ++ [Read fd (Some [])]). split; [|left; split; [by rewrite <-!app_assoc|by look]].
    apply copied_intro; look; [by destruct (fd =? 0); rewrite app_nil_r|by rewrite H2|]. rewrite (proj2 (Z.eqb_neq fd 0)) by lia. by rewrite orb_false_r.
  - intros tr' d n -> Hd Hn. destruct d as [|c d]; [done|].
    replace (tr ++ _) with ((tr ++ [Read fd (Some (c :: d))]) ++ [Write 1 (c :: d) n]) by by rewrite <-app_assoc. set (tr' := (tr ++ _) ++ _).
    assert (copied fd tr') as Hc'.
    { unfold tr'. apply copied_intro; look; [|by rewrite H2|done]. rewrite (proj2 (Z.eqb_neq 1 fd)), (proj2 (Z.eqb_neq fd 0)) by lia. by rewrite !app_nil_r. }
    destruct (Z.ltb_spec n 0); [by apply exit_ended|]. rewrite (proj2 (Z.ltb_ge _ _)), (proj2 (Z.eqb_neq _ _)) by lia. apply wp_ret. split; [done|]. unfold tr'. by look.
Qed.
Lemma loop_spec turns fd : forall ev tr, 2 < fd -> copied fd tr -> ev = negb (at_end 0 tr) ->
  wp (loop turns fd ev) (fun _ => copied fd) (fun b tr' => b = false /\ ended fd tr') tr.
Proof.
  induction turns as [|turns IH]; intros ev tr Hfd Hc Hev; cbn [loop]; [by apply wp_ret|]. apply wp_bind, wp_sys. pose proof (poll_law tr) as Hp.
  assert (ev = false -> (os_poll tr ev).2.1 = false) as Hev2 by by intros ->. clear Hp. destruct (os_poll tr ev) as [k [in0 in1]]. cbn [fst snd] in *. set (tr0 := tr ++ _).
  assert (copied fd tr0) as Hc0 by (destruct Hc as [H1 H2 H3 _]; by apply copied_intro; unfold tr0; look). assert (ev = negb (at_end 0 tr0)) as Hev0 by (unfold tr0; by look). clearbody tr0. clear Hc Hev tr.
  destruct (k <? 0); [by apply exit_ended|]. apply wp_bind, (wp_mono _ (fun ev' tr' => copied fd tr' /\ ev' = negb (at_end 0 tr')) _ (fun b tr' => b = false /\ ended fd tr')); [| |done].
  - destruct in0; [|by apply wp_ret]. apply input_spec; [done..|]. destruct ev; [done|]. by specialize (Hev2 eq_refl).
  - intros ev' tr1 [Hc1 Hev1]. apply wp_bind, (wp_mono _ (fun _ tr' => copied fd tr' /\ at_end 0 tr' = at_end 0 tr1) _ (fun b tr' => b = false /\ ended fd tr')); [| |done].
    + destruct in1; [by apply answer_spec|by apply wp_ret].
    + intros [] tr2 [Hc2 He2]. apply IH; [done..|by rewrite He2].
Qed.
(** ** The environment *)

Lemma send_env_spec fd env (Q : unit -> trace -> Prop) X : forall tr, Forall (fun e => Z.of_nat (length e) < 2 ^ 31 - 1) env ->
  (forall tr', offered fd tr' = offered fd tr ++ concat (map env_packet env) -> (forall f, f <> fd -> offered f tr' = offered f tr) -> (forall f, received f tr' = received f tr) ->
    (forall f, at_end f tr' = at_end f tr) -> shutdowns tr' = shutdowns tr -> Q tt tr') ->
  wp (send_env fd env) Q X tr.
Proof.
  induction env as [|e env IH]; intros tr Hl HQ; cbn [send_env]; [apply wp_ret, HQ; try done; cbn; by rewrite app_nil_r|]. apply Forall_cons in Hl as [He Hl].
  apply wp_bind, wp_sys. set (tr1 := tr ++ _). apply wp_bind, wp_sys. set (tr2 := tr1 ++ _). apply IH; [done|]. intros tr' Hw Ho Hr Hx Hs. apply HQ.
  - rewrite Hw. unfold tr2, tr1. look. cbn [map concat]. unfold env_packet at 2. rewrite <-!app_assoc. do 2 f_equal.
    rewrite (sint_small 32 (Z.of_nat (length e))) by lia. rewrite (sint_small 32) by lia. done.
  - intros f Hf. rewrite Ho by done. unfold tr2, tr1. look. by rewrite (proj2 (Z.eqb_neq fd f)), !app_nil_r by done.
  - intros f. rewrite Hr. unfold tr2, tr1. by look.
  - intros f. rewrite Hx. unfold tr2, tr1. by look.
  - rewrite Hs. unfold tr2, tr1. by look.
Qed.
End Streams.

(** C29: The program copies: whatever its environment and its input, what it gives to be written to the server is the environment and then all that was read from the input, what
    it gives to be written to the output is all that was read from the server, and the end of the input is passed on, once. What is given is what is written if no write is
    short or fails; what a short write does not take is lost. It ends with 0 after the end of the answer, with 1 when polling, reading or writing what was
    read fails, or when there is no connection, and then nothing was written. *)
Theorem cgi_copies `{OS : !Os} `{OL : !OsLaws OS} turns argv (environ : list bytes) :
  Forall (fun e => Z.of_nat (length e) < 2 ^ 31 - 1) environ ->
  wp (main turns argv environ) (fun _ tr => exists fd, copied environ fd tr)
    (fun out_of_fuel tr => out_of_fuel = false /\ ((exists fd, ended environ fd tr) \/ ((forall fd, offered fd tr = []) /\ last tr = Some (Exit 1)))) [].
Proof.
  intros Hl. unfold main. cbv zeta. generalize (match argv with [p] => u16 (atoi p) | _ => DEFAULT_CGI_PORT end). intros port.
  apply wp_bind, wp_sys. set (fd := os_socket []). pose proof (socket_law []) as Hfd. fold fd in Hfd.
  destruct (Z.ltb_spec fd 0); [apply wp_bind, wp_note, wp_exit; split; [done|by right]|].
  apply wp_bind, wp_sys. destruct (_ <? 0); [apply wp_bind, wp_note, wp_exit; split; [done|by right]|].
  apply wp_bind, wp_sys. destruct (_ <? 0); [apply wp_bind, wp_note, wp_exit; split; [done|by right]|].
  cbn [app]. set (tr0 := [_; _; _]). apply wp_bind, send_env_spec; [done|]. intros tr1 Hw Ho Hr Hx Hs. apply wp_bind, wp_sys. set (tr2 := tr1 ++ _).
  apply (wp_mono _ (fun _ => copied environ fd) _ (fun b tr => b = false /\ ended environ fd tr)); [|intros _ tr Hc; by exists fd|intros b tr [-> He]; split; [done|left; by exists fd]].
  assert (at_end 0 tr2 = false) as He by (unfold tr2; autorewrite with espcat; by rewrite Hx). apply loop_spec; [lia| |by rewrite He]. apply copied_intro.
  - unfold tr2. autorewrite with espcat. cbn [offered1 received1]. by rewrite Z.eqb_refl, Hw, Hr, app_nil_r.
  - unfold tr2. autorewrite with espcat. cbn [offered1 received1]. rewrite (proj2 (Z.eqb_neq fd 1)), Ho, Hr by lia. done.
  - rewrite He. unfold tr2. autorewrite with espcat. by rewrite Hs.
Qed.

(** * The environment *)

Definition table (environ : list bytes) (tab : gmap (list Z) bytes) : gmap (list Z) bytes :=
  fold_left (fun tab kv => <[(split_env kv).1 := (split_env kv).2]> tab) environ tab.
Lemma packet_4 (p rest : bytes) : Z.of_nat (length p) < 2 ^ 31 ->
  let s := put_int32 (Z.of_nat (length p)) ++ p ++ rest in
  u32 (get_int32 s) = Z.of_nat (length p) /\ take (length p) (drop 4 s) = p /\ drop (4 + length p) s = rest.
Proof.
  intros Hl s. split; [unfold s; rewrite get_put_int32, u32_int32; apply wrap_small; lia|]. change (drop 4 s) with (p ++ rest). split; [apply take_app_length|].
  change (drop (length p) (p ++ rest) = rest). apply drop_app_length.
Qed.
Lemma load_env1_packet fuel tab p rest : Z.of_nat (length p) < 2 ^ 31 ->
  load_env1 (S fuel) tab (put_int32 (Z.of_nat (length p)) ++ p ++ rest) =
    match p with 1 :: kv => load_env1 fuel (<[(split_env kv).1 := (split_env kv).2]> tab) rest | [0] => Some (tab, rest) | _ => None end.
Proof.
  intros Hl. destruct (packet_4 p rest Hl) as (E1 & E2 & E3). cbn [load_env1]. rewrite (proj2 (Nat.ltb_ge _ _)) by (rewrite length_app; cbn; lia).
  rewrite E1, Nat2Z.id, E2, E3, Nat.ltb_irrefl. destruct p as [|c p]; [done|]. by destruct (split_env p).
Qed.
(** The environment arrives: the server loads the packets that the program sends as the table of its variables, each with its value up to the end - of those of the same name the last -
    and what follows is left for the body of the request. *)
Theorem env_loaded (environ : list bytes) body : Forall (fun e => Z.of_nat (length e) < 2 ^ 31 - 1) environ ->
  load_env (prelude environ ++ body) = Some (table environ ∅, body).
Proof.
  intros Hl. unfold load_env. assert (length environ < length (prelude environ ++ body))%nat as Hf.
  { unfold prelude. rewrite !length_app. cbn [length]. assert (length environ <= length (concat (map env_packet environ)))%nat; [|lia].
    clear Hl. induction environ as [|e environ IH]; [done|]. cbn [map concat]. rewrite length_app. cbn. lia. }
  revert Hf. generalize (length (prelude environ ++ body)). intros fuel. unfold table. generalize (∅ : gmap (list Z) bytes). revert fuel.
  induction Hl as [|e environ He Hl IH]; intros fuel tab Hf; (destruct fuel as [|fuel]; [lia|]).
  - exact (load_env1_packet fuel tab [0] body ltac:(cbn; lia)).
  - unfold prelude in *. cbn [map concat]. unfold env_packet at 1. rewrite <-!app_assoc. cbn [length fold_left] in *.
    replace (Z.of_nat (length e) + 1) with (Z.of_nat (length (ENV_DATA :: e))) by (cbn; lia). rewrite load_env1_packet by (cbn; lia). cbn [ENV_DATA].
    rewrite app_assoc. apply IH. lia.
Qed.
Lemma env_loaded_witness : load_env (prelude [[65; 61; 49; 61]; [66]; [65; 61; 50]] ++ [7]) = Some (<[[65] := [50]]> (<[[66] := []]> (<[[65] := [49; 61]]> ∅)), [7]).
Proof. apply (env_loaded [[65; 61; 49; 61]; [66]; [65; 61; 50]] [7]). repeat constructor. Defined.

(** * A run

    The input is one byte; then the server answers with two. *)
Definition sample_os : Os := {|
  os_socket _ := 5; os_bind _ := 0; os_connect _ := 0;
  os_read tr fd := if negb (bool_decide (received fd tr = [])) then Some [] else if fd =? 0 then Some [113] else Some [104; 105];
  os_write _ _ data := Z.of_nat (length data);
  os_poll tr events0 := (1, (events0, at_end 0 tr));
|}.
#[export] Instance sample_laws : OsLaws sample_os.
Proof. split; [by right| |done]. intros tr fd data Hd. cbn. destruct data; [done|cbn; lia]. Qed.
Lemma cgi_copies_witness : exists fd tr, snd (main (OS := sample_os) 9 [[52; 50]] [[65; 61; 49]] []) = tr ++ [Close fd; Exit 0] /\ copied [[65; 61; 49]] fd tr.
Proof.
  pose proof (cgi_copies (OS := sample_os) 9 [[52; 50]] [[65; 61; 49]]) as H. unfold wp in H.
  destruct (main (OS := sample_os) 9 [[52; 50]] [[65; 61; 49]] []) as [r tr] eqn:E. cbn [snd].
  assert (exists tr0, (r, tr) = (Exited, tr0 ++ [Close 5; Exit 0])) as [tr0 E0].
  { exists (take (length tr - 2) tr). assert (tr = snd (main (OS := sample_os) 9 [[52; 50]] [[65; 61; 49]] [])) as -> by by rewrite E. rewrite <-E. by vm_compute. }
  injection E0 as -> ->. destruct H as [_ [(fd & tr1 & Hc & [[E1 _]|E1])|[_ H]]].
  - repeat constructor.
  - by exists fd, tr1.
  - change [Close 5; Exit 0] with ([Close 5] ++ [Exit 0]) in E1. rewrite app_assoc in E1. by apply app_inj_tail in E1 as [_ E1].
  - change [Close 5; Exit 0] with ([Close 5] ++ [Exit 0]) in H. by rewrite app_assoc, last_snoc in H.
Defined.
