(* ===== verification/EdtkIov.v ===== *)
(** The toolkit of the drivers that EDTK generates, [unixdom_drv/c_src/erl_driver_tk.h] and [erl_driver_tk.c]: reading the arguments of a command from the
    segments of an [ErlIOVec].

    [unsigned long], [size_t] and pointers have 32 bits here, as the macros take for granted: [EV_GET_UINT32] stores an [unsigned long] through a pointer to an
    [int].  The position is [p] in the segment [q]; [None] is a segment that is not there, which is read all the same. *)
From S2P Require Import Prelude Erts.
#[local] Open Scope Z_scope.

Abbreviation iovec := (list bytes).
Definition position : Type := Z * nat.
Definition iov_len (seg : bytes) : Z := Z.of_nat (length seg).
(** The macros [EV_GET_*]: [n] bytes are read when the segment has them; the position is in the next segment when they are its last. *)
Definition ev_next (seg : bytes) (p n : Z) (q : nat) : position := if p + n <? iov_len seg then (p + n, q) else (0, S q).
Definition ev_get (n : nat) (ev : iovec) (pos : position) : option (option bytes * position) :=
  let '(p, q) := pos in
  match ev !! q with
  | None => None
  | Some seg =>
      if p + Z.of_nat n <=? iov_len seg then Some (Some (slice (Z.to_nat p) n seg), ev_next seg p (Z.of_nat n) q)
      else Some (None, pos)
  end.
Definition EV_GET_CHAR (ev : iovec) (pos : position) : option (option Z * position) :=
  match ev_get 1 ev pos with
  | Some (b, pos) => Some (option_map (fun b => byte_at b 0) b, pos)
  | None => None
  end.
Definition EV_GET_UINT16 (ev : iovec) (pos : position) : option (option Z * position) :=
  match ev_get 2 ev pos with
  | Some (b, pos) => Some (option_map get_int16 b, pos)
  | None => None
  end.
Definition EV_GET_UINT32 (ev : iovec) (pos : position) : option (option Z * position) :=
  match ev_get 4 ev pos with
  | Some (b, pos) => Some (option_map (fun b => u32 (get_int32 b)) b, pos)
  | None => None
  end.
(** The memory from the position to the end of the segment, [None] for NULL. *)
Definition EV_GETPOS (ev : iovec) (pos : position) : option bytes :=
  let '(p, q) := pos in match ev !! q with Some seg => Some (drop (Z.to_nat p) seg) | None => None end.
(** [forward_pos], an [int], is compared with a [size_t]. [fuel] is the number of segments. *)
Fixpoint edtk_ev_forward_N (fuel : nat) (ev : iovec) (n : Z) (pos : position) (want_contiguous : bool) : Z * position :=
  let '(p, q) := pos in
  match ev !! q with
  | None => (-1, pos)
  | Some seg =>
      let forward_pos := p + n in
      if u32 forward_pos <? iov_len seg then (1, (forward_pos, q))
      else if u32 forward_pos =? iov_len seg then ((if (S q <? length ev)%nat then 1 else 0), (0, S q))
      else
        let n := n - (iov_len seg - p) in
        if (S q <? length ev)%nat && negb want_contiguous then
          match fuel with
          | O => (-1, (0, S q))
          | S fuel => edtk_ev_forward_N fuel ev n (0, S q) want_contiguous
          end
        else (-1, (0, S q))
  end.

(** * Fields

    A command is a list of fields; the emulator makes of it segments, none of which is empty and none of which begins within a field. *)
Inductive cut : list bytes -> iovec -> Prop :=
  | cut_nil : cut [] []
  | cut_segment g fs segs : g <> [] -> Forall (fun f => f <> []) g -> cut fs segs -> cut (g ++ fs) (concat g :: segs).
(** What is left of the fields from a position. *)
Inductive at_fields (ev : iovec) : position -> list bytes -> Prop :=
  | at_end : at_fields ev (0, length ev) []
  | at_field q pre g fs segs : g <> [] -> Forall (fun f => f <> []) g -> cut fs segs -> drop q ev = (pre ++ concat g) :: segs ->
      at_fields ev (Z.of_nat (length pre), q) (g ++ fs).
Lemma at_start hdr fs segs : cut fs segs -> at_fields (hdr :: segs) (0, 1%nat) fs.
Proof.
  intros [|g fs' segs' Hg Hn Hc]; [apply (at_end [hdr])|]. by apply (at_field _ 1 [] g fs' segs').
Qed.
(** A field is left behind. *)
Lemma at_next ev q pre f g fs segs : Forall (fun f => f <> []) (f :: g) -> cut fs segs -> drop q ev = (pre ++ concat (f :: g)) :: segs ->
  at_fields ev (ev_next (pre ++ concat (f :: g)) (Z.of_nat (length pre)) (Z.of_nat (length f)) q) (g ++ fs).
Proof.
  intros Hn Hc Hd. apply Forall_cons in Hn as [Hf Hn]. unfold ev_next, iov_len. cbn [concat] in *. rewrite !length_app in *.
  destruct g as [|f' g]; cbn [concat] in *.
  - rewrite (proj2 (Z.ltb_ge _ _)) by (cbn; lia). assert (drop (S q) ev = segs) as Hd' by (rewrite <-Nat.add_1_r, <-drop_drop, Hd; done). destruct Hc as [|g' fs' segs' Hg' Hn' Hc'].
    + assert (S q = length ev) as ->; [|apply at_end]. apply (f_equal length) in Hd, Hd'. rewrite length_drop in *. cbn in *. lia.
    + by apply (at_field _ (S q) [] g' fs' segs').
  - assert (0 < length f')%nat as H0 by (apply Forall_cons in Hn as [H _]; by destruct f'; [|cbn; lia]). cbn [concat]. rewrite !length_app.
    rewrite (proj2 (Z.ltb_lt _ _)) by lia. replace (Z.of_nat (length pre) + Z.of_nat (length f)) with (Z.of_nat (length (pre ++ f))) by (rewrite length_app; lia).
    apply (at_field _ q (pre ++ f) (f' :: g) fs segs); [done|done|done|]. by rewrite Hd, <-app_assoc.
Qed.
Lemma ev_get_field ev pos f fs : at_fields ev pos (f :: fs) -> exists pos', ev_get (length f) ev pos = Some (Some f, pos') /\ at_fields ev pos' fs.
Proof.
  intros Ha. inversion Ha as [|q pre g fs' segs Hg Hn Hc Hd]; subst. destruct g as [|f' g]; [done|]. injection H0 as -> <-.
  pose proof (at_next ev q pre f g fs' segs Hn Hc Hd) as Hnext. unfold ev_get.
  assert (ev !! q = Some (pre ++ concat (f :: g))) as -> by by rewrite <-(Nat.add_0_r q), <-lookup_drop, Hd. cbn [concat] in *.
  rewrite (proj2 (Z.leb_le _ _)) by (unfold iov_len; rewrite !length_app; lia). eexists. split; [|exact Hnext].
  unfold slice. by rewrite Nat2Z.id, drop_app_length, take_app_length.
Qed.
Lemma forward_field fuel ev pos f fs : at_fields ev pos (f :: fs) -> Forall (fun s => iov_len s < 2 ^ 32) ev ->
  exists r pos' rest, 0 <= r /\ edtk_ev_forward_N fuel ev (iov_len f) pos true = (r, pos') /\ at_fields ev pos' fs /\ EV_GETPOS ev pos = Some (f ++ rest).
Proof.
  intros Ha Hs. inversion Ha as [|q pre g fs' segs Hg Hn Hc Hd]; subst. destruct g as [|f' g]; [done|]. injection H0 as -> <-.
  pose proof (at_next ev q pre f g fs' segs Hn Hc Hd) as Hnext.
  assert (ev !! q = Some (pre ++ concat (f :: g))) as El by by rewrite <-(Nat.add_0_r q), <-lookup_drop, Hd.
  assert (iov_len (pre ++ concat (f :: g)) < 2 ^ 32) as Hl by (rewrite Forall_forall in Hs; apply Hs; by eapply list_elem_of_lookup_2).
  unfold EV_GETPOS. rewrite El. rewrite Nat2Z.id, drop_app_length. unfold iov_len in *. cbn [concat] in *.
  destruct fuel; cbn [edtk_ev_forward_N]; rewrite El; unfold iov_len in *; rewrite !length_app in *; unfold ev_next, iov_len in Hnext; rewrite !length_app in Hnext.
  all: rewrite wrap_small by lia; destruct (Z.ltb_spec (Z.of_nat (length pre) + Z.of_nat (length f)) (Z.of_nat (length pre + (length f + length (concat g)))));
    [by exists 1, (Z.of_nat (length pre) + Z.of_nat (length f), q), (concat g)|].
  all: rewrite (proj2 (Z.eqb_eq _ _)) by lia; eexists _, _, _; split_and!; [|reflexivity|exact Hnext|reflexivity]; by destruct (_ <? _)%nat.
Qed.
