(* ===== verification/EdtkUnixdom.v ===== *)
(** A driver that EDTK generated: [unixdom_drv/c_src/unixdom_drv.c], and the functions it calls, [my-unixdom.c].  A command comes in the segments of
    an [ErlIOVec] ([EdtkIov]); it is carried out at once, since [default_async_calls] is 0 and never set, and answered by a message.  Descriptors
    are named by their index in a table of 32.

    The operating system and the emulator answer as a function of the calls made. [Fault] is what C leaves undefined; what is not initialised is an answer, too.
    [unsigned long] has 32 bits.  Debug prints are left out. *)
From stdpp Require Import strings.
From S2P Require Import Prelude ErlTerm Erts EdtkIov.
#[local] Open Scope Z_scope.

Definition S1_DEBUG := 0.
Definition S1_NULL := 1.
Definition S1_OPEN := 2.
Definition S1_GETFD := 3.
Definition S1_SENDFD := 4.
Definition S1_RECEIVEFD := 5.
Definition S1_CLOSE := 6.
Definition S1_WRITE := 7.
Definition S1_READ := 8.
(** [errno.h]. *)
Definition ENOMEM := 12.
Definition EEXIST := 17.
Definition EINVAL := 22.
(** [sizeof(sin.sun_path)]. *)
Definition SUN_PATH : Z := 108.
(** A block that [edtk_driver_alloc_wrapper] returns: a binary, and its memory. *)
Record binary := Binary { bin_id : Z; bin_mem : bytes }.
Record callstate := Callstate {
  cmd : Z;
  i_valmap_fd_index : Z; i_stash0 : Z; i_filename : option bytes; i_flags : Z; i_fd : Z; i_unixdom_fd : Z; i_fd_to_be_sent : Z;
  i_ptr : option bytes; i_bin : binary; i_size : Z;
  o_expect : Z; o_expect_errval : Z; o_ret_int : Z; o_ret_int_t : Z; o_ret_ssize_t : Z;
}.
Inductive io :=
  | Alloc | Free | AllocBinary (id : Z) | FreeBinary (id : Z) | Output (port : Z) (t : spec)
  | Puts | Stat (path : bytes) (found : bool) | Socket (fd : Z) | Bind (fd : Z) (path : bytes) (rc : Z) | Connect (fd : Z) (path : bytes) (rc : Z)
  | Sendmsg (fd wfd rc : Z) | Recvmsg (fd rc rfd : Z) | Close (fd rc : Z) | Write (fd : Z) (data : bytes) (n : Z) | Read (fd size : Z) (data : bytes) (n : Z)
  | FreeDesc | Fault.
Abbreviation trace := (list io).
Class Os := {
  sys_alloc : trace -> option callstate;
  driver_alloc_binary : trace -> Z -> option binary;
  junk_cmd : trace -> Z;
  junk_index : trace -> Z;
  junk_binlen : trace -> Z;
  outside : trace -> Z -> Z;   (* the memory beside [valmap_fd] *)
  os_stat : trace -> bytes -> bool;
  os_socket : trace -> Z;
  os_bind : trace -> Z -> bytes -> Z;
  os_connect : trace -> Z -> bytes -> Z;
  os_sendmsg : trace -> Z -> Z -> Z;
  os_recvmsg : trace -> Z -> Z * option Z;   (* the descriptor in the control message *)
  os_close : trace -> Z -> Z;
  os_write : trace -> Z -> bytes -> Z;
  os_read : trace -> Z -> Z -> Z * bytes;
  errno : trace -> Z;
}.
(** A port: [valmap_fd], and the calls made. [edtk_debug_flag] is the driver's. *)
Record world := World { port : Z; valmap_fd : list Z; edtk_debug_flag : Z; calls : trace }.

Section Driver.
Context `{OS : !Os}.
Abbreviation D := (M world).
Definition act (e : io) : D unit := modify (fun w => World (port w) (valmap_fd w) (edtk_debug_flag w) (calls w ++ [e])).
Definition ask {A} (f : trace -> A) : D A := gets (fun w => f (calls w)).
Definition set_valmap (i : nat) (fd : Z) : D unit :=
  modify (fun w => World (port w) (<[i := fd]> (valmap_fd w)) (edtk_debug_flag w) (calls w)).
Definition set_debug (f : Z) : D unit := modify (fun w => World (port w) (valmap_fd w) f (calls w)).
(** An element of [valmap_fd]; an index that is out of bounds reads, and writes, what is beside it. *)
Definition in_table (index : Z) : bool := (0 <=? index) && (index <? 32).
Definition get_valmap (index : Z) : D Z :=
  w ← get;
  if in_table index then mret (nth (Z.to_nat index) (valmap_fd w) 0)
  else act Fault;;; ask (fun tr => outside tr index).
Definition put_valmap (index fd : Z) : D unit := if in_table index then set_valmap (Z.to_nat index) fd else act Fault.

(** * Answers *)

Definition output_term (msg : spec) : D unit := w ← get; act (Output (port w) msg).
Definition msg_port : D spec := w ← get; mret (LOAD_PORT [] (port w)).
Definition reply_ok : D unit := msg ← msg_port; output_term (LOAD_TUPLE (LOAD_ATOM msg "ok") 2).
(** [num] is unsigned; a term is signed. *)
Definition reply_ok_num (num : Z) : D unit := msg ← msg_port; output_term (LOAD_TUPLE (LOAD_INT (LOAD_ATOM msg "ok") (int32 num)) 3).
Definition reply_ok_valmap (valmap_atom : string) (valmap_index : Z) : D unit :=
  msg ← msg_port; output_term (LOAD_TUPLE (LOAD_TUPLE (LOAD_INT (LOAD_ATOM (LOAD_ATOM msg "ok") valmap_atom) valmap_index) 2) 3).
Definition reply_error (errnum : Z) : D unit := msg ← msg_port; output_term (LOAD_TUPLE (LOAD_INT (LOAD_ATOM msg "error") errnum) 3).
Definition reply_error_atom (atom : string) : D unit := msg ← msg_port; output_term (LOAD_TUPLE (LOAD_ATOM (LOAD_ATOM msg "error") atom) 3).
Definition reply_xtra_1_ptr_ssize_t (c : callstate) : D unit :=
  msg ← msg_port;
  if negb (o_expect c =? 0) then
    output_term (LOAD_TUPLE (LOAD_TUPLE (LOAD_BINARY (LOAD_ATOM msg "ok") (bin_mem (i_bin c)) 0 (u32 (o_ret_ssize_t c))) 1) 3);;;
    act (FreeBinary (bin_id (i_bin c)))
  else output_term (LOAD_TUPLE (LOAD_TUPLE (LOAD_ATOM msg "error") 0) 3).

(** * The table *)

Fixpoint find_unused (l : list Z) (i : nat) : option nat :=
  match l with [] => None | fd :: l => if fd =? -1 then Some i else find_unused l (S i) end.
Definition find_unused_fd_index : D (option nat) := gets (fun w => find_unused (valmap_fd w) 0).
Definition close_fd (fd : Z) : D Z := rc ← ask (fun tr => os_close tr fd); act (Close fd rc);;; mret rc.
Definition cleanup_valmap_fd_index (i : Z) (do_cleanup_func : bool) : D unit :=
  (if do_cleanup_func then fd ← get_valmap i; close_fd fd;;; skip else skip);;;
  put_valmap i (-1).

(** * [my-unixdom.c] *)

(** The result, and [errno]. *)
Definition my_open (path : bytes) (is_server : Z) : D (Z * Z) :=
  found ← (if negb (is_server =? 0) then found ← ask (fun tr => os_stat tr path); act (Stat path found);;; mret found else mret false);
  if (found : bool) then mret (-1, EEXIST)
  else
    s ← ask os_socket;
    act (Socket s);;;
    e ← ask errno;
    if s <? 0 then mret (-1, e)
    else
      (when SUN_PATH <=? Z.of_nat (length path) do act Fault);;;
      res ← (if negb (is_server =? 0) then rc ← ask (fun tr => os_bind tr s path); act (Bind s path rc);;; mret rc
             else rc ← ask (fun tr => os_connect tr s path); act (Connect s path rc);;; mret rc);
      e ← ask errno;
      if res <? 0 then mret (-1, e) else mret (s, e).
Definition my_getfd (fd : Z) : Z := fd.
Definition writefd (fd wfd : Z) : D Z := rc ← ask (fun tr => os_sendmsg tr fd wfd); act (Sendmsg fd wfd rc);;; mret rc.
Definition my_sendfd (fd wfd : Z) : D Z := rc ← writefd fd wfd; mret (if 0 <=? rc then 0 else -1).
(** The result, and the descriptor: -1 if none came. *)
Definition readfd (fd : Z) : D (Z * Z) :=
  r ← ask (fun tr => os_recvmsg tr fd);
  let rfd := default (-1) r.2 in
  act (Recvmsg fd r.1 rfd);;;
  mret (r.1, rfd).
Definition my_receivefd (fd : Z) : D Z := r ← readfd fd; mret (if r.1 <? 0 then -1 else r.2).

(** * Carrying out *)

(** [invoke_s1_*]: the call state with its results. *)
Definition with_int (c : callstate) (ret expect errval : Z) : callstate :=
  Callstate (cmd c) (i_valmap_fd_index c) (i_stash0 c) (i_filename c) (i_flags c) (i_fd c) (i_unixdom_fd c) (i_fd_to_be_sent c) (i_ptr c) (i_bin c) (i_size c)
    expect errval ret (o_ret_int_t c) (o_ret_ssize_t c).
Definition with_int_t (c : callstate) (ret expect errval : Z) : callstate :=
  Callstate (cmd c) (i_valmap_fd_index c) (i_stash0 c) (i_filename c) (i_flags c) (i_fd c) (i_unixdom_fd c) (i_fd_to_be_sent c) (i_ptr c) (i_bin c) (i_size c)
    expect errval (o_ret_int c) ret (o_ret_ssize_t c).
Definition with_ssize (c : callstate) (b : binary) (ret : Z) : callstate :=
  Callstate (cmd c) (i_valmap_fd_index c) (i_stash0 c) (i_filename c) (i_flags c) (i_fd c) (i_unixdom_fd c) (i_fd_to_be_sent c) (i_ptr c) b (i_size c)
    (o_expect c) (o_expect_errval c) (o_ret_int c) (o_ret_int_t c) ret.
(** [errval] is set only when the expectation is not met. *)
Definition expect (c : callstate) (ok : bool) (e : Z) : Z * Z := if ok then (1, o_expect_errval c) else (0, e).
Definition invoke_s1_null (c : callstate) : D callstate := act Puts;;; mret c.
(** [filename] may not be terminated. *)
Definition invoke_s1_open (c : callstate) : D callstate :=
  (when negb (existsb (Z.eqb 0) (default [] (i_filename c))) do act Fault);;;
  r ← my_open (c_str (default [] (i_filename c))) (i_flags c);
  let x := expect c (0 <=? r.1) r.2 in
  mret (with_int c r.1 x.1 x.2).
Definition invoke_s1_getfd (c : callstate) : D callstate := mret (with_int c (my_getfd (i_fd c)) (o_expect c) (o_expect_errval c)).
Definition invoke_s1_sendfd (c : callstate) : D callstate :=
  r ← my_sendfd (i_unixdom_fd c) (i_fd_to_be_sent c);
  e ← ask errno;
  let x := expect c (r =? 0) e in
  mret (with_int_t c r x.1 x.2).
Definition invoke_s1_receivefd (c : callstate) : D callstate :=
  r ← my_receivefd (i_unixdom_fd c);
  e ← ask errno;
  let x := expect c (0 <=? r) e in
  mret (with_int_t c r x.1 x.2).
Definition invoke_s1_close (c : callstate) : D callstate :=
  r ← close_fd (i_fd c);
  e ← ask errno;
  let x := expect c (r =? 0) e in
  mret (with_int c r x.1 x.2).
(** [ptr] may have fewer bytes than are written. *)
Definition invoke_s1_write (c : callstate) : D callstate :=
  let mem := default [] (i_ptr c) in
  (when Z.of_nat (length mem) <? i_stash0 c do act Fault);;;
  let data := take (Z.to_nat (i_stash0 c)) mem in
  n ← ask (fun tr => os_write tr (i_fd c) data);
  act (Write (i_fd c) data n);;;
  mret (with_ssize c (i_bin c) n).
Definition invoke_s1_read (c : callstate) : D callstate :=
  r ← ask (fun tr => os_read tr (i_fd c) (i_size c));
  act (Read (i_fd c) (i_size c) r.2 r.1);;;
  let b := i_bin c in
  mret (with_ssize c (if r.1 <? 0 then b else Binary (bin_id b) (memcpy_at (bin_mem b) 0 r.2)) r.1).

Definition s1_ready_async (c : callstate) : D unit :=
  (if cmd c =? S1_NULL then reply_ok
   else if cmd c =? S1_OPEN then
     if o_expect c =? 0 then reply_error (o_expect_errval c)
     else
       index ← find_unused_fd_index;
       match index with
       | None => reply_error ENOMEM
       | Some index => set_valmap index (o_ret_int c);;; reply_ok_valmap "valmap_fd" (Z.of_nat index)
       end
   else if cmd c =? S1_GETFD then reply_ok_num (o_ret_int c)
   else if (cmd c =? S1_SENDFD) || (cmd c =? S1_RECEIVEFD) then
     if negb (o_expect c =? 0) then reply_ok_num (o_ret_int_t c) else reply_error (o_expect_errval c)
   else if cmd c =? S1_CLOSE then
     if o_expect c =? 0 then reply_error (o_expect_errval c)
     else cleanup_valmap_fd_index (i_valmap_fd_index c) false;;; reply_ok_num (o_ret_int c)
   else if cmd c =? S1_WRITE then reply_ok_num (o_ret_ssize_t c)
   else if cmd c =? S1_READ then reply_xtra_1_ptr_ssize_t c
   else skip);;;
  act Free.

(** * Commands *)

(** [EV_GET_*]: [junk] is what the variable holds when there are not enough bytes. *)
Definition ev_uint32 (ev : iovec) (pos : position) (junk : Z) : D (Z * position) :=
  match EV_GET_UINT32 ev pos with
  | None => act Fault;;; mret (junk, pos)
  | Some (v, pos) => mret (default junk v, pos)
  end.
(** The descriptor of an index; [None] for [goto error]. *)
Definition ev_valmap (ev : iovec) (pos : position) : D (option (Z * Z * position)) :=
  junk ← ask junk_index;
  r ← ev_uint32 ev pos junk;
  let index := int32 r.1 in
  fd ← get_valmap index;
  if fd =? -1 then mret None else mret (Some (index, fd, r.2)).
(** The bytes of an argument that must be contiguous: its length and the memory; [None] for [goto error]. *)
Definition ev_contiguous (ev : iovec) (pos : position) : D (option (Z * option bytes * position)) :=
  junk ← ask junk_binlen;
  r ← ev_uint32 ev pos junk;
  let f := edtk_ev_forward_N (length ev) ev (int32 r.1) r.2 true in
  if f.1 <? 0 then mret None else mret (Some (r.1, EV_GETPOS ev r.2, f.2)).
(** The call state with the arguments and the function to invoke; [None] for [goto error]. *)
Definition decode (ev : iovec) (pos : position) (cmd : Z) (c : callstate) : D (option (callstate * (callstate -> D callstate))) :=
  let args index stash filename flags fd ufd sent ptr bin size :=
    Callstate cmd index stash filename flags fd ufd sent ptr bin size 1 (o_expect_errval c) (o_ret_int c) (o_ret_int_t c) (o_ret_ssize_t c) in
  if cmd =? S1_NULL then
    mret (Some (args (i_valmap_fd_index c) (i_stash0 c) (i_filename c) (i_flags c) (i_fd c) (i_unixdom_fd c) (i_fd_to_be_sent c) (i_ptr c) (i_bin c) (i_size c), invoke_s1_null))
  else if cmd =? S1_OPEN then
    f ← ev_contiguous ev pos;
    match f with
    | None => mret None
    | Some (_, filename, pos) =>
        flags ← ev_uint32 ev pos (i_flags c);
        mret (Some (args (i_valmap_fd_index c) (i_stash0 c) filename (int32 flags.1) (i_fd c) (i_unixdom_fd c) (i_fd_to_be_sent c) (i_ptr c) (i_bin c) (i_size c), invoke_s1_open))
    end
  else if (cmd =? S1_GETFD) || (cmd =? S1_CLOSE) then
    v ← ev_valmap ev pos;
    match v with
    | None => mret None
    | Some (index, fd, _) =>
        mret (Some (args index (i_stash0 c) (i_filename c) (i_flags c) fd (i_unixdom_fd c) (i_fd_to_be_sent c) (i_ptr c) (i_bin c) (i_size c),
          if cmd =? S1_GETFD then invoke_s1_getfd else invoke_s1_close))
    end
  else if cmd =? S1_SENDFD then
    ufd ← ev_uint32 ev pos (i_unixdom_fd c);
    sent ← ev_uint32 ev ufd.2 (i_fd_to_be_sent c);
    mret (Some (args (i_valmap_fd_index c) (i_stash0 c) (i_filename c) (i_flags c) (i_fd c) (int32 ufd.1) (int32 sent.1) (i_ptr c) (i_bin c) (i_size c), invoke_s1_sendfd))
  else if cmd =? S1_RECEIVEFD then
    ufd ← ev_uint32 ev pos (i_unixdom_fd c);
    mret (Some (args (i_valmap_fd_index c) (i_stash0 c) (i_filename c) (i_flags c) (i_fd c) (int32 ufd.1) (i_fd_to_be_sent c) (i_ptr c) (i_bin c) (i_size c), invoke_s1_receivefd))
  else if cmd =? S1_WRITE then
    v ← ev_valmap ev pos;
    match v with
    | None => mret None
    | Some (index, fd, pos) =>
        f ← ev_contiguous ev pos;
        match f with
        | None => mret None
        | Some (binlen, ptr, _) =>
            mret (Some (args index binlen (i_filename c) (i_flags c) fd (i_unixdom_fd c) (i_fd_to_be_sent c) ptr (i_bin c) (i_size c), invoke_s1_write))
        end
    end
  else if cmd =? S1_READ then
    v ← ev_valmap ev pos;
    match v with
    | None => mret None
    | Some (index, fd, pos) =>
        size ← ev_uint32 ev pos (i_size c);
        b ← ask (fun tr => driver_alloc_binary tr size.1);
        match b with
        | None => mret None
        | Some b =>
            act (AllocBinary (bin_id b));;;
            mret (Some (args index (i_stash0 c) (i_filename c) (i_flags c) fd (i_unixdom_fd c) (i_fd_to_be_sent c) (i_ptr c) b size.1, invoke_s1_read))
        end
    end
  else mret None.
Definition s1_outputv (ev : iovec) : D unit :=
  if Z.of_nat (length (concat ev)) <? 1 then skip
  else
    junk ← ask junk_cmd;
    r ← match EV_GET_CHAR ev (0, 1%nat) with
        | None => act Fault;;; mret (junk, (0, 1%nat))
        | Some (None, pos) => reply_error EINVAL;;; mret (junk, pos)
        | Some (Some cmd, pos) => mret (cmd, pos)
        end;
    c ← ask sys_alloc;
    match c with
    | None => reply_error ENOMEM
    | Some c =>
        act Alloc;;;
        if r.1 =? S1_DEBUG then
          w ← get;
          f ← ev_uint32 ev r.2 (edtk_debug_flag w);
          set_debug (int32 f.1);;;
          reply_ok_num (int32 f.1);;;
          act Free
        else
          d ← decode ev r.2 r.1 c;
          match d with
          | None => act Free;;; reply_error_atom "badarg"
          | Some (c, invoke) => c ← invoke c; s1_ready_async c
          end
    end.

(** * Ports *)

(** The block of the port, of which the fields that are used are set. *)
Definition s1_start (p : Z) (flag : Z) (tr : trace) : world := World p (replicate 32 (-1)) flag tr.
Fixpoint close_all (n : nat) (i : Z) : D unit :=
  match n with
  | O => skip
  | S n =>
      fd ← get_valmap i;
      (when negb (fd =? -1) do cleanup_valmap_fd_index i true);;;
      close_all n (i + 1)
  end.
(** [still_in_use] is 0. *)
Definition s1_stop : D unit := close_all 32 0;;; act FreeDesc.
End Driver.
