(* ===== verification/EdtkCommands.v ===== *)
(** Commands of the EDTK driver, from the functions of [unixdom_drv/src/unixdom_drv.erl] to what is done: however the emulator cuts a command into segments, the
    driver does what the command says, and nothing depends on what was not initialised. *)
From stdpp Require Import strings.
From S2P Require Import Prelude ErlTerm Erts EdtkIov EdtkUnixdom.
#[local] Open Scope Z_scope.

(** * What a command says *)

Inductive request :=
  | Debug (flags : Z) | Null | Open (filename : bytes) (flags : Z) | Getfd (index : Z) | Sendfd (unixdom_fd fd_to_be_sent : Z) | Receivefd (unixdom_fd : Z)
  | CloseFd (index : Z) | WriteFd (index : Z) (data : bytes) | ReadFd (index size : Z).
(** The fields of the I/O list. *)
Definition serialize (r : request) : list bytes :=
  match r with
  | Debug flags => [[S1_DEBUG]; put_int32 flags]
  | Null => [[S1_NULL]]
  | Open filename flags => [[S1_OPEN]; put_int32 (Z.of_nat (length (filename ++ [0]))); filename ++ [0]; put_int32 flags]
  | Getfd index => [[S1_GETFD]; put_int32 index]
  | Sendfd u f => [[S1_SENDFD]; put_int32 u; put_int32 f]
  | Receivefd u => [[S1_RECEIVEFD]; put_int32 u]
  | CloseFd index => [[S1_CLOSE]; put_int32 index]
  | WriteFd index data => [[S1_WRITE]; put_int32 index; put_int32 (Z.of_nat (length data)); data]
  | ReadFd index size => [[S1_READ]; put_int32 index; put_int32 size]
  end.
(** Arguments in range; a file name has no zero in it. An empty binary cannot be written: it is no field. *)
Definition int_arg (z : Z) : Prop := - 2 ^ 31 <= z < 2 ^ 31.
Definition index_arg (z : Z) : Prop := 0 <= z < 32.
Definition request_ok (r : request) : Prop :=
  match r with
  | Debug flags => int_arg flags
  | Null => True
  | Open filename flags => int_arg flags /\ Forall (fun b => b <> 0) filename /\ Z.of_nat (length filename) < 2 ^ 31 - 1
  | Getfd index | CloseFd index => index_arg index
  | Sendfd u f => int_arg u /\ int_arg f
  | Receivefd u => int_arg u
  | WriteFd index data => index_arg index /\ data <> [] /\ Z.of_nat (length data) < 2 ^ 31
  | ReadFd index size => index_arg index /\ 0 <= size < 2 ^ 31
  end.

Section Perform.
Context `{OS : !Os}.
Abbreviation D := (M world).
Definition badarg : D unit := act Free;;; reply_error_atom "badarg".
Definition answered (m : D unit) : D unit := m;;; act Free.
(** With the descriptor of an index. *)
Definition with_fd (index : Z) (f : Z -> D unit) : D unit :=
  fd ← gets (fun w => nth (Z.to_nat index) (valmap_fd w) 0);
  if fd =? -1 then badarg else f fd.
(** The result, or [errno]. *)
Definition result (ok : Z -> bool) (r : Z) : D unit :=
  e ← ask errno; answered (if ok r then reply_ok_num r else reply_error e).
Definition carry_out (r : request) : D unit :=
  match r with
  | Debug flags => set_debug flags;;; reply_ok_num flags;;; act Free
  | Null => act Puts;;; answered reply_ok
  | Open filename flags =>
      r ← my_open filename flags;
      answered (
        if r.1 <? 0 then reply_error r.2
        else
          index ← find_unused_fd_index;
          match index with
          | None => reply_error ENOMEM
          | Some index => set_valmap index r.1;;; reply_ok_valmap "valmap_fd" (Z.of_nat index)
          end)
  | Getfd index => with_fd index (fun fd => answered (reply_ok_num fd))
  | Sendfd u f => r ← my_sendfd u f; result (Z.eqb 0) r
  | Receivefd u => r ← my_receivefd u; result (Z.leb 0) r
  | CloseFd index => with_fd index (fun fd =>
      r ← close_fd fd;
      e ← ask errno;
      answered (if r =? 0 then set_valmap (Z.to_nat index) (-1);;; reply_ok_num r else reply_error e))
  | WriteFd index data => with_fd index (fun fd =>
      n ← ask (fun tr => os_write tr fd data);
      act (Write fd data n);;;
      answered (reply_ok_num n))
  | ReadFd index size => with_fd index (fun fd =>
      b ← ask (fun tr => driver_alloc_binary tr size);
      match b with
      | None => badarg
      | Some b =>
          act (AllocBinary (bin_id b));;;
          r ← ask (fun tr => os_read tr fd size);
          act (Read fd size r.2 r.1);;;
          msg ← msg_port;
          let mem := if r.1 <? 0 then bin_mem b else memcpy_at (bin_mem b) 0 r.2 in
          answered (output_term (LOAD_TUPLE (LOAD_TUPLE (LOAD_BINARY (LOAD_ATOM msg "ok") mem 0 (u32 r.1)) 1) 3);;; act (FreeBinary (bin_id b)))
      end)
  end.
Definition perform (r : request) : D unit :=
  c ← ask sys_alloc;
  match c with None => reply_error ENOMEM | Some _ => act Alloc;;; carry_out r end.
End Perform.

(** * Decoding *)

Section Decode.
Context `{OS : !Os}.
Abbreviation D := (M world).
Implicit Types (w : world).
Lemma get_field ev pos v fs w junk : at_fields ev pos (put_int32 v :: fs) -> exists pos', at_fields ev pos' fs /\ ev_uint32 ev pos junk w = ((u32 v, pos'), w).
Proof.
  intros Ha. destruct (ev_get_field ev pos _ fs Ha) as (pos' & E & Ha'). exists pos'. split; [done|]. unfold ev_uint32, EV_GET_UINT32.
  change 4%nat with (length (put_int32 v)). rewrite E. cbn [option_map default]. rewrite <-(app_nil_r (put_int32 v)), get_put_int32, u32_int32. done.
Qed.
Lemma int32_u32 v : int_arg v -> int32 (u32 v) = v.
Proof. intros Hv. rewrite sint_add_wrap by lia. apply sint_small; [lia|]. exact Hv. Qed.
Lemma in_table_index i : 0 <= i < 32 -> in_table i = true.
Proof. unfold in_table. lia. Qed.
Lemma get_index ev pos i fs w : index_arg i -> at_fields ev pos (put_int32 i :: fs) -> exists pos', at_fields ev pos' fs /\
  ev_valmap ev pos w = (let fd := nth (Z.to_nat i) (valmap_fd w) 0 in if fd =? -1 then None else Some (i, fd, pos'), w).
Proof.
  intros Hi Ha. destruct (get_field ev pos i fs w (junk_index (calls w)) Ha) as (pos' & Ha' & E). exists pos'. split; [done|].
  unfold ev_valmap. rewrite (bind_eq (ask junk_index) _ w (junk_index (calls w)) w), (bind_eq _ _ _ _ _ E) by reflexivity. cbn [fst snd]. unfold index_arg in *.
  rewrite int32_u32 by (unfold int_arg; lia). unfold get_valmap. cbv zeta. rewrite in_table_index by lia. run.
  by destruct (_ =? -1).
Qed.
Lemma get_contiguous ev pos d fs w : d <> [] -> Z.of_nat (length d) < 2 ^ 31 -> Forall (fun s => iov_len s < 2 ^ 32) ev ->
  at_fields ev pos (put_int32 (Z.of_nat (length d)) :: d :: fs) -> exists pos' rest, at_fields ev pos' fs /\
  ev_contiguous ev pos w = (Some (Z.of_nat (length d), Some (d ++ rest), pos'), w).
Proof.
  intros Hd Hl Hs Ha. destruct (get_field ev pos _ _ w (junk_binlen (calls w)) Ha) as (pos1 & Ha1 & E).
  destruct (forward_field (length ev) ev pos1 d fs Ha1 Hs) as (r & pos2 & rest & Hr & Ef & Ha2 & Eg). exists pos2, rest. split; [done|].
  unfold ev_contiguous. rewrite (bind_eq (ask junk_binlen) _ w (junk_binlen (calls w)) w), (bind_eq _ _ _ _ _ E) by reflexivity. cbn [fst snd].
  rewrite int32_u32 by (unfold int_arg; lia). unfold iov_len in Ef. rewrite Ef, Eg. cbn [fst snd]. rewrite (proj2 (Z.ltb_ge r 0)) by lia. by rewrite wrap_small by lia.
Qed.
(** What follows the command, after the call state is allocated. *)
Definition finish (ev : iovec) (pos : position) (cmd : Z) (c : callstate) : D unit :=
  d ← decode ev pos cmd c;
  match d with
  | None => act Free;;; reply_error_atom "badarg"
  | Some (c, invoke) => c ← invoke c; s1_ready_async c
  end.
Definition code (r : request) : Z := byte_at (hd [] (serialize r)) 0.
Lemma c_str_filename filename rest : Forall (fun b => b <> 0) filename -> c_str ((filename ++ [0]) ++ rest) = filename.
Proof. induction 1 as [|b filename Hb _ IH]; [done|]. cbn. by rewrite (proj2 (Z.eqb_neq b 0)), IH. Qed.
Lemma terminated filename rest : existsb (Z.eqb 0) ((filename ++ [0]) ++ rest) = true.
Proof. rewrite !existsb_app. cbn. by rewrite orb_true_r. Qed.
Lemma finish_open ev pos c filename flags w : request_ok (Open filename flags) -> Forall (fun s => iov_len s < 2 ^ 32) ev ->
  at_fields ev pos (tail (serialize (Open filename flags))) -> finish ev pos S1_OPEN c w = carry_out (Open filename flags) w.
Proof.
  intros (Hf & Hn & Hl) Hs Ha. cbn [tail serialize] in Ha.
  destruct (get_contiguous ev pos (filename ++ [0]) _ w ltac:(by destruct filename) ltac:(rewrite length_app; cbn; lia) Hs Ha) as (pos1 & rest & Ha1 & E1).
  destruct (get_field ev pos1 flags [] w (i_flags c) Ha1) as (pos2 & _ & E2).
  assert (exists c', decode ev pos S1_OPEN c w = (Some (c', invoke_s1_open), w) /\ cmd c' = S1_OPEN /\ i_filename c' = Some ((filename ++ [0]) ++ rest) /\ i_flags c' = flags)
    as (c' & Ed & Ec & Efn & Efl).
  { eexists. split; [unfold decode; cbn [Z.eqb Pos.eqb S1_OPEN S1_NULL]; rewrite (bind_eq _ _ _ _ _ E1); cbv match; rewrite (bind_eq _ _ _ _ _ E2); reflexivity|].
    cbn [cmd i_filename i_flags fst]. by rewrite int32_u32. }
  unfold finish. rewrite (bind_eq _ _ _ _ _ Ed). cbv match. unfold invoke_s1_open. rewrite Efn, Efl. cbn [from_option id]. rewrite terminated, c_str_filename by done.
  rewrite (bind_eq _ _ w (with_int c' (my_open filename flags w).1.1 (expect c' (0 <=? (my_open filename flags w).1.1) (my_open filename flags w).1.2).1
    (expect c' (0 <=? (my_open filename flags w).1.1) (my_open filename flags w).1.2).2) (my_open filename flags w).2)
    by (cbn [negb]; rewrite (bind_eq skip _ w tt w eq_refl); unfold mbind, M_bind; by destruct (my_open filename flags w) as [[? ?] ?]).
  unfold carry_out. destruct (my_open filename flags w) as [[ret e] w1] eqn:Eo. rewrite (bind_eq _ _ _ _ _ Eo). cbn [fst snd]. unfold s1_ready_async, answered.
  cbn [cmd with_int o_expect o_expect_errval o_ret_int]. rewrite Ec. cbn [Z.eqb Pos.eqb S1_OPEN S1_NULL]. unfold expect.
  by destruct (Z.leb_spec 0 ret), (Z.ltb_spec ret 0); [lia| .. |lia].
Qed.
Lemma finish_bad ev pos cm c w : decode ev pos cm c w = (None, w) -> finish ev pos cm c w = badarg w.
Proof. intros E. unfold finish. by rewrite (bind_eq _ _ _ _ _ E). Qed.
Lemma finish_good ev pos cm c w c1 inv w0 c2 w1 : decode ev pos cm c w = (Some (c1, inv), w0) -> inv c1 w0 = (c2, w1) -> finish ev pos cm c w = s1_ready_async c2 w1.
Proof. intros E E1. unfold finish. rewrite (bind_eq _ _ _ _ _ E). cbv match. by rewrite (bind_eq _ _ _ _ _ E1). Qed.
Lemma with_fd_bad i f w : (nth (Z.to_nat i) (valmap_fd w) 0 =? -1) = true -> with_fd i f w = badarg w.
Proof. intros E. unfold with_fd. rewrite (bind_eq (gets _) _ w (nth (Z.to_nat i) (valmap_fd w) 0) w eq_refl). by rewrite E. Qed.
Lemma with_fd_good i f w : (nth (Z.to_nat i) (valmap_fd w) 0 =? -1) = false -> with_fd i f w = f (nth (Z.to_nat i) (valmap_fd w) 0) w.
Proof. intros E. unfold with_fd. rewrite (bind_eq (gets _) _ w (nth (Z.to_nat i) (valmap_fd w) 0) w eq_refl). by rewrite E. Qed.
(** Decoding, step by step. *)
Ltac decoding := unfold decode; cbn [Z.eqb Pos.eqb orb S1_NULL S1_OPEN S1_GETFD S1_SENDFD S1_RECEIVEFD S1_CLOSE S1_WRITE S1_READ];
  repeat match goal with E : _ = (_, ?w) |- mbind _ _ ?w = _ => rewrite (bind_eq _ _ _ _ _ E); cbv match; cbn [fst snd] end; reflexivity.
Lemma finish_getfd ev pos c i w : index_arg i -> at_fields ev pos [put_int32 i] -> finish ev pos S1_GETFD c w = carry_out (Getfd i) w.
Proof.
  intros Hi Ha. destruct (get_index ev pos i [] w Hi Ha) as (pos' & _ & E). cbv zeta in E. cbn [carry_out]. destruct (_ =? -1) eqn:Ef.
  - rewrite with_fd_bad by done. apply finish_bad. decoding.
  - rewrite with_fd_good by done. by erewrite finish_good; [|decoding|reflexivity].
Qed.
(** The rest by computation, the two answers of the test [b]. *)
Ltac answers b := cbv [s1_ready_async answered result close_fd my_sendfd my_receivefd readfd writefd expect badarg ask act cleanup_valmap_fd_index]; run; destruct b; reflexivity.
Lemma finish_close ev pos c i w : index_arg i -> at_fields ev pos [put_int32 i] -> finish ev pos S1_CLOSE c w = carry_out (CloseFd i) w.
Proof.
  intros Hi Ha. destruct (get_index ev pos i [] w Hi Ha) as (pos' & _ & E). cbv zeta in E. cbn [carry_out]. destruct (_ =? -1) eqn:Ef.
  - rewrite with_fd_bad by done. apply finish_bad. decoding.
  - rewrite with_fd_good by done. erewrite finish_good; [|decoding|reflexivity].
    assert (forall fd, put_valmap i fd = set_valmap (Z.to_nat i) fd) as Hput by (intros fd; unfold put_valmap; by rewrite in_table_index).
    unfold s1_ready_async, cleanup_valmap_fd_index. cbn [i_valmap_fd_index with_int]. rewrite Hput. answers (os_close (calls w) (nth (Z.to_nat i) (valmap_fd w) 0) =? 0).
Qed.
Lemma finish_sendfd ev pos c u f w : int_arg u -> int_arg f -> at_fields ev pos [put_int32 u; put_int32 f] -> finish ev pos S1_SENDFD c w = carry_out (Sendfd u f) w.
Proof.
  intros Hu Hf Ha. destruct (get_field ev pos u _ w (i_unixdom_fd c) Ha) as (pos1 & Ha1 & E1). destruct (get_field ev pos1 f _ w (i_fd_to_be_sent c) Ha1) as (pos2 & _ & E2).
  erewrite finish_good; [|decoding|reflexivity]. cbn [carry_out i_unixdom_fd i_fd_to_be_sent]. rewrite !int32_u32 by done. answers (0 <=? os_sendmsg (calls w) u f).
Qed.
Lemma finish_receivefd ev pos c u w : int_arg u -> at_fields ev pos [put_int32 u] -> finish ev pos S1_RECEIVEFD c w = carry_out (Receivefd u) w.
Proof.
  intros Hu Ha. destruct (get_field ev pos u _ w (i_unixdom_fd c) Ha) as (pos1 & _ & E1).
  erewrite finish_good; [|decoding|reflexivity]. cbn [carry_out i_unixdom_fd]. rewrite !int32_u32 by done.
  answers (0 <=? (if (os_recvmsg (calls w) u).1 <? 0 then -1 else default (-1) (os_recvmsg (calls w) u).2)).
Qed.
Lemma finish_write ev pos c i d w : index_arg i -> d <> [] -> Z.of_nat (length d) < 2 ^ 31 -> Forall (fun s => iov_len s < 2 ^ 32) ev ->
  at_fields ev pos [put_int32 i; put_int32 (Z.of_nat (length d)); d] -> finish ev pos S1_WRITE c w = carry_out (WriteFd i d) w.
Proof.
  intros Hi Hd Hl Hs Ha. destruct (get_index ev pos i _ w Hi Ha) as (pos1 & Ha1 & E). destruct (get_contiguous ev pos1 d [] w Hd Hl Hs Ha1) as (pos2 & rest & _ & E2).
  cbv zeta in E. cbn [carry_out]. destruct (_ =? -1) eqn:Ef.
  - rewrite with_fd_bad by done. apply finish_bad. decoding.
  - rewrite with_fd_good by done. unfold finish. match goal with |- mbind _ (decode ?e ?p ?k ?x) _ = _ => assert (exists c1, decode e p k x w = (Some (c1, invoke_s1_write), w) /\
      cmd c1 = S1_WRITE /\ i_fd c1 = nth (Z.to_nat i) (valmap_fd w) 0 /\ i_stash0 c1 = Z.of_nat (length d) /\ i_ptr c1 = Some (d ++ rest)) as (c1 & Ed & Ec & Ei & Es & Ep) end.
    { eexists. split; [decoding|done]. }
    rewrite (bind_eq _ _ _ _ _ Ed). cbv match. unfold invoke_s1_write. rewrite Ei, Es, Ep. cbn [from_option id]. rewrite Nat2Z.id, take_app_length, length_app, (proj2 (Z.ltb_ge _ _)) by lia.
    unfold s1_ready_async, with_ssize, ask, act. run. by rewrite Ec.
Qed.
Lemma finish_read ev pos c i n w : index_arg i -> 0 <= n < 2 ^ 31 -> at_fields ev pos [put_int32 i; put_int32 n] -> finish ev pos S1_READ c w = carry_out (ReadFd i n) w.
Proof.
  intros Hi Hn Ha. destruct (get_index ev pos i _ w Hi Ha) as (pos1 & Ha1 & E). destruct (get_field ev pos1 n [] w (i_size c) Ha1) as (pos2 & _ & E2).
  rewrite wrap_small in E2 by lia. cbv zeta in E. cbn [carry_out]. destruct (_ =? -1) eqn:Ef.
  - rewrite with_fd_bad by done. apply finish_bad. decoding.
  - rewrite with_fd_good by done. pose (b := driver_alloc_binary (calls w) n). assert (ask (fun tr => driver_alloc_binary tr n) w = (b, w)) as E3 by done.
    destruct b as [b|]; [|rewrite (bind_eq _ _ _ _ _ E3); apply finish_bad; decoding]. rewrite (bind_eq _ _ _ _ _ E3). cbv match.
    erewrite finish_good; [|decoding|reflexivity]. cbv [s1_ready_async answered reply_xtra_1_ptr_ssize_t output_term msg_port ask act with_ssize]. run.
    by destruct (_ <? 0).
Qed.
End Decode.

(** C21: Commands are understood: a command made by the functions of the client, with its arguments in range, does what it says - the same calls and the same answer, whatever was in
    the memory that the driver does not initialise - however the emulator cuts it into segments, as long as no field is cut. *)
Theorem commands_understood `{OS : !Os} (r : request) (hdr : bytes) (segs : iovec) (w : world) :
  request_ok r -> cut (serialize r) segs -> Forall (fun s => iov_len s < 2 ^ 32) (hdr :: segs) -> s1_outputv (hdr :: segs) w = perform r w.
Proof.
  intros Hr Hc Hs. pose proof (at_start hdr _ _ Hc) as Ha. assert (exists fs, serialize r = [code r] :: fs) as [fs Ef] by (destruct r; by eexists).
  rewrite Ef in Ha. destruct (ev_get_field _ _ _ _ Ha) as (pos & Eg & Ha').
  unfold s1_outputv. rewrite (proj2 (Z.ltb_ge _ _)).
  2: { rewrite Ef in Hc. inversion Hc as [|g fs' segs' Hg Hn Hc']; subst. destruct g as [|f g]; [done|]. injection H as ->. cbn. rewrite !length_app. cbn. lia. }
  rewrite (bind_eq (ask junk_cmd) _ w (junk_cmd (calls w)) w) by reflexivity. unfold EV_GET_CHAR. cbn [length] in Eg. rewrite Eg. cbn [option_map].
  rewrite (bind_eq (mret _) _ w (code r, pos) w) by reflexivity. unfold perform. destruct (sys_alloc (calls w)) as [c|] eqn:Ec.
  2: { by rewrite !(bind_eq (ask sys_alloc) _ w None w) by (unfold ask, gets; by rewrite Ec). }
  rewrite !(bind_eq (ask sys_alloc) _ w (Some c) w) by (unfold ask, gets; by rewrite Ec). cbv match.
  set (w1 := World (port w) (valmap_fd w) (edtk_debug_flag w) (calls w ++ [Alloc])). rewrite !(bind_eq (act Alloc) _ w tt w1) by reflexivity. cbn [fst snd].
  destruct (code r =? S1_DEBUG) eqn:Ed.
  - destruct r; try done. injection Ef as <-. destruct (get_field _ _ _ _ w1 (edtk_debug_flag w1) Ha') as (pos' & _ & E1). cbn [request_ok] in Hr.
    rewrite (bind_eq get _ w1 w1 w1 eq_refl), (bind_eq _ _ _ _ _ E1). cbn [fst]. by rewrite int32_u32.
  - change (finish (hdr :: segs) pos (code r) c w1 = carry_out r w1).
    destruct r; injection Ef as <-; cbn [request_ok] in Hr.
    + done.
    + done.
    + by apply finish_open.
    + by apply finish_getfd.
    + destruct Hr. by apply finish_sendfd.
    + by apply finish_receivefd.
    + by apply finish_close.
    + destruct Hr as (? & ? & ?). by apply finish_write.
    + destruct Hr. by apply finish_read.
Qed.

(** * A system

    Descriptors count up; nothing fails. *)
Definition junk_callstate : callstate := Callstate 99 77 66 None 55 44 33 22 None (Binary 0 []) 11 0 9 8 7 6.
Definition sockets (tr : trace) : Z := Z.of_nat (length (List.filter (fun e => match e with Socket _ => true | _ => false end) tr)).
Definition sample_os : Os := {|
  sys_alloc _ := Some junk_callstate;
  driver_alloc_binary tr size := Some (Binary 1 (replicate (Z.to_nat size) 170));
  junk_cmd _ := 123; junk_index _ := 456; junk_binlen _ := 789; outside _ _ := 0;
  os_stat _ _ := false;
  os_socket tr := 3 + sockets tr;
  os_bind _ _ _ := 0; os_connect _ _ _ := 0; os_sendmsg _ _ _ := 1; os_recvmsg _ _ := (1, Some 30); os_close _ _ := 0;
  os_write _ _ data := Z.of_nat (length data);
  os_read _ _ _ := (2, [5; 6]);
  errno _ := 32;
|}.
(** [open(Port, "a", 0)], the name in a segment of its own. *)
Lemma commands_understood_witness : let w := snd (s1_outputv (OS := sample_os) [[]; [2; 0; 0; 0; 2]; [97; 0]; [0; 0; 0; 0]] (s1_start 1 0 [])) in
  w = snd (perform (OS := sample_os) (Open [97] 0) (s1_start 1 0 [])) /\ valmap_fd w = 3 :: replicate 31 (-1).
Proof.
  intros w. assert (w = snd (perform (OS := sample_os) (Open [97] 0) (s1_start 1 0 []))) as ->; [|by split].
  unfold w. rewrite (commands_understood (OS := sample_os) (Open [97] 0)); [done|by repeat constructor| |by repeat constructor].
  change (serialize (Open [97] 0)) with ([[2]; [0; 0; 0; 2]] ++ [[97; 0]] ++ [[0; 0; 0; 0]] ++ []).
  apply (cut_segment [[2]; [0; 0; 0; 2]]); [done|by repeat constructor|]. apply (cut_segment [[97; 0]]); [done|by repeat constructor|].
  apply (cut_segment [[0; 0; 0; 0]]); [done|by repeat constructor|constructor].
Defined.
