(* ===== verification/EdtkPort.v ===== *)
(** Ports of the EDTK driver: whatever the commands, each is answered once and leaves no block behind, and the descriptors open are those of the table and as many
    others as errors were told. *)
From stdpp Require Import strings.
From S2P Require Import Prelude ErlTerm Erts EdtkIov EdtkUnixdom.
#[local] Open Scope Z_scope.

(** * Answers *)

(** [{Port, ok}], [{Port, ok, X}] or [{Port, error, X}]. *)
Definition is_answer (p : Z) (t : term) : Prop :=
  t = TTuple [TPort p; TAtom "ok"] \/ exists x, t = TTuple [TPort p; TAtom "ok"; x] \/ t = TTuple [TPort p; TAtom "error"; x].
Definition outputs (tr : trace) : list (Z * spec) := omap (fun e => match e with Output p t => Some (p, t) | _ => None end) tr.
(** What is told is an error. *)
Definition is_error (t : spec) : bool := match t with _ :: _ :: _ :: Atm a :: _ => bool_decide (a = "error"%string) | _ => false end.
Definition errors (tr : trace) : nat := length (List.filter (fun o => is_error o.2) (outputs tr)).
(** Blocks and binaries. *)
Definition memory (tr : trace) : list io :=
  List.filter (fun e => match e with Alloc | Free | AllocBinary _ | FreeBinary _ => true | _ => false end) tr.
Lemma outputs_app a b : outputs (a ++ b) = outputs a ++ outputs b.
Proof. apply omap_app. Qed.
Lemma outputs_cons e tr : outputs (e :: tr) = match e with Output p t => [(p, t)] | _ => [] end ++ outputs tr.
Proof. by destruct e. Qed.
Lemma memory_cons e tr : memory (e :: tr) = match e with Alloc | Free | AllocBinary _ | FreeBinary _ => [e] | _ => [] end ++ memory tr.
Proof. by destruct e. Qed.
Lemma memory_app a b : memory (a ++ b) = memory a ++ memory b.
Proof. apply List.filter_app. Qed.
Lemma errors_told_app a b : errors (a ++ b) = (errors a + errors b)%nat.
Proof. unfold errors. by rewrite outputs_app, List.filter_app, length_app. Qed.

(** * What a command does

    The events of a command in the order of the code, but for those that are [neutral], and the table that it leaves. *)
Definition neutral (e : io) : Prop :=
  match e with Puts | Stat _ _ | Bind _ _ _ | Connect _ _ _ | Sendmsg _ _ _ | Recvmsg _ _ _ | Write _ _ _ | Read _ _ _ _ | Fault => True | _ => False end.
Abbreviation neutrals := (Forall neutral).
Definition good (p : Z) (t : spec) : Prop := exists x, denotes t x /\ is_answer p x.
Definition failed_read (l : trace) : Prop := exists fd size data n, Read fd size data n ∈ l /\ n < 0.
Inductive does (p : Z) (v : list Z) : trace -> list Z -> Prop :=
  | does_nomem t : good p t -> is_error t = true -> does p v [Output p t] v
  | does_plain l t : neutrals l -> good p t -> does p v (Alloc :: l ++ [Output p t; Free]) v
  | does_bad l t : neutrals l -> good p t -> is_error t = true -> does p v (Alloc :: l ++ [Free; Output p t]) v
  | does_no_socket l s t : neutrals l -> s < 0 -> good p t -> is_error t = true -> does p v (Alloc :: l ++ [Socket s; Output p t; Free]) v
  | does_lose l s l' t : neutrals l -> neutrals l' -> 0 <= s -> good p t -> is_error t = true ->
      does p v (Alloc :: l ++ Socket s :: l' ++ [Output p t; Free]) v
  | does_open l s l' i t : neutrals l -> neutrals l' -> 0 <= s -> v !! i = Some (-1) -> good p t ->
      does p v (Alloc :: l ++ Socket s :: l' ++ [Output p t; Free]) (<[i := s]> v)
  | does_not_close l fd rc t : neutrals l -> rc <> 0 -> good p t -> does p v (Alloc :: l ++ [Close fd rc; Output p t; Free]) v
  | does_close l i fd t : neutrals l -> Fault ∈ l \/ v !! i = Some fd /\ fd <> -1 -> good p t ->
      does p v (Alloc :: l ++ [Close fd 0; Output p t; Free]) (<[i := -1]> v)
  | does_close_wild l fd t : neutrals l -> Fault ∈ l -> good p t -> does p v (Alloc :: l ++ [Close fd 0; Fault; Output p t; Free]) v
  | does_read l b l' t : neutrals l -> neutrals l' -> good p t \/ failed_read l' /\ eval t [] = None ->
      does p v (Alloc :: l ++ AllocBinary b :: l' ++ [Output p t; FreeBinary b; Free]) v.

(** Documented: what a read gives is what it counts and fits; a binary has the size asked for, which is less than half of the memory. The fields of a block have
    the ranges of their types. *)
Class OsLaws (OS : Os) : Prop := {
  os_read_law tr fd size n d : os_read tr fd size = (n, d) -> n = -1 \/ n = Z.of_nat (length d) /\ n <= size;
  driver_alloc_binary_law tr size b : 0 <= size -> driver_alloc_binary tr size = Some b -> Z.of_nat (length (bin_mem b)) = size /\ size < 2 ^ 31;
  sys_alloc_law tr c : sys_alloc tr = Some c -> 0 <= i_size c;
}.

Section Does.
Context `{OS : !Os} `{OL : !OsLaws OS}.
Abbreviation D := (M world).
(** A state after more calls than those of [w]. *)
Definition later (w : world) (v : list Z) (l : trace) (w' : world) : Prop := port w' = port w /\ valmap_fd w' = v /\ calls w' = calls w ++ l.
Lemma later_refl w : later w (valmap_fd w) [] w.
Proof. split_and!; [done|done|by rewrite app_nil_r]. Qed.
(** [m] makes neutral calls. *)
Definition plain {A} (m : D A) : Prop := forall w, exists l, neutrals l /\ later w (valmap_fd w) l (snd (m w)).
Lemma plain_ret {A} (a : A) : plain (mret a).
Proof. intros w. exists []. split; [done|apply later_refl]. Qed.
Lemma plain_ask {A} (f : trace -> A) : plain (ask f).
Proof. intros w. exists []. split; [done|apply later_refl]. Qed.
Lemma plain_gets {A} (f : world -> A) : plain (gets f).
Proof. intros w. exists []. split; [done|apply later_refl]. Qed.
Lemma plain_act e : neutral e -> plain (act e).
Proof. intros He w. exists [e]. split; [by repeat constructor|done]. Qed.
Lemma later_trans w v l w1 v' l' w2 : later w v l w1 -> later w1 v' l' w2 -> later w v' (l ++ l') w2.
Proof. intros (P1 & V1 & C1) (P2 & V2 & C2). split_and!; [by rewrite P2|done|by rewrite C2, C1, app_assoc]. Qed.
Lemma plain_bind {A B} (m : D A) (f : A -> D B) : plain m -> (forall a, plain (f a)) -> plain (mbind f m).
Proof.
  intros Hm Hf w. destruct (Hm w) as (l & Hl & L). unfold mbind, M_bind. destruct (m w) as [a w1]. cbn [snd] in L. destruct (Hf a w1) as (l' & Hl' & L').
  exists (l ++ l'). split; [by apply Forall_app|]. destruct L as (P & V & C). rewrite V in L'. by eapply later_trans.
Qed.
Lemma plain_skip : plain skip.
Proof. intros w. exists []. split; [done|apply later_refl]. Qed.
Lemma plain_get : plain get.
Proof. intros w. exists []. split; [done|apply later_refl]. Qed.
Ltac plain :=
  repeat (cbv beta zeta; lazymatch goal with
    | |- plain (match ?x with _ => _ end) => destruct x
    | |- plain (mbind _ _) => apply plain_bind; [|intros ?]
    | |- plain (mret _) => apply plain_ret
    | |- plain skip => apply plain_skip
    | |- plain get => apply plain_get
    | |- plain (gets _) => apply plain_gets
    | |- plain (ask _) => apply plain_ask
    | |- plain (act _) => apply plain_act; exact I
    end).
Lemma plain_uint32 ev pos junk : plain (ev_uint32 ev pos junk).
Proof. unfold ev_uint32. plain. Qed.
Lemma plain_contiguous ev pos : plain (ev_contiguous ev pos).
Proof. unfold ev_contiguous. apply plain_bind; [apply plain_ask|intros ?]. apply plain_bind; [apply plain_uint32|intros ?]. plain. Qed.
(** An index that is in use names its descriptor, or is out of the table. *)
Lemma valmap_spec ev pos w : length (valmap_fd w) = 32%nat -> exists l, neutrals l /\ later w (valmap_fd w) l (snd (ev_valmap ev pos w)) /\
  match fst (ev_valmap ev pos w) with
  | None => True
  | Some (index, fd, _) => Fault ∈ l \/ in_table index = true /\ valmap_fd w !! Z.to_nat index = Some fd /\ fd <> -1
  end.
Proof.
  intros Hlen. unfold ev_valmap. rewrite (bind_eq (ask junk_index) _ w (junk_index (calls w)) w) by reflexivity.
  destruct (plain_uint32 ev pos (junk_index (calls w)) w) as (l & Hl & P & V & C). destruct (ev_uint32 ev pos (junk_index (calls w)) w) as [r w1] eqn:E. rewrite (bind_eq _ _ _ _ _ E).
  cbn [snd] in *. set (index := int32 r.1). unfold get_valmap. cbv zeta. rewrite <-V. destruct (in_table index) eqn:Eb; cycle 1.
  - exists (l ++ [Fault]). assert (neutrals (l ++ [Fault])) as Hn by (apply Forall_app; split; [done|by repeat constructor]). run.
    assert (Fault ∈ l ++ [Fault]) as Hf by (apply elem_of_app; right; by left). assert (calls w1 ++ [Fault] = calls w ++ l ++ [Fault]) as EC by by rewrite C, app_assoc.
    destruct (_ =? -1); cbn; split_and!; try done; by left.
  - pose proof Eb as [H1%Z.leb_le H2%Z.ltb_lt]%andb_true_iff. exists l. run. destruct (Z.eqb_spec (nth (Z.to_nat index) (valmap_fd w1) 0) (-1)) as [Hm|Hm]; cbn; split_and!; try done.
    right. split; [done|]. split; [|done]. destruct (valmap_fd w1 !! Z.to_nat index) as [x|] eqn:Ex; [by rewrite (nth_lookup_Some _ _ 0 x Ex)|].
    apply lookup_ge_None in Ex. rewrite V, Hlen in Ex. lia.
Qed.
(** ** Arguments *)

Inductive decoded (v : list Z) (l : trace) : Z -> callstate -> (callstate -> D callstate) -> trace -> Prop :=
  | decoded_null c : decoded v l S1_NULL c invoke_s1_null []
  | decoded_open c : decoded v l S1_OPEN c invoke_s1_open []
  | decoded_getfd c : decoded v l S1_GETFD c invoke_s1_getfd []
  | decoded_sendfd c : decoded v l S1_SENDFD c invoke_s1_sendfd []
  | decoded_receivefd c : decoded v l S1_RECEIVEFD c invoke_s1_receivefd []
  | decoded_close c : Fault ∈ l \/ in_table (i_valmap_fd_index c) = true /\ v !! Z.to_nat (i_valmap_fd_index c) = Some (i_fd c) /\ i_fd c <> -1 -> decoded v l S1_CLOSE c invoke_s1_close []
  | decoded_write c : decoded v l S1_WRITE c invoke_s1_write []
  | decoded_read c : Z.of_nat (length (bin_mem (i_bin c))) = i_size c /\ i_size c < 2 ^ 31 -> decoded v l S1_READ c invoke_s1_read [AllocBinary (bin_id (i_bin c))].
Lemma uint32_range ev pos junk w v pos' w' : ev_uint32 ev pos junk w = ((v, pos'), w') -> v = junk \/ 0 <= v.
Proof.
  unfold ev_uint32. destruct (EV_GET_UINT32 ev pos) as [[o pos1]|] eqn:E; [|intros [= <- _ _]; by left]. intros [= <- _ _]. revert E. unfold EV_GET_UINT32.
  destruct (ev_get 4 ev pos) as [[[b|] pos2]|]; [|by intros [= <- _]; left|done]. intros [= <- _]. right. cbn. apply (wrap_range 32); lia.
Qed.
Definition decoding (w : world) (cm : Z) (l : trace) (d : option (callstate * (callstate -> D callstate))) (w' : world) : Prop :=
  exists extra, neutrals l /\ later w (valmap_fd w) (l ++ extra) w' /\
  match d with None => extra = [] | Some (c', inv) => cmd c' = cm /\ o_expect c' = 1 /\ decoded (valmap_fd w) l cm c' inv extra end.
Lemma decoding_none w cm l w' : neutrals l -> later w (valmap_fd w) l w' -> decoding w cm l None w'.
Proof. intros Hl L. exists []. rewrite app_nil_r. by split_and!. Qed.
Lemma decoding_some w cm l c' inv w' : neutrals l -> later w (valmap_fd w) l w' -> cmd c' = cm -> o_expect c' = 1 -> decoded (valmap_fd w) l cm c' inv [] ->
  decoding w cm l (Some (c', inv)) w'.
Proof. intros Hl L H1 H2 H3. exists []. rewrite app_nil_r. by split_and!. Qed.
Lemma later_plain w l w1 l1 w2 : later w (valmap_fd w) l w1 -> later w1 (valmap_fd w1) l1 w2 -> later w (valmap_fd w) (l ++ l1) w2.
Proof. intros L L1. pose proof L as (_ & V & _). rewrite V in L1. by eapply later_trans. Qed.
Ltac step P := match goal with |- context [mbind _ ?m ?w] =>
  let l := fresh "l" in let Hl := fresh "Hl" in let L := fresh "L" in let a := fresh "a" in let w1 := fresh "w" in let E := fresh "E" in
  destruct (P w) as (l & Hl & L); destruct (m w) as [a w1] eqn:E; rewrite (bind_eq _ _ _ _ _ E); cbn [fst snd] in * end.
Lemma decode_spec ev pos cm c w : length (valmap_fd w) = 32%nat -> 0 <= i_size c ->
  exists l, decoding w cm l (fst (decode ev pos cm c w)) (snd (decode ev pos cm c w)).
Proof.
  intros Hlen Hsz. unfold decode. cbv zeta.
  destruct (Z.eqb_spec cm S1_NULL) as [->|_]; [exists []; apply decoding_some; [done|apply later_refl|done|done|constructor]|].
  destruct (Z.eqb_spec cm S1_OPEN) as [->|_].
  { step (plain_contiguous ev pos). destruct a as [[[n filename] pos1]|]; [|exists l; by apply decoding_none].
    step (plain_uint32 ev pos1 (i_flags c)). exists (l ++ l0). apply decoding_some; [by apply Forall_app|by eapply later_plain|done|done|constructor]. }
  destruct (Z.eqb_spec cm S1_GETFD) as [->|_].
  { cbn [orb]. destruct (valmap_spec ev pos w Hlen) as (l & Hl & L & H). destruct (ev_valmap ev pos w) as [v w1] eqn:E. rewrite (bind_eq _ _ _ _ _ E). exists l.
    destruct v as [[[i fd] pos1]|]; [apply decoding_some; try done; constructor|by apply decoding_none]. }
  cbn [orb]. destruct (Z.eqb_spec cm S1_CLOSE) as [->|_].
  { destruct (valmap_spec ev pos w Hlen) as (l & Hl & L & H). destruct (ev_valmap ev pos w) as [v w1] eqn:E. rewrite (bind_eq _ _ _ _ _ E). exists l.
    destruct v as [[[i fd] pos1]|]; [apply decoding_some; try done; by constructor|by apply decoding_none]. }
  destruct (Z.eqb_spec cm S1_SENDFD) as [->|_].
  { step (plain_uint32 ev pos (i_unixdom_fd c)). step (plain_uint32 ev a.2 (i_fd_to_be_sent c)). exists (l ++ l0).
    apply decoding_some; [by apply Forall_app|by eapply later_plain|done|done|constructor]. }
  destruct (Z.eqb_spec cm S1_RECEIVEFD) as [->|_].
  { step (plain_uint32 ev pos (i_unixdom_fd c)). exists l. apply decoding_some; try done; constructor. }
  destruct (Z.eqb_spec cm S1_WRITE) as [->|_].
  { destruct (valmap_spec ev pos w Hlen) as (l & Hl & L & _). destruct (ev_valmap ev pos w) as [v w1] eqn:E. rewrite (bind_eq _ _ _ _ _ E). cbn [fst snd] in *.
    destruct v as [[[i fd] pos1]|]; [|exists l; by apply decoding_none].
    step (plain_contiguous ev pos1). exists (l ++ l0). assert (neutrals (l ++ l0)) as Hn by by apply Forall_app.
    destruct a as [[[n ptr] pos2]|]; [apply decoding_some; [done|by eapply later_plain|done|done|constructor]|apply decoding_none; [done|by eapply later_plain]]. }
  destruct (Z.eqb_spec cm S1_READ) as [->|_]; [|exists []; apply decoding_none; [done|apply later_refl]].
  destruct (valmap_spec ev pos w Hlen) as (l & Hl & L & _). destruct (ev_valmap ev pos w) as [v w1] eqn:E. rewrite (bind_eq _ _ _ _ _ E). cbn [fst snd] in *.
  destruct v as [[[i fd] pos1]|]; [|exists l; by apply decoding_none]. step (plain_uint32 ev pos1 (i_size c)). exists (l ++ l0).
  assert (neutrals (l ++ l0)) as Hn by by apply Forall_app. assert (later w (valmap_fd w) (l ++ l0) w0) as L2 by by eapply later_plain. destruct a as [size pos2]. cbn [fst snd].
  assert (0 <= size) as H0 by (apply uint32_range in E0 as [->|]; done).
  destruct (driver_alloc_binary (calls w0) size) as [b|] eqn:Eb; unfold ask; run; rewrite Eb; [|by apply decoding_none].
  exists [AllocBinary (bin_id b)]. split; [done|]. split; [|split_and!; [done|done|]].
  - destruct L2 as (P & V & C). split_and!; [done|done|]. cbn. by rewrite C, <-app_assoc.
  - apply (decoded_read _ _ (Callstate _ _ _ _ _ _ _ _ _ b _ _ _ _ _ _)). by apply (driver_alloc_binary_law (calls w0)).
Qed.
(** ** Answers *)

Definition term_ok : Z -> spec := fun p => LOAD_TUPLE (LOAD_ATOM (LOAD_PORT [] p) "ok") 2.
Definition term_num (n p : Z) : spec := LOAD_TUPLE (LOAD_INT (LOAD_ATOM (LOAD_PORT [] p) "ok") (int32 n)) 3.
Definition term_valmap (n p : Z) : spec := LOAD_TUPLE (LOAD_TUPLE (LOAD_INT (LOAD_ATOM (LOAD_ATOM (LOAD_PORT [] p) "ok") "valmap_fd") n) 2) 3.
Definition term_error (n p : Z) : spec := LOAD_TUPLE (LOAD_INT (LOAD_ATOM (LOAD_PORT [] p) "error") n) 3.
Definition term_atom (a : string) (p : Z) : spec := LOAD_TUPLE (LOAD_ATOM (LOAD_ATOM (LOAD_PORT [] p) "error") a) 3.
Lemma good_ok p : good p (term_ok p).
Proof. eexists. split; [reflexivity|by left]. Qed.
Lemma good_num n p : good p (term_num n p).
Proof. eexists. split; [reflexivity|right; eexists; by left]. Qed.
Lemma good_valmap n p : good p (term_valmap n p).
Proof. eexists. split; [reflexivity|right; eexists; by left]. Qed.
Lemma good_error n p : good p (term_error n p).
Proof. eexists. split; [reflexivity|right; eexists; by right]. Qed.
Lemma good_atom a p : good p (term_atom a p).
Proof. eexists. split; [reflexivity|right; eexists; by right]. Qed.
(** ** Opening *)

Inductive opened (r : Z) : trace -> Prop :=
  | opened_nothing l : r < 0 -> neutrals l -> opened r l
  | opened_failed l s : r < 0 -> s < 0 -> neutrals l -> opened r (l ++ [Socket s])
  | opened_lost l s l' : r < 0 -> 0 <= s -> neutrals l -> neutrals l' -> opened r (l ++ Socket s :: l')
  | opened_ok l l' : 0 <= r -> neutrals l -> neutrals l' -> opened r (l ++ Socket r :: l').
Lemma my_open_spec path is_server w : exists l, later w (valmap_fd w) l (snd (my_open path is_server w)) /\ opened (fst (my_open path is_server w)).1 l.
Proof.
  unfold my_open. match goal with |- context [mbind _ ?m w] => assert (plain m) as P by plain end. step P. clear P.
  destruct a as [|]; [exists l; split; [done|by constructor]|].
  rewrite (bind_eq (ask os_socket) _ w0 (os_socket (calls w0)) w0) by reflexivity. set (s := os_socket (calls w0)). set (w1 := World (port w0) (valmap_fd w0) (edtk_debug_flag w0) (calls w0 ++ [Socket s])).
  rewrite (bind_eq (act (Socket s)) _ w0 tt w1) by reflexivity. assert (later w (valmap_fd w) (l ++ [Socket s]) w1) as L1 by (destruct L as (P & V & C); split_and!; [done|done|cbn; by rewrite C, <-app_assoc]).
  clearbody w1. clear L E. rewrite (bind_eq (ask errno) _ w1 (errno (calls w1)) w1) by reflexivity. destruct (Z.ltb_spec s 0) as [Hs|Hs]; [exists (l ++ [Socket s]); split; [done|by constructor]|].
  match goal with |- context [mbind _ ?m w1] => assert (plain m) as P by plain end. step P. clear P.
  match goal with |- context [mbind _ ?m w2] => assert (plain m) as P by plain end. step P. clear P.
  rewrite (bind_eq (ask errno) _ w3 (errno (calls w3)) w3) by reflexivity. exists (l ++ Socket s :: l0 ++ l1).
  assert (later w (valmap_fd w) (l ++ Socket s :: l0 ++ l1) w3) as L3.
  { replace (l ++ Socket s :: l0 ++ l1) with (((l ++ [Socket s]) ++ l0) ++ l1) by by rewrite <-!app_assoc. eapply later_plain; [|done]. by eapply later_plain. }
  assert (neutrals (l0 ++ l1)) as Hn by by apply Forall_app. destruct (_ <? 0); (split; [done|]); [by apply opened_lost|by apply opened_ok].
Qed.
Lemma find_unused_spec v i j : find_unused v i = Some j -> exists k, j = (i + k)%nat /\ v !! k = Some (-1).
Proof.
  revert i. induction v as [|fd v IH]; intros i; [done|]. cbn [find_unused]. destruct (Z.eqb_spec fd (-1)) as [->|_].
  - intros [= <-]. exists 0%nat. split; [lia|done].
  - intros H. apply IH in H as (k & -> & Hk). exists (S k). split; [lia|done].
Qed.
(** ** Carrying out *)

Lemma expect_1 c b e : ((expect c b e).1 =? 0) = negb b.
Proof. by destruct b. Qed.
Ltac settle := cbv [reply_ok reply_ok_num reply_ok_valmap reply_error reply_error_atom output_term msg_port set_valmap act]; run; by rewrite <-?app_assoc.
Ltac settle_at P := cbv [reply_ok reply_ok_num reply_ok_valmap reply_error reply_error_atom output_term msg_port set_valmap act]; run; by rewrite ?P, <-?app_assoc.
(** A plain run is answered at the end. *)
Lemma does_plain_eq p v l l' tr t : tr = Alloc :: l ++ [] ++ l' ++ [Output p t; Free] -> neutrals l -> neutrals l' -> good p t -> does p v tr v.
Proof. intros -> Hl Hl' Ht. cbn [app]. rewrite app_assoc. apply does_plain; [by apply Forall_app|done]. Qed.
Definition carries (l extra : trace) (c : callstate) (inv : callstate -> D callstate) (w : world) : Prop :=
  exists l' v', later w v' l' (snd ((c2 ← inv c; s1_ready_async c2) w)) /\ does (port w) (valmap_fd w) (Alloc :: l ++ extra ++ l') v'.
Lemma carries_null l c w : cmd c = S1_NULL -> neutrals l -> carries l [] c invoke_s1_null w.
Proof.
  intros Hc Hl. exists ([Puts] ++ [Output (port w) (term_ok (port w)); Free]), (valmap_fd w). split.
  - unfold invoke_s1_null, act. run. unfold s1_ready_async. rewrite Hc. split_and!; [done|done|]. settle.
  - apply (does_plain_eq _ _ l [Puts] _ (term_ok (port w))); [done|done|by repeat constructor|apply good_ok].
Qed.
Lemma carries_getfd l c w : cmd c = S1_GETFD -> neutrals l -> carries l [] c invoke_s1_getfd w.
Proof.
  intros Hc Hl. exists [Output (port w) (term_num (i_fd c) (port w)); Free], (valmap_fd w). split.
  - unfold invoke_s1_getfd. run. unfold s1_ready_async. cbn [cmd with_int]. rewrite Hc. split_and!; [done|done|]. settle.
  - apply (does_plain_eq _ _ l [] _ (term_num (i_fd c) (port w))); [done|done|done|apply good_num].
Qed.
(** The answer of a call that has a result or fails. *)
Definition term_result (ok : bool) (n e p : Z) : spec := if ok then term_num n p else term_error e p.
Lemma good_result ok n e p : good p (term_result ok n e p).
Proof. destruct ok; [apply good_num|apply good_error]. Qed.
Lemma carries_sendfd l c w : cmd c = S1_SENDFD -> neutrals l -> carries l [] c invoke_s1_sendfd w.
Proof.
  intros Hc Hl. set (rc := os_sendmsg (calls w) (i_unixdom_fd c) (i_fd_to_be_sent c)). set (r := if 0 <=? rc then 0 else -1).
  set (tr := calls w ++ [Sendmsg (i_unixdom_fd c) (i_fd_to_be_sent c) rc]). set (t := term_result (r =? 0) r (errno tr)).
  exists ([Sendmsg (i_unixdom_fd c) (i_fd_to_be_sent c) rc] ++ [Output (port w) (t (port w)); Free]), (valmap_fd w). split.
  - unfold invoke_s1_sendfd, my_sendfd, writefd, ask, act. run. fold rc. fold r. fold tr. unfold s1_ready_async. cbn [cmd with_int_t o_expect o_ret_int_t o_expect_errval]. rewrite Hc, expect_1, negb_involutive.
    change ((S1_SENDFD =? S1_SENDFD) || (S1_SENDFD =? S1_RECEIVEFD)) with true. unfold t, term_result, expect. unfold tr. cbn [Z.eqb Pos.eqb S1_SENDFD S1_NULL S1_OPEN S1_GETFD].
    destruct (r =? 0); (split_and!; [done|done|settle]).
  - apply (does_plain_eq _ _ l [Sendmsg (i_unixdom_fd c) (i_fd_to_be_sent c) rc] _ (t (port w))); [done|done|by repeat constructor|apply good_result].
Qed.
Lemma carries_receivefd l c w : cmd c = S1_RECEIVEFD -> neutrals l -> carries l [] c invoke_s1_receivefd w.
Proof.
  intros Hc Hl. set (m := os_recvmsg (calls w) (i_unixdom_fd c)). set (e := Recvmsg (i_unixdom_fd c) m.1 (default (-1) m.2)). set (r := if m.1 <? 0 then -1 else default (-1) m.2).
  set (tr := calls w ++ [e]). set (t := term_result (0 <=? r) r (errno tr)).
  exists ([e] ++ [Output (port w) (t (port w)); Free]), (valmap_fd w). split.
  - unfold invoke_s1_receivefd, my_receivefd, readfd, ask, act. run. fold m. fold e. fold r. fold tr. unfold s1_ready_async. cbn [cmd with_int_t o_expect o_ret_int_t o_expect_errval]. rewrite Hc, expect_1, negb_involutive.
    unfold t, term_result, expect. unfold tr. cbn [Z.eqb Pos.eqb orb S1_SENDFD S1_RECEIVEFD S1_NULL S1_OPEN S1_GETFD].
    destruct (0 <=? r); (split_and!; [done|done|settle]).
  - apply (does_plain_eq _ _ l [e] _ (t (port w))); [done|done|by repeat constructor|apply good_result].
Qed.
Lemma carries_write l c w : cmd c = S1_WRITE -> neutrals l -> carries l [] c invoke_s1_write w.
Proof.
  intros Hc Hl. set (mem := default [] (i_ptr c)). set (fl := if Z.of_nat (length mem) <? i_stash0 c then [Fault] else []). set (data := take (Z.to_nat (i_stash0 c)) mem).
  set (n := os_write (calls w ++ fl) (i_fd c) data). exists ((fl ++ [Write (i_fd c) data n]) ++ [Output (port w) (term_num n (port w)); Free]), (valmap_fd w). split.
  - unfold invoke_s1_write. fold mem data. assert ((when Z.of_nat (length mem) <? i_stash0 c do act Fault) w = (tt, World (port w) (valmap_fd w) (edtk_debug_flag w) (calls w ++ fl))) as E
      by (unfold fl; destruct (_ <? _); [done|by rewrite app_nil_r; destruct w]).
    unfold mbind at 1. unfold M_bind. unfold mbind at 1. unfold M_bind. rewrite E. unfold ask, act. run. fold n. unfold s1_ready_async. cbn [cmd with_ssize]. rewrite Hc.
    split_and!; [done|done|]. settle.
  - apply (does_plain_eq _ _ l (fl ++ [Write (i_fd c) data n]) _ (term_num n (port w))); [done|done| |apply good_num].
    apply Forall_app. split; [unfold fl; destruct (_ <? _)|]; by repeat constructor.
Qed.
Lemma carries_close l c w : cmd c = S1_CLOSE -> neutrals l ->
  Fault ∈ l \/ in_table (i_valmap_fd_index c) = true /\ valmap_fd w !! Z.to_nat (i_valmap_fd_index c) = Some (i_fd c) /\ i_fd c <> -1 ->
  carries l [] c invoke_s1_close w.
Proof.
  intros Hc Hl Hi. set (rc := os_close (calls w) (i_fd c)). set (tr := calls w ++ [Close (i_fd c) rc]). set (t := term_result (rc =? 0) rc (errno tr)).
  set (known := in_table (i_valmap_fd_index c)). set (v' := if (rc =? 0) && known then <[Z.to_nat (i_valmap_fd_index c) := -1]> (valmap_fd w) else valmap_fd w).
  exists (Close (i_fd c) rc :: (if (rc =? 0) && negb known then [Fault] else []) ++ [Output (port w) (t (port w)); Free]), v'. split.
  - unfold invoke_s1_close, close_fd, ask, act. run. fold rc. fold tr. unfold s1_ready_async. cbn [cmd with_int o_expect o_ret_int o_expect_errval i_valmap_fd_index]. rewrite Hc, expect_1.
    unfold t, v', term_result, expect, cleanup_valmap_fd_index, put_valmap. fold known. unfold tr. cbn [Z.eqb Pos.eqb orb S1_SENDFD S1_RECEIVEFD S1_CLOSE S1_NULL S1_OPEN S1_GETFD].
    destruct (rc =? 0); cbn [negb andb]; [destruct known; cbn [negb andb]|]; (split_and!; [done|done|settle]).
  - unfold v', t, term_result. destruct (Z.eqb_spec rc 0) as [->|Hrc]; cbn [andb]; [|apply does_not_close; [done|done|apply good_error]]. unfold known. destruct Hi as [Hi|(-> & Hi)].
    + destruct (in_table _); cbn [negb]; [apply does_close; [done|by left|apply good_num]|by apply does_close_wild; [..|apply good_num]].
    + apply does_close; [done|by right|apply good_num].
Qed.
Lemma carries_open l c w : cmd c = S1_OPEN -> neutrals l -> carries l [] c invoke_s1_open w.
Proof.
  intros Hc Hl. set (mem := default [] (i_filename c)). set (fl := if negb (existsb (Z.eqb 0) mem) then [Fault] else []).
  set (w1 := World (port w) (valmap_fd w) (edtk_debug_flag w) (calls w ++ fl)). assert ((when negb (existsb (Z.eqb 0) mem) do act Fault) w = (tt, w1)) as Ew
    by (unfold w1, fl; destruct (negb _); [done|by rewrite app_nil_r; destruct w]).
  assert (neutrals (l ++ fl)) as Hlf by (apply Forall_app; split; [done|unfold fl; destruct (negb _); by repeat constructor]).
  destruct (my_open_spec (c_str mem) (i_flags c) w1) as (lo & (P & V & C) & Ho). destruct (my_open (c_str mem) (i_flags c) w1) as [[r e] w2] eqn:Em. cbn [fst snd] in *.
  assert (port w2 = port w) as P' by exact P.
  assert (forall k v' t, snd (s1_ready_async (with_int c r (expect c (0 <=? r) e).1 (expect c (0 <=? r) e).2) w2) = k -> later w2 v' [Output (port w2) t; Free] k ->
    later w v' ((fl ++ lo) ++ [Output (port w) t; Free]) (snd ((c2 ← invoke_s1_open c; s1_ready_async c2) w))) as Hk.
  { intros k v' t <- (P2 & V' & C'). assert (invoke_s1_open c w = (with_int c r (expect c (0 <=? r) e).1 (expect c (0 <=? r) e).2, w2)) as Ei.
    { unfold invoke_s1_open. fold mem. rewrite (bind_eq _ _ _ _ _ Ew), (bind_eq _ _ _ _ _ Em). done. }
    rewrite (bind_eq _ _ _ _ _ Ei). split_and!; [by rewrite P2, P|done|]. rewrite C', C, P. cbn [calls w1]. by rewrite <-!app_assoc. }
  unfold s1_ready_async in Hk. cbn [cmd with_int o_expect o_ret_int o_expect_errval] in Hk. rewrite Hc, expect_1 in Hk. cbn [Z.eqb Pos.eqb S1_OPEN S1_NULL] in Hk.
  destruct (Z.leb_spec 0 r) as [Hr|Hr]; cbn [negb] in Hk.
  - inversion Ho as [| | |l1 l2 _ H1 H2 El]; subst; [lia..|]. destruct (find_unused (valmap_fd w2) 0) as [i|] eqn:Ef.
    + pose proof (find_unused_spec _ _ _ Ef) as (k & -> & Hk1). cbn [Nat.add] in *. rewrite V in Hk1.
      exists ((fl ++ l1 ++ Socket r :: l2) ++ [Output (port w) (term_valmap (Z.of_nat k) (port w)); Free]), (<[k := r]> (valmap_fd w)). split.
      * eapply Hk; [reflexivity|]. change (valmap_fd w) with (valmap_fd w1). rewrite <-V. rewrite (bind_eq _ _ w2 tt (World (port w2) (<[k := r]> (valmap_fd w2)) (edtk_debug_flag w2)
          (calls w2 ++ [Output (port w2) (term_valmap (Z.of_nat k) (port w2))])));
          [split_and!; [done|done|settle_at P']|unfold find_unused_fd_index; rewrite (bind_eq (gets _) _ w2 (Some k) w2) by (unfold gets; by rewrite Ef); done].
      * cbn [app]. replace (l ++ (fl ++ l1 ++ Socket r :: l2) ++ _) with ((l ++ fl ++ l1) ++ Socket r :: l2 ++ [Output (port w) (term_valmap (Z.of_nat k) (port w)); Free])
          by by rewrite <-!app_assoc. apply does_open; [|done|done|done|apply good_valmap]. rewrite app_assoc. by apply Forall_app.
    + exists ((fl ++ l1 ++ Socket r :: l2) ++ [Output (port w) (term_error ENOMEM (port w)); Free]), (valmap_fd w). split.
      * eapply Hk; [reflexivity|]. rewrite (bind_eq _ _ w2 tt (World (port w2) (valmap_fd w2) (edtk_debug_flag w2) (calls w2 ++ [Output (port w2) (term_error ENOMEM (port w2))])));
          [split_and!; [done|done|settle_at P']|unfold find_unused_fd_index; rewrite (bind_eq (gets _) _ w2 None w2) by (unfold gets; by rewrite Ef); done].
      * cbn [app]. replace (l ++ (fl ++ l1 ++ Socket r :: l2) ++ _) with ((l ++ fl ++ l1) ++ Socket r :: l2 ++ [Output (port w) (term_error ENOMEM (port w)); Free])
          by by rewrite <-!app_assoc. apply does_lose; [|done|done|apply good_error|done]. rewrite app_assoc. by apply Forall_app.
  - exists ((fl ++ lo) ++ [Output (port w) (term_error e (port w)); Free]), (valmap_fd w). split.
    + eapply Hk; [reflexivity|]. split_and!; [done|done|settle_at P'].
    + cbn [app]. rewrite <-!app_assoc. inversion Ho as [l1 _ H1|l1 s _ H1 H2|l1 s l2 _ H1 H2 H3|]; subst; [| | |lia].
      * rewrite app_assoc, app_assoc. apply does_plain; [by apply Forall_app|apply good_error].
      * rewrite <-app_assoc, app_assoc, app_assoc. apply does_no_socket; [by apply Forall_app|done|apply good_error|done].
      * rewrite <-app_assoc, app_assoc, app_assoc. cbn [app]. apply does_lose; [by apply Forall_app|done|done|apply good_error|done].
Qed.
Definition term_binary (m : bytes) (n p : Z) : spec := LOAD_TUPLE (LOAD_TUPLE (LOAD_BINARY (LOAD_ATOM (LOAD_PORT [] p) "ok") m 0 n) 1) 3.
Lemma good_binary m n p : 0 <= n <= Z.of_nat (length m) -> good p (term_binary m n p).
Proof.
  intros Hn. exists (TTuple [TPort p; TAtom "ok"; TTuple [TBinary (slice 0 (Z.to_nat n) m)]]). split; [|right; eexists; by left].
  unfold denotes, term_binary. cbn [eval LOAD_TUPLE LOAD_BINARY LOAD_ATOM LOAD_PORT app]. by rewrite (read_slice m 0 n) by lia.
Qed.
Lemma bad_binary m n p : Z.of_nat (length m) < n -> eval (term_binary m n p) [] = None.
Proof.
  intros Hn. unfold term_binary. cbn [eval LOAD_TUPLE LOAD_BINARY LOAD_ATOM LOAD_PORT app]. unfold ErlTerm.read. by rewrite (proj2 (Z.leb_gt (0 + n) (Z.of_nat (length m)))), andb_false_r by lia.
Qed.
Lemma carries_read l c w : cmd c = S1_READ -> o_expect c = 1 -> neutrals l -> Z.of_nat (length (bin_mem (i_bin c))) = i_size c -> i_size c < 2 ^ 31 ->
  carries l [AllocBinary (bin_id (i_bin c))] c invoke_s1_read w.
Proof.
  intros Hc He Hl Hb Hsz. destruct (os_read (calls w) (i_fd c) (i_size c)) as [n d] eqn:Er. set (b := i_bin c) in *.
  set (m := if n <? 0 then bin_mem b else memcpy_at (bin_mem b) 0 d). set (e := Read (i_fd c) (i_size c) d n).
  exists [e; Output (port w) (term_binary m (u32 n) (port w)); FreeBinary (bin_id b); Free], (valmap_fd w). split.
  - unfold invoke_s1_read, ask, act. run. rewrite Er. cbn [fst snd]. fold e b. unfold s1_ready_async. cbn [cmd with_ssize]. rewrite Hc.
    cbn [Z.eqb Pos.eqb orb S1_SENDFD S1_RECEIVEFD S1_CLOSE S1_WRITE S1_READ S1_NULL S1_OPEN S1_GETFD]. unfold reply_xtra_1_ptr_ssize_t. cbn [o_expect with_ssize]. rewrite He.
    unfold m, term_binary. destruct (n <? 0); (split_and!; [done|done|cbv [output_term msg_port act]; run; by rewrite <-?app_assoc]).
  - cbn [app]. apply (does_read _ _ l (bin_id b) [e]); [done|by repeat constructor|]. destruct (os_read_law _ _ _ _ _ Er) as [Hn|[Hn Hle]].
    + right. split; [exists (i_fd c), (i_size c), d, n; split; [by left|lia]|]. unfold m. rewrite (proj2 (Z.ltb_lt n 0)) by lia. apply bad_binary.
      assert (u32 n = n + 2 ^ 32) as -> by (unfold wrap; symmetry; apply Z.mod_unique with (-1); lia). lia.
    + left. rewrite wrap_small by lia. apply good_binary. unfold m. rewrite (proj2 (Z.ltb_ge _ _)) by lia. rewrite length_memcpy_at by lia. lia.
Qed.
(** ** A command *)

Lemma carries_decoded cm c inv l extra w w1 : decoded (valmap_fd w) l cm c inv extra -> cmd c = cm -> o_expect c = 1 -> neutrals l -> valmap_fd w1 = valmap_fd w ->
  carries l extra c inv w1.
Proof.
  intros Hd Hc He Hl Hv. rewrite <-Hv in Hd. clear Hv. destruct Hd as [| | | | |? Hi| |? [Hb Hs]]; [by apply carries_null|by apply carries_open|by apply carries_getfd|by apply carries_sendfd| | | |].
  - by apply carries_receivefd.
  - by apply carries_close.
  - by apply carries_write.
  - by apply carries_read.
Qed.
Lemma outputv_does ev w b seg : ev !! 1%nat = Some (b :: seg) -> length (valmap_fd w) = 32%nat ->
  exists l v', later w v' l (snd (s1_outputv ev w)) /\ does (port w) (valmap_fd w) l v'.
Proof.
  intros Hev Hlen. unfold s1_outputv. rewrite (proj2 (Z.ltb_ge _ _)).
  2: { destruct ev as [|h [|s ev]]; [done..|]. injection Hev as ->. cbn. rewrite length_app. cbn. lia. }
  rewrite (bind_eq (ask junk_cmd) _ w (junk_cmd (calls w)) w) by reflexivity.
  assert (exists cm pos, EV_GET_CHAR ev (0, 1%nat) = Some (Some cm, pos)) as (cm & pos & ->).
  { unfold EV_GET_CHAR, ev_get. rewrite Hev. rewrite (proj2 (Z.leb_le _ _)) by (unfold iov_len; cbn; lia). by do 2 eexists. }
  rewrite (bind_eq (mret _) _ w (cm, pos) w) by reflexivity. pose proof (sys_alloc_law (calls w)) as Hsz. destruct (sys_alloc (calls w)) as [c|] eqn:Ec.
  2: { rewrite (bind_eq (ask sys_alloc) _ w None w) by (unfold ask, gets; by rewrite Ec). exists [Output (port w) (term_error ENOMEM (port w))], (valmap_fd w). split; [done|].
       apply does_nomem; [apply good_error|done]. }
  rewrite (bind_eq (ask sys_alloc) _ w (Some c) w) by (unfold ask, gets; by rewrite Ec). cbv match. cbn [fst snd].
  set (w1 := World (port w) (valmap_fd w) (edtk_debug_flag w) (calls w ++ [Alloc])). rewrite (bind_eq (act Alloc) _ w tt w1) by reflexivity.
  assert (later w (valmap_fd w) [Alloc] w1) as L1 by done. specialize (Hsz c eq_refl). assert (length (valmap_fd w1) = 32%nat) as Hlen1 by done.
  assert (forall l v' w', later w1 v' l w' -> does (port w) (valmap_fd w) (Alloc :: l) v' -> exists l v', later w v' l w' /\ does (port w) (valmap_fd w) l v') as Hk.
  { intros l v' w' L Hd. exists (Alloc :: l), v'. split; [|done]. change (Alloc :: l) with ([Alloc] ++ l). by eapply later_trans. }
  destruct (Z.eqb_spec cm S1_DEBUG) as [->|_].
  - rewrite (bind_eq get _ w1 w1 w1 eq_refl). step (plain_uint32 ev pos (edtk_debug_flag w1)). set (f := int32 a.1). destruct L as (P & V & C).
    apply (Hk (l ++ [Output (port w) (term_num f (port w)); Free]) (valmap_fd w)); [|apply does_plain; [done|apply good_num]].
    split_and!; [done|done|]. cbv [set_debug reply_ok_num output_term msg_port act]. run. rewrite C, P. cbn [calls port w1]. by rewrite <-!app_assoc.
  - destruct (decode_spec ev pos cm c w1 Hlen1 Hsz) as (l & extra & Hl & L & Hd). destruct (decode ev pos cm c w1) as [d w2] eqn:E. rewrite (bind_eq _ _ _ _ _ E). cbn [fst snd] in *.
    destruct d as [[c' inv]|].
    + destruct Hd as (Hc & He & Hd). assert (valmap_fd w2 = valmap_fd w1) as V by apply L. assert (port w2 = port w) as P by apply L.
      destruct (carries_decoded cm c' inv l extra w1 w2 Hd Hc He Hl V) as (l' & v' & L' & Hdoes). rewrite V, P in Hdoes. apply (Hk ((l ++ extra) ++ l') v'); [|by rewrite <-app_assoc].
      by eapply later_trans.
    + subst extra. rewrite app_nil_r in L. destruct L as (P & V & C). apply (Hk (l ++ [Free; Output (port w) (term_atom "badarg" (port w))]) (valmap_fd w)).
      * split_and!; [done|done|]. cbv [reply_error_atom output_term msg_port act]. run. rewrite C, P. cbn [calls port w1]. by rewrite <-!app_assoc.
      * apply does_bad; [done|apply good_atom|done].
Qed.
End Does.

(** * Descriptors

    The descriptors that a trace leaves open, of those that the driver opened. [socket] gives one that is not. *)
Definition live_step (fds : list Z) (e : io) : list Z :=
  match e with
  | Socket s => if 0 <=? s then s :: fds else fds
  | Close fd rc => if rc =? 0 then base.filter (fun x => x <> fd) fds else fds
  | _ => fds
  end.
Definition live (tr : trace) : list Z := foldl live_step [] tr.
Definition sockets_fresh (tr : trace) : Prop := forall pre s post, tr = pre ++ Socket s :: post -> 0 <= s -> s ∉ live pre.
(** The descriptors of the table. *)
Definition held (v : list Z) : list Z := base.filter (fun fd => fd <> -1) v.
Lemma live_app a b : live (a ++ b) = foldl live_step (live a) b.
Proof. apply foldl_app. Qed.
Lemma neutrals_nothing l : neutrals l ->
  (forall tr, outputs (l ++ tr) = outputs tr) /\ (forall tr, memory (l ++ tr) = memory tr) /\ forall fds tr, foldl live_step fds (l ++ tr) = foldl live_step fds tr.
Proof. induction 1 as [|e l He _ (IH1 & IH2 & IH3)]; [done|]. destruct e; try done. Qed.
Lemma sockets_fresh_app a b : sockets_fresh (a ++ b) -> sockets_fresh a.
Proof. intros H pre s post ->. apply (H pre s (post ++ b)). by rewrite <-app_assoc. Qed.
Lemma held_insert v i a b : v !! i = Some a -> exists r, held v ≡ₚ held [a] ++ r /\ held (<[i := b]> v) ≡ₚ held [b] ++ r.
Proof.
  intros Hi. assert (forall x, held (take i v ++ x :: drop (S i) v) = held (take i v) ++ held [x] ++ held (drop (S i) v)) as E
    by (intros x; unfold held; change (x :: drop (S i) v) with ([x] ++ drop (S i) v); by rewrite !filter_app).
  exists (held (take i v) ++ held (drop (S i) v)). rewrite insert_take_drop, E by by eapply lookup_lt_Some.
  pose proof (E a) as Ea. rewrite take_drop_middle in Ea by done. rewrite Ea. split; solve_Permutation.
Qed.
Lemma filter_absent (x : Z) (l : list Z) : x ∉ l -> base.filter (fun y => y <> x) l = l.
Proof. induction l as [|y l IH]; [done|]. intros [Hx Hl]%not_elem_of_cons. rewrite filter_cons, decide_True by congruence. by rewrite IH. Qed.
Section Owned.
Context {p : Z} {v : list Z} {l : trace} {v' : list Z}.
Ltac nothing := repeat match goal with H : neutrals ?l |- _ =>
  let H1 := fresh in let H2 := fresh in let H3 := fresh in destruct (neutrals_nothing l H) as (H1 & H2 & H3); clear H end.
Ltac folding := repeat (cbn; match goal with H : forall fds tr, foldl live_step fds (?l ++ tr) = _ |- context [foldl live_step _ (?l ++ _)] => rewrite H end); cbn.
Ltac answering :=
  repeat (rewrite ?outputs_cons, ?memory_cons; match goal with
    | H : forall tr, outputs (?l ++ tr) = _ |- context [outputs (?l ++ _)] => rewrite H
    | H : forall tr, memory (?l ++ tr) = _ |- context [memory (?l ++ _)] => rewrite H
    end);
  rewrite ?outputs_cons, ?memory_cons; cbn.
(** A command is answered by one message and leaves no block behind. *)
Lemma does_answers : does p v l v' -> exists t, outputs l = [(p, t)] /\ (good p t \/ failed_read l /\ eval t [] = None) /\
  (memory l = [] \/ memory l = [Alloc; Free] \/ exists b, memory l = [Alloc; AllocBinary b; FreeBinary b; Free]).
Proof.
  intros Hd. inversion Hd; subst; exists t; nothing;
    answering;
    (split; [done|]); (split; [|first [by left|by right; left|right; right; by eexists]]); try by left.
  match goal with H : _ \/ failed_read _ /\ _ |- _ => destruct H as [Hg|[(fd & size & data & n & Hin & Hn) Hbad]] end; [by left|right]. split; [|done]. exists fd, size, data, n. split; [|done].
  right. apply elem_of_app. right. right. apply elem_of_app. by left.
Qed.
(** What becomes of the descriptors: nothing, one is lost and an error told, one is in the table, or one is closed. *)
Lemma does_descriptors past lost : does p v l v' -> Fault ∉ l -> sockets_fresh (past ++ l) -> NoDup (live past) -> live past ≡ₚ held v ++ lost ->
  exists lost', live (past ++ l) ≡ₚ held v' ++ lost' /\ NoDup (live (past ++ l)) /\ (length lost' <= length lost + errors l)%nat.
Proof.
  intros Hd Hf Hs Hn Hp. rewrite live_app.
  assert (forall l1 s l2, (forall fds tr, foldl live_step fds (l1 ++ tr) = foldl live_step fds tr) -> l = Alloc :: l1 ++ Socket s :: l2 -> 0 <= s -> NoDup (s :: live past)) as Hfresh.
  { intros l1 s l2 H1 -> H0. apply NoDup_cons. split; [|done]. intros Hin. apply (Hs (past ++ Alloc :: l1) s l2); [by rewrite <-app_assoc|done|].
    rewrite live_app. cbn. by rewrite <-(app_nil_r l1), H1. }
  assert (forall lost' fds, fds ≡ₚ held v' ++ lost' -> NoDup fds -> foldl live_step (live past) l = fds -> (length lost' <= length lost + errors l)%nat ->
    exists lost', foldl live_step (live past) l ≡ₚ held v' ++ lost' /\ NoDup (foldl live_step (live past) l) /\ (length lost' <= length lost + errors l)%nat) as Hk.
  { intros lost' fds H1 H2 -> H3. by exists lost'. }
  inversion Hd; subst; nothing.
  - apply (Hk lost (live past)); [done|done|done|lia].
  - apply (Hk lost (live past)); [done|done|by folding|lia].
  - apply (Hk lost (live past)); [done|done|by folding|lia].
  - apply (Hk lost (live past)); [done|done| |lia]. folding. by rewrite (proj2 (Z.leb_gt 0 s)).
  - apply (Hk (s :: lost) (s :: live past)); [rewrite Hp; solve_Permutation|by eapply Hfresh| |].
    + folding. by rewrite (proj2 (Z.leb_le 0 s)).
    + unfold errors. answering. match goal with H : is_error t = true |- _ => rewrite H end. cbn. lia.
  - match goal with H : v !! ?i = Some _ |- _ => destruct (held_insert v i (-1) s H) as (r & R1 & R2) end.
    apply (Hk lost (s :: live past)); [|by eapply Hfresh| |lia].
    + rewrite R2, Hp, R1. unfold held at 1 2. rewrite !filter_cons. rewrite decide_False by (by intros []). rewrite decide_True by lia. done.
    + folding. by rewrite (proj2 (Z.leb_le 0 s)).
  - apply (Hk lost (live past)); [done|done| |lia]. folding. by rewrite (proj2 (Z.eqb_neq rc 0)).
  - match goal with H : _ \/ v !! ?i = Some fd /\ _ |- _ => destruct H as [H|[H Hfd]]; [exfalso; apply Hf; right; apply elem_of_app; by left|];
      destruct (held_insert v i fd (-1) H) as (r & R1 & R2) end.
    assert (live past ≡ₚ fd :: r ++ lost) as Hp'.
    { rewrite Hp, R1. unfold held. rewrite filter_cons, decide_True by done. done. }
    rewrite Hp' in Hn. apply NoDup_cons in Hn as [Hni Hn]. apply (Hk lost (base.filter (fun x => x <> fd) (live past))); [| | |lia].
    + rewrite R2. unfold held. rewrite filter_cons, decide_False by (by intros []). rewrite Hp', filter_cons, decide_False by (by intros []).
      by rewrite filter_absent.
    + rewrite Hp', filter_cons, decide_False by (by intros []). by apply NoDup_filter.
    + by folding.
  - exfalso. apply Hf. right. apply elem_of_app. by left.
  - apply (Hk lost (live past)); [done|done|by folding|lia].
Qed.
End Owned.

Section Port.
Context `{OS : !Os} `{OL : !OsLaws OS}.
(** A command that is not empty: the first segment, the second of the vector, has its code. *)
Definition command (ev : iovec) : Prop := exists b seg, ev !! 1%nat = Some (b :: seg).
Definition commands (evs : list iovec) (w : world) : world := foldl (fun w ev => snd (s1_outputv ev w)) w evs.
Lemma does_table p v l v' : does p v l v' -> length v' = length v.
Proof. by intros []; rewrite ?length_insert. Qed.
Lemma commands_descriptors p flag evs : let w := commands evs (s1_start p flag []) in
  Forall command evs -> length (valmap_fd w) = 32%nat /\ port w = p /\
  (Fault ∉ calls w -> sockets_fresh (calls w) ->
   exists lost, live (calls w) ≡ₚ held (valmap_fd w) ++ lost /\ NoDup (live (calls w)) /\ (length lost <= errors (calls w))%nat).
Proof.
  intros w. subst w. induction evs as [|ev evs IH] using rev_ind; intros Hc.
  - split; [done|]. split; [done|]. intros _ _. exists []. split; [done|]. split; [apply NoDup_nil_2|done].
  - apply Forall_app in Hc as [Hc Hev]. apply Forall_singleton in Hev as (b & seg & Hev). destruct (IH Hc) as (Hlen & Hp & H). unfold commands. rewrite foldl_app. cbn [foldl].
    fold (commands evs (s1_start p flag [])). set (w := commands evs (s1_start p flag [])) in *.
    destruct (outputv_does ev w b seg Hev Hlen) as (l & v' & (P & V & C) & Hd). rewrite V, P, C. split; [by rewrite (does_table _ _ _ _ Hd)|]. split; [done|].
    intros Hf Hs. rewrite elem_of_app in Hf. destruct H as (lost & H1 & H2 & H3); [tauto|by eapply sockets_fresh_app|].
    destruct (does_descriptors (calls w) lost Hd ltac:(tauto) Hs H2 H1) as (lost' & H1' & H2' & H3'). exists lost'. split; [done|]. split; [done|]. rewrite errors_told_app. lia.
Qed.
(** The descriptors of the table are closed in its order, and its block is freed. *)
Lemma close_all_spec n i w : length (valmap_fd w) = 32%nat -> i + Z.of_nat n = 32 -> 0 <= i -> exists closes,
  calls (snd (close_all n i w)) = calls w ++ closes /\ Forall (fun e => match e with Close _ _ => True | _ => False end) closes /\
  omap (fun e => match e with Close fd _ => Some fd | _ => None end) closes = held (drop (Z.to_nat i) (valmap_fd w)).
Proof.
  revert i w. induction n as [|n IH]; intros i w Hlen Hi H0.
  - exists []. rewrite app_nil_r, drop_ge by lia. done.
  - destruct (lookup_lt_is_Some_2 (valmap_fd w) (Z.to_nat i)) as [fd Hfd]; [lia|]. cbn [close_all]. rewrite (drop_S _ _ _ Hfd).
    assert (in_table i = true) as Ht by (unfold in_table; lia). assert (get_valmap i w = (fd, w)) as Eg.
    { unfold get_valmap. run. by rewrite Ht, (nth_lookup_Some _ _ 0 fd Hfd). }
    rewrite (bind_eq _ _ _ _ _ Eg). unfold held. rewrite filter_cons. fold (held (drop (S (Z.to_nat i)) (valmap_fd w))). destruct (Z.eqb_spec fd (-1)) as [->|Hne]; cbn [negb].
    + rewrite decide_False by (by intros []). rewrite (bind_eq skip _ w tt w) by done. destruct (IH (i + 1) w) as (cl & E1 & E2 & E3); [done|lia|lia|].
      exists cl. replace (S (Z.to_nat i)) with (Z.to_nat (i + 1)) by lia. done.
    + rewrite decide_True by done. set (rc := os_close (calls w) fd). set (w1 := World (port w) (<[Z.to_nat i := -1]> (valmap_fd w)) (edtk_debug_flag w) (calls w ++ [Close fd rc])).
      rewrite (bind_eq _ _ w tt w1) by (unfold cleanup_valmap_fd_index; unfold mbind at 1 2; unfold M_bind; rewrite Eg; cbn; unfold put_valmap; by rewrite Ht).
      destruct (IH (i + 1) w1) as (cl & E1 & E2 & E3); [cbn; by rewrite length_insert|lia|lia|]. exists (Close fd rc :: cl). rewrite E1. cbn [calls w1]. split; [by rewrite <-app_assoc|].
      split; [by constructor|]. cbn. rewrite E3. cbn [valmap_fd w1]. rewrite drop_insert_lt by lia. by replace (Z.to_nat (i + 1)) with (S (Z.to_nat i)) by lia.
Qed.
(** C22: A command whose first segment is not empty is answered by one message, [{Port, ok}], [{Port, ok, X}] or [{Port, error, X}], unless it does what is
    undefined (an index outside the table, a path that is too long or has no end, a write beyond its segment, a segment that is not there) or a read
    failed: then the message denotes no term. The blocks and the binary of the command are freed, once. *)
Theorem edtk_command_answered ev w : command ev -> length (valmap_fd w) = 32%nat -> let w' := snd (s1_outputv ev w) in
  exists l, calls w' = calls w ++ l /\ length (valmap_fd w') = 32%nat /\ (Fault ∉ l -> exists t, outputs l = [(port w, t)] /\
  ((exists x, denotes t x /\ is_answer (port w) x) \/ failed_read l /\ forall x, ~ denotes t x) /\
  (memory l = [] \/ memory l = [Alloc; Free] \/ exists b, memory l = [Alloc; AllocBinary b; FreeBinary b; Free])).
Proof.
  intros (b & seg & Hev) Hlen w'. destruct (outputv_does ev w b seg Hev Hlen) as (l & v' & (P & V & C) & Hd). destruct (does_answers Hd) as (t & H1 & H2 & H3).
  exists l. unfold w'. rewrite V, (does_table _ _ _ _ Hd). split_and!; [done|done|intros _]. exists t. split_and!; [done| |done]. destruct H2 as [H2|[H2 H4]]; [by left|right]. split; [done|].
  intros x Hx. unfold denotes in Hx. by rewrite H4 in Hx.
Qed.
(** C20: Whatever the commands, the first segment of each not empty, as long as nothing undefined was done (an index outside the table, a path that is too long or has
    no end, a write beyond its segment, a segment that is not there) and as the system gives descriptors that are not open, the descriptors that the driver opened and that are open are those of the table and others that are lost, no more than the errors that the
    client was told; they are all different. When the port is closed, those of the table are closed, each once. *)
Theorem edtk_descriptors_owned p flag evs : let w := commands evs (s1_start p flag []) in
  Forall command evs -> Fault ∉ calls w -> sockets_fresh (calls w) ->
  (exists lost, live (calls w) ≡ₚ held (valmap_fd w) ++ lost /\ NoDup (live (calls w)) /\ (length lost <= errors (calls w))%nat) /\
  exists closes, calls (snd (s1_stop w)) = calls w ++ closes ++ [FreeDesc] /\ Forall (fun e => match e with Close _ _ => True | _ => False end) closes /\
    omap (fun e => match e with Close fd _ => Some fd | _ => None end) closes = held (valmap_fd w).
Proof.
  intros w Hc Hf Hs. destruct (commands_descriptors p flag evs Hc) as (Hlen & _ & H). split; [by apply H|]. fold w in Hlen.
  destruct (close_all_spec 32 0 w Hlen) as (cl & E1 & E2 & E3); [done|done|]. exists cl. split; [|done]. unfold s1_stop. unfold mbind, M_bind. destruct (close_all 32 0 w) as [u w1].
  cbn [snd] in E1. unfold act, modify. cbn. by rewrite E1, app_assoc.
Qed.
End Port.

(** * A system

    Descriptors count up; reading fails; there is memory. *)
Definition small_callstate : callstate := Callstate 99 77 66 None 55 44 33 22 None (Binary 0 []) 11 0 9 8 7 6.
Definition counted (tr : trace) : Z := Z.of_nat (length (List.filter (fun e => match e with Socket _ => true | _ => false end) tr)).
Definition small_os : Os := {|
  sys_alloc _ := Some small_callstate;
  driver_alloc_binary tr size := if size <? 2 ^ 31 then Some (Binary 1 (replicate (Z.to_nat size) 170)) else None;
  junk_cmd _ := 123; junk_index _ := 456; junk_binlen _ := 789; outside _ _ := 0;
  os_stat _ _ := false;
  os_socket tr := 3 + counted tr;
  os_bind _ _ _ := 0; os_connect _ _ path := if Z.of_nat (length path) =? 1 then 0 else -1; os_sendmsg _ _ _ := 1; os_recvmsg _ _ := (1, Some 30); os_close _ _ := 0;
  os_write _ _ data := Z.of_nat (length data);
  os_read _ _ _ := (-1, []);
  errno _ := 2;
|}.
#[export] Instance small_laws : OsLaws small_os.
Proof.
  split.
  - intros tr fd size n d [= <- <-]. by left.
  - intros tr size b H0. cbn. destruct (Z.ltb_spec size (2 ^ 31)); [|done]. intros [= <-]. cbn. rewrite length_replicate. lia.
  - by intros tr c [= <-].
Qed.
Lemma edtk_command_answered_witness :
  let w := snd (s1_outputv (OS := small_os) [[]; [2; 0; 0; 0; 2; 97; 0; 0; 0; 0; 0]] (s1_start 1 0 [])) in
  exists l t, calls (snd (s1_outputv (OS := small_os) [[]; [8; 0; 0; 0; 0; 0; 0; 0; 4]] w)) = calls w ++ l /\ outputs l = [(1, t)].
Proof.
  intros w. destruct (edtk_command_answered (OS := small_os) [[]; [8; 0; 0; 0; 0; 0; 0; 0; 4]] w) as (l & H1 & _ & H2); [by do 2 eexists|reflexivity|].
  destruct H2 as (t & H2 & _); [|exists l, t; split; [done|exact H2]].
  intros Hin. assert (Fault ∈ calls w ++ l) as Hf by (apply elem_of_app; by right). rewrite <-H1, list_elem_of_In in Hf. revert Hf. vm_compute. intuition discriminate.
Defined.
Fixpoint fresh_from (fds : list Z) (tr : trace) : bool :=
  match tr with
  | [] => true
  | e :: tr => match e with Socket s => negb ((0 <=? s) && bool_decide (s ∈ fds)) | _ => true end && fresh_from (live_step fds e) tr
  end.
Lemma fresh_from_spec tr : fresh_from [] tr = true -> sockets_fresh tr.
Proof.
  intros H pre s post -> Hs Hin. unfold live in Hin. revert H Hin. generalize (@nil Z). induction pre as [|e pre IH]; intros fds H Hin; cbn [fresh_from foldl app] in *.
  - by rewrite (proj2 (Z.leb_le 0 s)), bool_decide_eq_true_2 in H by done.
  - apply andb_true_iff in H as [_ H]. by apply (IH (live_step fds e)).
Qed.
(** A socket is lost when it cannot be connected; another is in the table. *)
Lemma edtk_descriptors_owned_witness :
  let w := commands (OS := small_os) [[[]; [2; 0; 0; 0; 3; 97; 97; 0; 0; 0; 0; 0]]; [[]; [2; 0; 0; 0; 2; 97; 0; 0; 0; 0; 0]]] (s1_start 1 0 []) in
  live (calls w) = [4; 3] /\ held (valmap_fd w) = [4] /\ exists lost, live (calls w) ≡ₚ held (valmap_fd w) ++ lost /\ (length lost <= errors (calls w))%nat.
Proof.
  intros w. split; [reflexivity|]. split; [reflexivity|].
  destruct (edtk_descriptors_owned (OS := small_os) 1 0 [[[]; [2; 0; 0; 0; 3; 97; 97; 0; 0; 0; 0; 0]]; [[]; [2; 0; 0; 0; 2; 97; 0; 0; 0; 0; 0]]]) as ((lost & H1 & _ & H2) & _).
  - repeat constructor; by do 2 eexists.
  - rewrite list_elem_of_In. vm_compute. intuition discriminate.
  - by apply fresh_from_spec.
  - exists lost. by split.
Defined.
