(* ===== verification/SpreadPort.v ===== *)
(** The generated part of the Spread driver: [spread_drv/c_src/spread_drv.c].  A command comes in the segments of an [ErlIOVec] ([EdtkIov]); it is handed to the
    threads of the emulator, which call the library, and is answered when it is done.  In between other commands come and the socket is ready.

    [binv] are the binaries of the segments; those that an argument points into are kept by a reference.  A call of the library is one step. *)
From stdpp Require Import strings relations.
From S2P Require Import Prelude ErlTerm Erts EdtkIov SpreadDrv.
#[local] Open Scope Z_scope.

Definition _DEBUG := 0.
Definition _SP_CONNECT := 1.
Definition _SP_DISCONNECT := 2.
Definition _SP_JOIN := 3.
Definition _SP_LEAVE := 4.
Definition _SP_MULTICAST := 5.
Definition _SP_MULTIGROUP_MULTICAST := 6.
Definition _SP_POLL := 7.
Definition _SP_RECEIVE := 8.
Definition _SP_GET_GID_OFFSET_MEMB_MESS := 9.
Definition _SP_GET_NUM_VS_OFFSET_MEMB_MESS := 10.
Definition _SP_GET_VS_SET_OFFSET_MEMB_MESS := 11.
Definition _SET_ACTIVE := 12.
Definition MAX_BINVS : nat := 24.
(** [errno.h]. *)
Definition ENOMEM := 12.
Definition EINVAL := 22.

(** The rest of [sp.h]. *)
Class SpreadLib := {
  ACCEPT_SESSION : Z;
  ILLEGAL_SESSION : Z;
  library : trace -> sp_call -> Z;
  connection : trace -> Z * bytes;   (* what SP_connect stores *)
  alloc_callstate : trace -> bool;
  edtk_debug_flag : trace -> Z;   (* which all the ports set *)
}.
(** The arguments of a call; the memory that a pointer points into, to the end of its segment. *)
Abbreviation pointer := (option bytes).
Inductive input :=
  | I_connect (spread_name private_name : pointer) (priority group_membership : Z) | I_disconnect (mbox : Z) | I_join (mbox : Z) (group : pointer) | I_leave (mbox : Z) (group : pointer)
  | I_multicast (mbox service : Z) (group : pointer) (mess_type len : Z) (mess : pointer) | I_multigroup (mbox service : Z) (groups : pointer) (mess_type len : Z) (mess : pointer)
  | I_poll (mbox : Z) | I_receive (mbox max_groups groups max_mess_len mess : Z) | I_gid | I_num | I_vs | I_set_active (value : Z).
Record callstate := Callstate { i : input; refc_bin : list Z }.
(** With the results. *)
Record called := Called { c : callstate; expect : bool; ret_int : Z; o : received }.
(** [goto error], an answer and [return], or a call; with the references that the call state has. *)
Inductive decoded := Bad (refs : list Z) | Refused (refs : list Z) | Job (i : input) (refs : list Z).

Section Driver.
Context `{SP : !Spread} `{SL : !SpreadLib} (pipe_driver_p : bool).
Abbreviation D := (M world).
Definition set_mbox (m : Z) (g : bytes) : D unit := modify (fun w => World (port w) (mbox_init_p w) m g (active_p w) (calls w)).

(** * Answers *)

Definition output_term (msg : spec) : D unit := w ← get; act (Output (port w) msg).
Definition msg_port : D spec := w ← get; mret (LOAD_PORT [] (port w)).
Definition reply_ok_num (num : Z) : D unit := msg ← msg_port; output_term (LOAD_TUPLE (LOAD_INT (LOAD_ATOM msg "ok") (int32 num)) 3).
Definition reply_error (errnum : Z) : D unit := msg ← msg_port; output_term (LOAD_TUPLE (LOAD_INT (LOAD_ATOM msg "error") errnum) 3).
Definition reply_error_atom (atom : string) : D unit := msg ← msg_port; output_term (LOAD_TUPLE (LOAD_ATOM (LOAD_ATOM msg "error") atom) 3).
Definition reply_xtra_xret_connect (d : called) : D unit :=
  msg ← msg_port;
  if expect d then
    w ← get;
    let group := c_str (private_group w) in
    let n := Z.of_nat (length group) in
    tmp ← alloc_wrapper n;
    match tmp with
    | None => reply_error ENOMEM
    | Some tmp => output_term (LOAD_TUPLE (LOAD_TUPLE (LOAD_BINARY (LOAD_ATOM msg "ok") group 0 n) 1) 3);;; free_all [tmp]
    end
  else output_term (LOAD_TUPLE (LOAD_TUPLE (LOAD_INT (LOAD_ATOM msg "error") (ret_int d)) 1) 3).
(** The name of the sender is in the descriptor. *)
Definition reply_xtra_xret_receive (d : called) (tmpmess : Z) : D unit :=
  msg ← msg_port;
  if expect d then
    let msg := LOAD_INT (LOAD_ATOM msg "ok") (service_type (o d)) in
    sender ← ask d_sender;
    let n := Z.of_nat (length sender) in
    tmp ← alloc_wrapper n;
    match tmp with
    | None => reply_error ENOMEM
    | Some tmp =>
        r ← make_xret_group_list (o d) (LOAD_BINARY msg sender 0 n) [tmp];
        let '(msg, tofree, members) := r in
        let msg := LOAD_LIST msg members in
        let msg := LOAD_INT (LOAD_INT msg (mess_type (o d))) (endian_mismatch (o d)) in
        let msg := LOAD_BINARY msg (mess (o d)) 0 (ret_int d) in
        let tofree := tofree ++ [tmpmess] in
        let msg := LOAD_TUPLE (LOAD_TUPLE msg 6) 3 in
        room msg tofree;;;
        output_term msg;;;
        free_all tofree
    end
  else
    output_term (LOAD_TUPLE (LOAD_TUPLE (LOAD_INT (LOAD_INT (LOAD_INT (LOAD_ATOM msg "error") (ret_int d)) (num_groups (o d))) (endian_mismatch (o d))) 3) 3).

(** * Arguments *)

(** A string that C reads. *)
Definition str (m : pointer) : D bytes :=
  match m with
  | None => act Null;;; mret []
  | Some m => (when negb (existsb (Z.eqb 0) m) do act Overread);;; mret (c_str m)
  end.
(** [len] bytes. *)
Definition data (m : pointer) (len : Z) : D bytes :=
  let m := default [] m in
  (when Z.of_nat (length m) <? len do act Overread);;; mret (take (Z.to_nat len) m).
(** A variable keeps what it has, [old] if it was set, when the segment is too short. *)
Definition fetch (get : iovec -> position -> option (option Z * position)) (old : option Z) (ev : iovec) (pos : position) (k : Z -> position -> D decoded) : D decoded :=
  junk ← ask uninitialised;
  match get ev pos with
  | None => act Overread;;; k (default junk old) pos
  | Some (v, pos) => k (default (default junk old) v) pos
  end.
(** A contiguous argument: its length and where it is. [async] is [do_async_call]. *)
Definition contiguous (async : bool) (ev : iovec) (binv : list (option Z)) (binlen : option Z) (pos : position) (refs : list Z) (k : Z -> pointer -> position -> list Z -> D decoded) : D decoded :=
  fetch EV_GET_UINT32 binlen ev pos (fun binlen pos =>
    let ptr := EV_GETPOS ev pos in
    let next refs := let f := edtk_ev_forward_N (length ev) ev (int32 binlen) pos true in if f.1 <? 0 then mret (Bad refs) else k binlen ptr f.2 refs in
    if async then
      if (length refs =? MAX_BINVS)%nat then mret (Bad refs)
      else match binv !! pos.2 with Some (Some b) => act (Reference b);;; next (refs ++ [b]) | _ => act Null;;; next refs end
    else next refs).
Definition word (ev : iovec) (pos : position) (k : Z -> position -> D decoded) : D decoded := fetch EV_GET_UINT32 None ev pos (fun v => k (int32 v)).
Definition refuse (errnum : Z) (refs : list Z) : D decoded := reply_error errnum;;; mret (Refused refs).
Definition connected (refs : list Z) (k : Z -> D decoded) : D decoded := w ← get; if mbox_init_p w then k (mbox w) else refuse ILLEGAL_SESSION refs.

Definition decode (async : bool) (ev : iovec) (binv : list (option Z)) (pos : position) (cmd : Z) : D decoded :=
  let contiguous := contiguous async ev binv in
  let group_call job := contiguous None pos [] (fun _ group _ refs => connected refs (fun mbox => mret (Job (job mbox group) refs))) in
  let message_call job :=
    word ev pos (fun service pos => contiguous None pos [] (fun grouplen group pos refs => fetch EV_GET_UINT16 None ev pos (fun mess_type pos => contiguous (Some grouplen) pos refs (fun binlen mess _ refs =>
      connected refs (fun mbox => mret (Job (job mbox service group (sint 16 mess_type) (int32 binlen) mess) refs)))))) in
  if cmd =? _SP_CONNECT then
    contiguous None pos [] (fun binlen spread_name pos refs => contiguous (Some binlen) pos refs (fun _ private_name pos refs => word ev pos (fun priority pos => word ev pos (fun membership _ =>
      w ← get;
      if mbox_init_p w then refuse ILLEGAL_SESSION refs
      else
        s ← str private_name;
        mret (Job (I_connect spread_name (if s is [] then None else private_name) priority membership) refs)))))
  else if cmd =? _SP_DISCONNECT then w ← get; mret (Job (I_disconnect (mbox w)) [])
  else if cmd =? _SP_JOIN then group_call I_join
  else if cmd =? _SP_LEAVE then group_call I_leave
  else if cmd =? _SP_MULTICAST then message_call I_multicast
  else if cmd =? _SP_MULTIGROUP_MULTICAST then message_call I_multigroup
  else if cmd =? _SP_POLL then connected [] (fun mbox => mret (Job (I_poll mbox) []))
  else if cmd =? _SP_RECEIVE then
    word ev pos (fun max_groups pos => word ev pos (fun max_mess_len _ => connected [] (fun mbox =>
      groups ← alloc_block (max_groups * MAX_GROUP_NAME);
      match groups with
      | None => refuse ENOMEM []
      | Some groups =>
          mess ← alloc_wrapper max_mess_len;
          match mess with
          | None => act (Sys_free groups);;; refuse ENOMEM []
          | Some mess => mret (Job (I_receive mbox max_groups groups max_mess_len mess) [])
          end
      end)))
  else if cmd =? _SP_GET_GID_OFFSET_MEMB_MESS then mret (Job I_gid [])
  else if cmd =? _SP_GET_NUM_VS_OFFSET_MEMB_MESS then mret (Job I_num [])
  else if cmd =? _SP_GET_VS_SET_OFFSET_MEMB_MESS then mret (Job I_vs [])
  else if cmd =? _SET_ACTIVE then word ev pos (fun value _ => mret (Job (I_set_active value) []))
  else mret (Bad []).

(** * Calls

    [invoke__*]. *)
Definition nothing : received := Received 0 0 [] 0 [] 0 0 [].
Definition result (c : callstate) (ok : Z -> bool) (rc : Z) : called := Called c (ok rc) rc nothing.
Definition call (x : sp_call) : D Z := rc ← ask (fun tr => library tr x); act (Library x rc);;; mret rc.
Definition invoke (c : callstate) : D called :=
  match i c with
  | I_connect spread_name private_name priority membership =>
      name ← str spread_name;
      pname ← match private_name with None => mret None | Some m => s ← str (Some m); mret (Some s) end;
      connection ← ask connection;
      rc ← call (SP_connect name pname priority membership);
      (when rc =? ACCEPT_SESSION do set_mbox connection.1 connection.2);;;
      mret (result c (Z.eqb ACCEPT_SESSION) rc)
  | I_disconnect mbox => rc ← call (SP_disconnect mbox); mret (result c (Z.eqb 0) rc)
  | I_join mbox group => g ← str group; rc ← call (SP_join mbox g); mret (result c (Z.eqb 0) rc)
  | I_leave mbox group => g ← str group; rc ← call (SP_leave mbox g); mret (result c (Z.eqb 0) rc)
  | I_multicast mbox service group mess_type len mess =>
      g ← str group;
      m ← data mess len;
      rc ← call (SP_multicast mbox service g mess_type len m);
      mret (result c (Z.leb 0) rc)
  | I_multigroup mbox service groups mess_type len mess =>
      (when bool_decide (groups = None) do act Null);;;
      m ← data mess len;
      rc ← my_multigroup_multicast mbox service (default [] groups) mess_type len m;
      mret (result c (Z.leb 0) rc)
  | I_poll mbox => rc ← ask (fun tr => SP_poll tr mbox); act (Poll mbox rc);;; mret (result c (fun _ => true) rc)
  | I_receive mbox max_groups groups max_mess_len mess =>
      r ← ask (fun tr => SP_receive tr mbox 0 max_groups max_mess_len);
      act (Receive mbox 0 max_groups max_mess_len (ret r) (sender r));;;
      mret (Called c (0 <=? ret r) (ret r) r)
  | I_gid => rc ← call SP_get_gid_offset_memb_mess; mret (result c (fun _ => true) rc)
  | I_num => rc ← call SP_get_num_vs_offset_memb_mess; mret (result c (fun _ => true) rc)
  | I_vs => rc ← call SP_get_vs_set_offset_memb_mess; mret (result c (fun _ => true) rc)
  | I_set_active value => rc ← my_set_active value; mret (result c (fun _ => true) rc)
  end.
Fixpoint unreference (l : list Z) : D unit := match l with [] => skip | b :: l => act (Unreference b);;; unreference l end.
Definition _ready_async (d : called) : D unit :=
  let answer := if expect d then reply_ok_num (ret_int d) else reply_error (ret_int d) in
  match i (c d) with
  | I_connect _ _ _ _ => (when ret_int d =? ACCEPT_SESSION do set_mbox_init_p true);;; reply_xtra_xret_connect d
  | I_disconnect _ => (when ret_int d =? 0 do set_mbox_init_p false);;; answer
  | I_join _ _ | I_leave _ _ | I_multicast _ _ _ _ _ _ | I_multigroup _ _ _ _ _ _ => answer
  | I_receive _ _ groups _ mess => reply_xtra_xret_receive d mess;;; act (Sys_free groups)
  | I_poll _ | I_gid | I_num | I_vs | I_set_active _ => reply_ok_num (ret_int d)
  end;;;
  unreference (refc_bin (c d));;;
  act Free_callstate.

(** * Commands

    The call that was handed to the threads, if any. *)
Definition _outputv (ev : iovec) (binv : list (option Z)) : D (option callstate) :=
  if Z.of_nat (length (concat ev)) <? 1 then mret None
  else
    junk ← ask uninitialised;
    r ← match EV_GET_CHAR ev (0, 1%nat) with
        | None => act Overread;;; mret (junk, (0, 1%nat))
        | Some (None, pos) => reply_error EINVAL;;; mret (junk, pos)
        | Some (Some cmd, pos) => mret (cmd, pos)
        end;
    ok ← ask alloc_callstate;
    if negb ok then reply_error ENOMEM;;; mret None
    else
      act Alloc_callstate;;;
      if r.1 =? _DEBUG then
        flag ← ask edtk_debug_flag;
        (when bool_decide (EV_GET_UINT32 ev r.2 = None) do act Overread);;;
        reply_ok_num (match EV_GET_UINT32 ev r.2 with Some (Some v, _) => v | _ => flag end);;;
        act Free_callstate;;;
        mret None
      else
        let async := negb pipe_driver_p in
        d ← decode async ev binv r.2 r.1;
        match d with
        | Bad _ => act Free_callstate;;; reply_error_atom "badarg";;; mret None
        | Refused _ => mret None
        | Job i refs =>
            let c := Callstate i refs in
            if async && negb (r.1 =? _SP_POLL) then act Driver_async;;; mret (Some c)
            else d ← invoke c; _ready_async d;;; mret None
        end.

(** * Ports *)

Definition _start (p : Z) (tr : trace) : world := World p false 0 [] 0 tr.
Definition _stop : D unit :=
  w ← get;
  (when negb (active_p w =? 0) do act (Select (mbox w) false));;;
  when mbox_init_p w do (call (SP_disconnect (mbox w));;; set_mbox_init_p false).
End Driver.

(** The threads: calls that wait, or are done and not yet answered. [commands] counts. *)
Record system := System { state : world; waiting : list callstate; finished : list called; commands : nat }.
Definition command (ev : iovec) : Prop := exists b seg, ev !! 1%nat = Some (b :: seg).
Inductive step `{SP : !Spread} `{SL : !SpreadLib} (pipe_driver_p : bool) : system -> system -> Prop :=
  | step_command s ev binv r w : command ev -> _outputv pipe_driver_p ev binv (state s) = (r, w) ->
      step pipe_driver_p s (System w (waiting s ++ match r with Some c => [c] | None => [] end) (finished s) (S (commands s)))
  | step_invoke s l c l' d w : waiting s = l ++ c :: l' -> invoke c (state s) = (d, w) -> step pipe_driver_p s (System w (l ++ l') (finished s ++ [d]) (commands s))
  | step_answer s l d l' : finished s = l ++ d :: l' -> step pipe_driver_p s (System (snd (_ready_async d (state s))) (waiting s) (l ++ l') (commands s))
  | step_ready s fuel tries : step pipe_driver_p s (System (snd (my_ready_input fuel tries (state s))) (waiting s) (finished s) (commands s)).

(** * Answers

    What is told to the owner but for the messages of the mailbox. A client waits for [{Port, ok, _}] or [{Port, error, _}]. *)
Definition is_active (sp : spec) : bool := match sp with _ :: _ :: _ :: Atm a :: _ => bool_decide (a = "active"%string) | _ => false end.
Definition is_answer (p : Z) (sp : spec) : bool :=
  match eval sp [] with
  | Some [TTuple [TPort q; TAtom a; _]] => (q =? p) && bool_decide (a = "ok" \/ a = "error")%string
  | _ => false
  end.
Definition output_of (e : event) : nat := match e with Output _ sp => if is_active sp then 0 else 1 | _ => 0 end.
Definition answer_of (p : Z) (e : event) : nat := match e with Output q sp => if negb (is_active sp) && (q =? p) && is_answer p sp then 1 else 0 | _ => 0 end.
Definition total (f : event -> nat) (tr : trace) : nat := sum_list (map f tr).
Abbreviation told := (total output_of).
(** What the client of port [p] gets. *)
Definition answers (p : Z) : trace -> nat := total (answer_of p).
(** Binaries are allocated, and nothing is done that C leaves undefined. *)
Definition sane (e : event) : bool := match e with Alloc_binary _ None | Overflow | Overread | Null => false | _ => true end.
Abbreviation all_sane := (Forall (fun e => sane e = true)).
(** Documented: the result of [SP_receive] is the length of the message that is in the buffer. *)
Definition receive_length `{SP : !Spread} : Prop := forall tr mbox service ngroups len,
  let r := SP_receive tr mbox service ngroups len in 0 <= ret r -> ret r <= Z.of_nat (length (mess r)).
Lemma total_app f a b : total f (a ++ b) = (total f a + total f b)%nat.
Proof. unfold total. rewrite map_app. induction (map f a) as [|n l IH]; cbn; [done|]. rewrite IH. lia. Qed.

Section Counting.
Context `{SP : !Spread} `{SL : !SpreadLib} (p : Z).
Abbreviation D := (M world).
Definition valid (e : event) : Prop := output_of e = answer_of p e.
Lemma answers_le tr : (answers p tr <= told tr)%nat.
Proof.
  unfold answers, total. induction tr as [|e tr IH]; [done|]. cbn. unfold id in *. enough (answer_of p e <= output_of e)%nat by lia.
  destruct e; cbn; try lia. destruct (is_active msg); [cbn; lia|]. destruct (negb false && _ && _); lia.
Qed.
Lemma answers_valid tr : Forall valid tr -> answers p tr = told tr.
Proof. unfold answers, total. induction 1 as [|e tr He _ IH]; [done|]. cbn. unfold id in *. by rewrite IH, He. Qed.
(** [m] tells as many as [f] says of its result; if [H], and what it does is sane, they are answers. *)
Definition counts_if {A} (H : Prop) (f : A -> nat) (m : D A) : Prop := forall w, port w = p -> exists l,
  calls (snd (m w)) = calls w ++ l /\ port (snd (m w)) = p /\ told l = f (fst (m w)) /\ (H -> all_sane l -> Forall valid l).
Abbreviation counts := (counts_if True).
Definition silent {A} (m : D A) : Prop := counts (fun _ => 0%nat) m.
Lemma counts_weaken {A} H (f : A -> nat) m : counts f m -> counts_if H f m.
Proof. intros Hm w Hw. destruct (Hm w Hw) as (l & E & Hp & Hn & Hv). exists l. split_and!; [done..|]. intros _. by apply Hv. Qed.
Lemma valid_0 e : output_of e = 0%nat -> valid e.
Proof. unfold valid. destruct e; try done. cbn. by destruct (is_active msg). Qed.
Lemma counts_act H e : (H -> valid e) -> counts_if H (fun _ => output_of e) (act e).
Proof.
  intros He w Hw. exists [e]. split_and!; [done|done| |].
  - cbn. unfold total, id. cbn. lia.
  - intros HH _. constructor; [by apply He|constructor].
Qed.
Lemma mute_act e : output_of e = 0%nat -> silent (act e).
Proof. intros He w Hw. destruct (counts_act True e (fun _ => valid_0 e He) w Hw) as (l & H). exists l. by rewrite He in H. Qed.
Lemma counts_nothing {A} H (f : A -> nat) (m : D A) : (forall w, calls (snd (m w)) = calls w /\ port (snd (m w)) = port w /\ f (fst (m w)) = 0%nat) -> counts_if H f m.
Proof. intros Hm w Hw. destruct (Hm w) as (E & Hp & Hn). exists []. rewrite E, Hp, Hn, app_nil_r. split_and!; [done..|]. by constructor. Qed.
Lemma counts_ret {A} H (f : A -> nat) a : f a = 0%nat -> counts_if H f (mret a).
Proof. intros Ha. by apply counts_nothing. Qed.
Lemma mute_ret {A} H (a : A) : counts_if H (fun _ => 0%nat) (mret a).
Proof. by apply counts_ret. Qed.
Lemma mute_skip : silent skip.
Proof. by apply counts_nothing. Qed.
Lemma mute_get : silent get.
Proof. by apply counts_nothing. Qed.
Lemma mute_gets {A} (f : world -> A) : silent (gets f).
Proof. by apply counts_nothing. Qed.
Lemma mute_modify (f : world -> world) : (forall w, calls (f w) = calls w /\ port (f w) = port w) -> silent (modify f).
Proof. intros H. apply counts_nothing. intros w. by destruct (H w). Qed.
(** First [m], then what follows; [P] holds of the result of [m]. *)
Lemma counts_bind_post {A B} H (P : A -> Prop) f g (m : D A) (k : A -> D B) n : counts_if H (fun _ => n) m -> (forall w, port w = p -> P (fst (m w))) -> (forall a, P a -> counts_if H f (k a)) ->
  (forall b, g b = n + f b)%nat -> counts_if H g (mbind k m).
Proof.
  intros Hm HP Hk Hg w Hw. specialize (Hm w Hw). specialize (HP w Hw). unfold mbind, M_bind. destruct (m w) as [a w1]. cbn [fst snd] in *.
  destruct Hm as (l & E & Hp & Hn & Hv). destruct (Hk a HP w1 Hp) as (l' & E' & Hp' & Hn' & Hv'). exists (l ++ l'). rewrite E', E, app_assoc, total_app, Hn, Hn', Hg.
  split_and!; [done..|]. intros HH [H1 H2]%Forall_app. apply Forall_app. by split; [apply Hv|apply Hv'].
Qed.
Lemma counts_bind {A B} H (f : B -> nat) (m : D A) (k : A -> D B) : silent m -> (forall a, counts_if H f (k a)) -> counts_if H f (mbind k m).
Proof. intros Hm Hk. apply (counts_bind_post H (fun _ => True) f f m k 0); [by apply counts_weaken|done|by intros|done]. Qed.
Lemma counts_then {A B} H f g (m : D A) (k : A -> D B) : counts_if H (fun _ => 1%nat) m -> (forall a, counts_if H f (k a)) -> (forall b, g b = S (f b)) -> counts_if H g (mbind k m).
Proof. intros Hm Hk Hg. apply (counts_bind_post H (fun _ => True) f g m k 1); [done|done|by intros|done]. Qed.
(** Walk through silent code. *)
Ltac quiet leaf := unfold silent;
  repeat (cbv beta zeta; lazymatch goal with
    | |- counts_if _ _ (match ?x with _ => _ end) => destruct x
    | |- counts_if _ _ (mbind _ _) => apply counts_bind; [unfold silent|intros ?]
    | |- counts_if _ _ (mret _) => apply counts_ret; reflexivity
    | |- counts_if _ _ skip => apply mute_skip
    | |- counts_if _ _ get => apply mute_get
    | |- counts_if _ _ (ask _) => apply mute_gets
    | |- counts_if _ _ (gets _) => apply mute_gets
    | |- counts_if _ _ (act _) => apply mute_act; reflexivity
    | |- counts_if _ _ (modify _) => apply mute_modify; by split
    | |- counts_if _ _ _ => solve [leaf]
    end).
Ltac hush := quiet ltac:(fail).
Lemma mute_alloc_block n : silent (alloc_block n).
Proof. unfold alloc_block. hush. Qed.
Lemma mute_alloc_wrapper n : silent (alloc_wrapper n).
Proof. unfold alloc_wrapper. hush. Qed.
Lemma mute_room msg l : silent (room msg l).
Proof. unfold room. hush. Qed.
Lemma mute_free_all l : silent (free_all l).
Proof. induction l as [|b l IH]; cbn [free_all]; quiet ltac:(exact IH). Qed.
Lemma mute_unreference l : silent (unreference l).
Proof. induction l as [|b l IH]; cbn [unreference]; quiet ltac:(exact IH). Qed.
Lemma mute_push_groups gs msg tofree : silent (push_groups gs msg tofree).
Proof. revert msg tofree. induction gs as [|g gs IH]; intros msg tofree; cbn [push_groups]; quiet ltac:(first [apply mute_alloc_wrapper | apply mute_room | apply IH]). Qed.
Lemma mute_group_list c msg tofree : silent (make_xret_group_list c msg tofree).
Proof. unfold make_xret_group_list. quiet ltac:(apply mute_push_groups). Qed.
Lemma mute_copy_groups fuel mem grps : silent (copy_groups fuel mem grps).
Proof. revert mem grps. induction fuel as [|fuel IH]; intros mem grps; cbn [copy_groups]; quiet ltac:(apply IH). Qed.
(** The groups are appended to the message. *)
Lemma push_groups_prefix gs msg tofree w : exists k, (fst (push_groups gs msg tofree w)).1.1 = msg ++ k.
Proof.
  revert msg tofree w. induction gs as [|g gs IH]; intros msg tofree w; cbn [push_groups]; [by exists []; rewrite app_nil_r|].
  unfold mbind, M_bind. destruct (alloc_wrapper _ w) as [[b|] w1]; [|by exists []; rewrite app_nil_r]. destruct (room _ _ w1) as [u w2].
  destruct (IH (LOAD_BINARY msg g 0 (Z.of_nat (length g))) (tofree ++ [b]) w2) as [k ->]. eexists. unfold LOAD_BINARY. by rewrite <-app_assoc.
Qed.
Lemma group_list_prefix c msg tofree w : exists k, (fst (make_xret_group_list c msg tofree w)).1.1 = msg ++ k.
Proof.
  unfold make_xret_group_list, mbind, M_bind. cbv zeta. destruct (push_groups_prefix (take (Z.to_nat (num_groups c)) (groups c)) msg tofree w) as [k E].
  destruct (push_groups _ msg tofree w) as [[[msg' t] [|]] w1]; cbn in *; rewrite E; eexists; [by unfold LOAD_NIL; rewrite <-app_assoc|done].
Qed.
(** The message begins with what was there before the groups. *)
Ltac grouped := match goal with |- counts ?f (mbind _ (make_xret_group_list ?c ?m ?t)) =>
  apply (counts_bind_post True (fun r => exists k, r.1.1 = m ++ k) f f _ _ 0); [apply mute_group_list|intros ? _; apply group_list_prefix| |done];
  let msg := fresh "msg" in let t' := fresh "t" in let members := fresh "members" in let k := fresh "k" in let Hk := fresh "Hk" in intros [[msg t'] members] [k Hk]; cbn in Hk; subst msg end.
Lemma mute_my_reply c mess : silent (my_reply_xtra_xret_receive c mess).
Proof.
  unfold my_reply_xtra_xret_receive. apply counts_bind; [apply mute_get|intros w]. cbv zeta. apply counts_bind; [apply mute_alloc_wrapper|intros [tmp|]]; [|apply mute_ret].
  grouped. quiet ltac:(first [apply mute_room | apply mute_free_all]).
Qed.
Lemma mute_retry fuel groups mess service ngroups len : silent (retry fuel groups mess service ngroups len).
Proof.
  revert groups mess service ngroups len. induction fuel as [|fuel IH]; intros groups mess service ngroups len; cbn [retry];
    quiet ltac:(first [apply mute_alloc_block | apply mute_alloc_wrapper | apply mute_my_reply | apply IH]).
Qed.
Lemma mute_receive_all fuel tries service : silent (receive_all fuel tries service).
Proof. revert service. induction fuel as [|fuel IH]; intros service; cbn [receive_all]; quiet ltac:(first [apply mute_retry | apply IH]). Qed.
Lemma mute_ready_input fuel tries : silent (my_ready_input fuel tries).
Proof. unfold my_ready_input, set_active_p, set_mbox_init_p. quiet ltac:(apply mute_receive_all). Qed.
Lemma mute_str m : silent (str m).
Proof. unfold str. hush. Qed.
Lemma mute_data m len : silent (data m len).
Proof. unfold data. hush. Qed.
Lemma mute_call x : silent (call x).
Proof. unfold call. hush. Qed.
Lemma mute_invoke c : silent (invoke c).
Proof.
  unfold invoke, my_multigroup_multicast, my_set_active, set_mbox, set_active_p. quiet ltac:(first [apply mute_str | apply mute_data | apply mute_call | apply mute_copy_groups]).
Qed.
(** An answer, once. *)
Lemma counts_output H msg : is_active msg = false -> (H -> is_answer p msg = true) -> counts_if H (fun _ => 1%nat) (output_term msg).
Proof.
  intros Hm Ha w Hw. unfold output_term. rewrite (bind_eq get _ w w w eq_refl), Hw.
  destruct (counts_act H (Output p msg)) with (w := w) as (l & Hl); [|done|exists l; revert Hl; cbn [output_of]; by rewrite Hm].
  intros HH. unfold valid. cbn. rewrite Hm, (Ha HH), Z.eqb_refl. done.
Qed.
(** Begin with the port. *)
Ltac with_port := match goal with |- counts_if ?H ?f (mbind _ msg_port) =>
  apply (counts_bind_post H (fun msg => msg = LOAD_PORT [] p) f f _ _ 0); [apply counts_weaken; unfold msg_port; hush|intros w Hw; rewrite <-Hw; reflexivity| |done];
  intros ? -> end.
Lemma eval_answer sp a t : runs sp [] [t; TAtom a; TPort p] -> a = "ok"%string \/ a = "error"%string -> is_answer p (LOAD_TUPLE sp 3) = true.
Proof.
  intros Hr Ha. apply runs_tuple3, runs_denotes in Hr. unfold denotes in Hr. unfold is_answer. rewrite Hr. by rewrite Z.eqb_refl, bool_decide_true.
Qed.
Lemma runs_tuple1 v st k a : runs v st (a :: k) -> runs (LOAD_TUPLE v 1) st (TTuple [a] :: k).
Proof. intros Hv. exact (runs_tuple _ _ _ Hv 1 [a] k eq_refl eq_refl). Qed.
Ltac answered := apply counts_output; [done|intros _; eapply eval_answer; [repeat first [apply runs_tuple1 | apply runs_tuple3 | apply runs_int | apply runs_atom | apply runs_port | apply runs_nil]|tauto]].
Lemma counts_reply_ok_num n : counts (fun _ => 1%nat) (reply_ok_num n).
Proof. unfold reply_ok_num. with_port. answered. Qed.
Lemma counts_reply_error n : counts (fun _ => 1%nat) (reply_error n).
Proof. unfold reply_error. with_port. answered. Qed.
Lemma counts_reply_error_atom a : counts (fun _ => 1%nat) (reply_error_atom a).
Proof. unfold reply_error_atom. with_port. answered. Qed.
Lemma counts_done {A} H (m : D A) (k : A -> D unit) : counts_if H (fun _ => 1%nat) m -> (forall a, silent (k a)) -> counts_if H (fun _ => 1%nat) (mbind k m).
Proof. intros Hm Hk. apply (counts_then H (fun _ => 0%nat)); [done| |done]. intros a. apply counts_weaken, Hk. Qed.
Lemma counts_reply_connect d : counts (fun _ => 1%nat) (reply_xtra_xret_connect d).
Proof.
  unfold reply_xtra_xret_connect. with_port. destruct (expect d); [|answered]. apply counts_bind; [apply mute_get|intros w]. cbv zeta.
  apply counts_bind; [apply mute_alloc_wrapper|intros [tmp|]]; [|apply counts_reply_error]. apply counts_done; [|intros _; apply mute_free_all].
  apply counts_output; [done|intros _]. eapply eval_answer; [|by left]. apply runs_tuple1, runs_binary; [|apply read_all]. apply runs_atom, runs_port, runs_nil.
Qed.
(** First [m], whose result is good if what it does is sane. *)
Definition sound {A} (P Q : A -> Prop) (m : D A) : Prop := forall w, port w = p -> exists l,
  calls (snd (m w)) = calls w ++ l /\ port (snd (m w)) = p /\ told l = 0%nat /\ Q (fst (m w)) /\ (all_sane l -> Forall valid l /\ P (fst (m w))).
Lemma counts_sound {A B} (P Q : A -> Prop) f (m : D A) (k : A -> D B) : sound P Q m -> (forall a, Q a -> counts_if (P a) f (k a)) -> counts f (mbind k m).
Proof.
  intros Hm Hk w Hw. destruct (Hm w Hw) as (l & E & Hp & Hn & HQ & HP). unfold mbind, M_bind. destruct (m w) as [a w1]. cbn [fst snd] in *.
  destruct (Hk a HQ w1 Hp) as (l' & E' & Hp' & Hn' & Hv'). exists (l ++ l'). rewrite E', E, app_assoc, total_app, Hn, Hn'.
  split_and!; [done..|]. intros _ [H1 H2]%Forall_app. destruct (HP H1) as [Hv Ha]. apply Forall_app. split; [done|by apply Hv'].
Qed.
(** The names of all the groups are there, or memory is not. *)
Lemma push_groups_sound gs msg tofree : sound (fun r => r.1.1 = msg ++ binaries gs /\ r.2 = true) (fun r => exists k, r.1.1 = msg ++ k) (push_groups gs msg tofree).
Proof.
  revert msg tofree. induction gs as [|g gs IH]; intros msg tofree w Hw; cbn [push_groups].
  { exists []. cbn. rewrite !app_nil_r. split_and!; [done..| |]; [exists []; by rewrite app_nil_r|intros _; split_and!; [constructor|done|done]]. }
  unfold alloc_wrapper. set (b := driver_alloc_binary (calls w) (Z.of_nat (length g))). set (w1 := World (port w) (mbox_init_p w) (mbox w) (private_group w) (active_p w) (calls w ++ [Alloc_binary (Z.of_nat (length g)) b])).
  rewrite (bind_eq _ _ w b w1) by done. destruct b as [b|].
  - cbv zeta. destruct (mute_room (LOAD_BINARY msg g 0 (Z.of_nat (length g))) (tofree ++ [b]) w1 Hw) as (l1 & E1 & P1 & N1 & V1).
    destruct (room _ _ w1) as [[] w2] eqn:Er. rewrite (bind_eq _ _ _ _ _ Er). cbn [fst snd] in *.
    destruct (IH (LOAD_BINARY msg g 0 (Z.of_nat (length g))) (tofree ++ [b]) w2 P1) as (l2 & E2 & P2 & N2 & [k Q2] & V2).
    exists ([Alloc_binary (Z.of_nat (length g)) (Some b)] ++ l1 ++ l2). rewrite E2, E1, !total_app, N1, N2. cbn [calls w1]. rewrite <-!app_assoc. split_and!; [done..| |].
    + eexists. rewrite Q2. unfold LOAD_BINARY. by rewrite <-app_assoc.
    + intros [_ [H1 H2]%Forall_app]%Forall_app. destruct (V2 H2) as (Hv & Hr & Ht). split; [|by rewrite Hr; unfold LOAD_BINARY; rewrite <-app_assoc].
      apply Forall_app. split; [by repeat constructor|]. apply Forall_app. by split; [apply V1|].
  - exists [Alloc_binary (Z.of_nat (length g)) None]. split_and!; [done..| |].
    + exists []. by rewrite app_nil_r.
    + by intros [[=] _]%Forall_cons.
Qed.
Lemma group_list_sound c msg tofree : let gs := take (Z.to_nat (num_groups c)) (groups c) in
  sound (fun r => r.1.1 = LOAD_NIL (msg ++ binaries gs) /\ r.2 = Z.of_nat (length gs) + 1) (fun r => exists k, r.1.1 = msg ++ k) (make_xret_group_list c msg tofree).
Proof.
  intros gs w Hw. destruct (push_groups_sound gs msg tofree w Hw) as (l & E & Hp & Hn & [k HQ] & HP). unfold make_xret_group_list. cbv zeta. fold gs.
  destruct (push_groups gs msg tofree w) as [[[msg' t] enough] w1] eqn:Eg. rewrite (bind_eq _ _ _ _ _ Eg). cbn [fst snd] in *. exists l. rewrite HQ in *.
  split_and!; [done..| |].
  - destruct enough; cbn; [|by exists k]. eexists. unfold LOAD_NIL. by rewrite <-app_assoc.
  - intros Hs. destruct (HP Hs) as (Hv & Hk & ->). split; [done|]. cbn. by rewrite Hk.
Qed.
Lemma counts_reply_receive d mess : (expect d = true -> 0 <= ret_int d <= Z.of_nat (length (SpreadDrv.mess (o d)))) -> counts (fun _ => 1%nat) (reply_xtra_xret_receive d mess).
Proof.
  intros Hd. unfold reply_xtra_xret_receive. with_port. destruct (expect d); [|answered]. specialize (Hd eq_refl). cbv zeta. apply counts_bind; [apply mute_gets|intros sender].
  apply counts_bind; [apply mute_alloc_wrapper|intros [tmp|]]; [|apply counts_reply_error].
  eapply counts_sound; [apply group_list_sound|]. intros [[msg t] members] [k Hk]. cbn [fst snd] in *. subst msg.
  apply counts_bind; [apply mute_room|intros _]. apply counts_done; [|intros _; apply mute_free_all]. apply counts_output; [done|].
  intros [Hm ->]. rewrite Hm. eapply eval_answer; [|by left]. apply runs_tuple6. eapply runs_binary.
  - apply runs_int, runs_int. eapply runs_list; [|reflexivity|by rewrite length_map]. apply runs_nil_term, binaries_runs, runs_binary; [|apply read_all].
    apply runs_int, runs_atom, runs_port, runs_nil.
  - apply read_slice; lia.
Qed.
(** What the library said of a message is so. *)
Definition fits (d : called) : Prop := match i (c d) with I_receive _ _ _ _ _ => expect d = true -> 0 <= ret_int d <= Z.of_nat (length (SpreadDrv.mess (o d))) | _ => True end.
Lemma counts_ready_async d : fits d -> counts (fun _ => 1%nat) (_ready_async d).
Proof.
  intros Hd. unfold _ready_async. cbv zeta. apply counts_done; [|intros _; apply counts_bind; [apply mute_unreference|intros _; by apply mute_act]].
  assert (counts (fun _ => 1%nat) (if expect d then reply_ok_num (ret_int d) else reply_error (ret_int d))) as Ha by (destruct (expect d); [apply counts_reply_ok_num|apply counts_reply_error]).
  unfold fits in Hd. destruct (i (c d)); try exact Ha; try apply counts_reply_ok_num.
  - apply counts_bind; [unfold set_mbox_init_p; hush|intros _; apply counts_reply_connect].
  - apply counts_bind; [unfold set_mbox_init_p; hush|intros _; exact Ha].
  - apply counts_done; [by apply counts_reply_receive|intros _; by apply mute_act].
Qed.
Lemma result_of_bind {A B} (P : B -> Prop) (m : D A) (k : A -> D B) w : (forall a w', P (fst (k a w'))) -> P (fst (mbind k m w)).
Proof. intros Hk. unfold mbind, M_bind. by destruct (m w). Qed.
Lemma invoke_fits c w : receive_length -> fits (fst (invoke c w)).
Proof.
  intros Hl. unfold invoke. destruct (i c) eqn:Ei; try (repeat (apply (result_of_bind fits); intros ? ?); unfold fits; cbn; by rewrite Ei).
  unfold ask. rewrite (bind_eq (gets _) _ w (SP_receive (calls w) mbox 0 max_groups max_mess_len) w eq_refl). apply (result_of_bind fits). intros _ w'.
  unfold fits. cbn. rewrite Ei. intros Hr%Z.leb_le. split; [done|by apply Hl].
Qed.
(** The answers that decoding gives. *)
Definition refusals (d : decoded) : nat := match d with Refused _ => 1 | _ => 0 end.
Lemma counts_then_ret {A B} (f : B -> nat) n (m : D A) b : counts (fun _ => n) m -> f b = n -> counts f (m;;; mret b).
Proof.
  intros Hm Hb w Hw. destruct (Hm w Hw) as (l & E & Hp & Hn & Hv). exists l. unfold mbind, M_bind. destruct (m w) as [a w1]. cbn in *. by rewrite Hb.
Qed.
Lemma counts_refuse e refs : counts refusals (refuse e refs).
Proof. unfold refuse. by apply (counts_then_ret refusals 1); [apply counts_reply_error|]. Qed.
Lemma counts_fetch get old ev pos k : (forall v pos, counts refusals (k v pos)) -> counts refusals (fetch get old ev pos k).
Proof. intros Hk. unfold fetch. quiet ltac:(apply Hk). Qed.
Lemma counts_word ev pos k : (forall v pos, counts refusals (k v pos)) -> counts refusals (word ev pos k).
Proof. intros Hk. apply counts_fetch. intros v pos'. apply Hk. Qed.
Lemma counts_contiguous async ev binv old pos refs k : (forall n ptr pos refs, counts refusals (k n ptr pos refs)) -> counts refusals (contiguous async ev binv old pos refs k).
Proof. intros Hk. unfold contiguous. apply counts_fetch. intros n pos'. quiet ltac:(apply Hk). Qed.
Lemma counts_connected refs k : (forall mbox, counts refusals (k mbox)) -> counts refusals (connected refs k).
Proof. intros Hk. unfold connected. quiet ltac:(first [apply Hk | apply counts_refuse]). Qed.
Lemma counts_decode async ev binv pos cmd : counts refusals (decode async ev binv pos cmd).
Proof.
  unfold decode. cbv zeta. repeat match goal with |- counts _ (if ?b then _ else _) => destruct b end;
  repeat first [apply counts_connected; intros ? | apply counts_contiguous; intros ? ? ? ? | apply counts_word; intros ? ? | apply counts_fetch; intros ? ?
    | progress (quiet ltac:(first [apply mute_str | apply mute_alloc_block | apply mute_alloc_wrapper | apply counts_refuse
        | apply counts_connected; intros ? | apply counts_contiguous; intros ? ? ? ? | apply counts_word; intros ? ? | apply counts_fetch; intros ? ?]))].
Qed.
(** What has answered says no more. *)
Lemma counts_bind_result {A B} (f : A -> nat) (g : B -> nat) (m : D A) (k : A -> D B) : counts f m ->
  (forall a, f a = 0%nat -> counts g (k a)) -> (forall a, f a <> 0%nat -> silent (k a) /\ forall w, g (fst (k a w)) = f a) -> counts g (mbind k m).
Proof.
  intros Hm H0 H1 w Hw. destruct (Hm w Hw) as (l & E & Hp & Hn & Hv). unfold mbind, M_bind. destruct (m w) as [a w1]. cbn [fst snd] in *.
  assert (exists l', calls (snd (k a w1)) = calls w1 ++ l' /\ port (snd (k a w1)) = p /\ (f a + told l' = g (fst (k a w1)))%nat /\ (True -> all_sane l' -> Forall valid l'))
    as (l' & E' & Hp' & Hn' & Hv').
  { destruct (decide (f a = 0%nat)) as [Ea|Ea].
    - destruct (H0 a Ea w1 Hp) as (l' & ? & ? & ? & ?). exists l'. split_and!; [done..|lia|done].
    - destruct (H1 a Ea) as [Hs Hg]. destruct (Hs w1 Hp) as (l' & ? & ? & ? & ?). exists l'. rewrite Hg. split_and!; [done..|lia|done]. }
  exists (l ++ l'). rewrite E', E, app_assoc, total_app, Hn. split_and!; [done..|]. intros HH [H2 H3]%Forall_app. apply Forall_app. by split; [apply Hv|apply Hv'].
Qed.
Definition immediate (r : option callstate) : nat := match r with Some _ => 0 | None => 1 end.
Lemma counts_none {A} (m : D A) (k : A -> D (option callstate)) : counts (fun _ => 1%nat) m -> (forall a, silent (k a)) -> (forall a w, fst (k a w) = None) -> counts immediate (mbind k m).
Proof. intros Hm Hk Hn. apply (counts_bind_result (fun _ => 1%nat)); [done|done|]. intros a _. split; [apply Hk|]. intros w. by rewrite Hn. Qed.
Lemma counts_outputv pipe ev binv : receive_length -> command ev -> counts immediate (_outputv pipe ev binv).
Proof.
  intros Hl (b & seg & Hev). unfold _outputv. rewrite (proj2 (Z.ltb_ge _ _)).
  2: { destruct ev as [|h [|s ev]]; [done..|]. injection Hev as ->. cbn. rewrite length_app. cbn. lia. }
  assert (exists cm pos, EV_GET_CHAR ev (0, 1%nat) = Some (Some cm, pos)) as (cm & pos & ->).
  { unfold EV_GET_CHAR, ev_get. rewrite Hev. rewrite (proj2 (Z.leb_le _ _)) by (unfold iov_len; cbn; lia). by do 2 eexists. }
  apply counts_bind; [apply mute_gets|intros junk]. apply counts_bind; [apply mute_ret|intros r]. apply counts_bind; [apply mute_gets|intros [|]]; cbn [negb];
    [|apply counts_none; [apply counts_reply_error|intros _; apply mute_ret|done]].
  apply counts_bind; [by apply mute_act|intros _]. destruct (_ =? _DEBUG).
  - apply counts_bind; [apply mute_gets|intros j]. apply counts_bind; [hush|intros _]. apply counts_none; [apply counts_reply_ok_num|intros _; hush|done].
  - cbv zeta. apply (counts_bind_result refusals); [apply counts_decode| |].
    + intros [refs|refs|x refs] H; [|done|].
      * apply counts_bind; [by apply mute_act|intros _]. apply counts_none; [apply counts_reply_error_atom|intros _; apply mute_ret|done].
      * destruct (_ && _); [apply counts_bind; [by apply mute_act|intros _; by apply counts_ret]|].
        apply (counts_bind_post True fits immediate _ _ _ 0); [apply mute_invoke|intros w _; by apply invoke_fits|intros d Hd|done].
        apply counts_none; [by apply counts_ready_async|intros _; apply mute_ret|done].
    + intros [refs|refs|x refs] H; [done| |done]. split; [apply mute_ret|done].
Qed.
End Counting.

(** * Ports *)

(** What holds of the port: so much was told as commands came that are not with the threads; all are answers unless memory was not enough. *)
Definition served `{SP : !Spread} p (s : system) : Prop :=
  port (state s) = p /\ (told (calls (state s)) + length (waiting s) + length (finished s) = commands s)%nat /\
  (all_sane (calls (state s)) -> Forall (valid p) (calls (state s))) /\ Forall fits (finished s).
Lemma served_more `{SP : !Spread} {A} p s (f : A -> nat) (m : M world A) waiting' finished' commands' : served p s -> counts_if p True f m -> Forall fits finished' ->
  (length (waiting s) + length (finished s) + commands' = f (fst (m (state s))) + length waiting' + length finished' + commands s)%nat ->
  served p (System (snd (m (state s))) waiting' finished' commands').
Proof.
  intros (Hp & Hn & Hv & _) Hm Hf Hc. destruct (Hm _ Hp) as (l & E & Hp' & Hn' & Hv'). unfold served. cbn [state waiting finished commands]. rewrite E, total_app.
  split_and!; [done|lia| |done]. intros [H1 H2]%Forall_app. apply Forall_app. by split; [apply Hv|apply Hv'].
Qed.

(** C25: Every command whose first segment is not empty is answered, once, by [{Port, ok, _}] or [{Port, error, _}], unless memory for a binary was not enough or something was
    done that C leaves undefined - a name without its end, more terms than [msg] has room for: however the threads, the answers, other commands and the
    messages of the mailbox come in between, the answers that the client has and the calls that wait or are done are as many as the commands. In any case
    they are not more. Without memory for the names of the groups what [make_xret_group_list] leaves is no term, and the client waits for ever
    ([answer_lost]), as the comment there says. Documented of [SP_receive]: its result is the length of what is in the buffer. *)
Theorem spread_answered `{SP : !Spread} `{SL : !SpreadLib} pipe_driver_p p (s : system) :
  receive_length -> rtc (step pipe_driver_p) (System (_start p []) [] [] 0) s ->
  let got := (answers p (calls (state s)) + length (waiting s) + length (finished s))%nat in
  (got <= commands s)%nat /\ (all_sane (calls (state s)) -> got = commands s).
Proof.
  intros Hl Hr. enough (served p s) as (Hp & Hn & Hv & _).
  { cbv zeta. rewrite <-Hn. pose proof (answers_le p (calls (state s))). split; [lia|]. intros Hs. by rewrite (answers_valid p _ (Hv Hs)). }
  revert s Hr. apply (rtc_ind_r (fun s => served p s)); [by split_and!|].
  intros s s' _ Hs IH. pose proof IH as (_ & _ & _ & HF). destruct Hs as [s ev binv r w Hev E|s l c l' d w Hw E|s l d l' Hf|s fuel tries].
  - replace w with (snd (_outputv pipe_driver_p ev binv (state s))) by by rewrite E. apply (served_more p s immediate); [done|by apply counts_outputv|done|].
    rewrite E, length_app. cbn [fst]. destruct r; cbn; lia.
  - replace w with (snd (invoke c (state s))) by by rewrite E. apply (served_more p s (fun _ => 0%nat)); [done|apply mute_invoke| |rewrite Hw, !length_app; cbn; lia].
    apply Forall_app. split; [done|]. constructor; [|done]. replace d with (fst (invoke c (state s))) by by rewrite E. by apply invoke_fits.
  - rewrite Hf in HF. apply Forall_app in HF as [HF1 [Hd HF2]%Forall_cons]. apply (served_more p s (fun _ => 1%nat)); [done|by apply counts_ready_async|by apply Forall_app|].
    rewrite Hf, !length_app. cbn. lia.
  - apply (served_more p s (fun _ => 0%nat)); [done|apply mute_ready_input|done|lia].
Qed.
(** Connecting, with its names in one segment, and asking if there are messages. *)
#[export] Instance small_library : SpreadLib :=
  {| ACCEPT_SESSION := 1; ILLEGAL_SESSION := -11; library _ _ := 1; connection _ := (5, [35; 97]); alloc_callstate _ := true; edtk_debug_flag _ := 0 |}.
Definition connect_command : iovec := [[]; [1; 0; 0; 0; 2; 97; 0; 0; 0; 0; 1; 0; 0; 0; 0; 0; 0; 0; 0; 1]].
Definition small_c : callstate := Callstate (I_connect (Some [97; 0; 0; 0; 0; 1; 0; 0; 0; 0; 0; 0; 0; 0; 1]) None 0 1) [7; 7].
Definition small_world : world := snd (_outputv (SP := small_spread 0 []) false connect_command [None; Some 7] (_start 3 [])).
Definition small_called : called * world := invoke (SP := small_spread 0 []) small_c small_world.
Definition connected_world : world := snd (_ready_async (SP := small_spread 0 []) small_called.1 small_called.2).
Definition small_system : system := System (snd (_outputv (SP := small_spread 0 []) false [[]; [7]] [None; Some 8] connected_world)) [] [] 2.
Lemma spread_answered_witness : answers 3 (calls (state small_system)) = 2%nat.
Proof.
  assert (receive_length (SP := small_spread 0 [])) as Hl by (intros tr m sv ng len; cbn; unfold small_receive; rewrite drop_nil; cbn; lia).
  pose proof (spread_answered (SP := small_spread 0 []) false 3 small_system Hl) as H. cbn [waiting finished commands small_system length] in H.
  cut (rtc (step (SP := small_spread 0 []) false) (System (_start 3 []) [] [] 0) small_system).
  { intros Hr. destruct (H Hr) as [_ Hs]. rewrite !Nat.add_0_r in Hs. apply Hs. vm_compute. by repeat constructor. }
  apply (rtc_l _ _ (System small_world [small_c] [] 1)).
  { apply (step_command (SP := small_spread 0 []) false (System (_start 3 []) [] [] 0) connect_command [None; Some 7] (Some small_c)); [by do 2 eexists|vm_compute; reflexivity]. }
  apply (rtc_l _ _ (System small_called.2 [] [small_called.1] 1)).
  { apply (step_invoke (SP := small_spread 0 []) false (System small_world [small_c] [] 1) [] small_c []); [done|vm_compute; reflexivity]. }
  apply (rtc_l _ _ (System connected_world [] [] 1)).
  { apply (step_answer (SP := small_spread 0 []) false (System small_called.2 [] [small_called.1] 1) [] small_called.1 []); done. }
  apply (rtc_l _ _ small_system); [|apply rtc_refl].
  apply (step_command (SP := small_spread 0 []) false (System connected_world [] [] 1) [[]; [7]] [None; Some 8] None); [by do 2 eexists|vm_compute; reflexivity].
Defined.
(** Receiving a message of a group, with memory for two binaries, those of the message and of the sender. *)
Definition short_spread : Spread := {|
  MAX_GROUP_NAME := 32; GROUPS_TOO_SHORT := -14; BUFFER_TOO_SHORT := -15; DROP_RECV := 2 ^ 24; uninitialised _ := 0;
  sys_alloc tr _ := Some (Z.of_nat (length tr));
  driver_alloc_binary tr _ := if (length (allocated tr) <? 3)%nat then Some (Z.of_nat (length tr)) else None;
  read_test _ _ := 0;
  SP_poll _ _ := 1;
  SP_receive _ _ _ _ _ := Received 1 2 [97] 1 [[98]] 0 0 [5];
  SP_multigroup_multicast _ _ _ _ _ n _ := n;
  driver_output_term _ _ _ := 1;
|}.
Lemma answer_lost : let w := snd (_outputv (SP := short_spread) true [[]; [8; 0; 0; 0; 1; 0; 0; 0; 1]] [None; Some 8] (World 3 true 5 [] 0 [])) in
  told (calls w) = 1%nat /\ answers 3 (calls w) = 0%nat.
Proof. by vm_compute. Qed.
